(* ===== verification/_CoqProject ===== *)
-Q . S2P
Prelude.v
GoStrings.v
Utf8.v
GoValues.v
Submission.v
Checklist.v
Reply.v
Digest.v
TextUtil.v
Extract.v
ExtractProps.v
ChecklistStore.v
World.v
Classifier.v
Tables.v
Repository.v
OutboxRepo.v
Frames.v
Persistence.v
RepositoryProps.v
Schema.v
SchemaProps.v
Config.v
ConfigLoad.v
Service.v
Ingest.v
Delivery.v
Sweeps.v
ServiceInv.v
Still.v
Tasks.v
Interleave.v
Ghost.v
Demo.v
InterleaveProps.v
IngestProps.v
DeliveryProps.v
Claims.v
Dispatch.v
DispatchProps.v
Simulation.v
Refines.v
SweepProps.v
Health.v
HealthProps.v
Pool.v
PoolProps.v
Smtp.v
Retry.v
SmtpSend.v
Translate.v
Eml.v
MailProps.v
SmtpProps.v
Llm.v
LlmProps.v
Imap.v
Poller.v
PollerProps.v
Workers.v
WorkersProps.v
App.v
AppProps.v
Lifecycle.v
Authorize.v
Logger.v
ImapConn.v
EmlProps.v
Findings.v
