(* ===== verification/Prelude.v ===== *)
(** * submission-triage: a verified model of the triage service

    The program (Go, under [src/]) reads an agency's submissions mailbox.  Each email is
    threaded onto a submission, its attachments are classified against the checklist of
    the policy, what is missing is asked for in a threaded reply, and the case moves
    through open, awaiting, escalated, complete and closed.  State lives in SQLite; a
    reply is written to an outbox in the transaction that records the email, sent at once
    by a worker pool or later by a sweep, and periodic checks escalate, close, mirror the
    Hold folder, send a digest and prune.

    ** Files, in dependency order

    - [Prelude]: errors and results, 64-bit integers, stable sorting, the hint database.
    - [GoStrings], [Utf8], [GoValues]: what the program uses of Go's [strings],
      [unicode/utf8], [time] and [float64].  Times are nanoseconds since the epoch;
      [float64] is [SpecFloat].  [GoLib] collects what the program calls but does not
      define (Unicode case tables, sha256, number and date parsing, MIME headers);
      theorems hold for every instance.
    - [Submission], [Checklist], [Reply], [Digest]: [internal/model].
    - [TextUtil]: [pkg/textutil], [pkg/glob] and [filepath.Match].
    - [Extract], [ExtractProps]: [internal/infrastructure/extractor], the document
      readers a parameter.
    - [ChecklistStore]: [internal/infrastructure/checklist], the YAML parser a parameter.
    - [World]: the database tables, the process's memory, the environment, and the monad
      [M] the stateful code is written in, with its invariant and precondition calculus.
    - [Classifier]: [internal/infrastructure/classifier], written against the record
      [Client] of the LLM's operations and the law they keep.
    - [Tables]: the SQL fragments.  [Repository], [OutboxRepo]: [internal/repository],
      one definition per method and per statement.
    - [Frames]: what these calls do to the table of submissions; [Persistence],
      [RepositoryProps]: their theorems.
    - [Schema], [SchemaProps]: [internal/database], opening the file and its migrations,
      the effect of a script a parameter.
    - [Config], [ConfigLoad]: [internal/config], records, durations and validation; the
      tags of the fields and [Load], the library that parses a field a parameter.
    - [Service], [Ingest], [Delivery], [Sweeps]: [internal/service], each operation as a
      sequential call.
    - [ServiceInv], [IngestProps], [DeliveryProps], [SweepProps]: their theorems; [Still]:
      which calls have nothing to do with sending replies.
    - [Tasks]: goroutines as computations cut into steps, and their interleavings with
      crashes; [Interleave]: the operations above cut at their calls of the repositories,
      the LLM and the mail server; [Ghost]: rules for what a goroutine owns step by step;
      [InterleaveProps], [Claims]: what holds under every interleaving.
    - [Dispatch], [DispatchProps]: the same send paths statement by statement, as a step
      relation over goroutines that interleave, fail and crash anywhere, on any clock and
      with answers of the mail server lost; [Simulation] says when a state of it is one of
      the calls, [Refines] that the tasks of [Interleave] are runs of it.
    - [Health], [HealthProps]: [internal/delivery/http], middleware, route and health.
    - [Pool], [PoolProps]: the reply worker pool and [Shutdown], statement by statement.
    - [Smtp], [Retry], [SmtpSend]: rendering of outbound mail, [pkg/retry], the exchange
      with the SMTP server ([internal/infrastructure/email]) and the access tokens it
      uses ([internal/infrastructure/oauth]); [SmtpProps]: their theorems.
    - [Translate], [Eml]: translation of inbound mail ([internal/delivery/emailingest])
      and the MIME parser ([pkg/emlparse]); [MailProps], [EmlProps]: their theorems.
    - [Llm], [LlmProps]: the Anthropic client ([internal/infrastructure/llm]), which
      keeps the law of [Client].
    - [Imap], [Poller]: [internal/delivery/imap], the mailbox adapter and the poller,
      written against the classes [Ingester], [IngestControl] and [EmlParser], which the
      service, the repository and the MIME parser implement; [PollerProps]: their theorems.
      [ImapConn]: the watcher and the closing of a connection, as steps.
    - [Workers], [WorkersProps]: the loops of the background workers.
    - [App], [AppProps]: [internal/app], which puts the parts together; [Lifecycle]: the
      process's goroutines from start to exit, as steps.
    - [Authorize]: [cmd/authorize], the one-time consent flow, as steps.
    - [Logger]: [pkg/logger], its setup and the values contexts carry.
    - [Demo]: a configuration and messages to run the definitions on.
    - [Findings]: concrete runs on which the code departs from what it says it does.

    ** State, failures and time

    A stateful operation is a function [World -> result A * World].  [World] has the
    eight tables, the in-memory fields of [SubmissionsService] and of the poller, the
    messages the mail server acknowledged, and what went over the network ([w_net]: SMTP
    commands, LLM payloads, pauses).  Every interaction with the outside (clock, id
    generator, database statement, mail server, LLM) advances a counter, and [Env] says
    what happens at each count: theorems quantify over [Env], so any statement may fail,
    any send may be refused or panic ([ErrPanic]).  A
    statement or a commit that fails leaves the database as it was: SQLite runs in the
    process, so there is no answer to lose on the way, and its driver returns errors and
    does not panic.  The mail server is remote: a message is in the list only when its
    answer arrived, and a message it took although the answer was lost, and so sent again,
    is in [Dispatch] ([online_lost], [sweep_lost]) and in [SmtpProps] (an offer that is not
    acknowledged may have been taken).  The IMAP commands recorded are likewise those the
    server confirmed.  An [attempt] is Go's
    [if err != nil], a [recovering] a deferred [recover], a [deferred] a deferred call.
    Goroutines interleave in three ways.  [Interleave] cuts the operations themselves into
    [task]s: a step is one call, the goroutine keeps the copies it read, and run without
    interference a task is the operation.  Where the statements inside a call matter
    ([Dispatch], [Pool]), or goroutines talk over channels ([Lifecycle], [ImapConn],
    [Authorize]), the model is a step relation over program counters and shared state.
    Theorems are about every reachable state.

    Rows that tie in an [ORDER BY] come in rowid order, as SQLite returns them from a
    table scan.  Integers are wrapped to 64 bits where the code can leave the range
    ([UnixNano], durations, counters the broker can drive).  Recursion is structural but
    for the loops of [filepath.Match] in [TextUtil], whose fuel is the length of the
    pattern they scan: each round consumes at least one byte of it, so it is enough.
    The retry loop recurses on the attempts left, the workers' loops on the list of
    [select] cases that fire.

    ** What the theorems show

    - Life cycle ([Submission]): moves are exactly the allowed ones, the escalation and
      completion clocks agree with the state along every history.
    - Checklist ([Checklist]): the bucketed evaluation equals a declarative rule per item;
      every missing item goes to the broker or to review; attaching documents is monotone.
    - Replies and digest ([Reply], [Digest]): the fingerprint identifies the ask, the
      greeting is safe, items are named, the digest shows every case once.
    - Text and classification ([TextUtil], [Classifier], [ChecklistStore], [ExtractProps]):
      truncation at runes, patterns, no invented checklist item, all-or-nothing loading,
      extraction within its limits and complete below them.
    - Persistence ([Persistence], [RepositoryProps], [SchemaProps]): keys, references and
      the one-pending-reply index hold along every history of calls with any failures;
      round trip; which columns an upsert owns; migrations can be interrupted anywhere and
      resumed.
    - Service ([ServiceInv], [IngestProps]): the schema and life-cycle invariants hold
      along every history of ingests, deliveries and checks; an ingest is all or nothing
      and replies only past every gate, an unchanged ask included; a redelivered message is
      recognised.
    - Concurrency ([InterleaveProps], [Claims]): the invariants hold under every interleaving of the
      operations at their calls, with failures and crashes; creation time, hold flag and
      last reply time cannot be overwritten by a stale copy; every started task ends ([Tasks]); the claims recorded are those of the
      goroutines and queued jobs, none held twice and none leaked.
    - Delivery ([DeliveryProps], [DispatchProps], [PoolProps]): a sweep sends each due
      reply at most once and only where it may, settles what it sent, releases its claims,
      and retries end; under every interleaving and on any clock no queued text is taken
      by the server twice unless its answer was lost, its mark failed or the process
      crashed before it, what is marked as sent was sent, up to two texts of a row given
      the very same [updated_at], and claims are released; the running service refines this
      model ([Refines]): if no id is drawn twice, whatever its goroutines do is a run of
      these steps; the pool never panics, a drained shutdown leaves no reply behind, and every shutdown ends.
    - Checks ([SweepProps], [WorkersProps]): escalation and closure change only the rows
      their rules allow, and of those the exact columns; escalation writes over whatever the
      row became since it was listed; the Hold folder is mirrored exactly, and an ask it
      drops is not repeated; no check can end its worker.
    - Mail ([MailProps], [EmlProps], [SmtpProps], [Retry]): the references of a reply
      survive the wire, no field of a reply adds a header, translation classifies bounces
      and automated mail, every leaf of a message is an attachment of the request or has
      one of the stated reasons not to be; nothing private crosses an unencrypted
      connection; a send offers the same bytes once per attempt, ends with the one offer
      that was acknowledged when it succeeds and has none when it fails; retries are
      bounded.
    - LLM ([LlmProps]): the spend cap stops calls, and every call is accounted for.
    - Polling ([PollerProps]): a message is marked read only when it is settled, one that
      cannot be ingested is quarantined; an unselectable Hold folder releases every hold.
    - Process ([AppProps], [HealthProps], [Lifecycle], [ImapConn], [Authorize], [Logger]):
      the documented defaults are those of the code and validate ([ConfigLoad]); startup
      is all or nothing and wires the parts consistently; health tells the truth; a
      panicking handler is answered; the process exits with the failure of its listener,
      drains once and always gets to its exit; a connection is closed once and its watcher
      released; the consent tool prints only the token of a genuine callback; no log
      rotation overwrites another.
    - [Findings] holds example runs: an ask lost after a hold, a panic on Latin-1 text, a
      redelivery ingested twice, a dropped reply revived, an answer overwritten by a stale
      escalation.  The error theorems of the other files show an attached email dropped,
      an interval that is not validated, an unsent text marked as sent when two stamps tie
      ([tied_reachable]), and a poll stuck in LOGOUT.

    ** What is not modelled

    A step of [Interleave] is a whole call of a repository, of the classifier or of the
    digest: calls that make several queries (such as [GetByID]) are not cut further.  When
    a ticker fires is left out: a loop is given the order of its cases.  [singleflight] in
    [IngestEmail] is left out: the interleaving allows two ingests of one message.  The
    document readers, the mail and IMAP servers, [net/mail], [mime], YAML and JSON syntax,
    [golang.org/x/oauth2], logrus, rotatelogs and the SQLite engine's own behaviour are
    parameters or are described by the commands the program sends, and so is
    [caarlos0/env], which parses a field of the configuration.  Log lines, build
    information and opening a browser are input and output. *)
From Stdlib Require Import ZArith Permutation Sorting.Sorted SpecFloat.
From stdpp Require Import base list strings gmap pretty sorting.

(** * Results and errors

    Go's [error] values, as far as the program looks at them: a message, a
    wrapping [fmt.Errorf("...: %w", e)] or [fmt.Errorf("%w: ...", e)], a package-level sentinel compared with
    [errors.Is], and the [retry.Permanent] wrapper found with [errors.As].
    [ErrPanic] is not an error value but a panic on its way up the stack: no error
    handling sees it, only [recover] does. *)

Inductive error : Type :=
| ErrNew (msg : string)
| ErrSentinel (msg : string)
| ErrWrap (msg : string) (e : error)
| ErrWrapAfter (e : error) (msg : string)
| ErrPermanent (e : error)
| ErrPanic (msg : string).

#[export] Instance error_eq_dec : EqDecision error.
Proof. solve_decision. Defined.

(** [errors.Is(e, target)] for a sentinel target. *)
Fixpoint errors_Is (e : error) (target : string) : bool :=
  match e with
  | ErrNew _ | ErrPanic _ => false
  | ErrSentinel m => bool_decide (m = target)
  | ErrWrap _ e' | ErrWrapAfter e' _ => errors_Is e' target
  | ErrPermanent e' => errors_Is e' target
  end.

(** [errors.As(e, &perm)] for [*retry.Permanent]. *)
Fixpoint errors_AsPermanent (e : error) : bool :=
  match e with
  | ErrNew _ | ErrSentinel _ | ErrPanic _ => false
  | ErrWrap _ e' | ErrWrapAfter e' _ => errors_AsPermanent e'
  | ErrPermanent _ => true
  end.

(** [e.Error()]. *)
Fixpoint error_text (e : error) : string :=
  match e with
  | ErrNew m | ErrSentinel m | ErrPanic m => m
  | ErrWrap m e' => m +:+ ": " +:+ error_text e'
  | ErrWrapAfter e' m => error_text e' +:+ ": " +:+ m
  | ErrPermanent e' => error_text e'
  end.

Inductive result (A : Type) : Type :=
| Ok (a : A)
| Err (e : error).
Arguments Ok {A} a.
Arguments Err {A} e.

Definition is_ok {A} (r : result A) : bool :=
  match r with Ok _ => true | Err _ => false end.

Definition result_bind {A B} (r : result A) (f : A → result B) : result B :=
  match r with Ok a => f a | Err e => Err e end.

(** The hint database of the development: well-formedness and preservation lemmas. *)
Create HintDb triage.

Declare Scope go_scope.
Delimit Scope go_scope with go.

Notation "x <-? c ; k" := (result_bind c (fun x => k))
  (at level 100, c at next level, right associativity) : go_scope.

(** * Machine integers

    Go's [int] and [int64] on the 64-bit targets the program ships for: a [Z]
    reduced to the signed 64-bit range after every operation that can leave it. *)

Definition int64_min : Z := (- 2 ^ 63)%Z.
Definition int64_max : Z := (2 ^ 63 - 1)%Z.
Definition wrap64 (z : Z) : Z := ((z + 2 ^ 63) mod 2 ^ 64 - 2 ^ 63)%Z.
Definition sat64 (z : Z) : Z := Z.max int64_min (Z.min int64_max z).
Definition fits64 (z : Z) : Prop := (int64_min ≤ z ≤ int64_max)%Z.

Lemma wrap64_id z : fits64 z → wrap64 z = z.
Proof.
  unfold fits64, wrap64, int64_min, int64_max. intros ?.
  rewrite Z.mod_small; lia.
Qed.

Lemma wrap64_fits z : fits64 (wrap64 z).
Proof.
  unfold fits64, wrap64, int64_min, int64_max.
  pose proof (Z.mod_pos_bound (z + 2 ^ 63) (2 ^ 64) ltac:(lia)). lia.
Qed.

Lemma sat64_id z : fits64 z → sat64 z = z.
Proof. unfold fits64, sat64. lia. Qed.

(** * Stable sorting

    [sort.SliceStable], [sort.Strings] and the [ORDER BY] clauses: a stable
    insertion sort for a strict comparison [less]. *)

Section sorting.
Context {A : Type} (less : A → A → bool).

Fixpoint insert_by (x : A) (l : list A) : list A :=
  match l with
  | [] => [x]
  | y :: l' => if less y x then y :: insert_by x l' else x :: y :: l'
  end.

Definition sort_by (l : list A) : list A := foldr insert_by [] l.

Lemma insert_by_perm x l : Permutation (insert_by x l) (x :: l).
Proof.
  induction l as [|y l IH]; simpl; [done|].
  destruct (less y x); [|done]. rewrite IH. apply Permutation_swap.
Qed.

Lemma sort_by_perm l : Permutation (sort_by l) l.
Proof. induction l as [|x l IH]; simpl; [done|]. by rewrite insert_by_perm, IH. Qed.

Lemma sort_by_in x l : x ∈ sort_by l ↔ x ∈ l.
Proof. by rewrite sort_by_perm. Qed.

Lemma sort_by_length l : length (sort_by l) = length l.
Proof. by rewrite sort_by_perm. Qed.

(** [less] is the strict part of a total preorder. *)
Class StrictWeak : Prop := {
  sw_irrefl : ∀ x, less x x = false;
  sw_negtrans : ∀ x y z, less x y = false → less y z = false → less x z = false;
  sw_asym : ∀ x y, less x y = true → less y x = false }.

Definition ordered : list A → Prop := StronglySorted (λ x y, less y x = false).

Context `{!StrictWeak}.

Lemma insert_by_ordered x l : ordered l → ordered (insert_by x l).
Proof.
  induction 1 as [|y l Hl IH Hy]; simpl; [repeat constructor|].
  destruct (less y x) eqn:E.
  - constructor; [done|]. rewrite insert_by_perm. constructor; [by apply sw_asym|done].
  - constructor; [by constructor|]. constructor; [done|].
    eapply Forall_impl; [done|]. simpl. intros z Hz. by eapply sw_negtrans.
Qed.

Lemma sort_by_ordered l : ordered (sort_by l).
Proof. induction l; simpl; [constructor|]. by apply insert_by_ordered. Qed.

(** Stability: elements of one equivalence class keep their relative order. *)
Lemma insert_by_stable (P : A → bool) x l :
  (∀ y, P y = true → P x = true → less y x = false) →
  List.filter P (insert_by x l) = List.filter P (x :: l).
Proof.
  intros HP. induction l as [|y l IH]; simpl; [done|].
  destruct (less y x) eqn:E; simpl; [|done]. rewrite IH. simpl.
  destruct (P x) eqn:Px, (P y) eqn:Py; try done.
  rewrite HP in E; done.
Qed.

Lemma sort_by_stable (P : A → bool) l :
  (∀ x y, P x = true → P y = true → less x y = false) →
  List.filter P (sort_by l) = List.filter P l.
Proof.
  intros HP. induction l as [|x l IH]; simpl; [done|].
  rewrite insert_by_stable by auto. simpl. by rewrite IH.
Qed.
End sorting.
Arguments StrictWeak {A} less.
