(* ===== verification/GoStrings.v ===== *)
(** Go strings as the program uses them: byte strings, UTF-8 decoding, and the
    functions of the packages [strings], [unicode/utf8] and [unicode] that the
    sources call.

    A Go string is a sequence of bytes, here a [string] whose characters are the
    bytes.  [range] loops and [strings.Map] walk it rune by rune; [DecodeRune]
    is the decoder of [unicode/utf8], with an invalid byte read as U+FFFD of
    width one.  The case tables of the package [unicode] above U+007F are the
    only thing not written out: they are the operations of the class [Unicode]. *)
From Stdlib Require Import ZArith Ascii Sorting.Sorted.
From stdpp Require Import base list strings.
From S2P Require Import Prelude.

Open Scope Z_scope.

Definition byte_of (c : ascii) : Z := Z.of_N (N_of_ascii c).
Definition to_byte (z : Z) : ascii := ascii_of_N (Z.to_N (z mod 256)).

Lemma byte_of_range c : 0 ≤ byte_of c < 256.
Proof.
  unfold byte_of. pose proof (N_ascii_bounded c). lia.
Qed.

Lemma to_byte_of c : to_byte (byte_of c) = c.
Proof.
  unfold to_byte. rewrite Z.mod_small by apply byte_of_range.
  unfold byte_of. rewrite N2Z.id. apply ascii_N_embedding.
Qed.

Lemma byte_of_to_byte z : 0 ≤ z < 256 → byte_of (to_byte z) = z.
Proof.
  intros H. unfold to_byte, byte_of. rewrite Z.mod_small by done.
  rewrite N_ascii_embedding by lia. lia.
Qed.

Definition is_empty (s : string) : bool := match s with "" => true | _ => false end.

(** [len(s)] *)
Definition len (s : string) : Z := Z.of_nat (String.length s).

(** [s\[:n\]] and [s\[n:\]] for an [n] within bounds. *)
Fixpoint stake (n : nat) (s : string) : string :=
  match n, s with
  | S n', String c s' => String c (stake n' s')
  | _, _ => ""
  end.

Fixpoint sdrop (n : nat) (s : string) : string :=
  match n, s with
  | S n', String c s' => sdrop n' s'
  | O, _ => s
  | _, "" => ""
  end.

Fixpoint bytes (s : string) : list ascii :=
  match s with "" => [] | String c s' => c :: bytes s' end.

Fixpoint unbytes (l : list ascii) : string :=
  match l with [] => "" | c :: l' => String c (unbytes l') end.

(** ** Searching *)

Definition HasPrefix (s p : string) : bool := String.prefix p s.

Definition HasSuffix (s p : string) : bool :=
  Nat.leb (String.length p) (String.length s) &&
  bool_decide (sdrop (String.length s - String.length p) s = p).

(** [strings.Index]; Go's [-1] is [None]. *)
Fixpoint Index (s sub : string) : option nat :=
  if String.prefix sub s then Some O
  else match s with
       | "" => None
       | String _ s' => S <$> Index s' sub
       end.

Definition Contains (s sub : string) : bool :=
  match Index s sub with Some _ => true | None => false end.

Definition IndexByte (s : string) (c : ascii) : option nat := Index s (String c "").

(** [strings.LastIndex] for a one-byte needle. *)
Fixpoint LastIndexByte (s : string) (c : ascii) : option nat :=
  match s with
  | "" => None
  | String d s' =>
      match LastIndexByte s' c with
      | Some i => Some (S i)
      | None => if bool_decide (c = d) then Some O else None
      end
  end.

Definition mem_byte (c : ascii) (set : string) : bool := Contains set (String c "").

(** [strings.ContainsAny] for an ASCII set. *)
Fixpoint ContainsAny (s set : string) : bool :=
  match s with
  | "" => false
  | String c s' => mem_byte c set || ContainsAny s' set
  end.

(** ** Trimming by an ASCII cut set *)

Fixpoint TrimLeft (s cutset : string) : string :=
  match s with
  | "" => ""
  | String c s' => if mem_byte c cutset then TrimLeft s' cutset else s
  end.

Fixpoint TrimRight (s cutset : string) : string :=
  match s with
  | "" => ""
  | String c s' =>
      match TrimRight s' cutset with
      | "" => if mem_byte c cutset then "" else String c ""
      | t => String c t
      end
  end.

Definition Trim (s cutset : string) : string := TrimRight (TrimLeft s cutset) cutset.

(** ** UTF-8 *)

Definition RuneError : Z := 65533.

(** [utf8.RuneStart] *)
Definition RuneStart (c : ascii) : bool := negb ((128 <=? byte_of c) && (byte_of c <? 192)).

Definition in_range (lo hi z : Z) : bool := (lo <=? z) && (z <=? hi).
Definition cont (c : ascii) : bool := in_range 128 191 (byte_of c).
Definition low6 (c : ascii) : Z := byte_of c - 128.

(** [utf8.DecodeRuneInString]: the rune and its width in bytes; an invalid
    sequence is U+FFFD of width 1. *)
Definition DecodeRune (s : string) : option (Z * nat) :=
  match s with
  | "" => None
  | String c0 s1 =>
    let b0 := byte_of c0 in
    let bad := Some (RuneError, 1%nat) in
    if b0 <? 128 then Some (b0, 1%nat)
    else if in_range 194 223 b0 then
      match s1 with
      | String c1 _ => if cont c1 then Some ((b0 - 192) * 64 + low6 c1, 2%nat) else bad
      | _ => bad
      end
    else if in_range 224 239 b0 then
      match s1 with
      | String c1 (String c2 _) =>
        let lo := if b0 =? 224 then 160 else 128 in
        let hi := if b0 =? 237 then 159 else 191 in
        if in_range lo hi (byte_of c1) && cont c2
        then Some (((b0 - 224) * 64 + low6 c1) * 64 + low6 c2, 3%nat) else bad
      | _ => bad
      end
    else if in_range 240 244 b0 then
      match s1 with
      | String c1 (String c2 (String c3 _)) =>
        let lo := if b0 =? 240 then 144 else 128 in
        let hi := if b0 =? 244 then 143 else 191 in
        if in_range lo hi (byte_of c1) && cont c2 && cont c3
        then Some ((((b0 - 240) * 64 + low6 c1) * 64 + low6 c2) * 64 + low6 c3, 4%nat)
        else bad
      | _ => bad
      end
    else bad
  end.

(** [utf8.AppendRune] (surrogates and out-of-range runes encode as U+FFFD). *)
Definition EncodeRune (r : Z) : string :=
  let b z := to_byte z in
  if in_range 0 127 r then String (b r) ""
  else if in_range 128 2047 r then String (b (192 + r / 64)) (String (b (128 + r mod 64)) "")
  else
    let r := if in_range 55296 57343 r || negb (in_range 0 1114111 r) then RuneError else r in
    if r <=? 65535 then
      String (b (224 + r / 4096)) (String (b (128 + (r / 64) mod 64)) (String (b (128 + r mod 64)) ""))
    else
      String (b (240 + r / 262144)) (String (b (128 + (r / 4096) mod 64))
        (String (b (128 + (r / 64) mod 64)) (String (b (128 + r mod 64)) ""))).

(** The runes a [range] loop over [s] visits, each with the bytes it spans.
    [n] is the number of bytes still to skip. *)
Fixpoint runes_go (skip : nat) (s : string) : list Z :=
  match s with
  | "" => []
  | String _ s' =>
    match skip with
    | S k => runes_go k s'
    | O => match DecodeRune s with
           | Some (r, w) => r :: runes_go (w - 1) s'
           | None => []
           end
    end
  end.

Definition runes (s : string) : list Z := runes_go 0 s.

Fixpoint encode_runes (l : list Z) : string :=
  match l with [] => "" | r :: l' => EncodeRune r +:+ encode_runes l' end.

(** [strings.Map]; a negative result drops the rune. *)
Definition strings_Map (f : Z → Z) (s : string) : string :=
  encode_runes (List.filter (λ r, 0 <=? r) (map f (runes s))).

(** ** White space and case *)

(** [unicode.IsSpace] *)
Definition IsSpace (r : Z) : bool :=
  in_range 9 13 r || (r =? 32) || (r =? 133) || (r =? 160) || (r =? 5760) ||
  in_range 8192 8202 r || (r =? 8232) || (r =? 8233) || (r =? 8239) || (r =? 8287) || (r =? 12288).

Fixpoint trim_left_space (skip : nat) (s : string) : string :=
  match s with
  | "" => ""
  | String _ s' =>
    match skip with
    | S k => trim_left_space k s'
    | O => match DecodeRune s with
           | Some (r, w) => if IsSpace r then trim_left_space (w - 1) s' else s
           | None => s
           end
    end
  end.

(** [s] is a run of white space only. *)
Definition all_space (s : string) : bool := is_empty (trim_left_space 0 s).

(** Cuts [s] at the first rune boundary after which only white space follows. *)
Fixpoint trim_right_space (skip : nat) (s : string) : string :=
  match s with
  | "" => ""
  | String c s' =>
    match skip with
    | S k => String c (trim_right_space k s')
    | O => if all_space s then ""
           else match DecodeRune s with
                | Some (_, w) => String c (trim_right_space (w - 1) s')
                | None => s
                end
    end
  end.

(** [strings.TrimSpace] *)
Definition TrimSpace (s : string) : string := trim_right_space 0 (trim_left_space 0 s).

(** [strings.Fields]: the maximal runs of non-space runes. *)
Fixpoint fields_go (skip : nat) (cur : string) (s : string) : list string :=
  let flush := if is_empty cur then [] else [cur] in
  match s with
  | "" => flush
  | String c s' =>
    match skip with
    | S k => fields_go k (if is_empty cur then "" else cur +:+ String c "") s'
    | O => match DecodeRune s with
           | Some (r, w) =>
               if IsSpace r then flush ++ fields_go (w - 1) "" s'
               else fields_go (w - 1) (cur +:+ String c "") s'
           | None => flush
           end
    end
  end.

Definition Fields (s : string) : list string := fields_go 0 "" s.

(** [strings.Split(s, sep)] for a one-byte separator. *)
Fixpoint Split (s : string) (sep : ascii) : list string :=
  match s with
  | "" => [""]
  | String c s' =>
    if bool_decide (c = sep) then "" :: Split s' sep
    else match Split s' sep with
         | [] => [String c ""]
         | w :: ws => String c w :: ws
         end
  end.

(** [strings.Join] *)
Fixpoint Join (l : list string) (sep : string) : string :=
  match l with
  | [] => ""
  | [w] => w
  | w :: ws => w +:+ sep +:+ Join ws sep
  end.

(** The case tables of the package [unicode] outside ASCII. *)
Class Unicode : Type := {
  unicode_lower : Z → Z;         (** [unicode.ToLower] on runes above U+007F *)
  unicode_fold_eq : Z → Z → bool (** the runes share a [unicode.SimpleFold] orbit *)
}.

(** Tables without any case pair, for evaluation on ASCII inputs. *)
Definition ascii_unicode : Unicode :=
  {| unicode_lower r := r; unicode_fold_eq _ _ := false |}.

Definition ascii_lower (r : Z) : Z := if in_range 65 90 r then r + 32 else r.

Section case.
Context {U : Unicode}.

Definition rune_lower (r : Z) : Z := if r <? 128 then ascii_lower r else unicode_lower r.

(** [strings.ToLower] *)
Definition ToLower (s : string) : string := strings_Map rune_lower s.

Definition rune_fold_eq (a b : Z) : bool :=
  (a =? b) ||
  (if (a <? 128) && (b <? 128) then ascii_lower a =? ascii_lower b else unicode_fold_eq a b).

Fixpoint runes_fold_eq (a b : list Z) : bool :=
  match a, b with
  | [], [] => true
  | x :: a', y :: b' => rune_fold_eq x y && runes_fold_eq a' b'
  | _, _ => false
  end.

(** [strings.EqualFold] *)
Definition EqualFold (s t : string) : bool := runes_fold_eq (runes s) (runes t).
End case.

(** ** Ordering *)

(** [s < t] on Go strings: bytewise lexicographic. *)
Fixpoint string_lt (s t : string) : bool :=
  match s, t with
  | _, "" => false
  | "", _ => true
  | String c s', String d t' =>
      if byte_of c <? byte_of d then true
      else if byte_of d <? byte_of c then false else string_lt s' t'
  end.

(** [sort.Strings] *)
Definition sort_Strings (l : list string) : list string := sort_by string_lt l.

Lemma byte_of_inj c d : byte_of c = byte_of d → c = d.
Proof. intros H. by rewrite <- (to_byte_of c), H, to_byte_of. Qed.

Lemma string_lt_irrefl s : string_lt s s = false.
Proof. induction s as [|c s IH]; simpl; [done|]. by rewrite Z.ltb_irrefl. Qed.

Lemma string_lt_trichotomy s t : string_lt s t = false → string_lt t s = false → s = t.
Proof.
  revert t. induction s as [|c s IH]; intros [|d t]; simpl; try done.
  destruct (Z.ltb_spec (byte_of c) (byte_of d)); [done|].
  destruct (Z.ltb_spec (byte_of d) (byte_of c)); [done|].
  intros H1 H2. f_equal; [apply byte_of_inj; lia | eauto].
Qed.

Lemma string_lt_asym s t : string_lt s t = true → string_lt t s = false.
Proof.
  revert t. induction s as [|c s IH]; intros [|d t]; simpl; try done.
  destruct (Z.ltb_spec (byte_of c) (byte_of d)), (Z.ltb_spec (byte_of d) (byte_of c));
    try done; try lia. apply IH.
Qed.

Lemma string_lt_trans s t u : string_lt s t = true → string_lt t u = true → string_lt s u = true.
Proof.
  revert t u. induction s as [|c s IH]; intros [|d t] [|e u]; simpl; try done.
  destruct (Z.ltb_spec (byte_of c) (byte_of d)), (Z.ltb_spec (byte_of d) (byte_of e)),
    (Z.ltb_spec (byte_of c) (byte_of e)), (Z.ltb_spec (byte_of d) (byte_of c)),
    (Z.ltb_spec (byte_of e) (byte_of d)), (Z.ltb_spec (byte_of e) (byte_of c));
    try done; try lia; eauto.
Qed.

#[export] Instance string_lt_sw : StrictWeak string_lt.
Proof.
  split; [apply string_lt_irrefl| |apply string_lt_asym].
  intros x y z H1 H2. destruct (string_lt x z) eqn:E; [|done].
  destruct (string_lt y x) eqn:E1.
  - rewrite <- H2. symmetry. eauto using string_lt_trans.
  - assert (x = y) as -> by eauto using string_lt_trichotomy. congruence.
Qed.

(** [sort_Strings] does not depend on the order of its input. *)
Lemma sort_Strings_perm l l' : l ≡ₚ l' → sort_Strings l = sort_Strings l'.
Proof.
  intros Hp.
  assert (∀ a b, ordered string_lt a → ordered string_lt b → a ≡ₚ b → a = b) as Huniq.
  { clear. induction a as [|x a IH]; intros b Ha Hb Hab.
    - by apply Permutation_nil_l in Hab.
    - destruct b as [|y b]; [by apply Permutation_nil_r in Hab|].
      apply StronglySorted_inv in Ha as [Ha Hxa], Hb as [Hb Hyb].
      assert (x = y) as ->.
      { assert (x ∈ y :: b) as Hx by (rewrite <- Hab; left).
        assert (y ∈ x :: a) as Hy by (rewrite Hab; left).
        apply elem_of_cons in Hx as [?|Hx], Hy as [?|Hy]; try done.
        rewrite Forall_forall in Hxa, Hyb. by apply string_lt_trichotomy; [apply Hyb|apply Hxa]. }
      f_equal. apply IH; eauto using Permutation_cons_inv. }
  apply Huniq; [apply sort_by_ordered, _ .. |]. unfold sort_Strings. by rewrite !sort_by_perm.
Qed.

(** ** Laws of the string functions *)

Lemma app_String c (a b : string) : String c a +:+ b = String c (a +:+ b).
Proof. done. Qed.

Lemma app_empty (b : string) : "" +:+ b = b.
Proof. done. Qed.

Lemma string_app_assoc (a b c : string) : (a +:+ b) +:+ c = a +:+ (b +:+ c).
Proof. induction a as [|x a IH]; [done|]. rewrite !app_String. by f_equal. Qed.

Lemma string_app_nil_r (s : string) : s +:+ "" = s.
Proof. induction s as [|c s IH]; [done|]. rewrite app_String. by f_equal. Qed.

Lemma bytes_app s t : bytes (s +:+ t) = bytes s ++ bytes t.
Proof. induction s as [|c s IH]; [done|]. rewrite app_String. cbn. by f_equal. Qed.

Lemma prefix_app p s : String.prefix p (p +:+ s) = true.
Proof. induction p as [|c p IH]; [by destruct s|]. rewrite app_String. cbn. by destruct (ascii_dec c c). Qed.

Lemma prefix_true_inv p s : String.prefix p s = true → ∃ t, s = p +:+ t.
Proof.
  revert s. induction p as [|c p IH]; intros s H; [by exists s|].
  destruct s as [|d s]; [done|]. cbn in H. destruct (ascii_dec c d) as [->|]; [|done].
  destruct (IH s H) as [t ->]. by exists t.
Qed.

Lemma prefix_empty s : String.prefix "" s = true.
Proof. by destruct s. Qed.

Lemma Index_unfold s sub :
  Index s sub = if String.prefix sub s then Some O
                else match s with "" => None | String _ s' => S <$> Index s' sub end.
Proof. by destruct s. Qed.

Lemma Index_app_r pre s sub : is_Some (Index s sub) → is_Some (Index (pre +:+ s) sub).
Proof.
  intros Hs. induction pre as [|c pre IH]; [done|].
  rewrite app_String, Index_unfold. destruct (String.prefix _ _); [by eexists|].
  by apply fmap_is_Some.
Qed.

Lemma Contains_is_Some s sub : Contains s sub = true ↔ is_Some (Index s sub).
Proof. unfold Contains. destruct (Index s sub); [|rewrite is_Some_alt]; naive_solver. Qed.

Lemma Contains_infix pre sub post : Contains (pre +:+ sub +:+ post) sub = true.
Proof.
  apply Contains_is_Some, Index_app_r. rewrite Index_unfold. rewrite prefix_app. by eexists.
Qed.

Lemma Index_Some_inv s sub n :
  Index s sub = Some n → ∃ pre post, s = pre +:+ sub +:+ post ∧ String.length pre = n.
Proof.
  revert n. induction s as [|c s IH]; intros n; rewrite Index_unfold;
    destruct (String.prefix sub _) eqn:E.
  - intros [= <-]. apply prefix_true_inv in E as [t ->]. by exists "", t.
  - done.
  - intros [= <-]. apply prefix_true_inv in E as [t ->]. by exists "", t.
  - destruct (Index s sub) as [k|] eqn:Ek; [|done]. intros [= <-].
    destruct (IH k eq_refl) as (pre & post & -> & <-). by exists (String c pre), post.
Qed.

Lemma Contains_spec s sub : Contains s sub = true ↔ ∃ pre post, s = pre +:+ sub +:+ post.
Proof.
  split.
  - intros [n Hn]%Contains_is_Some. apply Index_Some_inv in Hn as (pre & post & -> & _). eauto.
  - intros (pre & post & ->). apply Contains_infix.
Qed.

Lemma Contains_app_r pre s sub : Contains s sub = true → Contains (pre +:+ s) sub = true.
Proof. rewrite !Contains_is_Some. apply Index_app_r. Qed.

Lemma Contains_app_l s post sub : Contains s sub = true → Contains (s +:+ post) sub = true.
Proof.
  rewrite !Contains_spec. intros (a & b & ->). exists a, (b +:+ post). by rewrite !string_app_assoc.
Qed.

(** A byte does not occur in a string. *)
Definition byte_free (c : ascii) (s : string) : Prop := c ∉ bytes s.

#[export] Instance byte_free_dec c s : Decision (byte_free c s).
Proof. unfold byte_free. apply _. Defined.

Lemma Split_byte_free c s : byte_free c s → Split s c = [s].
Proof.
  unfold byte_free. induction s as [|d s IH]; [done|]. cbn. rewrite not_elem_of_cons. intros [? ?].
  rewrite bool_decide_eq_false_2 by done. by rewrite IH.
Qed.

Lemma Split_app_sep c s t : byte_free c s → Split (s +:+ String c t) c = s :: Split t c.
Proof.
  unfold byte_free. induction s as [|d s IH]; [rewrite app_empty|rewrite app_String]; cbn.
  - by rewrite bool_decide_eq_true_2.
  - rewrite not_elem_of_cons. intros [? ?]. rewrite bool_decide_eq_false_2 by done. by rewrite IH.
Qed.

(** *** UTF-8 *)

(** The bytes a decoded rune spans after its first one are continuation bytes. *)
Lemma DecodeRune_cont c s r w i d :
  DecodeRune (String c s) = Some (r, w) → (i < w - 1)%nat → bytes s !! i = Some d →
  128 ≤ byte_of d.
Proof.
  assert (∀ lo hi x, 128 ≤ lo → in_range lo hi x = true → 128 ≤ x) as Hr.
  { unfold in_range. intros lo hi x ? ?%andb_true_iff. lia. }
  assert (∀ x, cont x = true → 128 ≤ byte_of x) as Hc by (intros; by eapply (Hr 128 191)).
  unfold DecodeRune. intros Hd Hi Hb.
  repeat case_match; simplify_eq/=; try lia;
    repeat match goal with
    | H : _ && _ = true |- _ => apply andb_true_iff in H as [? ?]
    | H : cont _ = true |- _ => apply Hc in H
    | H : in_range _ _ (byte_of _) = true |- _ => apply Hr in H; [|lia]
    end;
    try (destruct i as [|[|[|i]]]; simplify_eq/=; lia).
Qed.

Lemma DecodeRune_ascii c s : byte_of c < 128 → DecodeRune (String c s) = Some (byte_of c, 1%nat).
Proof. intros. unfold DecodeRune. by rewrite (proj2 (Z.ltb_lt _ _)). Qed.

Lemma DecodeRune_Some c s : ∃ r w, DecodeRune (String c s) = Some (r, w).
Proof. unfold DecodeRune. repeat case_match; eauto. Qed.

(** An ASCII byte is always a rune of its own. *)
Lemma ascii_byte_is_rune s skip c :
  (∀ i d, (i < skip)%nat → bytes s !! i = Some d → 128 ≤ byte_of d) →
  c ∈ bytes s → byte_of c < 128 → byte_of c ∈ runes_go skip s.
Proof.
  revert skip. induction s as [|d s IH]; intros skip Hskip Hin Hc; [by apply elem_of_nil in Hin|].
  cbn in Hin. apply elem_of_cons in Hin. destruct skip as [|skip].
  - destruct (DecodeRune_Some d s) as (r & w & Hr). cbn [runes_go]. rewrite Hr.
    destruct Hin as [<-|Hin].
    + rewrite DecodeRune_ascii in Hr by done. simplify_eq. left.
    + right. apply IH; [|done..]. intros i e Hi He. by eapply DecodeRune_cont.
  - destruct Hin as [<-|Hin].
    + specialize (Hskip O c ltac:(lia) eq_refl). lia.
    + cbn [runes_go]. apply IH; [|done..]. intros i e Hi He. apply (Hskip (S i)); [lia|done].
Qed.

Lemma EncodeRune_bytes r c :
  c ∈ bytes (EncodeRune r) → byte_of c = r ∨ 128 ≤ byte_of c.
Proof.
  assert (∀ z, 128 ≤ z < 256 → 128 ≤ byte_of (to_byte z)) as Hb.
  { intros z Hz. rewrite byte_of_to_byte; lia. }
  unfold EncodeRune, in_range, RuneError. intros Hin.
  repeat case_match; cbn [bytes] in Hin; rewrite ?andb_true_iff, ?andb_false_iff, ?orb_true_iff,
    ?orb_false_iff, ?negb_true_iff, ?negb_false_iff, ?andb_true_iff, ?andb_false_iff, ?Z.leb_le,
    ?Z.leb_gt in *;
  repeat (apply elem_of_cons in Hin as [->|Hin]; [|]); try (by apply elem_of_nil in Hin);
  try (left; apply byte_of_to_byte; lia); right; apply Hb; 
  repeat match goal with |- context [?a / ?b] => 
    lazymatch goal with H : a = b * (a / b) + a mod b |- _ => fail | _ =>
      pose proof (Z.div_mod a b ltac:(lia)); pose proof (Z.mod_pos_bound a b ltac:(lia)) end end;
  repeat match goal with |- context [?a mod ?b] => 
    lazymatch goal with H : 0 ≤ a mod b < b |- _ => fail | _ =>
      pose proof (Z.mod_pos_bound a b ltac:(lia)) end end; lia.
Qed.

Lemma encode_runes_bytes l c :
  c ∈ bytes (encode_runes l) → byte_of c ∈ l ∨ 128 ≤ byte_of c.
Proof.
  induction l as [|r l IH]; cbn; [by intros ?%elem_of_nil|].
  rewrite bytes_app, elem_of_app, elem_of_cons. intros [[->|?]%EncodeRune_bytes|[?|?]%IH]; auto.
Qed.
