(* ===== verification/Utf8.v ===== *)
(** UTF-8 decodes what it encodes: the runes of an encoded sequence of valid runes are
    that sequence. *)
From Stdlib Require Import ZArith Ascii.
From stdpp Require Import base list strings.
From S2P Require Import Prelude GoStrings.

Open Scope Z_scope.

(** A code point that is not a surrogate. *)
Definition valid_rune (r : Z) : Prop := 0 ≤ r < 55296 ∨ 57344 ≤ r ≤ 1114111.

Lemma in_range_true lo hi z : lo ≤ z ≤ hi → in_range lo hi z = true.
Proof. intros. unfold in_range. apply andb_true_iff. split; apply Z.leb_le; lia. Qed.
Lemma in_range_false lo hi z : z < lo ∨ hi < z → in_range lo hi z = false.
Proof. intros. unfold in_range. apply andb_false_iff. rewrite !Z.leb_gt. lia. Qed.

#[local] Opaque byte_of to_byte in_range.

Lemma div_bounds r d lo hi : 0 < d → d * lo ≤ r < d * hi → lo ≤ r / d < hi.
Proof. intros. split; [apply Z.div_le_lower_bound|apply Z.div_lt_upper_bound]; lia. Qed.

Lemma ltb_ge_false a b : b ≤ a → (a <? b) = false.
Proof. intros. by apply Z.ltb_ge. Qed.

Lemma DecodeRune_EncodeRune r s :
  valid_rune r → DecodeRune (EncodeRune r +:+ s) = Some (r, String.length (EncodeRune r)).
Proof.
  intros Hv. unfold valid_rune in Hv. unfold EncodeRune, cont, low6.
  pose proof (Z.mod_pos_bound r 64). pose proof (Z.mod_pos_bound (r / 64) 64).
  pose proof (Z.mod_pos_bound (r / 4096) 64).
  pose proof (Z.div_mod r 64). pose proof (Z.div_mod (r / 64) 64). pose proof (Z.div_mod (r / 4096) 64).
  assert (r / 64 / 64 = r / 4096) by (by rewrite Z.div_div by lia).
  assert (r / 4096 / 64 = r / 262144) by (by rewrite Z.div_div by lia).
  destruct (decide (r ≤ 127)); [|destruct (decide (r ≤ 2047)); [|destruct (decide (r ≤ 65535))]].
  - rewrite in_range_true by lia. rewrite app_String. cbn. rewrite byte_of_to_byte by lia. by rewrite (proj2 (Z.ltb_lt _ _)) by lia.
  - rewrite in_range_false, in_range_true by lia. pose proof (div_bounds r 64 2 32). rewrite !app_String. cbn.
    unfold cont, low6. rewrite !byte_of_to_byte by lia. rewrite ltb_ge_false, !in_range_true by lia.
    f_equal. f_equal. lia.
  - rewrite !in_range_false by lia. rewrite (in_range_true 0) by lia. cbn -[Z.leb]. rewrite (proj2 (Z.leb_le _ _)) by lia.
    pose proof (div_bounds r 4096 0 16). rewrite !app_String. cbn. unfold cont, low6. rewrite !byte_of_to_byte by lia.
    rewrite ltb_ge_false, in_range_false, (in_range_true 224 239) by lia.
    rewrite (in_range_true 128 191) by lia. rewrite in_range_true; [f_equal; f_equal; lia|].
    destruct (Z.eqb_spec (224 + r / 4096) 224), (Z.eqb_spec (224 + r / 4096) 237); try lia.
  - rewrite !in_range_false by lia. rewrite (in_range_true 0) by lia. cbn -[Z.leb]. rewrite (proj2 (Z.leb_gt _ _)) by lia.
    pose proof (div_bounds r 262144 0 5). rewrite !app_String. cbn. unfold cont, low6. rewrite !byte_of_to_byte by lia.
    rewrite ltb_ge_false, !(in_range_false _ _ (240 + r / 262144)), (in_range_true 240 244) by lia.
    rewrite !(in_range_true 128 191) by lia. rewrite in_range_true; [f_equal; f_equal; lia|].
    destruct (Z.eqb_spec (240 + r / 262144) 240), (Z.eqb_spec (240 + r / 262144) 244); try lia.
Qed.

Lemma length_EncodeRune r : (1 ≤ String.length (EncodeRune r))%nat.
Proof. unfold EncodeRune. repeat case_match; cbn; lia. Qed.

Lemma runes_go_skip a s : runes_go (String.length a) (a +:+ s) = runes_go 0 s.
Proof. induction a as [|c a IH]; [done|]. rewrite app_String. cbn. exact IH. Qed.

Lemma runes_encode_runes l : Forall valid_rune l → runes (encode_runes l) = l.
Proof.
  induction 1 as [|r l Hr Hl IH]; [done|]. cbn [encode_runes]. pose proof (length_EncodeRune r) as Hlen.
  pose proof (DecodeRune_EncodeRune r (encode_runes l) Hr) as Hd. unfold runes in *.
  destruct (EncodeRune r) as [|c e] eqn:E; [cbn in Hlen; lia|]. rewrite app_String in *. cbn [runes_go].
  rewrite Hd. cbn [String.length]. rewrite Nat.sub_succ, Nat.sub_0_r. f_equal.
  rewrite runes_go_skip. exact IH.
Qed.
