(* ===== verification/GoValues.v ===== *)
(** Go values other than strings: instants and durations of the package [time],
    [float64], and the dynamically typed values ([any]) of extracted fields and
    audit payloads.

    An instant is the number of nanoseconds since the Unix epoch; a duration is
    an [int64], so products of a configured count and a unit wrap and differences
    of instants saturate, as in the package [time].  A [float64] is Rocq's
    [spec_float] at precision 53 and maximal exponent 1024, whose operations
    compute the IEEE 754 results without any axiom. *)
From Stdlib Require Import ZArith SpecFloat.
From stdpp Require Import base list strings gmap pretty.
From S2P Require Import Prelude GoStrings.

Open Scope Z_scope.

(** ** time *)

Definition time := Z.
Definition duration := Z.

Definition Nanosecond : duration := 1.
Definition Millisecond : duration := 1000000.
Definition Second : duration := 1000000000.
Definition Minute : duration := 60 * Second.
Definition Hour : duration := 60 * Minute.

(** The zero [time.Time], January 1 of year 1. *)
Definition zeroTime : time := - 62135596800 * Second.
Definition IsZero (t : time) : bool := t =? zeroTime.

(** [time.Duration(n) * unit] *)
Definition dur_mul (n : Z) (unit : duration) : duration := wrap64 (n * unit).
Definition dur_neg (d : duration) : duration := wrap64 (- d).

Definition Add (t : time) (d : duration) : time := t + d.
Definition Sub (t u : time) : duration := sat64 (t - u).
Definition After (t u : time) : bool := u <? t.
Definition Before (t u : time) : bool := t <? u.

(** [t.UnixNano()]: out of the years 1678 to 2262 the count wraps. *)
Definition UnixNano (t : time) : Z := wrap64 t.

Definition Day : duration := 24 * Hour.

(** Midnight UTC of the day of [t]. *)
Definition utc_midnight (t : time) : time := (t / Day) * Day.

(** [t.UTC().Format("2006-01-02")], up to the injective rendering of a day. *)
Definition utc_day (t : time) : Z := t / Day.

Lemma utc_midnight_le t : utc_midnight t ≤ t < utc_midnight t + Day.
Proof.
  unfold utc_midnight. pose proof (Z.div_mod t Day ltac:(done)).
  pose proof (Z.mod_pos_bound t Day ltac:(done)). lia.
Qed.

Lemma utc_midnight_idem t : utc_midnight (utc_midnight t) = utc_midnight t.
Proof. unfold utc_midnight. rewrite Z.div_mul; done. Qed.

Lemma utc_midnight_mono t u : t ≤ u → utc_midnight t ≤ utc_midnight u.
Proof.
  intros. unfold utc_midnight. pose proof (Z.div_le_mono t u Day ltac:(done) ltac:(done)).
  unfold Day, Hour, Minute, Second in *. lia.
Qed.

(** ** float64 *)

Definition float64 := spec_float.

Definition f64_of_Z (z : Z) : float64 := binary_normalize 53 1024 z 0 false.
Definition f64_add : float64 → float64 → float64 := SFadd 53 1024.
Definition f64_mul : float64 → float64 → float64 := SFmul 53 1024.
Definition f64_div : float64 → float64 → float64 := SFdiv 53 1024.
Definition f64_lt : float64 → float64 → bool := SFltb.
Definition f64_le : float64 → float64 → bool := SFleb.
Definition f64_eq : float64 → float64 → bool := SFeqb.

Definition f64_zero : float64 := S754_zero false.

(** The decimal constant [n/d], correctly rounded. *)
Definition f64_ratio (n d : Z) : float64 := f64_div (f64_of_Z n) (f64_of_Z d).

Definition IsNaN (f : float64) : bool := match f with S754_nan => true | _ => false end.
Definition IsInf (f : float64) : bool := match f with S754_infinity _ => true | _ => false end.
Definition f64_finite (f : float64) : bool := negb (IsNaN f) && negb (IsInf f).

(** [int(f)]: truncation towards zero. *)
Definition f64_trunc (f : float64) : Z :=
  match f with
  | S754_finite sgn m e =>
      let a := if 0 <=? e then Z.pos m * 2 ^ e else Z.pos m / 2 ^ (- e) in
      if sgn then - a else a
  | _ => 0
  end.

(** [math.Max] *)
Definition math_Max (x y : float64) : float64 :=
  match x, y with
  | S754_infinity false, _ | _, S754_infinity false => S754_infinity false
  | S754_nan, _ | _, S754_nan => S754_nan
  | S754_zero sx, S754_zero _ => if sx then y else x
  | _, _ => if f64_lt y x then x else y
  end.

(** [d.Minutes()] and [d.Hours()] *)
Definition dur_Minutes (d : duration) : float64 :=
  f64_add (f64_of_Z (Z.quot d Minute)) (f64_div (f64_of_Z (Z.rem d Minute)) (f64_of_Z Minute)).
Definition dur_Hours (d : duration) : float64 :=
  f64_add (f64_of_Z (Z.quot d Hour)) (f64_div (f64_of_Z (Z.rem d Hour)) (f64_of_Z Hour)).

(** ** Dynamically typed values *)

Inductive any : Type :=
| ANil
| ABool (b : bool)
| AFloat64 (f : float64)
| AFloat32 (f : float64)
| AInt (z : Z)
| AInt64 (z : Z)
| AString (s : string)
| ATime (t : time)
| AList (l : list any)
| AMap (l : list (string * any)).

(** [json.Marshal] succeeds: NaN and the infinities are unsupported values. *)
Fixpoint json_ok (v : any) : bool :=
  match v with
  | AFloat64 f | AFloat32 f => f64_finite f
  | AList l => forallb json_ok l
  | AMap l => forallb (λ kv, json_ok kv.2) l
  | _ => true
  end.

(** A string after [json.Marshal] and [json.Unmarshal]: invalid UTF-8 has become
    U+FFFD. *)
Definition json_string (s : string) : string := strings_Map (λ r, r) s.

(** A value after [json.Marshal] and [json.Unmarshal] into an [any]. *)
Fixpoint json_any (v : any) : any :=
  match v with
  | AFloat32 f => AFloat64 f
  | AInt z | AInt64 z => AFloat64 (f64_of_Z z)
  | AString s => AString (json_string s)
  | AList l => AList (map json_any l)
  | AMap l => AMap (map (λ kv, (json_string kv.1, json_any kv.2)) l)
  | _ => v
  end.

(** [%d] *)
Definition fmt_d (z : Z) : string := pretty z.

(** ** The rest of the standard library

    Functions of the Go standard library whose text is not part of the program
    and which no theorem needs to look into: number formatting and parsing,
    SHA-256, and the parsers of the packages [mime], [net/mail] and [time].
    Everything that uses one of them takes it from this class. *)
Class GoLib : Type := {
  golib_unicode :: Unicode;
  FormatFloat : float64 → string;              (** [strconv.FormatFloat(f, 'f', -1, 64)] *)
  ParseFloat : string → option float64;        (** [strconv.ParseFloat(s, 64)] *)
  sha256_hex : string → string;                (** hex of [sha256.Sum256] *)
  ParseMediaType : string → option (string * list (string * string)); (** [mime.ParseMediaType] *)
  ParseAddress : string → option (string * string); (** [mail.ParseAddress]: address, name *)
  time_Parse : string → string → option time   (** [time.Parse(layout, s)] *)
}.
