(* ===== verification/Submission.v ===== *)
(** The data model and the submission life cycle: [internal/model/submission.go],
    [document.go], [email.go], [audit.go], [outbox.go] and the missing-item type of
    [checklist.go].

    [State], [ReasonCode] and the other string types of the source are inductive
    types; a string that is none of the declared constants (a hand-edited row, a
    legacy value) is the [...Other] constructor.  [TransitionTo] is the whole
    method, with its same-state shortcut and both error branches. *)
From Stdlib Require Import ZArith SpecFloat.
From stdpp Require Import base list strings gmap.
From S2P Require Import Prelude GoStrings GoValues.

Open Scope Z_scope.

(** ** Audit events *)

Inductive EventType : Type :=
| EventEmailReceived | EventEmailDuplicate | EventDocumentClassified
| EventDocumentUnreadable | EventDocumentEncrypted | EventFieldExtracted
| EventIdentityExtracted | EventChecklistEvaluated | EventPolicyUnknown
| EventPolicyResolved | EventStateTransitioned | EventNeedsReview | EventReplySent
| EventReplyFailed | EventReplySuppressed | EventReplyBounced | EventDeliveryRetried
| EventReplyDisabled | EventMailFileFailed | EventAuthFailed | EventLLMCall
| EventLLMFailed | EventLLMCapped | EventEscalated | EventClosed | EventDigestSent
| EventThreadMatched | EventThreadMatchedByContent | EventThreadAmbiguous
| EventHeld | EventReleased | EventWorkerPanic.

#[export] Instance EventType_eq_dec : EqDecision EventType.
Proof. solve_decision. Defined.

(** One recorded audit-log event. *)
Record AuditEntry : Type := mkAuditEntry {
  ae_ID : string;
  ae_SubmissionID : string;
  ae_EventType : EventType;
  ae_Payload : list (string * any);
  ae_RequestID : string;
  ae_CreatedAt : time }.

(** ** Attachments, emails, documents *)

Inductive Direction : Type := DirectionInbound | DirectionOutbound.

(** A decoded file attached to an email; [att_Content] is its bytes. *)
Record Attachment : Type := mkAttachment {
  att_Filename : string;
  att_ContentType : string;
  att_Size : Z;
  att_SHA256 : string;
  att_Content : string }.

(** A stored inbound or outbound message. *)
Record Email : Type := mkEmail {
  em_DeterministicID : string;
  em_SubmissionID : string;
  em_Direction : Direction;
  em_MessageID : string;
  em_InReplyTo : string;
  em_References : list string;
  em_FromAddress : string;
  em_FromName : string;
  em_ReplyTo : string;
  em_ToAddresses : list string;
  em_Subject : string;
  em_BodyText : string;
  em_ReceivedAt : time;
  em_ProviderMsgID : string;
  em_Attachments : list Attachment }.

Definition em_with_SubmissionID (v : string) (s : Email) : Email :=
  mkEmail s.(em_DeterministicID) v s.(em_Direction) s.(em_MessageID) s.(em_InReplyTo)
    s.(em_References) s.(em_FromAddress) s.(em_FromName) s.(em_ReplyTo) s.(em_ToAddresses)
    s.(em_Subject) s.(em_BodyText) s.(em_ReceivedAt) s.(em_ProviderMsgID) s.(em_Attachments).

(** A classified attachment on a submission. *)
Record Document : Type := mkDocument {
  doc_ID : string;
  doc_SubmissionID : string;
  doc_EmailID : string;
  doc_Filename : string;
  doc_ContentType : string;
  doc_SizeBytes : Z;
  doc_SHA256 : string;
  doc_ClassifiedAs : string;
  doc_Confidence : float64;
  doc_ClassifiedBy : string;
  doc_ExtractedText : string;
  doc_ExtractedFields : option (gmap string any);
  doc_Unreadable : bool;
  doc_Encrypted : bool;
  doc_CreatedAt : time }.

Definition doc_with_SubmissionID (v : string) (s : Document) : Document :=
  mkDocument s.(doc_ID) v s.(doc_EmailID) s.(doc_Filename) s.(doc_ContentType) s.(doc_SizeBytes)
    s.(doc_SHA256) s.(doc_ClassifiedAs) s.(doc_Confidence) s.(doc_ClassifiedBy)
    s.(doc_ExtractedText) s.(doc_ExtractedFields) s.(doc_Unreadable) s.(doc_Encrypted)
    s.(doc_CreatedAt).
Definition doc_with_ExtractedText (v : string) (s : Document) : Document :=
  mkDocument s.(doc_ID) s.(doc_SubmissionID) s.(doc_EmailID) s.(doc_Filename) s.(doc_ContentType)
    s.(doc_SizeBytes) s.(doc_SHA256) s.(doc_ClassifiedAs) s.(doc_Confidence)
    s.(doc_ClassifiedBy) v s.(doc_ExtractedFields) s.(doc_Unreadable) s.(doc_Encrypted)
    s.(doc_CreatedAt).
Definition doc_with_ExtractedFields (v : option (gmap string any)) (s : Document) : Document :=
  mkDocument s.(doc_ID) s.(doc_SubmissionID) s.(doc_EmailID) s.(doc_Filename) s.(doc_ContentType)
    s.(doc_SizeBytes) s.(doc_SHA256) s.(doc_ClassifiedAs) s.(doc_Confidence)
    s.(doc_ClassifiedBy) s.(doc_ExtractedText) v s.(doc_Unreadable) s.(doc_Encrypted)
    s.(doc_CreatedAt).

Definition ClassifiedByFilename : string := "filename".
Definition ClassifiedByKeyword : string := "keyword".
Definition ClassifiedByFilenameKeyword : string := "filename+keyword".
Definition ClassifiedByLLM : string := "llm".
Definition ClassifiedByHeuristic : string := "heuristic".

(** The last loop of [FilenameOnlyMatches] reads two maps filled by the first:
    the ids with a filename-only document and the ids with corroboration. *)
Definition filename_ids (docs : list Document) : gset string :=
  foldr (λ d acc, if bool_decide (d.(doc_ClassifiedAs) ≠ "" ∧ d.(doc_ClassifiedBy) = ClassifiedByFilename)
                  then {[ d.(doc_ClassifiedAs) ]} ∪ acc else acc) ∅ docs.

Definition corroborates (by_ : string) : bool :=
  bool_decide (by_ = ClassifiedByKeyword ∨ by_ = ClassifiedByFilenameKeyword ∨ by_ = ClassifiedByLLM).

Definition corroborated_ids (docs : list Document) : gset string :=
  foldr (λ d acc, if bool_decide (d.(doc_ClassifiedAs) ≠ "") && corroborates d.(doc_ClassifiedBy)
                  then {[ d.(doc_ClassifiedAs) ]} ∪ acc else acc) ∅ docs.

Definition FilenameOnlyMatches (docs : list Document) : list string :=
  sort_Strings (List.filter (λ id, bool_decide (id ∉ corroborated_ids docs))
                  (elements (filename_ids docs))).

(** ** Missing items *)

Inductive ReasonCode : Type :=
| ReasonNotProvided | ReasonLowConfidence | ReasonUnreadable | ReasonFieldShortfall
| ReasonEncrypted | ReasonMissingAttachment | ReasonPolicyUnknown
| ReasonOther (raw : string).

#[export] Instance ReasonCode_eq_dec : EqDecision ReasonCode.
Proof. solve_decision. Defined.

Definition reason_string (c : ReasonCode) : string :=
  match c with
  | ReasonNotProvided => "not_provided"
  | ReasonLowConfidence => "low_confidence"
  | ReasonUnreadable => "unreadable"
  | ReasonFieldShortfall => "field_shortfall"
  | ReasonEncrypted => "encrypted"
  | ReasonMissingAttachment => "missing_attachment"
  | ReasonPolicyUnknown => "policy_unknown"
  | ReasonOther raw => raw
  end.

(** A required item not satisfied by a submission. *)
Record MissingItem : Type := mkMissingItem {
  mi_ID : string;
  mi_Description : string;
  mi_Reason : string;
  mi_Code : ReasonCode;
  mi_Confidence : float64 }.

(** ** The submission *)

Inductive State : Type :=
| StateOpen | StateAwaiting | StateComplete | StateEscalated | StateClosed
| StateOther (raw : string).

#[export] Instance State_eq_dec : EqDecision State.
Proof. solve_decision. Defined.

Definition state_string (s : State) : string :=
  match s with
  | StateOpen => "open" | StateAwaiting => "awaiting" | StateComplete => "complete"
  | StateEscalated => "escalated" | StateClosed => "closed" | StateOther raw => raw
  end.

Definition PolicyTypeUnknown : string := "unknown".

Definition ErrInvalidTransition : string := "invalid state transition".
Definition ErrSubmissionNotFound : string := "submission not found".
Definition ErrDuplicateEmail : string := "duplicate email".

(** The map [allowed]; [None] for a state that is not a key. *)
Definition allowed (s : State) : option (list State) :=
  match s with
  | StateOpen => Some [StateAwaiting; StateComplete; StateEscalated; StateClosed]
  | StateAwaiting => Some [StateAwaiting; StateComplete; StateEscalated; StateClosed]
  | StateComplete => Some [StateAwaiting; StateClosed]
  | StateEscalated => Some [StateAwaiting; StateComplete; StateClosed]
  | StateClosed => Some [StateAwaiting; StateComplete]
  | StateOther _ => None
  end.

(** One incoming submission.  [LastReplyAt] is the zero time until a reply was sent. *)
Record Submission : Type := mkSubmission {
  sub_ID : string;
  sub_PolicyType : string;
  sub_State : State;
  sub_SubjectLine : string;
  sub_FromAddress : string;
  sub_FromName : string;
  sub_ThreadKey : string;
  sub_CreatedAt : time;
  sub_UpdatedAt : time;
  sub_LastActionAt : time;
  sub_LastReplyAt : time;
  sub_EscalatedAt : option time;
  sub_NeedsReview : bool;
  sub_OnHold : bool;
  sub_DeliveryFailed : bool;
  sub_NamedInsured : string;
  sub_EffectiveDate : option time;
  sub_LastEscalatedAt : option time;
  sub_CompletedAt : option time;
  sub_LastReplyHash : string;
  sub_PolicyClarifyAsks : Z;
  sub_Emails : list Email;
  sub_Documents : list Document;
  sub_MissingItems : list MissingItem }.

Definition sub_with_PolicyType (v : string) (s : Submission) : Submission :=
  mkSubmission s.(sub_ID) v s.(sub_State) s.(sub_SubjectLine) s.(sub_FromAddress) s.(sub_FromName)
    s.(sub_ThreadKey) s.(sub_CreatedAt) s.(sub_UpdatedAt) s.(sub_LastActionAt)
    s.(sub_LastReplyAt) s.(sub_EscalatedAt) s.(sub_NeedsReview) s.(sub_OnHold)
    s.(sub_DeliveryFailed) s.(sub_NamedInsured) s.(sub_EffectiveDate)
    s.(sub_LastEscalatedAt) s.(sub_CompletedAt) s.(sub_LastReplyHash)
    s.(sub_PolicyClarifyAsks) s.(sub_Emails) s.(sub_Documents) s.(sub_MissingItems).
Definition sub_with_State (v : State) (s : Submission) : Submission :=
  mkSubmission s.(sub_ID) s.(sub_PolicyType) v s.(sub_SubjectLine) s.(sub_FromAddress) s.(sub_FromName)
    s.(sub_ThreadKey) s.(sub_CreatedAt) s.(sub_UpdatedAt) s.(sub_LastActionAt)
    s.(sub_LastReplyAt) s.(sub_EscalatedAt) s.(sub_NeedsReview) s.(sub_OnHold)
    s.(sub_DeliveryFailed) s.(sub_NamedInsured) s.(sub_EffectiveDate)
    s.(sub_LastEscalatedAt) s.(sub_CompletedAt) s.(sub_LastReplyHash)
    s.(sub_PolicyClarifyAsks) s.(sub_Emails) s.(sub_Documents) s.(sub_MissingItems).
Definition sub_with_CreatedAt (v : time) (s : Submission) : Submission :=
  mkSubmission s.(sub_ID) s.(sub_PolicyType) s.(sub_State) s.(sub_SubjectLine)
    s.(sub_FromAddress) s.(sub_FromName) s.(sub_ThreadKey) v s.(sub_UpdatedAt)
    s.(sub_LastActionAt) s.(sub_LastReplyAt) s.(sub_EscalatedAt) s.(sub_NeedsReview)
    s.(sub_OnHold) s.(sub_DeliveryFailed) s.(sub_NamedInsured) s.(sub_EffectiveDate)
    s.(sub_LastEscalatedAt) s.(sub_CompletedAt) s.(sub_LastReplyHash)
    s.(sub_PolicyClarifyAsks) s.(sub_Emails) s.(sub_Documents) s.(sub_MissingItems).

Definition sub_with_UpdatedAt (v : time) (s : Submission) : Submission :=
  mkSubmission s.(sub_ID) s.(sub_PolicyType) s.(sub_State) s.(sub_SubjectLine) s.(sub_FromAddress)
    s.(sub_FromName) s.(sub_ThreadKey) s.(sub_CreatedAt) v s.(sub_LastActionAt)
    s.(sub_LastReplyAt) s.(sub_EscalatedAt) s.(sub_NeedsReview) s.(sub_OnHold)
    s.(sub_DeliveryFailed) s.(sub_NamedInsured) s.(sub_EffectiveDate)
    s.(sub_LastEscalatedAt) s.(sub_CompletedAt) s.(sub_LastReplyHash)
    s.(sub_PolicyClarifyAsks) s.(sub_Emails) s.(sub_Documents) s.(sub_MissingItems).
Definition sub_with_LastActionAt (v : time) (s : Submission) : Submission :=
  mkSubmission s.(sub_ID) s.(sub_PolicyType) s.(sub_State) s.(sub_SubjectLine) s.(sub_FromAddress)
    s.(sub_FromName) s.(sub_ThreadKey) s.(sub_CreatedAt) s.(sub_UpdatedAt) v
    s.(sub_LastReplyAt) s.(sub_EscalatedAt) s.(sub_NeedsReview) s.(sub_OnHold)
    s.(sub_DeliveryFailed) s.(sub_NamedInsured) s.(sub_EffectiveDate)
    s.(sub_LastEscalatedAt) s.(sub_CompletedAt) s.(sub_LastReplyHash)
    s.(sub_PolicyClarifyAsks) s.(sub_Emails) s.(sub_Documents) s.(sub_MissingItems).
Definition sub_with_LastReplyAt (v : time) (s : Submission) : Submission :=
  mkSubmission s.(sub_ID) s.(sub_PolicyType) s.(sub_State) s.(sub_SubjectLine) s.(sub_FromAddress)
    s.(sub_FromName) s.(sub_ThreadKey) s.(sub_CreatedAt) s.(sub_UpdatedAt)
    s.(sub_LastActionAt) v s.(sub_EscalatedAt) s.(sub_NeedsReview) s.(sub_OnHold)
    s.(sub_DeliveryFailed) s.(sub_NamedInsured) s.(sub_EffectiveDate)
    s.(sub_LastEscalatedAt) s.(sub_CompletedAt) s.(sub_LastReplyHash)
    s.(sub_PolicyClarifyAsks) s.(sub_Emails) s.(sub_Documents) s.(sub_MissingItems).
Definition sub_with_EscalatedAt (v : option time) (s : Submission) : Submission :=
  mkSubmission s.(sub_ID) s.(sub_PolicyType) s.(sub_State) s.(sub_SubjectLine) s.(sub_FromAddress)
    s.(sub_FromName) s.(sub_ThreadKey) s.(sub_CreatedAt) s.(sub_UpdatedAt)
    s.(sub_LastActionAt) s.(sub_LastReplyAt) v s.(sub_NeedsReview) s.(sub_OnHold)
    s.(sub_DeliveryFailed) s.(sub_NamedInsured) s.(sub_EffectiveDate)
    s.(sub_LastEscalatedAt) s.(sub_CompletedAt) s.(sub_LastReplyHash)
    s.(sub_PolicyClarifyAsks) s.(sub_Emails) s.(sub_Documents) s.(sub_MissingItems).
Definition sub_with_NeedsReview (v : bool) (s : Submission) : Submission :=
  mkSubmission s.(sub_ID) s.(sub_PolicyType) s.(sub_State) s.(sub_SubjectLine) s.(sub_FromAddress)
    s.(sub_FromName) s.(sub_ThreadKey) s.(sub_CreatedAt) s.(sub_UpdatedAt)
    s.(sub_LastActionAt) s.(sub_LastReplyAt) s.(sub_EscalatedAt) v s.(sub_OnHold)
    s.(sub_DeliveryFailed) s.(sub_NamedInsured) s.(sub_EffectiveDate)
    s.(sub_LastEscalatedAt) s.(sub_CompletedAt) s.(sub_LastReplyHash)
    s.(sub_PolicyClarifyAsks) s.(sub_Emails) s.(sub_Documents) s.(sub_MissingItems).
Definition sub_with_OnHold (v : bool) (s : Submission) : Submission :=
  mkSubmission s.(sub_ID) s.(sub_PolicyType) s.(sub_State) s.(sub_SubjectLine) s.(sub_FromAddress)
    s.(sub_FromName) s.(sub_ThreadKey) s.(sub_CreatedAt) s.(sub_UpdatedAt)
    s.(sub_LastActionAt) s.(sub_LastReplyAt) s.(sub_EscalatedAt) s.(sub_NeedsReview) v
    s.(sub_DeliveryFailed) s.(sub_NamedInsured) s.(sub_EffectiveDate)
    s.(sub_LastEscalatedAt) s.(sub_CompletedAt) s.(sub_LastReplyHash)
    s.(sub_PolicyClarifyAsks) s.(sub_Emails) s.(sub_Documents) s.(sub_MissingItems).
Definition sub_with_DeliveryFailed (v : bool) (s : Submission) : Submission :=
  mkSubmission s.(sub_ID) s.(sub_PolicyType) s.(sub_State) s.(sub_SubjectLine) s.(sub_FromAddress)
    s.(sub_FromName) s.(sub_ThreadKey) s.(sub_CreatedAt) s.(sub_UpdatedAt)
    s.(sub_LastActionAt) s.(sub_LastReplyAt) s.(sub_EscalatedAt) s.(sub_NeedsReview)
    s.(sub_OnHold) v s.(sub_NamedInsured) s.(sub_EffectiveDate) s.(sub_LastEscalatedAt)
    s.(sub_CompletedAt) s.(sub_LastReplyHash) s.(sub_PolicyClarifyAsks) s.(sub_Emails)
    s.(sub_Documents) s.(sub_MissingItems).
Definition sub_with_NamedInsured (v : string) (s : Submission) : Submission :=
  mkSubmission s.(sub_ID) s.(sub_PolicyType) s.(sub_State) s.(sub_SubjectLine) s.(sub_FromAddress)
    s.(sub_FromName) s.(sub_ThreadKey) s.(sub_CreatedAt) s.(sub_UpdatedAt)
    s.(sub_LastActionAt) s.(sub_LastReplyAt) s.(sub_EscalatedAt) s.(sub_NeedsReview)
    s.(sub_OnHold) s.(sub_DeliveryFailed) v s.(sub_EffectiveDate) s.(sub_LastEscalatedAt)
    s.(sub_CompletedAt) s.(sub_LastReplyHash) s.(sub_PolicyClarifyAsks) s.(sub_Emails)
    s.(sub_Documents) s.(sub_MissingItems).
Definition sub_with_EffectiveDate (v : option time) (s : Submission) : Submission :=
  mkSubmission s.(sub_ID) s.(sub_PolicyType) s.(sub_State) s.(sub_SubjectLine) s.(sub_FromAddress)
    s.(sub_FromName) s.(sub_ThreadKey) s.(sub_CreatedAt) s.(sub_UpdatedAt)
    s.(sub_LastActionAt) s.(sub_LastReplyAt) s.(sub_EscalatedAt) s.(sub_NeedsReview)
    s.(sub_OnHold) s.(sub_DeliveryFailed) s.(sub_NamedInsured) v s.(sub_LastEscalatedAt)
    s.(sub_CompletedAt) s.(sub_LastReplyHash) s.(sub_PolicyClarifyAsks) s.(sub_Emails)
    s.(sub_Documents) s.(sub_MissingItems).
Definition sub_with_LastEscalatedAt (v : option time) (s : Submission) : Submission :=
  mkSubmission s.(sub_ID) s.(sub_PolicyType) s.(sub_State) s.(sub_SubjectLine) s.(sub_FromAddress)
    s.(sub_FromName) s.(sub_ThreadKey) s.(sub_CreatedAt) s.(sub_UpdatedAt)
    s.(sub_LastActionAt) s.(sub_LastReplyAt) s.(sub_EscalatedAt) s.(sub_NeedsReview)
    s.(sub_OnHold) s.(sub_DeliveryFailed) s.(sub_NamedInsured) s.(sub_EffectiveDate) v
    s.(sub_CompletedAt) s.(sub_LastReplyHash) s.(sub_PolicyClarifyAsks) s.(sub_Emails)
    s.(sub_Documents) s.(sub_MissingItems).
Definition sub_with_CompletedAt (v : option time) (s : Submission) : Submission :=
  mkSubmission s.(sub_ID) s.(sub_PolicyType) s.(sub_State) s.(sub_SubjectLine) s.(sub_FromAddress)
    s.(sub_FromName) s.(sub_ThreadKey) s.(sub_CreatedAt) s.(sub_UpdatedAt)
    s.(sub_LastActionAt) s.(sub_LastReplyAt) s.(sub_EscalatedAt) s.(sub_NeedsReview)
    s.(sub_OnHold) s.(sub_DeliveryFailed) s.(sub_NamedInsured) s.(sub_EffectiveDate)
    s.(sub_LastEscalatedAt) v s.(sub_LastReplyHash) s.(sub_PolicyClarifyAsks) s.(sub_Emails)
    s.(sub_Documents) s.(sub_MissingItems).
Definition sub_with_LastReplyHash (v : string) (s : Submission) : Submission :=
  mkSubmission s.(sub_ID) s.(sub_PolicyType) s.(sub_State) s.(sub_SubjectLine) s.(sub_FromAddress)
    s.(sub_FromName) s.(sub_ThreadKey) s.(sub_CreatedAt) s.(sub_UpdatedAt)
    s.(sub_LastActionAt) s.(sub_LastReplyAt) s.(sub_EscalatedAt) s.(sub_NeedsReview)
    s.(sub_OnHold) s.(sub_DeliveryFailed) s.(sub_NamedInsured) s.(sub_EffectiveDate)
    s.(sub_LastEscalatedAt) s.(sub_CompletedAt) v s.(sub_PolicyClarifyAsks) s.(sub_Emails)
    s.(sub_Documents) s.(sub_MissingItems).
Definition sub_with_PolicyClarifyAsks (v : Z) (s : Submission) : Submission :=
  mkSubmission s.(sub_ID) s.(sub_PolicyType) s.(sub_State) s.(sub_SubjectLine) s.(sub_FromAddress)
    s.(sub_FromName) s.(sub_ThreadKey) s.(sub_CreatedAt) s.(sub_UpdatedAt)
    s.(sub_LastActionAt) s.(sub_LastReplyAt) s.(sub_EscalatedAt) s.(sub_NeedsReview)
    s.(sub_OnHold) s.(sub_DeliveryFailed) s.(sub_NamedInsured) s.(sub_EffectiveDate)
    s.(sub_LastEscalatedAt) s.(sub_CompletedAt) s.(sub_LastReplyHash) v s.(sub_Emails)
    s.(sub_Documents) s.(sub_MissingItems).
Definition sub_with_Emails (v : list Email) (s : Submission) : Submission :=
  mkSubmission s.(sub_ID) s.(sub_PolicyType) s.(sub_State) s.(sub_SubjectLine) s.(sub_FromAddress)
    s.(sub_FromName) s.(sub_ThreadKey) s.(sub_CreatedAt) s.(sub_UpdatedAt)
    s.(sub_LastActionAt) s.(sub_LastReplyAt) s.(sub_EscalatedAt) s.(sub_NeedsReview)
    s.(sub_OnHold) s.(sub_DeliveryFailed) s.(sub_NamedInsured) s.(sub_EffectiveDate)
    s.(sub_LastEscalatedAt) s.(sub_CompletedAt) s.(sub_LastReplyHash)
    s.(sub_PolicyClarifyAsks) v s.(sub_Documents) s.(sub_MissingItems).
Definition sub_with_Documents (v : list Document) (s : Submission) : Submission :=
  mkSubmission s.(sub_ID) s.(sub_PolicyType) s.(sub_State) s.(sub_SubjectLine) s.(sub_FromAddress)
    s.(sub_FromName) s.(sub_ThreadKey) s.(sub_CreatedAt) s.(sub_UpdatedAt)
    s.(sub_LastActionAt) s.(sub_LastReplyAt) s.(sub_EscalatedAt) s.(sub_NeedsReview)
    s.(sub_OnHold) s.(sub_DeliveryFailed) s.(sub_NamedInsured) s.(sub_EffectiveDate)
    s.(sub_LastEscalatedAt) s.(sub_CompletedAt) s.(sub_LastReplyHash)
    s.(sub_PolicyClarifyAsks) s.(sub_Emails) v s.(sub_MissingItems).
Definition sub_with_MissingItems (v : list MissingItem) (s : Submission) : Submission :=
  mkSubmission s.(sub_ID) s.(sub_PolicyType) s.(sub_State) s.(sub_SubjectLine) s.(sub_FromAddress)
    s.(sub_FromName) s.(sub_ThreadKey) s.(sub_CreatedAt) s.(sub_UpdatedAt)
    s.(sub_LastActionAt) s.(sub_LastReplyAt) s.(sub_EscalatedAt) s.(sub_NeedsReview)
    s.(sub_OnHold) s.(sub_DeliveryFailed) s.(sub_NamedInsured) s.(sub_EffectiveDate)
    s.(sub_LastEscalatedAt) s.(sub_CompletedAt) s.(sub_LastReplyHash)
    s.(sub_PolicyClarifyAsks) s.(sub_Emails) s.(sub_Documents) v.

Definition NewSubmission (id policyType subject fromAddress fromName threadKey : string)
    (now : time) : Submission :=
  mkSubmission id policyType StateOpen subject fromAddress fromName threadKey now now now
    zeroTime None false false false "" None None None "" 0 [] [] [].

(** [TransitionTo]: the fields the switch on [next] rewrites. *)
Definition enter_state (next : State) (now : time) (s : Submission) : Submission :=
  match next with
  | StateEscalated => sub_with_EscalatedAt (Some now) s
  | StateComplete => sub_with_CompletedAt (Some now) (sub_with_EscalatedAt None s)
  | StateAwaiting => sub_with_CompletedAt None (sub_with_EscalatedAt None s)
  | _ => s
  end.

Definition TransitionTo (s : Submission) (next : State) (now : time) : result Submission :=
  if bool_decide (s.(sub_State) = next) then Ok (sub_with_UpdatedAt now s)
  else match allowed s.(sub_State) with
       | None => Err (ErrWrapAfter (ErrSentinel ErrInvalidTransition)
                            ("unknown state " +:+ state_string s.(sub_State)))
       | Some nexts =>
         if bool_decide (next ∈ nexts) then
           Ok (enter_state next now
                 (sub_with_LastActionAt now (sub_with_UpdatedAt now (sub_with_State next s))))
         else Err (ErrWrapAfter (ErrSentinel ErrInvalidTransition)
                     (state_string s.(sub_State) +:+ " -> " +:+ state_string next))
       end.

Definition MarkAction (now : time) (s : Submission) : Submission :=
  sub_with_LastActionAt now (sub_with_UpdatedAt now s).

Definition AttachEmail (e : Email) (s : Submission) : Submission :=
  sub_with_Emails (s.(sub_Emails) ++ [e]) s.

Definition AttachDocument (d : Document) (s : Submission) : Submission :=
  sub_with_Documents (s.(sub_Documents) ++ [d]) s.

(** ** Replies and outbox entries *)

Record Reply : Type := mkReply {
  rep_SubmissionID : string;
  rep_ToAddress : string;
  rep_Subject : string;
  rep_BodyText : string;
  rep_InReplyTo : string;
  rep_References : list string }.

#[export] Instance Reply_eq_dec : EqDecision Reply.
Proof. solve_decision. Defined.

Definition emptyReply : Reply := mkReply "" "" "" "" "" [].

Inductive OutboxStatus : Type := OutboxPending | OutboxSent | OutboxFailed.

#[export] Instance OutboxStatus_eq_dec : EqDecision OutboxStatus.
Proof. solve_decision. Defined.

Record OutboxEntry : Type := mkOutboxEntry {
  oe_ID : string;
  oe_SubmissionID : string;
  oe_Reply : Reply;
  oe_Status : OutboxStatus;
  oe_Attempts : Z;
  oe_LastError : string;
  oe_CreatedAt : time;
  oe_UpdatedAt : time;
  oe_NotBefore : time }.

(** ** Life cycle: invariant and reachability *)

(** A state the code declares. *)
Definition declared (s : State) : bool :=
  match s with StateOther _ => false | _ => true end.

(** The clocks that belong to each state: [EscalatedAt] is set exactly while
    escalated, [CompletedAt] exactly while complete; a closed submission keeps the
    clock of the state it was closed from, never both. *)
Definition lifecycle_wf (s : Submission) : Prop :=
  match s.(sub_State) with
  | StateOpen | StateAwaiting => s.(sub_EscalatedAt) = None ∧ s.(sub_CompletedAt) = None
  | StateComplete => s.(sub_EscalatedAt) = None ∧ is_Some s.(sub_CompletedAt)
  | StateEscalated => is_Some s.(sub_EscalatedAt) ∧ s.(sub_CompletedAt) = None
  | StateClosed => s.(sub_EscalatedAt) = None ∨ s.(sub_CompletedAt) = None
  | StateOther _ => False
  end.

(** One call of a method that changes a submission. *)
Inductive lifecycle_step : Submission → Submission → Prop :=
| step_transition s s' next now :
    TransitionTo s next now = Ok s' → lifecycle_step s s'
| step_mark_action s now : lifecycle_step s (MarkAction now s)
| step_attach_email s e : lifecycle_step s (AttachEmail e s)
| step_attach_document s d : lifecycle_step s (AttachDocument d s).

Inductive lifecycle_reach (s : Submission) : Submission → Prop :=
| reach_refl : lifecycle_reach s s
| reach_step s' s'' : lifecycle_reach s s' → lifecycle_step s' s'' → lifecycle_reach s s''.

Lemma TransitionTo_Ok_inv s next now s' :
  TransitionTo s next now = Ok s' →
  s'.(sub_State) = next ∧ s'.(sub_ID) = s.(sub_ID) ∧ s'.(sub_UpdatedAt) = now ∧
  (s.(sub_State) = next ∨ ∃ nexts, allowed s.(sub_State) = Some nexts ∧ next ∈ nexts).
Proof.
  unfold TransitionTo. case_bool_decide as E; [intros [= <-]; naive_solver|].
  destruct (allowed _) as [nexts|] eqn:Ea; [|done].
  case_bool_decide; [|done]. intros [= <-]. destruct next; naive_solver.
Qed.

Lemma TransitionTo_wf s next now s' :
  lifecycle_wf s → TransitionTo s next now = Ok s' → lifecycle_wf s'.
Proof.
  unfold TransitionTo. case_bool_decide as E; [by intros Hwf [= <-]|].
  unfold lifecycle_wf at 1.
  destruct s.(sub_State) eqn:Es, next; simpl; intros Hwf Hok; simplify_eq; unfold lifecycle_wf;
    simpl in *; try rewrite Es in *; naive_solver.
Qed.

Lemma TransitionTo_declared_target s next now s' :
  TransitionTo s next now = Ok s' → declared s.(sub_State) = true → declared next = true.
Proof.
  intros (_ & _ & _ & [<-|(nexts & Ha & Hin)])%TransitionTo_Ok_inv Hd; [done|].
  destruct s.(sub_State); simplify_eq/=; set_unfold in Hin; naive_solver.
Qed.

Lemma NewSubmission_wf id p subj fa fn tk now :
  lifecycle_wf (NewSubmission id p subj fa fn tk now).
Proof. done. Qed.

Lemma lifecycle_step_wf s s' : lifecycle_wf s → lifecycle_step s s' → lifecycle_wf s'.
Proof. intros Hwf Hs. destruct Hs; eauto using TransitionTo_wf. Qed.

Lemma lifecycle_reach_wf s s' : lifecycle_wf s → lifecycle_reach s s' → lifecycle_wf s'.
Proof. induction 2; eauto using lifecycle_step_wf. Qed.

(** Every declared state moves to awaiting and to complete. *)
Lemma TransitionTo_ingest_ok s next now :
  declared s.(sub_State) = true → next = StateAwaiting ∨ next = StateComplete →
  ∃ s', TransitionTo s next now = Ok s'.
Proof.
  unfold TransitionTo. intros Hd [-> | ->]; case_bool_decide; eauto;
    destruct s.(sub_State); try done; simpl; eauto.
Qed.

#[export] Hint Resolve TransitionTo_wf NewSubmission_wf : triage.

Lemma elem_of_filename_ids id docs :
  id ∈ filename_ids docs ↔
  ∃ d, d ∈ docs ∧ d.(doc_ClassifiedAs) = id ∧ id ≠ "" ∧ d.(doc_ClassifiedBy) = ClassifiedByFilename.
Proof. induction docs as [|d docs IH]; simpl; [|case_bool_decide]; set_solver. Qed.

Lemma elem_of_corroborated_ids id docs :
  id ∈ corroborated_ids docs ↔
  ∃ d, d ∈ docs ∧ d.(doc_ClassifiedAs) = id ∧ id ≠ "" ∧ corroborates d.(doc_ClassifiedBy) = true.
Proof.
  induction docs as [|d docs IH]; simpl.
  { split; [by intros ?%elem_of_empty|]. by intros (? & ?%elem_of_nil & _). }
  assert (id ∈ (if bool_decide (d.(doc_ClassifiedAs) ≠ "") && corroborates d.(doc_ClassifiedBy)
                then {[ d.(doc_ClassifiedAs) ]} ∪ corroborated_ids docs else corroborated_ids docs) ↔
          (id = d.(doc_ClassifiedAs) ∧ id ≠ "" ∧ corroborates d.(doc_ClassifiedBy) = true) ∨
          id ∈ corroborated_ids docs) as ->.
  { case_bool_decide; simpl; [destruct (corroborates _)|]; simpl;
      rewrite ?elem_of_union, ?elem_of_singleton; intuition congruence. }
  rewrite IH. split.
  - intros [(-> & ? & ?)|(d' & ? & ?)]; [exists d|exists d']; rewrite elem_of_cons; tauto.
  - intros (d' & [->|?]%elem_of_cons & <- & ? & ?); [by left|right; eauto].
Qed.

(** C12: along every sequence of the life-cycle methods that starts at a new
    submission, the escalation clock is set exactly while the submission is
    escalated and the completion clock exactly while it is complete (a closed one
    keeps the clock of the state it was closed from, never both), and neither the
    id nor the creation time ever changes. *)
Theorem lifecycle_invariant id p subj fa fn tk t s :
  lifecycle_reach (NewSubmission id p subj fa fn tk t) s →
  lifecycle_wf s ∧ s.(sub_ID) = id ∧ s.(sub_CreatedAt) = t.
Proof.
  intros Hr. split; [eauto using lifecycle_reach_wf with triage|].
  induction Hr as [|s' s'' Hr IH Hs]; [done|].
  destruct IH as [<- <-]. destruct Hs as [? ? next now Hok| | |]; try done.
  unfold TransitionTo in Hok. repeat case_match; simplify_eq; try done; by destruct next.
Qed.

Lemma lifecycle_invariant_witness :
  ∃ s, s.(sub_State) = StateEscalated ∧ s.(sub_EscalatedAt) = Some 7 ∧
       (lifecycle_wf s ∧ s.(sub_ID) = "id" ∧ s.(sub_CreatedAt) = 3).
Proof.
  eexists. split; [|split; [|apply (lifecycle_invariant "id" "cgl" "" "" "" "" 3)]].
  3:{ eapply reach_step; [eapply reach_step; [apply reach_refl|]|].
      - apply (step_transition _ _ StateAwaiting 5). reflexivity.
      - apply (step_transition _ _ StateEscalated 7). reflexivity. }
  all: reflexivity.
Defined.

(** [TransitionTo] succeeds exactly when the submission is already in the
    requested state or the table [allowed] lists the move, and it is then in that
    state with a fresh update time (and a fresh activity clock unless it stayed);
    otherwise the error is an [ErrInvalidTransition]. *)
Theorem TransitionTo_spec s next now :
  match TransitionTo s next now with
  | Ok s' =>
      s'.(sub_State) = next ∧ s'.(sub_UpdatedAt) = now ∧
      (if bool_decide (s.(sub_State) = next)
       then s' = sub_with_UpdatedAt now s
       else (∃ nexts, allowed s.(sub_State) = Some nexts ∧ next ∈ nexts) ∧
            s'.(sub_LastActionAt) = now ∧ s'.(sub_LastEscalatedAt) = s.(sub_LastEscalatedAt) ∧
            s'.(sub_Documents) = s.(sub_Documents) ∧ s'.(sub_Emails) = s.(sub_Emails))
  | Err e =>
      errors_Is e ErrInvalidTransition = true ∧ s.(sub_State) ≠ next ∧
      ∀ nexts, allowed s.(sub_State) = Some nexts → next ∉ nexts
  end.
Proof.
  unfold TransitionTo. case_bool_decide as E; [done|].
  destruct (allowed _) as [nexts|] eqn:Ha; [|done].
  case_bool_decide; [destruct next|]; naive_solver.
Qed.

Lemma reach_avoids_escalation s s' :
  lifecycle_reach s s' → s.(sub_State) = StateComplete ∨ s.(sub_State) = StateClosed →
  (s'.(sub_State) = StateComplete ∨ s'.(sub_State) = StateClosed) ∨
  ∃ m, lifecycle_reach s m ∧ lifecycle_reach m s' ∧ m.(sub_State) = StateAwaiting.
Proof.
  induction 1 as [|s' s'' Hr IH Hs]; [by left|]. intros Hst.
  destruct (IH Hst) as [Hs'|(m & ? & ? & ?)]; [|right; exists m; eauto using reach_step].
  destruct Hs as [x y next now Hok| | |]; [|by left..].
  destruct (TransitionTo_Ok_inv _ _ _ _ Hok) as (Hy & _ & _ & Hnext).
  destruct (decide (next = StateAwaiting)) as [->|Hna].
  - right. exists y. repeat split; [|constructor|done].
    eapply reach_step; [done|]. eapply step_transition, Hok.
  - left. rewrite Hy. destruct Hnext as [<-|(nexts & Ha & Hin)]; [done|].
    destruct Hs' as [Hs'|Hs']; rewrite Hs' in Ha; simplify_eq/=; set_unfold in Hin; naive_solver.
Qed.

(** A completed or closed submission never escalates without the broker
    owing something again: every history from such a submission to an escalated
    one passes through awaiting. *)
Theorem escalation_needs_awaiting s s' :
  lifecycle_reach s s' →
  s.(sub_State) = StateComplete ∨ s.(sub_State) = StateClosed →
  s'.(sub_State) = StateEscalated →
  ∃ m, lifecycle_reach s m ∧ lifecycle_reach m s' ∧ m.(sub_State) = StateAwaiting.
Proof.
  intros Hr Hst Hesc. destruct (reach_avoids_escalation _ _ Hr Hst) as [[H|H]|?]; [congruence..|done].
Qed.

Definition demo_closed : Submission :=
  sub_with_State StateClosed (NewSubmission "id" "cgl" "" "" "" "" 3).

Lemma escalation_needs_awaiting_witness :
  ∃ s', s'.(sub_State) = StateEscalated ∧
  ∃ m, lifecycle_reach demo_closed m ∧ lifecycle_reach m s' ∧ m.(sub_State) = StateAwaiting.
Proof.
  eexists. split; [|apply (escalation_needs_awaiting demo_closed)].
  2:{ eapply reach_step; [eapply reach_step; [apply reach_refl|]|].
      - apply (step_transition _ _ StateAwaiting 5). reflexivity.
      - apply (step_transition _ _ StateEscalated 7). reflexivity. }
  all: [> reflexivity | right; reflexivity | reflexivity ].
Defined.

(** [FilenameOnlyMatches] returns, in strictly increasing order, exactly the
    item ids some document matched by file name alone while no document of the
    submission corroborates them by keyword or LLM. *)
Theorem FilenameOnlyMatches_spec docs :
  NoDup (FilenameOnlyMatches docs) ∧ ordered string_lt (FilenameOnlyMatches docs) ∧
  ∀ id, id ∈ FilenameOnlyMatches docs ↔
    (∃ d, d ∈ docs ∧ d.(doc_ClassifiedAs) = id ∧ id ≠ "" ∧
          d.(doc_ClassifiedBy) = ClassifiedByFilename) ∧
    (∀ d, d ∈ docs → d.(doc_ClassifiedAs) = id → corroborates d.(doc_ClassifiedBy) = false).
Proof.
  unfold FilenameOnlyMatches, sort_Strings. split_and!.
  - rewrite sort_by_perm. apply NoDup_ListNoDup, List.NoDup_filter, NoDup_ListNoDup, NoDup_elements.
  - apply sort_by_ordered, _.
  - intros id. rewrite sort_by_in, list_elem_of_In, filter_In, <- list_elem_of_In, elem_of_elements.
    rewrite bool_decide_eq_true, elem_of_filename_ids, elem_of_corroborated_ids.
    split; intros [H1 H2]; (split; [done|]).
    + intros d Hd Hid. destruct (corroborates _) eqn:E; [|done]. exfalso. apply H2.
      exists d. destruct H1 as (? & _ & _ & ? & _). done.
    + intros (d & Hd & Hid & _ & Hc). rewrite H2 in Hc; done.
Qed.
