(* ===== verification/Checklist.v ===== *)
(** Checklist evaluation: [internal/model/checklist.go].

    [EvaluateChecklist] is the two-pass algorithm of the source: one pass over the
    documents fills a map from item id to [itemDocs], one pass over the required
    items reads it.  [Spec.missing_of] is the declarative reading of the same
    rules, one item at a time over the submission's documents, and
    [EvaluateChecklist_refines] is the equivalence the other theorems use. *)
From Stdlib Require Import ZArith SpecFloat.
From stdpp Require Import base list strings gmap.
From S2P Require Import Prelude GoStrings GoValues Submission.

Open Scope Z_scope.

Definition reasonNotProvidedText : string := "document not provided".
Definition reasonLowConfidenceText : string := "received but not confidently identified".
Definition reasonUnreadableText : string := "received but no readable text (appears scanned)".
Definition reasonEncryptedText : string := "received but password-protected (cannot open)".
Definition reasonPolicyUnknownText : string := "awaiting clarification from sender".

Definition PolicyUnknownItemID : string := "policy_unknown".

Definition PolicyUnknownItem : MissingItem :=
  mkMissingItem PolicyUnknownItemID "Policy type not yet determined" reasonPolicyUnknownText
    ReasonPolicyUnknown f64_zero.

(** ** Routing of missing items *)

Definition needs_review_code (c : ReasonCode) : bool :=
  match c with ReasonUnreadable | ReasonLowConfidence => true | _ => false end.

Fixpoint RequiresReview (missing : list MissingItem) : bool :=
  match missing with
  | [] => false
  | m :: rest => if needs_review_code m.(mi_Code) then true else RequiresReview rest
  end.

Definition broker_code (c : ReasonCode) : bool :=
  match c with
  | ReasonNotProvided | ReasonFieldShortfall | ReasonEncrypted | ReasonMissingAttachment
  | ReasonPolicyUnknown => true
  | _ => false
  end.

Definition BrokerActionable (missing : list MissingItem) : list MissingItem :=
  List.filter (λ m, broker_code m.(mi_Code)) missing.

(** ** Checklists *)

Record MatchRules : Type := mkMatchRules {
  mr_FilenamePatterns : list string;
  mr_ContentKeywords : list string }.

Record EscalationPolicy : Type := mkEscalationPolicy {
  ep_ThresholdHours : Z;
  ep_DigestRecipient : string }.

Inductive FieldType : Type := FieldTypeNumber | FieldTypeString.

#[export] Instance FieldType_eq_dec : EqDecision FieldType.
Proof. solve_decision. Defined.

Record RequiresField : Type := mkRequiresField {
  rf_Name : string;
  rf_Type : FieldType;
  rf_MinValue : option float64;
  rf_Unit : string }.

Record RequiredItem : Type := mkRequiredItem {
  ri_ID : string;
  ri_Description : string;
  ri_Match : MatchRules;
  ri_RequiresField : option RequiresField }.

Record Checklist : Type := mkChecklist {
  cl_Name : string;
  cl_PolicyType : string;
  cl_Required : list RequiredItem;
  cl_Escalation : EscalationPolicy }.

Record ChecklistOptions : Type := mkChecklistOptions { co_ConfidenceFloor : float64 }.

(** The documents classified to one required item. *)
Record itemDocs : Type := mkItemDocs {
  id_qualifying : list Document;
  id_unreadable : bool;
  id_encrypted : bool;
  id_lowConfidence : bool;
  id_topConfidence : float64 }.

Definition empty_itemDocs : itemDocs := mkItemDocs [] false false false f64_zero.

Section evaluate.
Context {L : GoLib}.

Definition formatNum (f : float64) : string := FormatFloat f.

Definition unconfirmedReason (unit : string) : string :=
  if bool_decide (unit ≠ "") then "could not confirm the number of " +:+ unit +:+ " covered"
  else "could not confirm the required detail on this document".

Definition shortfallReason (unit : string) (have need : float64) : string :=
  if bool_decide (unit ≠ "") then
    "covers only " +:+ formatNum have +:+ " " +:+ unit +:+ ", need at least " +:+ formatNum need
  else "only " +:+ formatNum have +:+ " provided, need at least " +:+ formatNum need.

Definition numericValue (v : any) : option float64 :=
  let check f := if IsNaN f || IsInf f then None else Some f in
  match v with
  | AFloat64 f | AFloat32 f => check f
  | AInt z | AInt64 z => check (f64_of_Z z)
  | AString s => match ParseFloat (TrimSpace s) with Some f => check f | None => None end
  | _ => None
  end.

(** [(reason, ok, ran)] *)
Definition evaluateField (rf : RequiresField) (doc : Document) : string * bool * bool :=
  match doc.(doc_ExtractedFields) with
  | None => ("", true, false)
  | Some fields =>
    match fields !! rf.(rf_Name) with
    | None => ("", true, false)
    | Some ANil => (unconfirmedReason rf.(rf_Unit), false, true)
    | Some raw =>
      match rf.(rf_MinValue) with
      | Some min =>
        match numericValue raw with
        | None => (unconfirmedReason rf.(rf_Unit), false, true)
        | Some f =>
            if f64_lt f min then (shortfallReason rf.(rf_Unit) f min, false, true)
            else ("", true, true)
        end
      | None =>
        if bool_decide (rf.(rf_Type) = FieldTypeNumber) then
          match numericValue raw with
          | None => (unconfirmedReason rf.(rf_Unit), false, true)
          | Some _ => ("", true, true)
          end
        else ("", true, true)
      end
    end
  end.

(** The loop over [b.qualifying]: returns [affirmed], [failed] and the reason. *)
Fixpoint field_loop (rf : RequiresField) (docs : list Document)
    (failed : bool) (failReason : string) : bool * bool * string :=
  match docs with
  | [] => (false, failed, failReason)
  | doc :: rest =>
      let '(reason, ok, ran) := evaluateField rf doc in
      if ok && ran then (true, failed, failReason)
      else if negb ok then field_loop rf rest true reason
      else field_loop rf rest failed failReason
  end.

Definition unsatisfiedItem (item : RequiredItem) (b : option itemDocs) : MissingItem :=
  let m := mkMissingItem item.(ri_ID) item.(ri_Description) in
  match b with
  | None => m reasonNotProvidedText ReasonNotProvided f64_zero
  | Some b =>
      if b.(id_encrypted) then m reasonEncryptedText ReasonEncrypted f64_zero
      else if b.(id_unreadable) then m reasonUnreadableText ReasonUnreadable f64_zero
      else if b.(id_lowConfidence) then
        m reasonLowConfidenceText ReasonLowConfidence b.(id_topConfidence)
      else m reasonNotProvidedText ReasonNotProvided f64_zero
  end.

(** One iteration of the document loop, on the bucket of the document's item. *)
Definition bucket_add (opts : ChecklistOptions) (d : Document) (b : itemDocs) : itemDocs :=
  if d.(doc_Encrypted) then
    mkItemDocs b.(id_qualifying) b.(id_unreadable) true b.(id_lowConfidence) b.(id_topConfidence)
  else if d.(doc_Unreadable) then
    mkItemDocs b.(id_qualifying) true b.(id_encrypted) b.(id_lowConfidence) b.(id_topConfidence)
  else if f64_lt d.(doc_Confidence) opts.(co_ConfidenceFloor) then
    mkItemDocs b.(id_qualifying) b.(id_unreadable) b.(id_encrypted) true
      (math_Max b.(id_topConfidence) d.(doc_Confidence))
  else
    mkItemDocs (b.(id_qualifying) ++ [d]) b.(id_unreadable) b.(id_encrypted)
      b.(id_lowConfidence) b.(id_topConfidence).

Definition bucket_doc (opts : ChecklistOptions) (byItem : gmap string itemDocs) (d : Document)
  : gmap string itemDocs :=
  if bool_decide (d.(doc_ClassifiedAs) = "") then byItem
  else <[ d.(doc_ClassifiedAs) :=
            bucket_add opts d (default empty_itemDocs (byItem !! d.(doc_ClassifiedAs))) ]> byItem.

Definition bucket_docs (opts : ChecklistOptions) (docs : list Document) : gmap string itemDocs :=
  foldl (bucket_doc opts) ∅ docs.

(** One iteration of the item loop: the item to append, if any. *)
Definition evaluate_item (byItem : gmap string itemDocs) (item : RequiredItem) : option MissingItem :=
  let b := byItem !! item.(ri_ID) in
  match b with
  | None => Some (unsatisfiedItem item b)
  | Some bk =>
    match bk.(id_qualifying) with
    | [] => Some (unsatisfiedItem item b)
    | q =>
      match item.(ri_RequiresField) with
      | None => None
      | Some rf =>
        let '(affirmed, failed, failReason) := field_loop rf q false "" in
        if negb affirmed && failed then
          Some (mkMissingItem item.(ri_ID) item.(ri_Description) failReason ReasonFieldShortfall
                  f64_zero)
        else None
      end
    end
  end.

Definition EvaluateChecklist (s : Submission) (c : Checklist) (opts : ChecklistOptions)
  : list MissingItem :=
  omap (evaluate_item (bucket_docs opts s.(sub_Documents))) c.(cl_Required).
End evaluate.

(** ** Declarative specification *)

Module Spec.
Section spec.
Context {L : GoLib} (opts : ChecklistOptions).

(** What a document classified to an item counts as. *)
Inductive verdict := VEncrypted | VUnreadable | VLowConfidence | VQualifies.

Definition verdict_of (d : Document) : verdict :=
  if d.(doc_Encrypted) then VEncrypted
  else if d.(doc_Unreadable) then VUnreadable
  else if f64_lt d.(doc_Confidence) opts.(co_ConfidenceFloor) then VLowConfidence
  else VQualifies.

Definition is_verdict (v : verdict) (d : Document) : bool :=
  match v, verdict_of d with
  | VEncrypted, VEncrypted | VUnreadable, VUnreadable
  | VLowConfidence, VLowConfidence | VQualifies, VQualifies => true
  | _, _ => false
  end.

(** The documents classified to item [id], in submission order. *)
Definition docs_for (id : string) (docs : list Document) : list Document :=
  List.filter (λ d, bool_decide (d.(doc_ClassifiedAs) = id ∧ id ≠ "")) docs.

Definition qualifying (id : string) (docs : list Document) : list Document :=
  List.filter (is_verdict VQualifies) (docs_for id docs).

Definition affirms (rf : RequiresField) (d : Document) : bool :=
  let '(_, ok, ran) := evaluateField rf d in ok && ran.

Definition fails (rf : RequiresField) (d : Document) : bool :=
  let '(_, ok, _) := evaluateField rf d in negb ok.

(** The item is accounted for: some document qualifies, and if a field is required,
    some qualifying document affirms it or none of them fails it. *)
Definition satisfied (item : RequiredItem) (docs : list Document) : Prop :=
  qualifying item.(ri_ID) docs ≠ [] ∧
  match item.(ri_RequiresField) with
  | None => True
  | Some rf =>
      Exists (λ d, affirms rf d = true) (qualifying item.(ri_ID) docs) ∨
      Forall (λ d, fails rf d = false) (qualifying item.(ri_ID) docs)
  end.

Definition unsatisfied_code (id : string) (docs : list Document) : ReasonCode :=
  let ds := docs_for id docs in
  if existsb (is_verdict VEncrypted) ds then ReasonEncrypted
  else if existsb (is_verdict VUnreadable) ds then ReasonUnreadable
  else if existsb (is_verdict VLowConfidence) ds then ReasonLowConfidence
  else ReasonNotProvided.

(** The reason code with which [item] is reported missing; [None] if it is not. *)
Definition missing_code (item : RequiredItem) (docs : list Document) : option ReasonCode :=
  match qualifying item.(ri_ID) docs with
  | [] => Some (unsatisfied_code item.(ri_ID) docs)
  | q =>
    match item.(ri_RequiresField) with
    | None => None
    | Some rf =>
        if existsb (affirms rf) q then None
        else if existsb (fails rf) q then Some ReasonFieldShortfall else None
    end
  end.
End spec.
End Spec.

(** ** Refinement *)

Arguments unsatisfiedItem : simpl never.

Section refinement.
Context {L : GoLib} (opts : ChecklistOptions).

Definition bucket_of (ds : list Document) : itemDocs :=
  foldl (λ b d, bucket_add opts d b) empty_itemDocs ds.

Lemma bucket_of_snoc ds d : bucket_of (ds ++ [d]) = bucket_add opts d (bucket_of ds).
Proof. unfold bucket_of. by rewrite foldl_app. Qed.

Lemma docs_for_snoc id docs d :
  Spec.docs_for id (docs ++ [d]) =
  Spec.docs_for id docs ++ (if bool_decide (d.(doc_ClassifiedAs) = id ∧ id ≠ "") then [d] else []).
Proof. unfold Spec.docs_for. rewrite List.filter_app. simpl. by case_bool_decide. Qed.

Lemma bucket_docs_lookup docs id :
  bucket_docs opts docs !! id =
  match Spec.docs_for id docs with [] => None | ds => Some (bucket_of ds) end.
Proof.
  induction docs as [|d docs IH] using rev_ind; [done|].
  unfold bucket_docs. rewrite foldl_app. simpl. fold (bucket_docs opts docs).
  rewrite docs_for_snoc. unfold bucket_doc.
  case_bool_decide as E.
  { rewrite bool_decide_eq_false_2 by naive_solver. by rewrite app_nil_r. }
  destruct (decide (d.(doc_ClassifiedAs) = id)) as [<-|Hne].
  - rewrite lookup_insert_eq, bool_decide_eq_true_2 by done.
    replace (default empty_itemDocs _) with (bucket_of (Spec.docs_for (doc_ClassifiedAs d) docs)).
    2:{ rewrite IH. by destruct (Spec.docs_for _ _). }
    rewrite <- bucket_of_snoc. by destruct (Spec.docs_for _ _).
  - rewrite lookup_insert_ne, bool_decide_eq_false_2 by naive_solver. by rewrite app_nil_r.
Qed.

Lemma existsb_snoc {A} (f : A → bool) l x : existsb f (l ++ [x]) = existsb f l || f x.
Proof. rewrite existsb_app. simpl. by rewrite orb_false_r. Qed.

(** What the bucket of a list of documents holds. *)
Lemma bucket_of_spec ds :
  (bucket_of ds).(id_qualifying) = List.filter (Spec.is_verdict opts Spec.VQualifies) ds ∧
  (bucket_of ds).(id_encrypted) = existsb (Spec.is_verdict opts Spec.VEncrypted) ds ∧
  (bucket_of ds).(id_unreadable) = existsb (Spec.is_verdict opts Spec.VUnreadable) ds ∧
  (bucket_of ds).(id_lowConfidence) = existsb (Spec.is_verdict opts Spec.VLowConfidence) ds.
Proof.
  induction ds as [|d ds (IHq & IHe & IHu & IHl)] using rev_ind; [done|].
  rewrite bucket_of_snoc, List.filter_app, !existsb_snoc, <- IHq, <- IHe, <- IHu, <- IHl.
  unfold bucket_add, Spec.is_verdict, Spec.verdict_of. simpl.
  repeat case_match; simplify_eq/=; rewrite ?orb_true_r, ?orb_false_r, ?app_nil_r; done.
Qed.

(** The loop with its early exit computes "some document affirms", else "some fails". *)
Lemma field_loop_spec rf docs failed reason :
  let '(affirmed, failed', _) := field_loop rf docs failed reason in
  affirmed = existsb (Spec.affirms rf) docs ∧
  (affirmed = false → failed' = failed || existsb (Spec.fails rf) docs).
Proof.
  revert failed reason. induction docs as [|d docs IH]; intros failed reason; simpl.
  { by rewrite orb_false_r. }
  unfold Spec.affirms at 1, Spec.fails at 1.
  destruct (evaluateField rf d) as [[r ok] ran].
  destruct ok, ran; simpl; try done.
  - apply IH.
  - specialize (IH true r). destruct (field_loop _ _ _ _) as [[a f] ?].
    destruct IH as [? IH]. split; [done|]. intros Ha. rewrite (IH Ha). by rewrite orb_true_r.
  - specialize (IH true r). destruct (field_loop _ _ _ _) as [[a f] ?].
    destruct IH as [? IH]. split; [done|]. intros Ha. rewrite (IH Ha). by rewrite orb_true_r.
Qed.

Lemma unsatisfiedItem_spec item docs :
  unsatisfiedItem item (bucket_docs opts docs !! item.(ri_ID)) =
    unsatisfiedItem item (Some (bucket_of (Spec.docs_for item.(ri_ID) docs))) ∧
  (unsatisfiedItem item (bucket_docs opts docs !! item.(ri_ID))).(mi_Code) =
    Spec.unsatisfied_code opts item.(ri_ID) docs.
Proof.
  rewrite bucket_docs_lookup. destruct (Spec.docs_for _ _) eqn:E; [|split; [done|]].
  - unfold Spec.unsatisfied_code. by rewrite E.
  - unfold Spec.unsatisfied_code. rewrite E. set (ds := _ :: _).
    destruct (bucket_of_spec ds) as (_ & He & Hu & Hl). unfold unsatisfiedItem.
    rewrite He, Hu, Hl. by repeat case_match.
Qed.

Definition item_code (m : MissingItem) : string * ReasonCode := (m.(mi_ID), m.(mi_Code)).

Lemma evaluate_item_spec docs item :
  item_code <$> evaluate_item (bucket_docs opts docs) item =
  (λ c, (item.(ri_ID), c)) <$> Spec.missing_code opts item docs.
Proof.
  assert (∀ b, (unsatisfiedItem item b).(mi_ID) = item.(ri_ID)) as Hid.
  { intros [b|]; [|done]. unfold unsatisfiedItem. by repeat case_match. }
  destruct (unsatisfiedItem_spec item docs) as [_ Hcode].
  unfold evaluate_item, Spec.missing_code, Spec.qualifying.
  rewrite bucket_docs_lookup in *.
  destruct (Spec.docs_for item.(ri_ID) docs) as [|d0 ds0] eqn:E.
  { simpl. by rewrite <- Hcode. }
  destruct (bucket_of_spec (d0 :: ds0)) as (Hq & _). rewrite <- Hq in *.
  destruct (id_qualifying _) as [|q0 qs].
  { simpl. unfold item_code. by rewrite Hid, Hcode. }
  destruct item.(ri_RequiresField) as [rf|]; [|done].
  pose proof (field_loop_spec rf (q0 :: qs) false "") as Hloop.
  destruct (field_loop _ _ _ _) as [[a f] r]. destruct Hloop as [-> Hf].
  destruct (existsb (Spec.affirms rf) _); [done|]. rewrite (Hf eq_refl).
  by destruct (existsb (Spec.fails rf) (q0 :: qs)).
Qed.

Lemma missing_code_None item docs :
  Spec.missing_code opts item docs = None ↔ Spec.satisfied opts item docs.
Proof.
  unfold Spec.missing_code, Spec.satisfied.
  destruct (Spec.qualifying _ _ _) as [|q qs] eqn:Eq; [naive_solver|].
  destruct item.(ri_RequiresField) as [rf|]; [|naive_solver].
  destruct (existsb (Spec.affirms rf) (q :: qs)) eqn:Ea.
  { split; [|done]. split; [done|]. left. apply existsb_exists in Ea as (d & ? & ?).
    apply Exists_exists. exists d. by rewrite list_elem_of_In. }
  assert (¬ Exists (λ d, Spec.affirms rf d = true) (q :: qs)) as Hna.
  { intros (d & Hin & Hd)%Exists_exists. apply list_elem_of_In in Hin.
    assert (existsb (Spec.affirms rf) (q :: qs) = true) by (apply existsb_exists; eauto).
    congruence. }
  destruct (existsb (Spec.fails rf) (q :: qs)) eqn:Ef.
  - split; [done|]. intros [_ [?|Hall]]; [done|].
    apply existsb_exists in Ef as (d & Hin & Hd). rewrite Forall_forall in Hall.
    apply list_elem_of_In, Hall in Hin. congruence.
  - split; [|done]. split; [done|]. right. apply Forall_forall. intros d Hin.
    destruct (Spec.fails rf d) eqn:Hd; [|done].
    assert (existsb (Spec.fails rf) (q :: qs) = true).
    { apply existsb_exists. exists d. by rewrite <- list_elem_of_In. }
    congruence.
Qed.

Lemma elem_of_EvaluateChecklist s c m :
  m ∈ EvaluateChecklist s c opts ↔
  ∃ item, item ∈ c.(cl_Required) ∧
          evaluate_item (bucket_docs opts s.(sub_Documents)) item = Some m.
Proof. unfold EvaluateChecklist. rewrite list_elem_of_omap. naive_solver. Qed.

(** The codes evaluation can report. *)
Lemma missing_code_routed item docs code :
  Spec.missing_code opts item docs = Some code →
  code = ReasonNotProvided ∨ code = ReasonLowConfidence ∨ code = ReasonUnreadable ∨
  code = ReasonFieldShortfall ∨ code = ReasonEncrypted.
Proof.
  unfold Spec.missing_code, Spec.unsatisfied_code. intros. repeat case_match; simplify_eq; tauto.
Qed.
End refinement.

Lemma RequiresReview_existsb missing :
  RequiresReview missing = existsb (λ m, needs_review_code m.(mi_Code)) missing.
Proof. induction missing as [|m l IH]; simpl; [done|]. rewrite IH. by destruct (needs_review_code _). Qed.

(** ** Properties *)

Section properties.
Context {L : GoLib}.

(** C11: the one-pass bucketing algorithm reports, in checklist order, exactly the
    items the declarative rules call missing, each with the reason code they give:
    an item with no qualifying document is encrypted, unreadable, low-confidence or
    not provided, in that order of precedence; one with a qualifying document is a
    field shortfall iff some qualifying document fails the field and none affirms
    it. *)
Theorem EvaluateChecklist_refines s c opts :
  item_code <$> EvaluateChecklist s c opts =
  omap (λ item, (λ code, (item.(ri_ID), code)) <$> Spec.missing_code opts item s.(sub_Documents))
    c.(cl_Required).
Proof.
  unfold EvaluateChecklist. induction c.(cl_Required) as [|item l IH]; [done|].
  pose proof (evaluate_item_spec opts s.(sub_Documents) item) as Hi. cbn [omap list_omap].
  rewrite <- Hi, <- IH. by destruct (evaluate_item _ item).
Qed.

Lemma EvaluateChecklist_nil s c opts :
  EvaluateChecklist s c opts = [] ↔
  Forall (λ item, Spec.satisfied opts item s.(sub_Documents)) c.(cl_Required).
Proof.
  unfold EvaluateChecklist. induction c.(cl_Required) as [|item l IH]; [done|].
  rewrite Forall_cons, <- missing_code_None. cbn [omap list_omap].
  pose proof (evaluate_item_spec opts s.(sub_Documents) item) as Hi.
  destruct (evaluate_item _ item), (Spec.missing_code opts item _); simplify_eq/=; naive_solver.
Qed.

(** Nothing is reported missing exactly when every required item is satisfied,
    that is, has a qualifying document and, where a field is required, one that
    affirms it or none that fails it. *)
Theorem EvaluateChecklist_complete s c opts :
  EvaluateChecklist s c opts = [] ↔
  ∀ item, item ∈ c.(cl_Required) → Spec.satisfied opts item s.(sub_Documents).
Proof. rewrite EvaluateChecklist_nil. apply Forall_forall. Qed.

Lemma EvaluateChecklist_codes s c opts m :
  m ∈ EvaluateChecklist s c opts →
  broker_code m.(mi_Code) = negb (needs_review_code m.(mi_Code)).
Proof.
  intros (item & _ & Hm)%elem_of_EvaluateChecklist.
  pose proof (evaluate_item_spec opts s.(sub_Documents) item) as Hi. rewrite Hm in Hi.
  destruct (Spec.missing_code opts item _) as [code|] eqn:Hc; simplify_eq/=.
  apply missing_code_routed in Hc. injection Hi as _ ->.
  by destruct Hc as [->|[->|[->|[->| ->]]]].
Qed.

(** No missing item falls between the two queues: each one evaluation reports is
    either the broker's to act on or flagged for review, never both, so a submission
    with anything outstanding has something to ask for or a review flag, and without
    a review flag everything outstanding is asked for. *)
Theorem missing_items_routed s c opts :
  let missing := EvaluateChecklist s c opts in
  Forall (λ m, xorb (broker_code m.(mi_Code)) (needs_review_code m.(mi_Code)) = true) missing ∧
  (missing = [] ∨ BrokerActionable missing ≠ [] ∨ RequiresReview missing = true) ∧
  (RequiresReview missing = true ∨ BrokerActionable missing = missing).
Proof.
  intros missing.
  assert (Forall (λ m, broker_code m.(mi_Code) = negb (needs_review_code m.(mi_Code))) missing)
    as Hall by (apply Forall_forall; eauto using EvaluateChecklist_codes).
  rewrite RequiresReview_existsb. clearbody missing. split_and!.
  - eapply Forall_impl; [done|]. simpl. intros m ->. by destruct (needs_review_code _).
  - destruct Hall as [|m l Hm _]; [by left|right]. unfold BrokerActionable. simpl. rewrite Hm.
    destruct (needs_review_code _); [by right|by left].
  - induction Hall as [|m l Hm _ IH]; [by right|]. unfold BrokerActionable in *. simpl. rewrite Hm.
    destruct (needs_review_code _); [by left|]. simpl. destruct IH as [->| ->]; [by left|by right].
Qed.

Lemma qualifying_snoc opts id docs d :
  Spec.qualifying opts id (docs ++ [d]) = Spec.qualifying opts id docs ∨
  (Spec.qualifying opts id (docs ++ [d]) = Spec.qualifying opts id docs ++ [d] ∧
   d.(doc_ClassifiedAs) = id).
Proof.
  unfold Spec.qualifying. rewrite docs_for_snoc, List.filter_app.
  case_bool_decide as E; [|left; apply app_nil_r].
  cbn [List.filter]. destruct (Spec.is_verdict opts Spec.VQualifies d);
    [right; by destruct E|left; apply app_nil_r].
Qed.

Lemma satisfied_snoc opts item docs d :
  (∀ rf, item.(ri_RequiresField) = Some rf → d.(doc_ClassifiedAs) = item.(ri_ID) →
         Spec.fails rf d = false) →
  Spec.satisfied opts item docs → Spec.satisfied opts item (docs ++ [d]).
Proof.
  unfold Spec.satisfied. intros Hd [Hq Hrf].
  destruct (qualifying_snoc opts item.(ri_ID) docs d) as [->|[-> Hid]]; [done|].
  split; [by destruct (Spec.qualifying opts _ _)|].
  destruct item.(ri_RequiresField) as [rf|]; [|done].
  rewrite Exists_app, Forall_app, Forall_singleton.
  destruct Hrf as [?|?]; [left; by left|right; by eauto].
Qed.

(** Sending more never loses ground: attaching a document that fails no field
    rule of the item it is classified to makes no satisfied item missing, so every
    item still outstanding afterwards was outstanding before. *)
Theorem attach_document_monotone s c opts d :
  (∀ item rf, item ∈ c.(cl_Required) → item.(ri_RequiresField) = Some rf →
              d.(doc_ClassifiedAs) = item.(ri_ID) → Spec.fails rf d = false) →
  ∀ m, m ∈ EvaluateChecklist (AttachDocument d s) c opts →
       ∃ m', m' ∈ EvaluateChecklist s c opts ∧ m'.(mi_ID) = m.(mi_ID).
Proof.
  intros Hd m (item & Hin & Hm)%elem_of_EvaluateChecklist.
  pose proof (evaluate_item_spec opts (s.(sub_Documents) ++ [d]) item) as Hnew.
  pose proof (evaluate_item_spec opts s.(sub_Documents) item) as Hold.
  change (sub_Documents (AttachDocument d s)) with (s.(sub_Documents) ++ [d]) in Hm.
  rewrite Hm in Hnew.
  destruct (Spec.missing_code opts item (_ ++ _)) as [code|] eqn:Ec; simplify_eq/=.
  destruct (evaluate_item (bucket_docs opts s.(sub_Documents)) item) as [m'|] eqn:Hm'.
  - exists m'. split; [apply elem_of_EvaluateChecklist; eauto|].
    destruct (Spec.missing_code opts item s.(sub_Documents)); [|done].
    unfold item_code in *. cbn in *. congruence.
  - destruct (Spec.missing_code opts item s.(sub_Documents)) eqn:Eo; simplify_eq/=.
    apply missing_code_None in Eo. eapply satisfied_snoc, missing_code_None in Eo; [|eauto].
    congruence.
Qed.
End properties.

(** A runtime for evaluating examples: no case pairs above ASCII, the digest of a
    string is the string itself, and no text parses as a number, date or address. *)
Definition demo_lib : GoLib :=
  {| golib_unicode := ascii_unicode; FormatFloat _ := "5"; ParseFloat _ := None;
     sha256_hex s := s; ParseMediaType s := Some (s, []); ParseAddress _ := None;
     time_Parse _ _ := None |}.

Definition demo_item (id : string) : RequiredItem :=
  mkRequiredItem id ("The " +:+ id) (mkMatchRules [] []) None.

Definition demo_checklist : Checklist :=
  mkChecklist "Cyber" "cyber_liability" [demo_item "app"; demo_item "loss_runs"]
    (mkEscalationPolicy 0 "").

Definition demo_doc (id : string) : Document :=
  mkDocument "d1" "s1" "e1" "a.pdf" "application/pdf" 10 "" id (f64_ratio 95 100)
    ClassifiedByFilename "text" None false false 0.

Definition demo_opts : ChecklistOptions := mkChecklistOptions (f64_ratio 80 100).

Lemma attach_document_monotone_witness :
  let s := NewSubmission "s1" "cyber_liability" "" "" "" "" 0 in
  let s' := AttachDocument (demo_doc "app") s in
  length (EvaluateChecklist (L := demo_lib) s' demo_checklist demo_opts) = 1%nat ∧
  ∀ m, m ∈ EvaluateChecklist (L := demo_lib) s' demo_checklist demo_opts →
       ∃ m', m' ∈ EvaluateChecklist (L := demo_lib) s demo_checklist demo_opts ∧
             m'.(mi_ID) = m.(mi_ID).
Proof.
  split; [vm_compute; reflexivity|].
  apply (attach_document_monotone (L := demo_lib)).
  intros item rf Hin Hrf. repeat (apply elem_of_cons in Hin as [->|Hin]; [discriminate|]).
  by apply elem_of_nil in Hin.
Defined.
