(* ===== verification/Reply.v ===== *)
(** Reply construction: [internal/model/reply.go].

    The three reply builders with their exact texts, the greeting, the reply
    target, and the fingerprint that recognises a repeated ask.  The digest is the
    parameter [sha256_hex]; [fingerprint_preimage] is the byte string the source
    feeds to it. *)
From Stdlib Require Import ZArith Ascii.
From stdpp Require Import base list strings gmap.
From S2P Require Import Prelude GoStrings GoValues Submission.

Open Scope Z_scope.

Definition nl : string := String "010" "".
Definition nul : ascii := "000".
Definition unit_sep : ascii := "031".

(** ** Fingerprint *)

Inductive ReplyKind : Type := ReplyKindPolicyUnknown | ReplyKindCompletion | ReplyKindMissingItems.

#[export] Instance ReplyKind_eq_dec : EqDecision ReplyKind.
Proof. solve_decision. Defined.

Definition kind_string (k : ReplyKind) : string :=
  match k with
  | ReplyKindPolicyUnknown => "policy_unknown"
  | ReplyKindCompletion => "completion"
  | ReplyKindMissingItems => "missing_items"
  end.

Definition fingerprint_key (m : MissingItem) : string :=
  m.(mi_ID) +:+ String unit_sep (reason_string m.(mi_Code)).

(** [h.Write] of a NUL byte and a key, for every key. *)
Fixpoint nul_prefixed (keys : list string) : string :=
  match keys with [] => "" | k :: ks => String nul (k +:+ nul_prefixed ks) end.

Definition fingerprint_preimage (kind : ReplyKind) (items : list MissingItem) : string :=
  kind_string kind +:+ nul_prefixed (sort_Strings (map fingerprint_key items)).

Section reply.
Context {L : GoLib}.

Definition ReplyFingerprint (kind : ReplyKind) (items : list MissingItem) : string :=
  sha256_hex (fingerprint_preimage kind items).

(** ** Greeting *)

Definition is_control (r : Z) : bool := (r <? 32) || (r =? 127).

Definition sanitizeGreeting (s : string) : string :=
  strings_Map (λ r, if is_control r then -1 else r) s.

Definition roleLocalParts : list string := ["submissions"; "info"; "noreply"; "no-reply"; "support"].

Definition usableGreeting (local : string) : bool :=
  if len local <? 3 then false
  else if existsb is_control (runes local) then false
  else if ContainsAny local "0123456789" then false
  else negb (bool_decide (ToLower local ∈ roleLocalParts)).

Definition greeting_from_address (addr : string) : string :=
  match Index addr "@" with
  | Some at_ =>
      let local := stake at_ addr in
      if (0 <? Z.of_nat at_) && usableGreeting local then local else "there"
  | None => "there"
  end.

Definition greetingName (e : Email) : string :=
  if bool_decide (e.(em_FromName) ≠ "") then
    match Fields e.(em_FromName) with
    | p :: _ =>
        let name := sanitizeGreeting p in
        if bool_decide (name ≠ "") then name else greeting_from_address e.(em_FromAddress)
    | [] => greeting_from_address e.(em_FromAddress)
    end
  else greeting_from_address e.(em_FromAddress).

(** ** Assembly *)

Definition replyTarget (e : Email) : string :=
  let rt := TrimSpace e.(em_ReplyTo) in
  if bool_decide (rt ≠ "") then rt else e.(em_FromAddress).

Definition reply_subject (subject : string) : string :=
  if HasPrefix (ToLower subject) "re:" then subject else "Re: " +:+ subject.

Definition newReply (s : Submission) (body : string) (lastInbound : Email) : Reply :=
  mkReply s.(sub_ID) (replyTarget lastInbound) (reply_subject lastInbound.(em_Subject)) body
    lastInbound.(em_MessageID)
    (lastInbound.(em_References) ++
     (if bool_decide (lastInbound.(em_MessageID) ≠ "") then [lastInbound.(em_MessageID)] else [])).

Fixpoint hasCode (missing : list MissingItem) (code : ReasonCode) : bool :=
  match missing with
  | [] => false
  | m :: rest => if bool_decide (m.(mi_Code) = code) then true else hasCode rest code
  end.

Definition missingAttachmentLine : string :=
  "We didn't find any attachments on this message. If you sent a download link, could you attach the files directly instead?".

Definition encryptedLine (description : string) : string :=
  "We received " +:+ description +:+
  " but it's password-protected and we can't open it. Could you resend it unlocked, or send the password separately?".

Definition greeting_line (e : Email) : string := "Hi " +:+ greetingName e +:+ "," +:+ nl +:+ nl.

(** The bullet of an item that is absent or falls short of its rule. *)
Definition bullet (m : MissingItem) : string :=
  if bool_decide (m.(mi_Code) = ReasonFieldShortfall)
  then "  - " +:+ m.(mi_Description) +:+ " (" +:+ m.(mi_Reason) +:+ ")" +:+ nl
  else "  - " +:+ m.(mi_Description) +:+ nl.

Fixpoint concat_map (f : MissingItem → string) (l : list MissingItem) : string :=
  match l with [] => "" | m :: l' => f m +:+ concat_map f l' end.

Definition is_encrypted_item (m : MissingItem) : bool := bool_decide (m.(mi_Code) = ReasonEncrypted).

Definition missing_items_body (missing : list MissingItem) : string :=
  let absent := List.filter (λ m, negb (is_encrypted_item m)) missing in
  let encrypted := List.filter is_encrypted_item missing in
  (if bool_decide (absent ≠ []) then
     "Thanks for the submission. To finish the file we still need:" +:+ nl +:+ nl +:+
     concat_map bullet absent
   else "") +:+
  concat_map (λ m, nl +:+ encryptedLine m.(mi_Description) +:+ nl) encrypted +:+
  nl +:+ "Reply to this thread with the documents and we'll continue." +:+ nl.

Definition BuildMissingItemsReply (s : Submission) (missing : list MissingItem)
    (lastInbound : Email) : Reply :=
  if hasCode missing ReasonMissingAttachment then
    newReply s (greeting_line lastInbound +:+ missingAttachmentLine +:+ nl) lastInbound
  else newReply s (greeting_line lastInbound +:+ missing_items_body missing) lastInbound.

Definition BuildPolicyUnknownReply (s : Submission) (lastInbound : Email)
    (knownTypes : list string) : Reply :=
  let hint :=
    if bool_decide (knownTypes ≠ []) then
      "the line of business (e.g., " +:+ Join knownTypes ", " +:+ ")"
    else "the line of business" in
  newReply s
    (greeting_line lastInbound +:+
     "Thanks for the submission. We couldn't determine the policy type " +:+
     "from the subject line. Could you reply with " +:+ hint +:+ " so we can pull the " +:+
     "right checklist?" +:+ nl) lastInbound.

Definition BuildCompletionReply (s : Submission) (lastInbound : Email) : Reply :=
  newReply s
    (greeting_line lastInbound +:+
     "Thanks — everything on our checklist for this submission is now accounted for. " +:+
     "Nothing further is needed from you at this time." +:+ nl) lastInbound.
End reply.

(** ** Fingerprint laws *)

(** What a fingerprint is about: the item and why it is asked for. *)
Definition ask_of (m : MissingItem) : string * string := (m.(mi_ID), reason_string m.(mi_Code)).

(** Item ids and codes as checklists write them: free of the two separator bytes. *)
Definition separable (m : MissingItem) : Prop :=
  byte_free nul m.(mi_ID) ∧ byte_free unit_sep m.(mi_ID) ∧
  byte_free nul (reason_string m.(mi_Code)) ∧ byte_free unit_sep (reason_string m.(mi_Code)).

Lemma Split_nul_prefixed k keys :
  byte_free nul k → Forall (byte_free nul) keys → Split (k +:+ nul_prefixed keys) nul = k :: keys.
Proof.
  intros Hk Hkeys. revert k Hk. induction Hkeys as [|k' keys Hk' _ IH]; intros k Hk.
  - simpl. rewrite string_app_nil_r. by apply Split_byte_free.
  - cbn [nul_prefixed]. rewrite Split_app_sep by done. by rewrite IH.
Qed.

Lemma byte_free_app c s t : byte_free c (s +:+ t) ↔ byte_free c s ∧ byte_free c t.
Proof. unfold byte_free. rewrite bytes_app, not_elem_of_app. done. Qed.

Lemma byte_free_String c d s : byte_free c (String d s) ↔ c ≠ d ∧ byte_free c s.
Proof. unfold byte_free. cbn. by rewrite not_elem_of_cons. Qed.

Lemma fingerprint_key_free m : separable m → byte_free nul (fingerprint_key m).
Proof.
  intros (? & _ & ? & _). unfold fingerprint_key.
  rewrite byte_free_app, byte_free_String. done.
Qed.

Lemma kind_string_free k : byte_free nul (kind_string k).
Proof. destruct k; apply (bool_decide_unpack _); vm_compute; exact I. Qed.

(** Reads the id and code back out of a key. *)
Definition ask_of_key (k : string) : string * string :=
  match Split k unit_sep with [id; code] => (id, code) | _ => ("", "") end.

Lemma ask_of_key_spec m : separable m → ask_of_key (fingerprint_key m) = ask_of m.
Proof.
  intros (_ & H1 & _ & H2). unfold ask_of_key, fingerprint_key.
  rewrite Split_app_sep by done. by rewrite Split_byte_free.
Qed.

Lemma map_ask_of_key items :
  Forall separable items → map ask_of_key (map fingerprint_key items) = map ask_of items.
Proof. induction 1; simpl; [done|]. by rewrite ask_of_key_spec; f_equal. Qed.

Lemma fingerprint_split kind items :
  Forall separable items →
  Split (fingerprint_preimage kind items) nul =
  kind_string kind :: sort_Strings (map fingerprint_key items).
Proof.
  intros Hs. apply Split_nul_prefixed; [apply kind_string_free|].
  unfold sort_Strings. rewrite sort_by_perm. induction Hs; simpl; constructor;
    auto using fingerprint_key_free.
Qed.

(** C24: the bytes hashed for a repeated-ask fingerprint identify the ask: two replies
    hash the same bytes exactly when they are of the same kind and name the same
    items for the same reasons, in whatever order the items come. *)
Theorem fingerprint_preimage_iff kind kind' items items' :
  Forall separable items → Forall separable items' →
  fingerprint_preimage kind items = fingerprint_preimage kind' items' ↔
  kind = kind' ∧ map ask_of items ≡ₚ map ask_of items'.
Proof.
  intros Hs Hs'. split.
  - intros E. apply (f_equal (λ s, Split s nul)) in E. rewrite !fingerprint_split in E by done.
    injection E as Hk E. split; [by destruct kind, kind'|].
    rewrite <- !map_ask_of_key by done. apply Permutation_map.
    rewrite <- (sort_by_perm string_lt (map fingerprint_key items)).
    change (sort_by string_lt (map fingerprint_key items)) with (sort_Strings (map fingerprint_key items)).
    rewrite E. apply sort_by_perm.
  - intros [-> Hp]. unfold fingerprint_preimage. do 2 f_equal. apply sort_Strings_perm.
    assert (∀ l, map fingerprint_key l = map (λ p, p.1 +:+ String unit_sep p.2) (map ask_of l)) as Hf.
    { intros l. by rewrite map_map. }
    rewrite !Hf. by apply Permutation_map.
Qed.

Definition demo_missing (id : string) (c : ReasonCode) : MissingItem :=
  mkMissingItem id ("The " +:+ id) "" c f64_zero.

Lemma fingerprint_preimage_iff_witness :
  fingerprint_preimage ReplyKindMissingItems
    [demo_missing "app" ReasonNotProvided; demo_missing "loss_runs" ReasonEncrypted] =
  fingerprint_preimage ReplyKindMissingItems
    [demo_missing "loss_runs" ReasonEncrypted; demo_missing "app" ReasonNotProvided].
Proof.
  apply (fingerprint_preimage_iff ReplyKindMissingItems ReplyKindMissingItems).
  - repeat constructor; apply (bool_decide_unpack _); vm_compute; exact I.
  - repeat constructor; apply (bool_decide_unpack _); vm_compute; exact I.
  - split; [reflexivity|]. apply Permutation_swap.
Defined.

(** ** Greeting and assembly laws *)

Section properties.
Context {L : GoLib}.

(** No byte of [s] is an ASCII control character. *)
Definition control_free (s : string) : Prop := ∀ c, c ∈ bytes s → is_control (byte_of c) = false.

Lemma high_not_control z : 128 ≤ z → is_control z = false.
Proof.
  intros. unfold is_control.
  by rewrite (proj2 (Z.ltb_ge _ _)), (proj2 (Z.eqb_neq _ _)) by lia.
Qed.

Lemma sanitizeGreeting_control_free s : control_free (sanitizeGreeting s).
Proof.
  intros c Hc. apply encode_runes_bytes in Hc as [Hc|Hc]; [|by apply high_not_control].
  apply list_elem_of_In, filter_In in Hc as [Hc _]. apply in_map_iff in Hc as (r & Hr & _).
  destruct (is_control r) eqn:E; [|congruence].
  pose proof (byte_of_range c). lia.
Qed.

Lemma usableGreeting_spec s : usableGreeting s = true → control_free s ∧ s ≠ "".
Proof.
  unfold usableGreeting. destruct (len s <? 3) eqn:El; [done|].
  destruct (existsb is_control (runes s)) eqn:E; [done|]. intros _. split; [|by intros ->].
  intros c Hc. destruct (Z_lt_le_dec (byte_of c) 128); [|by apply high_not_control].
  destruct (is_control (byte_of c)) eqn:Ec; [|done].
  assert (existsb is_control (runes s) = true); [|congruence].
  apply existsb_exists. exists (byte_of c). split; [|done].
  apply list_elem_of_In, ascii_byte_is_rune; [|done..]. lia.
Qed.

Lemma greeting_from_address_spec a :
  control_free (greeting_from_address a) ∧ greeting_from_address a ≠ "".
Proof.
  assert (control_free "there" ∧ "there" ≠ "") as Hthere.
  { split; [|done]. intros c Hc. cbn in Hc.
    repeat (apply elem_of_cons in Hc as [->|Hc]; [done|]). by apply elem_of_nil in Hc. }
  unfold greeting_from_address. destruct (Index a "@"); [|done].
  destruct (_ && _) eqn:E; [|done]. apply andb_true_iff in E as [_ E]. by apply usableGreeting_spec.
Qed.

(** The name a reply greets is never empty and never carries a control
    character, whatever the sender put into the display name or address, so a
    crafted sender cannot break the first line of the body. *)
Theorem greeting_safe e : control_free (greetingName e) ∧ greetingName e ≠ "".
Proof.
  unfold greetingName. case_bool_decide; [|apply greeting_from_address_spec].
  destruct (Fields _); [apply greeting_from_address_spec|].
  case_bool_decide; [split; [apply sanitizeGreeting_control_free|done]|].
  apply greeting_from_address_spec.
Qed.

Lemma concat_map_Contains f l m s :
  m ∈ l → Contains (f m) s = true → Contains (concat_map f l) s = true.
Proof.
  intros Hin Hs. induction Hin as [l|m m' l Hin IH]; cbn [concat_map].
  - by apply Contains_app_l.
  - by apply Contains_app_r, IH.
Qed.

Lemma bullet_Contains m : Contains (bullet m) m.(mi_Description) = true.
Proof. unfold bullet. case_bool_decide; apply Contains_infix. Qed.

Lemma missing_items_body_names missing m :
  m ∈ missing → Contains (missing_items_body missing) m.(mi_Description) = true.
Proof.
  intros Hin. unfold missing_items_body. destruct (is_encrypted_item m) eqn:E.
  - apply Contains_app_r, Contains_app_l. apply (concat_map_Contains _ _ m).
    + apply list_elem_of_In, filter_In. by rewrite <- list_elem_of_In.
    + apply Contains_app_r. unfold encryptedLine. rewrite !string_app_assoc. apply Contains_infix.
  - apply Contains_app_l. assert (m ∈ List.filter (λ m, negb (is_encrypted_item m)) missing) as Hm.
    { apply list_elem_of_In, filter_In. rewrite <- list_elem_of_In. by rewrite E. }
    rewrite bool_decide_eq_true_2 by (intros Hnil; rewrite Hnil in Hm; by apply elem_of_nil in Hm).
    do 3 apply Contains_app_r. eauto using concat_map_Contains, bullet_Contains.
Qed.

Lemma rep_BodyText_newReply s body e : (newReply s body e).(rep_BodyText) = body.
Proof. done. Qed.

(** A missing-items reply names every item it was built for, by description;
    only the missing-attachment signal, which replaces the list by the request to
    attach the files, is exempt. *)
Theorem missing_reply_names_items s missing e :
  let body := (BuildMissingItemsReply s missing e).(rep_BodyText) in
  if hasCode missing ReasonMissingAttachment
  then body = greeting_line e +:+ missingAttachmentLine +:+ nl
  else Forall (λ m, Contains body m.(mi_Description) = true) missing.
Proof.
  unfold BuildMissingItemsReply. destruct (hasCode _ _); [done|]. apply Forall_forall. intros m Hm.
  rewrite rep_BodyText_newReply. by apply Contains_app_r, missing_items_body_names.
Qed.

Lemma reply_subject_prefixed subject : HasPrefix (ToLower ("Re: " +:+ subject)) "re:" = true.
Proof. apply (prefix_app "re:"). Qed.

(** Threading of a reply: it goes to the Reply-To address when one is set and
    else to the sender, answers the inbound Message-ID, extends the inbound
    References by it, and its subject carries one reply prefix however often the
    thread goes back and forth. *)
Theorem newReply_threads s body e :
  let r := newReply s body e in
  (r.(rep_ToAddress) = if bool_decide (TrimSpace e.(em_ReplyTo) = "") then e.(em_FromAddress)
                       else TrimSpace e.(em_ReplyTo)) ∧
  r.(rep_InReplyTo) = e.(em_MessageID) ∧
  (if bool_decide (e.(em_MessageID) = "") then r.(rep_References) = e.(em_References)
   else r.(rep_References) = e.(em_References) ++ [e.(em_MessageID)]) ∧
  HasPrefix (ToLower r.(rep_Subject)) "re:" = true ∧
  reply_subject r.(rep_Subject) = r.(rep_Subject).
Proof.
  assert (HasPrefix (ToLower (reply_subject e.(em_Subject))) "re:" = true) as Hre.
  { unfold reply_subject. destruct (HasPrefix (ToLower e.(em_Subject)) "re:") eqn:E; [done|].
    apply reply_subject_prefixed. }
  cbn. split_and!; try done.
  - unfold replyTarget. by repeat case_bool_decide.
  - repeat case_bool_decide; try done. by rewrite app_nil_r.
  - unfold reply_subject at 1. by rewrite Hre.
Qed.
End properties.
