(* ===== verification/Digest.v ===== *)
(** The daily digest: [internal/model/digest.go].

    [digest_groups] is the grouping and ordering half of [BuildDigest] and
    [BuildDigest] the rendering of it. *)
From Stdlib Require Import ZArith Sorting.Sorted.
From stdpp Require Import base list strings gmap.
From S2P Require Import Prelude GoStrings GoValues Submission Reply.

Open Scope Z_scope.

Inductive section_key : Type :=
| sectionReplyBlocked | sectionDeliveryFailed | sectionEscalated | sectionAwaiting
| sectionHeld | sectionComplete | sectionUnknown.

#[export] Instance section_key_eq_dec : EqDecision section_key.
Proof. solve_decision. Defined.

(** The sections in display priority, with their titles. *)
Definition digestSections : list (section_key * string) :=
  [ (sectionReplyBlocked, "Reply withheld — REPLIES_ENABLED=false, nothing was sent");
    (sectionDeliveryFailed, "Delivery failed — address unreachable, needs a human");
    (sectionEscalated, "Escalated — broker went quiet");
    (sectionAwaiting, "Awaiting the broker");
    (sectionHeld, "On hold — paused by a human");
    (sectionComplete, "Complete");
    (sectionUnknown, "Unknown policy type") ].

Definition digestGroup (s : Submission) (replyBlocked : bool) : section_key :=
  if replyBlocked then sectionReplyBlocked
  else if s.(sub_DeliveryFailed) then sectionDeliveryFailed
  else if s.(sub_OnHold) then sectionHeld
  else if bool_decide (s.(sub_State) = StateEscalated) then sectionEscalated
  else if bool_decide (s.(sub_PolicyType) = PolicyTypeUnknown) then sectionUnknown
  else if bool_decide (s.(sub_State) = StateComplete) then sectionComplete
  else sectionAwaiting.

Definition bindLess (a b : Submission) : bool :=
  match a.(sub_EffectiveDate), b.(sub_EffectiveDate) with
  | Some x, Some y => Before x y
  | Some _, None => true
  | None, _ => false
  end.

Definition utcMidnight (t : time) : time := utc_midnight t.

Definition bindLabel (effective now : time) : string :=
  let days := Z.quot (Sub (utcMidnight effective) (utcMidnight now)) (24 * Hour) in
  if days <? 0 then "bound " +:+ fmt_d (- days) +:+ "d ago"
  else if days =? 0 then "binds today"
  else "binds in " +:+ fmt_d days +:+ "d".

Definition humanDuration (d : duration) : string :=
  if d <? Minute then "just now"
  else if d <? Hour then fmt_d (f64_trunc (dur_Minutes d)) +:+ "m"
  else if d <? 24 * Hour then fmt_d (f64_trunc (dur_Hours d)) +:+ "h"
  else fmt_d (f64_trunc (f64_div (dur_Hours d) (f64_of_Z 24))) +:+ "d".

Definition digestSubject (s : Submission) : string :=
  let ni := TrimSpace s.(sub_NamedInsured) in
  if bool_decide (ni ≠ "") then ni
  else if bool_decide (TrimSpace s.(sub_SubjectLine) = "") then "(no subject)"
  else s.(sub_SubjectLine).

Definition digestFrom (s : Submission) : string :=
  if bool_decide (s.(sub_FromAddress) = "") then "(unknown sender)" else s.(sub_FromAddress).

Definition digest_missing_line (m : MissingItem) : string :=
  if bool_decide (m.(mi_Reason) ≠ "")
  then "      " +:+ m.(mi_Description) +:+ ": " +:+ m.(mi_Reason) +:+ nl
  else "      " +:+ m.(mi_Description) +:+ nl.

Fixpoint concat_strings (l : list string) : string :=
  match l with [] => "" | s :: l' => s +:+ concat_strings l' end.

(** The text [writeDigestRow] appends. *)
Definition digest_row (s : Submission) (filenameOnly : list string) (now : time) : string :=
  let flag := if s.(sub_NeedsReview) then " [needs review]" else "" in
  let bind := match s.(sub_EffectiveDate) with
              | Some t => " | " +:+ bindLabel t now
              | None => "" end in
  "  - " +:+ digestSubject s +:+ " | from " +:+ digestFrom s +:+
  " | age " +:+ humanDuration (Sub now s.(sub_CreatedAt)) +:+
  " | idle " +:+ humanDuration (Sub now s.(sub_LastActionAt)) +:+ bind +:+ flag +:+ nl +:+
  concat_strings (map digest_missing_line s.(sub_MissingItems)) +:+
  concat_strings (map (λ name, "      Matched on filename only, content not verified: " +:+ name +:+ nl)
                    filenameOnly).

Definition group_of (subs : list Submission) (replyBlocked : gset string) (key : section_key)
  : list Submission :=
  List.filter (λ s, bool_decide (digestGroup s (bool_decide (s.(sub_ID) ∈ replyBlocked)) = key)) subs.

(** Every section's submissions, ordered by urgency. *)
Definition digest_groups (subs : list Submission) (replyBlocked : gset string)
  : list (section_key * string * list Submission) :=
  map (λ sec, (sec.1, sec.2, sort_by bindLess (group_of subs replyBlocked sec.1))) digestSections.

Definition render_section (filenameOnly : gmap string (list string)) (now : time)
    (sec : section_key * string * list Submission) : string :=
  let '(key, title, group) := sec in
  match group with
  | [] => ""
  | _ =>
    let showFilenameOnly :=
      bool_decide (key = sectionAwaiting) || bool_decide (key = sectionComplete) in
    nl +:+ title +:+ " (" +:+ fmt_d (Z.of_nat (length group)) +:+ "):" +:+ nl +:+
    concat_strings (map (λ s, digest_row s
        (if showFilenameOnly then default [] (filenameOnly !! s.(sub_ID)) else []) now) group)
  end.

Definition BuildDigest (subs : list Submission) (filenameOnly : gmap string (list string))
    (replyBlocked : gset string) (omitted : Z) (now : time) : string :=
  match subs with
  | [] => ""
  | _ =>
    let review := Z.of_nat (length (List.filter sub_NeedsReview subs)) in
    (if 0 <? review then fmt_d review +:+ " submission(s) need review (marked below)." +:+ nl +:+ nl
     else "") +:+
    "Open submissions:" +:+ nl +:+
    concat_strings (map (render_section filenameOnly now) (digest_groups subs replyBlocked)) +:+
    (if 0 <? omitted then
       nl +:+ "(+" +:+ fmt_d omitted +:+
       " more open submissions omitted; raise DIGEST_MAX_ROWS to include them)" +:+ nl
     else "")
  end.

(** ** Laws *)

#[export] Instance bindLess_sw : StrictWeak bindLess.
Proof.
  unfold bindLess, Before. split.
  - intros s. destruct (sub_EffectiveDate s); [lia|done].
  - intros x y z. destruct (sub_EffectiveDate x), (sub_EffectiveDate y), (sub_EffectiveDate z); try done; lia.
  - intros x y. destruct (sub_EffectiveDate x), (sub_EffectiveDate y); try done; lia.
Qed.

Lemma digestGroup_in_sections s b : digestGroup s b ∈ map fst digestSections.
Proof. unfold digestGroup. repeat case_match; vm_compute; set_solver. Qed.

(** Filtering by the classes of a duplicate-free list of keys permutes the list. *)
Lemma filter_classes_perm {A K} `{EqDecision K} (f : A → K) (keys : list K) (l : list A) :
  NoDup keys → (∀ x, x ∈ l → f x ∈ keys) →
  concat (map (λ k, List.filter (λ x, bool_decide (f x = k)) l) keys) ≡ₚ l.
Proof.
  intros Hnd Hin. induction l as [|x l IH].
  - clear. by induction keys.
  - assert (f x ∈ keys) as (k1 & k2 & ->)%list_elem_of_split by (apply Hin; left).
    transitivity (x :: concat (map (λ k, List.filter (λ y, bool_decide (f y = k)) l)
                                 (k1 ++ f x :: k2))).
    2:{ constructor. apply IH. intros; apply Hin; by right. }
    clear IH Hin.
    apply NoDup_app in Hnd as (_ & Hk1 & [Hk2 _]%NoDup_cons).
    rewrite !map_app, !concat_app. cbn [map concat]. 
    assert (∀ ks, f x ∉ ks →
      map (λ k, List.filter (λ y, bool_decide (f y = k)) (x :: l)) ks =
      map (λ k, List.filter (λ y, bool_decide (f y = k)) l) ks) as Hsame.
    { clear. intros ks. induction ks as [|k ks IH]; [done|]. rewrite not_elem_of_cons. intros [? ?].
      cbn [map]. rewrite IH by done. f_equal. simpl. by rewrite bool_decide_eq_false_2. }
    rewrite (Hsame k2) by done. rewrite (Hsame k1) by (intros ?; eapply Hk1; [done|left]).
    simpl. rewrite bool_decide_eq_true_2 by done. symmetry. apply Permutation_middle.
Qed.

Lemma concat_map_perm {A B} (f g : A → list B) l :
  (∀ x, f x ≡ₚ g x) → concat (map f l) ≡ₚ concat (map g l).
Proof. intros Hfg. induction l as [|x l IH]; simpl; [done|]. by rewrite Hfg, IH. Qed.

Lemma digest_groups_perm subs blocked :
  concat (map snd (digest_groups subs blocked)) ≡ₚ subs.
Proof.
  unfold digest_groups. rewrite map_map. cbn [snd].
  rewrite (concat_map_perm _ (λ sec : section_key * string, group_of subs blocked sec.1))
    by (intros; apply sort_by_perm).
  rewrite <- (map_map fst (group_of subs blocked)).
  apply (filter_classes_perm (λ s, digestGroup s (bool_decide (s.(sub_ID) ∈ blocked)))).
  - apply (bool_decide_unpack _). vm_compute. exact I.
  - intros s _. apply digestGroup_in_sections.
Qed.

Lemma concat_strings_Contains l s t :
  s ∈ l → Contains s t = true → Contains (concat_strings l) t = true.
Proof.
  intros Hin Hs. induction Hin as [l|s s' l Hin IH]; cbn [concat_strings].
  - by apply Contains_app_l.
  - by apply Contains_app_r, IH.
Qed.

Lemma concat_strings_in l s : s ∈ l → Contains (concat_strings l) s = true.
Proof.
  intros Hin. eapply concat_strings_Contains; [done|].
  apply Contains_spec. exists "", "". by rewrite app_empty, string_app_nil_r.
Qed.

(** The digest's sections partition the open submissions: every submission is in
    exactly one section (the sections together are a permutation of the input), and
    each section is ordered by effective date with unknown dates last, submissions of
    equal urgency keeping their order. *)
Theorem digest_partition subs blocked :
  concat (map snd (digest_groups subs blocked)) ≡ₚ subs ∧
  Forall (λ sec, ordered bindLess sec.2 ∧
            ∀ t, List.filter (λ s, bool_decide (s.(sub_EffectiveDate) = t)) sec.2 =
                 List.filter (λ s, bool_decide (s.(sub_EffectiveDate) = t))
                   (group_of subs blocked sec.1.1)) (digest_groups subs blocked).
Proof.
  split; [apply digest_groups_perm|].
  apply Forall_forall. intros sec Hsec. unfold digest_groups in Hsec.
  apply list_elem_of_In, in_map_iff in Hsec as ([key title] & <- & _). cbn. split.
  - apply sort_by_ordered, _.
  - intros t. apply sort_by_stable. intros x y Hx%bool_decide_eq_true Hy%bool_decide_eq_true.
    unfold bindLess, Before. rewrite Hx, Hy. destruct t; [lia|done].
Qed.

(** The digest is empty exactly when nothing is open, and otherwise it contains
    the row of every submission it was given. *)
Theorem digest_shows_every_submission subs filenameOnly blocked omitted now :
  (subs = [] → BuildDigest subs filenameOnly blocked omitted now = "") ∧
  ∀ s, s ∈ subs →
    ∃ unverified, Contains (BuildDigest subs filenameOnly blocked omitted now)
                    (digest_row s unverified now) = true.
Proof.
  split; [by intros ->|]. intros s Hs.
  assert (∃ sec, sec ∈ digest_groups subs blocked ∧ s ∈ sec.2) as ([[key title] group] & Hsec & Hin).
  { rewrite <- (digest_groups_perm subs blocked) in Hs.
    apply list_elem_of_In, in_concat in Hs as (g & (sec & <- & Hsec)%in_map_iff & Hg).
    exists sec. by rewrite !list_elem_of_In. }
  eexists. unfold BuildDigest. destruct subs as [|s0 subs0]; [by apply elem_of_nil in Hs|].
  do 3 apply Contains_app_r. apply Contains_app_l.
  eapply concat_strings_Contains.
  { apply list_elem_of_In, in_map_iff. exists (key, title, group). rewrite <- list_elem_of_In. done. }
  cbn in Hin. unfold render_section. destruct group as [|g0 group0]; [by apply elem_of_nil in Hin|].
  do 6 apply Contains_app_r. apply concat_strings_in.
  apply list_elem_of_In, in_map_iff. exists s. rewrite <- list_elem_of_In. done.
Qed.

(** Days to bind are whole UTC calendar days: the label says today exactly when
    both instants fall on the same UTC day, and otherwise counts the days between
    the two dates, whatever the times of day. *)
Theorem bindLabel_days effective now :
  fits64 (utc_midnight effective - utc_midnight now) →
  let days := utc_day effective - utc_day now in
  bindLabel effective now =
    if days <? 0 then "bound " +:+ fmt_d (- days) +:+ "d ago"
    else if days =? 0 then "binds today" else "binds in " +:+ fmt_d days +:+ "d".
Proof.
  intros Hf. unfold bindLabel, utcMidnight, Sub. rewrite sat64_id by done.
  unfold utc_midnight, utc_day in *. change (24 * Hour) with Day.
  rewrite <- Z.mul_sub_distr_r, Z.quot_mul by done. done.
Qed.

Lemma bindLabel_days_witness :
  bindLabel (3 * Day + 5) (Day + 7 * Hour) = "binds in 2d".
Proof.
  rewrite (bindLabel_days (3 * Day + 5) (Day + 7 * Hour)); [vm_compute; reflexivity|].
  vm_compute. split; discriminate.
Defined.
