(* ===== verification/TextUtil.v ===== *)
(** [pkg/textutil/text.go] and [pkg/glob/glob.go].

    [TruncateBytes] cuts a string at a rune boundary.  [MatchAny] and
    [ContainsAny_kw] are the two heuristics of the classifier; [Match] is
    [filepath.Match] on a Unix host: chunks between stars, matched greedily. *)
From Stdlib Require Import ZArith Ascii.
From stdpp Require Import base list strings.
From S2P Require Import Prelude GoStrings.

Open Scope Z_scope.

(** ** textutil *)

(** The loop of [TruncateBytes]: steps back until [s\[n\]] starts a rune. *)
Fixpoint back_to_rune_start (s : string) (n : nat) : nat :=
  match n with
  | O => O
  | S k => match bytes s !! n with
           | Some c => if RuneStart c then n else back_to_rune_start s k
           | None => n
           end
  end.

Definition TruncateBytes (s : string) (maxBytes : nat) : string :=
  if Nat.leb (String.length s) maxBytes then s else stake (back_to_rune_start s maxBytes) s.

(** ** filepath.Match *)

(** [getEsc]: the next (possibly escaped) rune of a character class. *)
Definition getEsc (chunk : string) : option (Z * string) :=
  match chunk with
  | "" => None
  | String c rest =>
    if bool_decide (c = "-"%char) || bool_decide (c = "]"%char) then None
    else
      let body := if bool_decide (c = "\"%char) then rest else chunk in
      match DecodeRune body with
      | None => None
      | Some (r, n) =>
          if (r =? RuneError) && Nat.eqb n 1 then None
          else let rest' := sdrop n body in
               if is_empty rest' then None else Some (r, rest')
      end
  end.

(** The class loop: did [r] match, and what follows the closing bracket. *)
Fixpoint class_loop (fuel : nat) (chunk : string) (r : Z) (matched : bool) (nrange : nat)
  : option (bool * string) :=
  match fuel with
  | O => None
  | S fuel' =>
    let continue_ :=
      match getEsc chunk with
      | None => None
      | Some (lo, rest) =>
        match rest with
        | String "-" rest' =>
            match getEsc rest' with
            | None => None
            | Some (hi, rest'') =>
                class_loop fuel' rest'' r (matched || ((lo <=? r) && (r <=? hi))) (S nrange)
            end
        | _ => class_loop fuel' rest r (matched || (lo =? r)) (S nrange)
        end
      end in
    match chunk with
    | String "]" rest => if Nat.ltb 0 nrange then Some (matched, rest) else continue_
    | _ => continue_
    end
  end.

(** [matchChunk]: [None] is a bad pattern, [Some None] no match, [Some (Some t)] a
    match leaving [t].  [s] is [None] once the match has failed. *)
Fixpoint matchChunk (fuel : nat) (chunk : string) (s : option string) : option (option string) :=
  match fuel, chunk with
  | _, "" => Some s
  | O, _ => None
  | S fuel', String c rest =>
    let s := match s with Some "" => None | _ => s end in
    if bool_decide (c = "["%char) then
      let '(r, s') := match s with
                      | Some t => match DecodeRune t with
                                  | Some (r, n) => (r, Some (sdrop n t))
                                  | None => (0, None) end
                      | None => (0, None) end in
      let '(negated, body) := match rest with
                              | String "^" rest' => (true, rest')
                              | _ => (false, rest) end in
      match class_loop (String.length chunk) body r false 0 with
      | None => None
      | Some (matched, rest') =>
          matchChunk fuel' rest' (if Bool.eqb matched negated then None else s')
      end
    else if bool_decide (c = "?"%char) then
      matchChunk fuel' rest
        (match s with
         | Some (String d _ as t) =>
             if bool_decide (d = "/"%char) then None
             else match DecodeRune t with Some (_, n) => Some (sdrop n t) | None => None end
         | _ => None
         end)
    else
      let lit := if bool_decide (c = "\"%char)
                 then match rest with "" => None | String d rest' => Some (d, rest') end
                 else Some (c, rest) in
      match lit with
      | None => None
      | Some (d, rest') =>
          matchChunk fuel' rest'
            (match s with
             | Some (String e t) => if bool_decide (d = e) then Some t else None
             | _ => None
             end)
      end
  end.

Fixpoint skip_stars (p : string) : bool * string :=
  match p with
  | String "*" p' => (true, (skip_stars p').2)
  | _ => (false, p)
  end.

(** The chunk up to the next star outside a class, and what follows it. *)
Fixpoint scan_chunk_body (inrange : bool) (p : string) : string * string :=
  match p with
  | "" => ("", "")
  | String c p' =>
    if bool_decide (c = "\"%char) then
      match p' with
      | "" => (String c "", "")
      | String d p'' => let '(a, b) := scan_chunk_body inrange p'' in (String c (String d a), b)
      end
    else if bool_decide (c = "*"%char) && negb inrange then ("", p)
    else
      let inrange' := if bool_decide (c = "["%char) then true
                      else if bool_decide (c = "]"%char) then false else inrange in
      let '(a, b) := scan_chunk_body inrange' p' in (String c a, b)
  end.

Definition scanChunk (pattern : string) : bool * string * string :=
  let '(star, p) := skip_stars pattern in
  let '(chunk, rest) := scan_chunk_body false p in
  (star, chunk, rest).

Definition match_chunk (chunk s : string) : option (option string) :=
  matchChunk (String.length chunk) chunk (Some s).

(** After a failed match: the rest of the pattern must still be well formed. *)
Fixpoint check_rest (fuel : nat) (pattern : string) : option bool :=
  match fuel, pattern with
  | _, "" => Some false
  | O, _ => None
  | S fuel', _ =>
      let '(_, chunk, rest) := scanChunk pattern in
      match match_chunk chunk "" with
      | None => None
      | Some _ => check_rest fuel' rest
      end
  end.

(** The inner loop under a star: the first skip after which [chunk] matches (and, for
    the last chunk, exhausts the name). *)
Fixpoint star_skip (chunk : string) (last : bool) (name : string) : option (option string) :=
  match name with
  | "" => Some None
  | String c name' =>
    if bool_decide (c = "/"%char) then Some None
    else match match_chunk chunk name' with
         | None => None
         | Some (Some t) => if last && negb (is_empty t) then star_skip chunk last name'
                            else Some (Some t)
         | Some None => star_skip chunk last name'
         end
  end.

(** [None] is [ErrBadPattern]; running out of fuel cannot happen, since every
    iteration consumes at least one byte of the pattern. *)
Fixpoint match_loop (fuel : nat) (pattern name : string) : option bool :=
  match fuel, pattern with
  | _, "" => Some (is_empty name)
  | O, _ => None
  | S fuel', _ =>
    let '(star, chunk, rest) := scanChunk pattern in
    if star && is_empty chunk then Some (negb (Contains name "/"))
    else
      match match_chunk chunk name with
      | None => None
      | Some found =>
        let accept t := is_empty t || negb (is_empty rest) in
        match found with
        | Some t =>
            if accept t then match_loop fuel' rest t
            else if star then
              match star_skip chunk (is_empty rest) name with
              | None => None
              | Some (Some t') => match_loop fuel' rest t'
              | Some None => check_rest fuel' rest
              end
            else check_rest fuel' rest
        | None =>
            if star then
              match star_skip chunk (is_empty rest) name with
              | None => None
              | Some (Some t') => match_loop fuel' rest t'
              | Some None => check_rest fuel' rest
              end
            else check_rest fuel' rest
        end
      end
  end.

Definition Match (pattern name : string) : option bool :=
  match_loop (String.length pattern) pattern name.

(** [path.Base] *)
Definition path_Base (path : string) : string :=
  if bool_decide (path = "") then "."
  else
    let p := TrimRight path "/" in
    let p := match LastIndexByte p "/" with Some i => sdrop (S i) p | None => p end in
    if bool_decide (p = "") then "/" else p.

(** ** glob *)

Section glob.
Context {U : Unicode}.

Fixpoint match_any_lower (patterns : list string) (lower : string) : bool :=
  match patterns with
  | [] => false
  | p :: ps =>
    if bool_decide (p = "") then match_any_lower ps lower
    else match Match (ToLower p) lower with
         | Some true => true
         | _ => match_any_lower ps lower
         end
  end.

Definition MatchAny (patterns : list string) (target : string) : bool :=
  match_any_lower patterns (ToLower (path_Base target)).

Fixpoint contains_any_lower (keywords : list string) (lower : string) : bool :=
  match keywords with
  | [] => false
  | kw :: kws =>
    if bool_decide (kw = "") then contains_any_lower kws lower
    else if Contains lower (ToLower kw) then true else contains_any_lower kws lower
  end.

(** [glob.ContainsAny] *)
Definition glob_ContainsAny (keywords : list string) (body : string) : bool :=
  if bool_decide (body = "") then false else contains_any_lower keywords (ToLower body).
End glob.

Example match_acord : Match "*acord*125*" "my acord form 125.pdf" = Some true.
Proof. vm_compute. reflexivity. Qed.

Example match_order : Match "*acord*125*" "125 acord.pdf" = Some false.
Proof. vm_compute. reflexivity. Qed.

Example match_class : Match "[a-c]x?.pd[^a]" "bxy.pdf" = Some true.
Proof. vm_compute. reflexivity. Qed.

Example match_bad : Match "a[" "a" = None.
Proof. vm_compute. reflexivity. Qed.

(** ** Laws: truncation *)

Lemma stake_sdrop n s : stake n s +:+ sdrop n s = s.
Proof.
  revert s. induction n as [|n IH]; intros [|c s]; try done.
  cbn [stake sdrop]. rewrite app_String. by rewrite IH.
Qed.

Lemma bytes_length s : length (bytes s) = String.length s.
Proof. induction s; simpl; congruence. Qed.

Lemma stake_length n s : (n ≤ String.length s)%nat → String.length (stake n s) = n.
Proof. revert s. induction n as [|n IH]; intros [|c s] H; simpl in *; try lia. rewrite IH; lia. Qed.

Lemma bytes_sdrop n s : bytes (sdrop n s) = drop n (bytes s).
Proof. revert s. induction n as [|n IH]; intros [|c s]; try done. apply IH. Qed.

Definition starts_rune (t : string) : Prop :=
  match t with "" => True | String c _ => RuneStart c = true end.

Lemma RuneStart_not_cont c : RuneStart c = true → cont c = false.
Proof.
  unfold RuneStart, cont, in_range. rewrite negb_true_iff, !andb_false_iff.
  rewrite Z.leb_gt, Z.ltb_ge. intros [?|?]; [left|right]; apply Z.leb_gt; lia.
Qed.

Lemma RuneStart_not_in_range c lo hi :
  RuneStart c = true → 128 ≤ lo → hi ≤ 191 → in_range lo hi (byte_of c) = false.
Proof.
  unfold RuneStart, in_range. rewrite negb_true_iff, !andb_false_iff, !Z.leb_gt, Z.ltb_ge. lia.
Qed.

(** Decoding does not look past a byte that starts a rune. *)
Lemma DecodeRune_app c s t :
  starts_rune t → DecodeRune (String c (s +:+ t)) = DecodeRune (String c s).
Proof.
  intros Ht.
  assert (∀ d, in_range (if byte_of c =? 224 then 160 else 128)
                 (if byte_of c =? 237 then 159 else 191) (byte_of d) && true = true →
               RuneStart d = true → False) as H3.
  { intros d Hd Hs. rewrite RuneStart_not_in_range in Hd; [done|done|clear; destruct (_ =? _); cbv iota; lia..]. }
  assert (∀ d, in_range (if byte_of c =? 240 then 144 else 128)
                 (if byte_of c =? 244 then 143 else 191) (byte_of d) = true →
               RuneStart d = true → False) as H4.
  { intros d Hd Hs. rewrite RuneStart_not_in_range in Hd; [done|done|clear; destruct (_ =? _); cbv iota; lia..]. }
  destruct t as [|d t]; [by rewrite string_app_nil_r|]. cbn in Ht.
  pose proof (RuneStart_not_cont d Ht) as Hc.
  pose proof (H3 d) as H3d. pose proof (H4 d) as H4d. rewrite andb_true_r in H3d.
  destruct s as [|s1 [|s2 [|s3 s]]];
    rewrite ?app_String, ?app_empty; unfold DecodeRune;
    repeat (case_match; simplify_eq; try done);
    repeat match goal with
    | H : _ && _ = true |- _ => apply andb_true_iff in H as [? ?]
    end; try congruence; try (exfalso; eauto; fail).
Qed.

Lemma runes_go_app s t skip :
  starts_rune t → (skip ≤ String.length s)%nat →
  runes_go skip (s +:+ t) = runes_go skip s ++ runes t.
Proof.
  intros Ht. revert skip. induction s as [|c s IH]; intros skip Hskip.
  { destruct skip; [done|simpl in Hskip; lia]. }
  rewrite app_String. cbn [runes_go]. destruct skip as [|skip].
  2:{ apply IH. simpl in Hskip. lia. }
  rewrite DecodeRune_app by done. destruct (DecodeRune_Some c s) as (r & w & Hr).
  rewrite Hr. cbn [app]. f_equal. apply IH.
  revert Hr. clear. unfold DecodeRune.
  repeat (case_match; simplify_eq; try done); intros; simplify_eq; simpl; lia.
Qed.

Lemma runes_app s t : starts_rune t → runes (s +:+ t) = runes s ++ runes t.
Proof. intros. apply runes_go_app; [done|lia]. Qed.

Lemma back_to_rune_start_spec s n :
  (n < String.length s)%nat →
  (back_to_rune_start s n ≤ n)%nat ∧
  (back_to_rune_start s n = O ∨ starts_rune (sdrop (back_to_rune_start s n) s)) ∧
  ∀ i c, (back_to_rune_start s n < i ≤ n)%nat → bytes s !! i = Some c → RuneStart c = false.
Proof.
  induction n as [|n IH]; intros Hn; cbn [back_to_rune_start].
  { split; [lia|]. split; [by left|]. lia. }
  destruct (bytes s !! S n) as [c|] eqn:Ec.
  2:{ apply lookup_ge_None in Ec. rewrite bytes_length in Ec. lia. }
  destruct (RuneStart c) eqn:Es.
  - split; [lia|]. split; [right|lia]. 
    assert (bytes (sdrop (S n) s) !! O = Some c) as Hd by by rewrite bytes_sdrop, lookup_drop, Nat.add_0_r.
    by destruct (sdrop (S n) s); simplify_eq/=.
  - destruct IH as (? & ? & Hmax); [lia|]. split; [lia|]. split; [done|].
    intros i d Hi Hd. destruct (decide (i = S n)) as [->|]; [congruence|]. apply (Hmax i); [lia|done].
Qed.

(** [TruncateBytes] never exceeds its bound and never splits a rune: the result
    is a prefix of the text whose runes are a prefix of the text's runes, and no
    longer prefix within the bound ends at a rune boundary. *)
Theorem TruncateBytes_spec s n :
  let r := TruncateBytes s n in
  (String.length r ≤ n)%nat ∧
  (∃ rest, s = r +:+ rest ∧ runes s = runes r ++ runes rest) ∧
  (r = s ∨ ∀ i c, (String.length r < i ≤ n)%nat → bytes s !! i = Some c → RuneStart c = false).
Proof.
  unfold TruncateBytes. destruct (Nat.leb_spec (String.length s) n) as [Hle|Hlt].
  { split; [done|]. split; [|by left]. exists "". by rewrite string_app_nil_r, app_nil_r. }
  destruct (back_to_rune_start_spec s n Hlt) as (Hb & Hstart & Hmax).
  set (k := back_to_rune_start s n) in *. cbn zeta.
  assert (String.length (stake k s) = k) as Hk by (apply stake_length; lia).
  rewrite Hk. split; [done|]. split; [|right; apply Hmax].
  exists (sdrop k s). split; [by rewrite stake_sdrop|]. rewrite <- (stake_sdrop k s) at 1.
  destruct Hstart as [->|Hstart]; [done|by apply runes_app].
Qed.

(** ** Laws: star patterns *)

(** A byte with no meaning to [filepath.Match]. *)
Definition plain_byte (c : ascii) : bool :=
  negb (bool_decide (c = "*"%char) || bool_decide (c = "?"%char) || bool_decide (c = "["%char) ||
        bool_decide (c = "]"%char) || bool_decide (c = "\"%char)).

Definition plain (w : string) : Prop := Forall (λ c, plain_byte c = true) (bytes w) ∧ w ≠ "".

(** [*w1*w2*...*], the shape of every pattern the shipped checklists use. *)
Fixpoint star_pattern (words : list string) : string :=
  match words with [] => "*" | w :: ws => String "*" (w +:+ star_pattern ws) end.

(** The words occur in [name] in this order without overlapping. *)
Fixpoint in_order (words : list string) (name : string) : Prop :=
  match words with
  | [] => True
  | w :: ws => ∃ pre rest, name = pre +:+ w +:+ rest ∧ in_order ws rest
  end.

Lemma in_order_app words pre name : in_order words name → in_order words (pre +:+ name).
Proof.
  destruct words as [|w ws]; [done|]. intros (p & r & -> & ?). exists (pre +:+ p), r.
  by rewrite string_app_assoc.
Qed.

Lemma plain_byte_inv c :
  plain_byte c = true →
  c ≠ "*"%char ∧ c ≠ "?"%char ∧ c ≠ "["%char ∧ c ≠ "]"%char ∧ c ≠ "\"%char.
Proof.
  unfold plain_byte. rewrite negb_true_iff, !orb_false_iff, !bool_decide_eq_false. tauto.
Qed.

Lemma scan_chunk_body_plain w ws :
  Forall (λ c, plain_byte c = true) (bytes w) →
  scan_chunk_body false (w +:+ star_pattern ws) = (w, star_pattern ws).
Proof.
  assert (∃ p, star_pattern ws = String "*" p) as [p Hp] by (destruct ws; eexists; done).
  rewrite Hp. induction w as [|c w IH]; [done|]. rewrite app_String. cbn [bytes].
  rewrite Forall_cons. intros [(?&?&?&?&?)%plain_byte_inv Hw]. cbn [scan_chunk_body].
  rewrite !(bool_decide_eq_false_2 (c = _)) by done. cbn. by rewrite IH.
Qed.

Lemma scanChunk_star w ws :
  plain w → scanChunk (star_pattern (w :: ws)) = (true, w, star_pattern ws).
Proof.
  intros [Hw Hne]. unfold scanChunk. cbn [star_pattern skip_stars].
  assert ((skip_stars (w +:+ star_pattern ws)).2 = w +:+ star_pattern ws) as ->.
  { destruct w as [|c w]; [done|]. rewrite app_String. cbn [bytes] in Hw.
    apply Forall_cons in Hw as [(Hs & _)%plain_byte_inv _].
    cbn [skip_stars]. repeat case_match; by subst. }
  by rewrite scan_chunk_body_plain.
Qed.

Lemma matchChunk_plain_None fuel w :
  Forall (λ c, plain_byte c = true) (bytes w) → (String.length w ≤ fuel)%nat →
  matchChunk fuel w None = Some None.
Proof.
  revert fuel. induction w as [|c w IH]; intros fuel; [by destruct fuel|].
  cbn [bytes]. rewrite Forall_cons. intros [(?&?&?&?&?)%plain_byte_inv Hw] Hf.
  destruct fuel as [|fuel]; [simpl in Hf; lia|]. cbn [matchChunk].
  rewrite !(bool_decide_eq_false_2 (c = _)) by done. apply IH; [done|simpl in Hf; lia].
Qed.

Lemma matchChunk_plain fuel w s :
  Forall (λ c, plain_byte c = true) (bytes w) → (String.length w ≤ fuel)%nat →
  matchChunk fuel w (Some s) =
  Some (if String.prefix w s then Some (sdrop (String.length w) s) else None).
Proof.
  revert fuel s. induction w as [|c w IH]; intros fuel s.
  { intros. destruct fuel, s; done. }
  cbn [bytes]. rewrite Forall_cons. intros [(?&?&?&?&?)%plain_byte_inv Hw] Hf.
  destruct fuel as [|fuel]; [simpl in Hf; lia|]. cbn [matchChunk].
  rewrite !(bool_decide_eq_false_2 (c = _)) by done.
  assert (String.length w ≤ fuel)%nat by (simpl in Hf; lia).
  destruct s as [|d s]; [by rewrite matchChunk_plain_None|].
  cbn [String.prefix String.length sdrop]. case_bool_decide as E.
  - subst. destruct (ascii_dec d d); [|done]. by apply IH.
  - destruct (ascii_dec c d); [done|]. by apply matchChunk_plain_None.
Qed.

(** What is left after the first occurrence of [w]. *)
Definition after_first (w name : string) : option string :=
  (λ i, sdrop (i + String.length w) name) <$> Index name w.

Lemma star_skip_plain w name :
  plain w → byte_free "/" name →
  star_skip w false name =
  Some (match name with "" => None | String _ name' => after_first w name' end).
Proof.
  intros [Hw Hne]. induction name as [|c name IH]; [done|].
  unfold byte_free. cbn [bytes]. rewrite not_elem_of_cons. intros [Hc Hn].
  cbn [star_skip]. rewrite bool_decide_eq_false_2 by done.
  unfold match_chunk. rewrite matchChunk_plain by done.
  unfold after_first. rewrite Index_unfold. destruct (String.prefix w name) eqn:E; [done|].
  rewrite IH by done. destruct name as [|d name]; [done|].
  unfold after_first. by destruct (Index name w).
Qed.

Lemma check_rest_star fuel ws :
  Forall plain ws → (length ws < fuel)%nat → check_rest fuel (star_pattern ws) = Some false.
Proof.
  intros Hws. revert fuel. induction Hws as [|w ws Hw _ IH]; intros fuel Hf.
  { by destruct fuel as [|[|fuel]]; [lia|..]. }
  destruct fuel as [|fuel]; [simpl in Hf; lia|].
  pose proof (scanChunk_star w ws Hw) as Hs. cbn [star_pattern check_rest] in *. rewrite Hs.
  unfold match_chunk. rewrite matchChunk_plain by (done || apply Hw).
  destruct Hw as [_ Hne]. destruct (String.prefix w ""); apply IH; simpl in Hf; lia.
Qed.

Lemma match_loop_star fuel w ws name :
  plain w → byte_free "/" name → Forall plain ws → (length ws < fuel)%nat →
  match_loop (S fuel) (star_pattern (w :: ws)) name =
  match after_first w name with
  | Some t => match_loop fuel (star_pattern ws) t
  | None => Some false
  end.
Proof.
  intros Hw Hn Hws Hf. pose proof (scanChunk_star w ws Hw) as Hs.
  cbn [star_pattern match_loop] in *. rewrite Hs.
  assert (is_empty w = false) as -> by (destruct Hw as [_ Hne]; by destruct w).
  assert (is_empty (star_pattern ws) = false) as -> by by destruct ws.
  unfold match_chunk. rewrite matchChunk_plain by (done || apply Hw). cbn [andb negb].
  unfold after_first. rewrite Index_unfold. destruct (String.prefix w name) eqn:E.
  { by rewrite orb_true_r. }
  rewrite star_skip_plain by done. destruct name as [|c name]; [by apply check_rest_star|].
  unfold after_first. destruct (Index name w); [done|]. by apply check_rest_star.
Qed.

Lemma string_app_length a b : String.length (a +:+ b) = (String.length a + String.length b)%nat.
Proof. induction a as [|c a IH]; [done|]. rewrite app_String. simpl. by rewrite IH. Qed.

Lemma len_app a b : len (a +:+ b) = len a + len b.
Proof. unfold len. rewrite string_app_length. lia. Qed.

Lemma sdrop_app_le n a b : (n ≤ String.length a)%nat → sdrop n (a +:+ b) = sdrop n a +:+ b.
Proof.
  revert a. induction n as [|n IH]; intros a H; [by destruct a; destruct b|].
  destruct a as [|c a]; [simpl in H; lia|]. rewrite app_String. apply IH. simpl in H. lia.
Qed.

Lemma sdrop_app a b : sdrop (String.length a) (a +:+ b) = b.
Proof. induction a as [|d a IH]; [by destruct b|]. rewrite app_String. apply IH. Qed.

Lemma Index_le pre w rest : ∃ i, Index (pre +:+ w +:+ rest) w = Some i ∧ (i ≤ String.length pre)%nat.
Proof.
  induction pre as [|c pre (i & Hi & Hle)].
  - rewrite app_empty, Index_unfold, prefix_app. by exists O.
  - rewrite app_String, Index_unfold. destruct (String.prefix w _); [exists O; split; [done|lia]|].
    rewrite Hi. exists (S i). split; [done|]. simpl. lia.
Qed.

Lemma after_first_in_order w ws name :
  in_order (w :: ws) name ↔ ∃ t, after_first w name = Some t ∧ in_order ws t.
Proof.
  unfold after_first. split.
  - intros (pre & rest & -> & Hr). destruct (Index_le pre w rest) as (i & -> & Hle).
    eexists. split; [done|]. rewrite <- string_app_assoc, sdrop_app_le by (rewrite string_app_length; lia).
    by apply in_order_app.
  - intros (t & Ht & Hr). destruct (Index name w) as [i|] eqn:Ei; [|done]. simplify_eq/=.
    apply Index_Some_inv in Ei as (pre & post & -> & <-). exists pre, post. split; [done|].
    by rewrite <- string_app_assoc, <- string_app_length, sdrop_app in Hr.
Qed.

Lemma byte_free_after_first c w name t :
  byte_free c name → after_first w name = Some t → byte_free c t.
Proof.
  unfold after_first, byte_free. destruct (Index name w); [|done]. intros Hn [= <-] Hin.
  apply Hn. rewrite bytes_sdrop in Hin. by eapply elem_of_submseteq, sublist_submseteq, sublist_drop.
Qed.

Lemma match_loop_star_words fuel words name :
  Forall plain words → byte_free "/" name → (length words < fuel)%nat →
  match_loop fuel (star_pattern words) name = Some true ↔ in_order words name.
Proof.
  intros Hw. revert fuel name. induction Hw as [|w ws Hw Hws IH]; intros fuel name Hn Hf.
  - destruct fuel as [|fuel]; [simpl in Hf; lia|]. cbn.
    assert (Contains name "/" = false) as ->; [|done].
    destruct (Contains name "/") eqn:E; [|done]. apply Contains_spec in E as (a & b & ->).
    exfalso. apply Hn. rewrite !bytes_app, !elem_of_app. right. left. left.
  - destruct fuel as [|fuel]; [simpl in Hf; lia|]. simpl in Hf.
    rewrite match_loop_star by (done || lia). rewrite after_first_in_order.
    destruct (after_first w name) as [t|] eqn:Et.
    + rewrite IH by (eauto using byte_free_after_first; lia). split; [eauto|]. by intros (? & [= ->] & ?).
    + split; [done|]. by intros (? & ? & _).
Qed.

Lemma star_pattern_length words :
  Forall plain words → (length words < String.length (star_pattern words))%nat.
Proof.
  induction 1 as [|w ws Hw _ IH]; simpl; [lia|].
  assert (String.length (w +:+ star_pattern ws) ≥ String.length (star_pattern ws))%nat; [|lia].
  clear. induction w as [|c w IHw]; [rewrite app_empty; lia|]. rewrite app_String. simpl. lia.
Qed.

Lemma Match_star_words words name :
  Forall plain words → byte_free "/" name →
  Match (star_pattern words) name = Some true ↔ in_order words name.
Proof. intros. apply match_loop_star_words; eauto using star_pattern_length. Qed.

(** On the patterns checklists are written with, words between stars, pattern
    matching is complete in spite of the greedy chunk matcher: an attachment matches
    exactly when the words of one of the patterns occur in its lower-cased base name in
    order without overlapping. *)
Theorem MatchAny_star_words (U : Unicode) patterns wss target :
  Forall2 (λ p ws, p ≠ "" ∧ ToLower p = star_pattern ws ∧ Forall plain ws) patterns wss →
  byte_free "/" (ToLower (path_Base target)) →
  MatchAny patterns target = true ↔
  Exists (λ ws, in_order ws (ToLower (path_Base target))) wss.
Proof.
  intros Hps Hfree. unfold MatchAny.
  induction Hps as [|p ws ps wss (Hp & Hlow & Hws) Hps IH]; cbn [match_any_lower].
  { rewrite Exists_nil. done. }
  rewrite bool_decide_false by done. rewrite Exists_cons, <- IH, Hlow.
  rewrite <- (Match_star_words ws) by done.
  destruct (Match _ _) as [[]|]; split; try tauto; intros [?|?]; done.
Qed.

Lemma MatchAny_star_words_witness :
  MatchAny (U := ascii_unicode) ["*.exe*"; "*ACORD*125*"] "in/My Acord form 125.pdf" = true.
Proof.
  apply (MatchAny_star_words ascii_unicode _ [[".exe"]; ["acord"; "125"]]).
  - repeat constructor; try discriminate; vm_compute; reflexivity.
  - apply (bool_decide_unpack _). vm_compute. exact I.
  - apply Exists_cons. right. apply Exists_cons. left.
    apply Match_star_words; [repeat constructor; discriminate| |vm_compute; reflexivity].
    apply (bool_decide_unpack _). vm_compute. exact I.
Defined.
