(* ===== verification/Extract.v ===== *)
(** The text extractors: [internal/infrastructure/extractor].

    The readers of [encoding/csv], [archive/zip], [encoding/xml], [ledongthuc/pdf] and
    [excelize] are the class [DocReaders]: what they give for the bytes of a file, in
    the order the extractor asks for it.  The extractors add the limits that keep a
    hostile attachment from exhausting memory, and the layout of the text. *)
From Stdlib Require Import ZArith Ascii.
From stdpp Require Import base list strings gmap.
From S2P Require Import Prelude GoStrings GoValues Submission TextUtil.

Open Scope Z_scope.

(** ** What the libraries give *)

Inductive pdf_page : Type :=
| PageNull                       (** [page.V.IsNull()] *)
| PageError (e : error)          (** [GetPlainText] fails *)
| PageText (s : string).

Record pdf_doc : Type := mkPdfDoc { pdf_NumPage : Z; pdf_Page : Z → pdf_page }.

(** A sheet's rows, when it opens; a row's cells, when they read. *)
Definition xlsx_sheet : Type := result (list (result (list string))).

(** A file of a zip archive: its declared size and, when it opens, what reading at most
    that many bytes of it gives. *)
Record zip_file : Type := mkZipFile {
  zf_Name : string;
  zf_UncompressedSize64 : Z;
  zf_Open : result (Z → result string) }.

Inductive xml_token : Type :=
| StartElement (local : string)
| EndElement (local : string)
| CharData (s : string)
| OtherToken.

Class DocReaders : Type := {
  csv_records : string → list (result (list string));  (** the answers of [Read] up to [io.EOF] *)
  pdf_NewReader : string → result pdf_doc;
  xlsx_OpenReader : string → result (list xlsx_sheet);
  zip_NewReader : string → result (list zip_file);
  xml_tokens : string → list (result xml_token)        (** the answers of [Token] up to [io.EOF] *)
}.

Definition tab : string := String "009"%char "".
Definition newline : string := String "010"%char "".

(** A row as one line of text. *)
Definition row_line (row : list string) : string := TrimSpace (Join row tab).

Section extractors.
Context {R : DocReaders}.

(** ** CSV *)

Definition maxCSVRows : Z := 100000.
Definition maxCSVScan : Z := 500000.

Fixpoint csv_loop (records : list (result (list string))) (out : string) (emitted scanned : Z) : result string :=
  if (emitted <? maxCSVRows) && (scanned <? maxCSVScan) then
    match records with
    | [] => Ok out
    | Err e :: _ => Err (ErrWrap "csv: read" e)
    | Ok row :: rest =>
      let line := row_line row in
      if bool_decide (line = "") then csv_loop rest out emitted (scanned + 1)
      else csv_loop rest (out +:+ line +:+ newline) (emitted + 1) (scanned + 1)
    end
  else Ok out.

Definition CSV_Extract (data : string) : result string :=
  if bool_decide (data = "") then Ok "" else csv_loop (csv_records data) "" 0 0.

(** ** PDF *)

Definition maxPDFPages : Z := 2000.
Definition maxPDFTextBytes : Z := Z.shiftl 8 20.

(** The pages [i], [i + 1], ... while there are any left; [n] counts them. *)
Fixpoint pdf_loop (d : pdf_doc) (n : nat) (i : Z) (buf : string) : string :=
  match n with
  | O => buf
  | S n =>
    if maxPDFTextBytes <=? len buf then buf
    else match d.(pdf_Page) i with
         | PageNull | PageError _ => pdf_loop d n (i + 1) buf
         | PageText texts =>
           let remaining := maxPDFTextBytes - len buf in
           let texts := if remaining <? len texts then TruncateBytes texts (Z.to_nat remaining) else texts in
           let buf := buf +:+ texts in
           if maxPDFTextBytes <=? len buf then buf else pdf_loop d n (i + 1) (buf +:+ newline)
         end
  end.

Definition PDF_Extract (data : string) : result string :=
  if bool_decide (data = "") then Ok ""
  else if negb (HasPrefix data "%PDF") then Err (ErrNew "pdf: not a pdf file")
  else match pdf_NewReader data with
       | Err e => Err (ErrWrap "pdf: open" e)
       | Ok d => Ok (pdf_loop d (Z.to_nat (Z.min d.(pdf_NumPage) maxPDFPages)) 1 "")
       end.

(** ** XLSX *)

Definition maxXLSXRows : Z := 100000.

Fixpoint xlsx_rows (rows : list (result (list string))) (out : string) (emitted : Z) : string * Z :=
  match rows with
  | [] => (out, emitted)
  | row :: rest =>
    if maxXLSXRows <=? emitted then (out, emitted)
    else match row with
         | Err _ => xlsx_rows rest out emitted
         | Ok cols =>
           let line := row_line cols in
           if bool_decide (line = "") then xlsx_rows rest out emitted
           else xlsx_rows rest (out +:+ line +:+ newline) (emitted + 1)
         end
  end.

Fixpoint xlsx_sheets (sheets : list xlsx_sheet) (out : string) (emitted : Z) : string :=
  match sheets with
  | [] => out
  | sheet :: rest =>
    if maxXLSXRows <=? emitted then out
    else match sheet with
         | Err _ => xlsx_sheets rest out emitted
         | Ok rows => let '(out, emitted) := xlsx_rows rows out emitted in xlsx_sheets rest out emitted
         end
  end.

Definition XLSX_Extract (data : string) : result string :=
  if bool_decide (data = "") then Ok ""
  else match xlsx_OpenReader data with
       | Err e => Err (ErrWrap "xlsx: open" e)
       | Ok sheets => Ok (xlsx_sheets sheets "" 0)
       end.

(** ** DOCX *)

Definition maxDocxPartBytes : Z := Z.shiftl 50 20.

Fixpoint docx_loop (tokens : list (result xml_token)) (out : string) (capture : bool) : result string :=
  match tokens with
  | [] => Ok out
  | Err e :: _ => Err (ErrWrap "docx: xml parse" e)
  | Ok t :: rest =>
    match t with
    | StartElement local =>
      docx_loop rest (if bool_decide (local = "p") then out +:+ newline else out)
        (if bool_decide (local = "t") then true else capture)
    | EndElement local => docx_loop rest out (if bool_decide (local = "t") then false else capture)
    | CharData s => docx_loop rest (if capture then out +:+ s else out) capture
    | OtherToken => docx_loop rest out capture
    end
  end.

Definition walkDocxText (b : string) : result string := docx_loop (xml_tokens b) "" false.

(** The main part: at most one byte past the limit is read of it. *)
Definition docx_part (f : zip_file) : result string :=
  if maxDocxPartBytes <? f.(zf_UncompressedSize64)
  then Err (ErrNew ("docx: part " +:+ f.(zf_Name) +:+ " exceeds " +:+ fmt_d maxDocxPartBytes +:+ " bytes"))
  else match f.(zf_Open) with
       | Err e => Err (ErrWrap "docx: open part" e)
       | Ok read =>
         match read (maxDocxPartBytes + 1) with
         | Err e => Err (ErrWrap "docx: read part" e)
         | Ok body =>
           if maxDocxPartBytes <? len body
           then Err (ErrNew ("docx: part " +:+ f.(zf_Name) +:+ " exceeds " +:+ fmt_d maxDocxPartBytes +:+
                             " bytes after decompress"))
           else walkDocxText body
         end
       end.

Fixpoint docx_files (files : list zip_file) : result string :=
  match files with
  | [] => Ok ""
  | f :: rest => if bool_decide (f.(zf_Name) = "word/document.xml") then docx_part f else docx_files rest
  end.

Definition DOCX_Extract (data : string) : result string :=
  if bool_decide (data = "") then Ok ""
  else match zip_NewReader data with
       | Err e => Err (ErrWrap "docx: open zip" e)
       | Ok files => docx_files files
       end.
End extractors.
