(* ===== verification/ExtractProps.v ===== *)
(** Theorems about the text extractors: the limited loops against what they mean. *)
From Stdlib Require Import ZArith Ascii.
From stdpp Require Import base list strings gmap.
From S2P Require Import Prelude GoStrings GoValues Submission TextUtil Extract.

Open Scope Z_scope.

(** ** Lines *)

Definition lines_text (l : list string) : string := foldr (λ line s, line +:+ newline +:+ s) "" l.

Lemma lines_text_app l k : lines_text (l ++ k) = lines_text l +:+ lines_text k.
Proof. induction l as [|x l IH]; cbn [app lines_text foldr]; [done|]. unfold lines_text in IH. by rewrite IH, !string_app_assoc. Qed.

(** The lines of rows that are not blank. *)
Definition shown (rows : list (list string)) : list string := filter (λ line, line ≠ "") (row_line <$> rows).

(** ** CSV *)

(** The rows before the first error, and that error. *)
Fixpoint good_rows (records : list (result (list string))) : list (list string) * option error :=
  match records with
  | [] => ([], None)
  | Err e :: _ => ([], Some e)
  | Ok row :: rest => let '(rows, e) := good_rows rest in (row :: rows, e)
  end.

(** At most [rows_max] lines of the first [scan_max] rows; an error counts when the
    limits let the reader come to it. *)
Definition csv_meaning (rows_max scan_max : Z) (out : string) (records : list (result (list string))) : result string :=
  let '(rows, err) := good_rows records in
  match err with
  | Some e =>
    if (Z.of_nat (length rows) <? scan_max) && (Z.of_nat (length (shown rows)) <? rows_max)
    then Err (ErrWrap "csv: read" e)
    else Ok (out +:+ lines_text (take (Z.to_nat rows_max) (shown (take (Z.to_nat scan_max) rows))))
  | None => Ok (out +:+ lines_text (take (Z.to_nat rows_max) (shown (take (Z.to_nat scan_max) rows))))
  end.

Lemma shown_cons row rows :
  shown (row :: rows) = if bool_decide (row_line row = "") then shown rows else row_line row :: shown rows.
Proof. unfold shown. cbn [fmap list_fmap]. rewrite filter_cons. case_bool_decide; case_decide; done. Qed.

Lemma csv_meaning_stop out rows_max scan_max records :
  rows_max ≤ 0 ∨ scan_max ≤ 0 → csv_meaning rows_max scan_max out records = Ok out.
Proof.
  intros Hmax. unfold csv_meaning. destruct (good_rows records) as [rows err].
  assert (lines_text (take (Z.to_nat rows_max) (shown (take (Z.to_nat scan_max) rows))) = "") as ->.
  { destruct Hmax as [Hm|Hm]; rewrite (Z2Nat.nonpos _ Hm); [done|]. by destruct (Z.to_nat rows_max). }
  rewrite string_app_nil_r. destruct err; [|done].
  destruct (Z.ltb_spec (Z.of_nat (length rows)) scan_max), (Z.ltb_spec (Z.of_nat (length (shown rows))) rows_max);
    cbn [andb]; done || lia.
Qed.

Lemma ltb_S n m : (Z.of_nat (S n) <? m) = (Z.of_nat n <? m - 1).
Proof. destruct (Z.ltb_spec (Z.of_nat (S n)) m), (Z.ltb_spec (Z.of_nat n) (m - 1)); done || lia. Qed.

Lemma csv_meaning_cons out rows_max scan_max row rest :
  0 < rows_max → 0 < scan_max →
  csv_meaning rows_max scan_max out (Ok row :: rest) =
  if bool_decide (row_line row = "") then csv_meaning rows_max (scan_max - 1) out rest
  else csv_meaning (rows_max - 1) (scan_max - 1) (out +:+ row_line row +:+ newline) rest.
Proof.
  intros Hr Hs. unfold csv_meaning. cbn [good_rows]. destruct (good_rows rest) as [rows err].
  replace (Z.to_nat scan_max) with (S (Z.to_nat (scan_max - 1))) by lia. cbn [take length].
  rewrite !shown_cons. case_bool_decide as Hb.
  - destruct err; [|done].
    by rewrite ltb_S.
  - replace (Z.to_nat rows_max) with (S (Z.to_nat (rows_max - 1))) by lia. cbn [take length lines_text foldr].
    rewrite !string_app_assoc. destruct err; [|done].
    by rewrite !ltb_S.
Qed.

Lemma csv_loop_meaning records out emitted scanned :
  csv_loop records out emitted scanned = csv_meaning (maxCSVRows - emitted) (maxCSVScan - scanned) out records.
Proof.
  revert out emitted scanned. induction records as [|r rest IH]; intros out emitted scanned; cbn [csv_loop];
    destruct (Z.ltb_spec emitted maxCSVRows), (Z.ltb_spec scanned maxCSVScan); cbn [andb];
    try (rewrite csv_meaning_stop by lia; done).
  - unfold csv_meaning. cbn. rewrite take_nil. cbn. rewrite take_nil. cbn. by rewrite string_app_nil_r.
  - destruct r as [row|e].
    + rewrite csv_meaning_cons, !IH by lia. unfold maxCSVRows, maxCSVScan.
      case_bool_decide; f_equal; lia.
    + unfold csv_meaning. cbn [good_rows shown length fmap list_fmap filter].
      destruct (Z.ltb_spec (Z.of_nat 0) (maxCSVScan - scanned)); [|lia].
      destruct (Z.ltb_spec (Z.of_nat (length (shown []))) (maxCSVRows - emitted)); [done|cbn in *; lia].
Qed.

(** ** XLSX *)

Definition ok_list {A} (l : list (result A)) : list A :=
  l ≫= λ r, match r with Ok a => [a] | Err _ => [] end.

Lemma take_add_app {A} (n : Z) (l k : list A) :
  take (Z.to_nat n) l ++ take (Z.to_nat (n - Z.of_nat (length (take (Z.to_nat n) l)))) k = take (Z.to_nat n) (l ++ k).
Proof.
  rewrite take_app. f_equal. rewrite length_take. f_equal.
  destruct (Z_le_gt_dec 0 n); [|rewrite !Z2Nat.nonpos by lia; lia]. lia.
Qed.

Lemma xlsx_rows_meaning rows out emitted :
  let lines := take (Z.to_nat (maxXLSXRows - emitted)) (shown (ok_list rows)) in
  xlsx_rows rows out emitted = (out +:+ lines_text lines, emitted + Z.of_nat (length lines)).
Proof.
  revert out emitted. induction rows as [|r rows IH]; intros out emitted; cbn [xlsx_rows].
  { cbn. rewrite take_nil. cbn. by rewrite string_app_nil_r, Z.add_0_r. }
  destruct (Z.leb_spec maxXLSXRows emitted) as [Hle|Hlt].
  { rewrite Z2Nat.nonpos by lia. cbn. by rewrite string_app_nil_r, Z.add_0_r. }
  destruct r as [row|e]; [|apply IH]. cbn [ok_list mbind list_bind app]. fold (ok_list rows).
  rewrite shown_cons. case_bool_decide as Hb; [apply IH|]. rewrite IH.
  replace (Z.to_nat (maxXLSXRows - emitted)) with (S (Z.to_nat (maxXLSXRows - (emitted + 1)))) by lia.
  cbn [take length lines_text foldr]. rewrite !string_app_assoc. f_equal. lia.
Qed.

Lemma xlsx_sheets_meaning sheets out emitted :
  xlsx_sheets sheets out emitted =
  out +:+ lines_text (take (Z.to_nat (maxXLSXRows - emitted)) (shown (ok_list sheets ≫= ok_list))).
Proof.
  revert out emitted. induction sheets as [|s sheets IH]; intros out emitted; cbn [xlsx_sheets].
  { cbn. rewrite take_nil. cbn. by rewrite string_app_nil_r. }
  destruct (Z.leb_spec maxXLSXRows emitted) as [Hle|Hlt].
  { rewrite Z2Nat.nonpos by lia. cbn. by rewrite string_app_nil_r. }
  destruct s as [rows|e]; [|apply IH]. rewrite xlsx_rows_meaning, IH, string_app_assoc, <- lines_text_app.
  do 2 f_equal. rewrite Z.sub_add_distr, take_add_app. f_equal.
  cbn [ok_list mbind list_bind app]. unfold shown. by rewrite fmap_app, filter_app.
Qed.

Section theorems.
Context {R : DocReaders}.

(** The limited loops of the spreadsheet extractors show exactly what they should: the
    rows that are not blank, trimmed and tab-joined, one per line and in order, the first
    100,000 of them; for CSV out of the first 500,000 rows, failing only on an error the
    limits let it reach; for XLSX over every sheet and row that reads. *)
Theorem tables_meaning data :
  CSV_Extract data = (if bool_decide (data = "") then Ok ""
                      else csv_meaning maxCSVRows maxCSVScan "" (csv_records data)) ∧
  XLSX_Extract data =
    (if bool_decide (data = "") then Ok ""
     else match xlsx_OpenReader data with
          | Err e => Err (ErrWrap "xlsx: open" e)
          | Ok sheets => Ok (lines_text (take (Z.to_nat maxXLSXRows) (shown (ok_list sheets ≫= ok_list))))
          end).
Proof.
  split.
  - unfold CSV_Extract. case_bool_decide; [done|]. rewrite csv_loop_meaning. by rewrite !Z.sub_0_r.
  - unfold XLSX_Extract. case_bool_decide; [done|]. destruct (xlsx_OpenReader data); [|done].
    by rewrite xlsx_sheets_meaning, Z.sub_0_r.
Qed.

(** ** PDF *)

(** The text of the pages from [i] on, in full. *)
Fixpoint pages_text (d : pdf_doc) (n : nat) (i : Z) : string :=
  match n with
  | O => ""
  | S n => match d.(pdf_Page) i with
           | PageText s => s +:+ newline +:+ pages_text d n (i + 1)
           | _ => pages_text d n (i + 1)
           end
  end.

Lemma len_nonneg s : 0 ≤ len s.
Proof. unfold len. lia. Qed.

Lemma truncated_le s n : 0 ≤ n → len (if n <? len s then TruncateBytes s (Z.to_nat n) else s) ≤ n.
Proof.
  intros Hn. destruct (Z.ltb_spec n (len s)); [|lia].
  destruct (TruncateBytes_spec s (Z.to_nat n)) as [Ht _]. unfold len. lia.
Qed.

Lemma pdf_loop_bound d n i buf : len buf ≤ maxPDFTextBytes → len (pdf_loop d n i buf) ≤ maxPDFTextBytes.
Proof.
  revert i buf. induction n as [|n IH]; intros i buf Hb; cbn [pdf_loop]; [done|].
  destruct (Z.leb_spec maxPDFTextBytes (len buf)); [done|]. destruct (pdf_Page d i) as [|e|texts]; [by apply IH..|].
  pose proof (truncated_le texts (maxPDFTextBytes - len buf) ltac:(lia)) as Ht.
  cbv zeta. set (t := if _ <? _ then _ else _) in *. rewrite len_app.
  destruct (Z.leb_spec maxPDFTextBytes (len buf + len t)); [rewrite len_app; lia|].
  apply IH. rewrite !len_app. unfold len at 3. cbn. lia.
Qed.

Lemma pdf_loop_full d n i buf :
  len buf + len (pages_text d n i) ≤ maxPDFTextBytes → pdf_loop d n i buf = buf +:+ pages_text d n i.
Proof.
  revert i buf. induction n as [|n IH]; intros i buf Hb; cbn [pdf_loop pages_text] in *; [by rewrite string_app_nil_r|].
  assert (maxPDFTextBytes ≤ len buf → ∀ s, len buf + len s ≤ maxPDFTextBytes → buf = buf +:+ s) as Hfull.
  { intros Hm [|c s] Hs; [by rewrite string_app_nil_r|]. unfold len in *. cbn [String.length] in *. lia. }
  destruct (pdf_Page d i) as [|e|texts];
    [destruct (Z.leb_spec maxPDFTextBytes (len buf)); [by apply Hfull|by apply IH]..|].
  rewrite !len_app in Hb. change (len newline) with 1 in Hb.
  pose proof (len_nonneg texts). pose proof (len_nonneg (pages_text d n (i + 1))).
  destruct (Z.leb_spec maxPDFTextBytes (len buf)); [lia|]. cbv zeta.
  destruct (Z.ltb_spec (maxPDFTextBytes - len buf) (len texts)); [lia|]. rewrite len_app.
  destruct (Z.leb_spec maxPDFTextBytes (len buf + len texts)); [lia|].
  rewrite IH; [by rewrite !string_app_assoc|]. rewrite !len_app. change (len newline) with 1. lia.
Qed.

(** However large or hostile a PDF is, at most 2,000 of its pages are read and at most
    8 MiB of text come back; and when the text of these pages fits, all of it does, page
    by page, each with its line break. *)
Theorem pdf_text_bounded data d :
  data ≠ "" → HasPrefix data "%PDF" = true → pdf_NewReader data = Ok d →
  ∃ out, PDF_Extract data = Ok out ∧ len out ≤ maxPDFTextBytes ∧
    let n := Z.to_nat (Z.min d.(pdf_NumPage) maxPDFPages) in
    (n ≤ Z.to_nat maxPDFPages)%nat ∧
    (len (pages_text d n 1) ≤ maxPDFTextBytes → out = pages_text d n 1).
Proof.
  intros Hd Hp Hr. unfold PDF_Extract. rewrite bool_decide_eq_false_2, Hp, Hr by done. cbn [negb].
  eexists. split; [done|]. split; [by apply pdf_loop_bound|]. split; [lia|]. intros Hfit.
  by rewrite pdf_loop_full.
Qed.
End theorems.

(** ** Runs *)

Definition demo_readers : DocReaders := {|
  csv_records _ := [Ok ["a"; "b"]; Ok [" "; ""]; Ok ["c"]];
  pdf_NewReader _ := Ok (mkPdfDoc 3 (λ i, if i =? 2 then PageError (ErrNew "bad font") else PageText "page"));
  xlsx_OpenReader _ := Ok [Err (ErrNew "no such sheet"); Ok [Ok ["x"; "y"]; Err (ErrNew "cell"); Ok ["z"]]];
  zip_NewReader _ := Err (ErrNew "zip: not a valid zip file");
  xml_tokens _ := [] |}.

Lemma csv_run : CSV_Extract (R := demo_readers) "x" = Ok (lines_text ["a" +:+ tab +:+ "b"; "c"]).
Proof. vm_compute. reflexivity. Qed.

Lemma pdf_text_bounded_witness :
  ∃ out, PDF_Extract (R := demo_readers) "%PDF-1.7" = Ok out ∧ len out ≤ maxPDFTextBytes ∧ out = lines_text ["page"; "page"].
Proof.
  destruct (pdf_text_bounded (R := demo_readers) "%PDF-1.7" _ ltac:(discriminate) eq_refl eq_refl)
    as (out & Ho & Hb & _ & Hall).
  exists out. split; [exact Ho|]. split; [exact Hb|]. apply Hall. vm_compute. discriminate.
Defined.
