(* ===== verification/ChecklistStore.v ===== *)
(** The checklist store: [internal/infrastructure/checklist/store.go].

    [Store] is the interface the service is written against, with its laws in the
    class [StoreLaws]; [YAMLStore] is the implementation, whose [Reload] walks a
    directory.  The YAML parser is the parameter [parse]. *)
From Stdlib Require Import ZArith Ascii Sorting.Sorted.
From stdpp Require Import base list strings gmap.
From S2P Require Import Prelude GoStrings GoValues Submission Checklist TextUtil.

Open Scope Z_scope.

(** ** Interface *)

Record Store : Type := mkStore {
  store_Get : string → option Checklist;
  store_All : list Checklist }.

(** What the service relies on: [All] lists exactly what [Get] finds, once each, in
    increasing order of policy type, and every checklist is filed under its own type. *)
Class StoreLaws (st : Store) : Prop := {
  store_get_type : ∀ p c, st.(store_Get) p = Some c → c.(cl_PolicyType) = p;
  store_get_all : ∀ c, c ∈ st.(store_All) ↔ st.(store_Get) c.(cl_PolicyType) = Some c;
  store_all_sorted :
    StronglySorted (λ a b, string_lt a.(cl_PolicyType) b.(cl_PolicyType) = true) st.(store_All) }.

(** ** Raw checklists *)

Record rawRequiresField : Type := mkRawRequiresField {
  rrf_Name : string;
  rrf_Type : string;
  rrf_MinValue : option float64;
  rrf_Unit : string }.

Record rawMatch : Type := mkRawMatch {
  rm_FilenamePatterns : list string;
  rm_ContentKeywords : list string }.

Record rawRequired : Type := mkRawRequired {
  rr_ID : string;
  rr_Description : string;
  rr_Match : rawMatch;
  rr_RequiresField : option rawRequiresField }.

Record rawEscalation : Type := mkRawEscalation {
  re_ThresholdHours : Z;
  re_DigestRecipient : string }.

Record rawChecklist : Type := mkRawChecklist {
  rc_Name : string;
  rc_PolicyType : string;
  rc_Required : list rawRequired;
  rc_Escalation : rawEscalation }.

(** ** YAMLStore *)

Record YAMLStore : Type := mkYAMLStore { ys_byKey : gmap string Checklist }.

(** One callback of [filepath.WalkDir], with what reading the file gives. *)
Record DirEntry : Type := mkDirEntry {
  de_path : string;
  de_err : option error;
  de_isDir : bool;
  de_read : result string }.

(** [filepath.Ext] *)
Definition Ext (path : string) : string :=
  let base := match LastIndexByte path "/"%char with Some i => sdrop (S i) path | None => path end in
  match LastIndexByte base "."%char with Some i => sdrop i base | None => "" end.

Section store.
Context {L : GoLib} (parse : string → result rawChecklist).

Definition field_type_of (raw : string) : FieldType :=
  if bool_decide (ToLower raw = "number") then FieldTypeNumber else FieldTypeString.

Definition toModel_item (item : rawRequired) : RequiredItem :=
  mkRequiredItem item.(rr_ID) item.(rr_Description)
    (mkMatchRules item.(rr_Match).(rm_FilenamePatterns) item.(rr_Match).(rm_ContentKeywords))
    ((λ rf, mkRequiresField rf.(rrf_Name) (field_type_of rf.(rrf_Type)) rf.(rrf_MinValue) rf.(rrf_Unit))
       <$> item.(rr_RequiresField)).

Definition toModel (r : rawChecklist) : Checklist :=
  mkChecklist r.(rc_Name) r.(rc_PolicyType) (map toModel_item r.(rc_Required))
    (mkEscalationPolicy r.(rc_Escalation).(re_ThresholdHours) r.(rc_Escalation).(re_DigestRecipient)).

Definition bad_pattern (p : string) : bool :=
  match Match p "" with None => true | Some _ => false end.

Definition validate_item (item : RequiredItem) : result unit :=
  if bool_decide (item.(ri_ID) = "") then Err (ErrNew "required item with empty id")
  else match List.find bad_pattern item.(ri_Match).(mr_FilenamePatterns) with
       | Some p => Err (ErrWrap ("item " +:+ item.(ri_ID) +:+ ": invalid filename pattern " +:+ p)
                          (ErrSentinel "syntax error in pattern"))
       | None =>
         match item.(ri_RequiresField) with
         | None => Ok ()
         | Some rf =>
             if bool_decide (rf.(rf_Name) = "") then
               Err (ErrNew ("item " +:+ item.(ri_ID) +:+ ": requires_field with empty name"))
             else if bool_decide (is_Some rf.(rf_MinValue) ∧ rf.(rf_Type) ≠ FieldTypeNumber) then
               Err (ErrNew ("item " +:+ item.(ri_ID) +:+ ": min_value requires type number"))
             else Ok ()
         end
       end.

Fixpoint validate_items (items : list RequiredItem) : result unit :=
  match items with
  | [] => Ok ()
  | item :: rest => match validate_item item with Err e => Err e | Ok _ => validate_items rest end
  end.

Definition validateChecklist (c : Checklist) : result unit := validate_items c.(cl_Required).

(** The walk callback. *)
Definition load_entry (loaded : gmap string Checklist) (d : DirEntry)
  : result (gmap string Checklist) :=
  match d.(de_err) with
  | Some e => Err e
  | None =>
    if d.(de_isDir) then Ok loaded
    else
      let ext := ToLower (Ext d.(de_path)) in
      if bool_decide (ext ≠ ".yaml" ∧ ext ≠ ".yml") then Ok loaded
      else match d.(de_read) with
           | Err e => Err (ErrWrap ("checklist: read " +:+ d.(de_path)) e)
           | Ok body =>
             match parse body with
             | Err e => Err (ErrWrap ("checklist: parse " +:+ d.(de_path)) e)
             | Ok raw =>
               if bool_decide (raw.(rc_PolicyType) = "") then
                 Err (ErrNew ("checklist: " +:+ d.(de_path) +:+ " missing policy_type"))
               else if bool_decide (is_Some (loaded !! raw.(rc_PolicyType))) then
                 Err (ErrNew ("checklist: " +:+ d.(de_path) +:+ ": duplicate policy_type " +:+
                              raw.(rc_PolicyType)))
               else
                 let cl := toModel raw in
                 match validateChecklist cl with
                 | Err e => Err (ErrWrap ("checklist: " +:+ d.(de_path)) e)
                 | Ok _ => Ok (<[ raw.(rc_PolicyType) := cl ]> loaded)
                 end
             end
           end
  end.

Fixpoint load_entries (loaded : gmap string Checklist) (ds : list DirEntry)
  : result (gmap string Checklist) :=
  match ds with
  | [] => Ok loaded
  | d :: rest => match load_entry loaded d with Err e => Err e | Ok l => load_entries l rest end
  end.

(** [Reload]: the store afterwards and the error. *)
Definition Reload (s : YAMLStore) (ds : list DirEntry) : YAMLStore * option error :=
  match load_entries ∅ ds with
  | Err e => (s, Some e)
  | Ok loaded => (mkYAMLStore loaded, None)
  end.

Definition NewYAMLStore (ds : list DirEntry) : result YAMLStore :=
  match Reload (mkYAMLStore ∅) ds with
  | (s, None) => Ok s
  | (_, Some e) => Err e
  end.
End store.

Definition Get (s : YAMLStore) (policyType : string) : option Checklist := s.(ys_byKey) !! policyType.

Definition policy_less (a b : Checklist) : bool := string_lt a.(cl_PolicyType) b.(cl_PolicyType).

Definition All (s : YAMLStore) : list Checklist :=
  sort_by policy_less (map snd (map_to_list s.(ys_byKey))).

Definition yaml_store (s : YAMLStore) : Store := mkStore (Get s) (All s).

(** ** Laws *)

#[export] Instance policy_less_sw : StrictWeak policy_less.
Proof.
  unfold policy_less. split.
  - intros; apply string_lt_irrefl.
  - intros x y z. apply (sw_negtrans string_lt).
  - intros x y. apply string_lt_asym.
Qed.

Lemma validate_items_Ok items :
  validate_items items = Ok () ↔ Forall (λ i, validate_item i = Ok ()) items.
Proof.
  induction items as [|i items IH]; [done|]. rewrite Forall_cons. simpl.
  destruct (validate_item i) as [[]|]; [rewrite IH|]; naive_solver.
Qed.

(** A loaded store: every checklist valid and under its own, non-empty policy type. *)
Definition store_wf (m : gmap string Checklist) : Prop :=
  ∀ p c, m !! p = Some c → c.(cl_PolicyType) = p ∧ p ≠ "" ∧ validateChecklist c = Ok ().

Section laws.
Context {L : GoLib} (parse : string → result rawChecklist).

Lemma load_entry_wf loaded d loaded' :
  store_wf loaded → load_entry parse loaded d = Ok loaded' → store_wf loaded'.
Proof.
  unfold load_entry. intros Hwf Hok.
  destruct (de_err d); [done|]. destruct (de_isDir d); [by simplify_eq|].
  case_bool_decide; [by simplify_eq|]. destruct (de_read d) as [body|]; [|done].
  destruct (parse body) as [raw|]; [|done]. do 2 (case_bool_decide; [done|]).
  destruct (validateChecklist _) as [[]|] eqn:Ev; [|done]. simplify_eq.
  intros p c. destruct (decide (rc_PolicyType raw = p)) as [<-|Hne].
  - rewrite lookup_insert_eq. by intros [= <-].
  - rewrite lookup_insert_ne by done. apply Hwf.
Qed.

Lemma load_entries_wf loaded ds loaded' :
  store_wf loaded → load_entries parse loaded ds = Ok loaded' → store_wf loaded'.
Proof.
  revert loaded. induction ds as [|d ds IH]; intros loaded Hwf; simpl; [by intros [= <-]|].
  destruct (load_entry parse loaded d) eqn:E; [|done]. eauto using load_entry_wf.
Qed.
End laws.

Lemma elem_of_All s c : c ∈ All s ↔ ∃ p, s.(ys_byKey) !! p = Some c.
Proof.
  unfold All. rewrite sort_by_in, list_elem_of_In, in_map_iff. split.
  - intros ([p c'] & <- & Hin). exists p. by apply list_elem_of_In, elem_of_map_to_list in Hin.
  - intros [p Hp]. exists (p, c). split; [done|]. by apply list_elem_of_In, elem_of_map_to_list.
Qed.

Lemma All_types_NoDup s :
  store_wf s.(ys_byKey) → NoDup (map cl_PolicyType (All s)).
Proof.
  intros Hwf. unfold All. rewrite sort_by_perm, map_map.
  replace (map _ (map_to_list (ys_byKey s))) with (map fst (map_to_list (ys_byKey s))).
  { apply NoDup_fst_map_to_list. }
  apply map_ext_in. intros [p c] Hin. apply list_elem_of_In, elem_of_map_to_list, Hwf in Hin.
  symmetry. apply Hin.
Qed.

Lemma ordered_strict l :
  ordered policy_less l → NoDup (map cl_PolicyType l) →
  StronglySorted (λ a b, string_lt a.(cl_PolicyType) b.(cl_PolicyType) = true) l.
Proof.
  induction 1 as [|c l Hl IH Hc]; cbn [map]; [constructor|]. intros [Hnin Hnd]%NoDup_cons.
  constructor; [by apply IH|]. rewrite Forall_forall in *. intros d Hd.
  destruct (string_lt (cl_PolicyType c) (cl_PolicyType d)) eqn:E; [done|].
  exfalso. apply Hnin. rewrite (string_lt_trichotomy (cl_PolicyType c) (cl_PolicyType d)) by (try apply Hc; done).
  apply list_elem_of_In, in_map, list_elem_of_In, Hd.
Qed.

#[export] Instance yaml_store_laws_inst s : store_wf s.(ys_byKey) → StoreLaws (yaml_store s).
Proof.
  intros Hwf. split.
  - intros p c Hp. by apply Hwf in Hp as [? _].
  - intros c. cbn. rewrite elem_of_All. split; [|by eauto].
    intros [p Hp]. unfold Get. pose proof (Hwf _ _ Hp) as [-> _]. done.
  - apply ordered_strict; [apply sort_by_ordered, _|by apply All_types_NoDup].
Qed.

Definition demo_raw (p : string) : rawChecklist :=
  mkRawChecklist ("The " +:+ p) p [] (mkRawEscalation 0 "").

Definition demo_parse (body : string) : result rawChecklist :=
  if bool_decide (body = "bad") then Err (ErrNew "yaml") else Ok (demo_raw body).

(** Loading checklists is all or nothing and establishes the store interface: if
    any file is unreadable, unparsable, without a policy type, a duplicate or invalid,
    the store keeps what it had; otherwise [Get] and [All] agree, [All] is strictly
    increasing in the policy type, and every checklist is valid and filed under its own
    non-empty type. *)
Theorem Reload_all_or_nothing (L : GoLib) parse s ds :
  match Reload parse s ds with
  | (s', Some _) => s' = s
  | (s', None) =>
      StoreLaws (yaml_store s') ∧
      ∀ p c, Get s' p = Some c → p ≠ "" ∧ validateChecklist c = Ok ()
  end.
Proof.
  unfold Reload. destruct (load_entries parse ∅ ds) as [loaded|e] eqn:E; [|done].
  assert (store_wf loaded) as Hwf by (eapply load_entries_wf; [|done]; by intros p c []%lookup_empty_Some).
  split; [by apply yaml_store_laws_inst|]. intros p c Hp. by apply Hwf in Hp as (_ & ? & ?).
Qed.

Example Reload_loads :
  map cl_PolicyType (All (Reload (L := demo_lib) demo_parse (mkYAMLStore ∅)
    [mkDirEntry "c/x.yaml" None false (Ok "cyber"); mkDirEntry "c/README.md" None false (Ok "bad");
     mkDirEntry "c/b.YML" None false (Ok "bop")]).1) = ["bop"; "cyber"].
Proof. vm_compute. reflexivity. Qed.
