(* ===== verification/World.v ===== *)
(** The state the service runs on, and the monad its code is written in.

    [DB] is the SQLite schema of [migrations/]: each table is the list of its rows in
    rowid order.  [World] adds what the process keeps in memory
    ([SubmissionsService]'s fields) and the messages the mail server acknowledged.
    [Env] is everything outside the program: what the clock, the id generator, the
    database driver and the mail server answer at each interaction, indexed by a
    counter that every interaction advances.  [M] is state and error passing over it;
    [attempt] is Go's [if err := ...; err != nil].

    Two things are relied on.  A statement or a commit that SQLite reports as failed has had
    no effect, which is what its transactions promise of an embedded database: there is no
    connection on which an answer could be lost.  Calls of the driver do not panic.  Of the
    mail server nothing of the kind is: [env_send] is its answer as the sender sees it, and
    an error there says nothing about whether the message was taken ([Dispatch], [SmtpProps]). *)
From Stdlib Require Import ZArith.
From stdpp Require Import base list strings gmap.
From S2P Require Import Prelude GoStrings GoValues Submission.

Open Scope Z_scope.

(** ** Tables *)

(** The shapes of the [missing_items] column: the current one, the legacy list of
    ids, and text that is neither. *)
Inductive missing_col : Type :=
| MissingCurrent (items : list MissingItem)
| MissingLegacy (ids : list string)
| MissingCorrupt.

(** A row of [submissions]: [sr_data] holds the scalar columns, times as the stored
    integers ([last_reply_at] 0 for never), with no emails, documents or items. *)
Record submission_row : Type := mkSubmissionRow {
  sr_data : Submission;
  sr_missing : missing_col }.

Definition sr_id (r : submission_row) : string := r.(sr_data).(sub_ID).

(** A row of [outbox]; [or_reply] is [None] when [reply_json] does not decode. *)
Record outbox_row : Type := mkOutboxRow {
  or_id : string;
  or_submission_id : string;
  or_reply : option Reply;
  or_status : OutboxStatus;
  or_attempts : Z;
  or_last_error : string;
  or_created_at : Z;
  or_updated_at : Z;
  or_not_before : Z }.

Record failure_row : Type := mkFailureRow {
  fr_attempts : Z;
  fr_last_error : string;
  fr_updated_at : Z }.

(** The value of [first_boot_at] in [service_meta]. *)
Inductive boot_value : Type := BootAt (t : time) | BootGarbage (raw : string).

Record DB : Type := mkDB {
  db_submissions : list submission_row;
  db_emails : list Email;
  db_documents : list Document;
  db_outbox : list outbox_row;
  db_audit : list AuditEntry;
  db_failures : gmap (Z * Z) failure_row;
  db_first_boot : option boot_value;
  db_spend : gmap Z float64 }.

Definition db_with_submissions (v : list submission_row) (d : DB) : DB :=
  mkDB v d.(db_emails) d.(db_documents) d.(db_outbox) d.(db_audit) d.(db_failures)
    d.(db_first_boot) d.(db_spend).
Definition db_with_emails (v : list Email) (d : DB) : DB :=
  mkDB d.(db_submissions) v d.(db_documents) d.(db_outbox) d.(db_audit) d.(db_failures)
    d.(db_first_boot) d.(db_spend).
Definition db_with_documents (v : list Document) (d : DB) : DB :=
  mkDB d.(db_submissions) d.(db_emails) v d.(db_outbox) d.(db_audit) d.(db_failures)
    d.(db_first_boot) d.(db_spend).
Definition db_with_outbox (v : list outbox_row) (d : DB) : DB :=
  mkDB d.(db_submissions) d.(db_emails) d.(db_documents) v d.(db_audit) d.(db_failures)
    d.(db_first_boot) d.(db_spend).
Definition db_with_audit (v : list AuditEntry) (d : DB) : DB :=
  mkDB d.(db_submissions) d.(db_emails) d.(db_documents) d.(db_outbox) v d.(db_failures)
    d.(db_first_boot) d.(db_spend).
Definition db_with_failures (v : gmap (Z * Z) failure_row) (d : DB) : DB :=
  mkDB d.(db_submissions) d.(db_emails) d.(db_documents) d.(db_outbox) d.(db_audit) v
    d.(db_first_boot) d.(db_spend).
Definition db_with_first_boot (v : option boot_value) (d : DB) : DB :=
  mkDB d.(db_submissions) d.(db_emails) d.(db_documents) d.(db_outbox) d.(db_audit)
    d.(db_failures) v d.(db_spend).
Definition db_with_spend (v : gmap Z float64) (d : DB) : DB :=
  mkDB d.(db_submissions) d.(db_emails) d.(db_documents) d.(db_outbox) d.(db_audit)
    d.(db_failures) d.(db_first_boot) v.

Definition empty_db : DB := mkDB [] [] [] [] [] ∅ None ∅.

(** ** The process *)

(** A reply handed to the worker pool; [job_version] is the [updated_at] of its outbox
    row when it was queued. *)
Record replyJob : Type := mkReplyJob {
  job_reply : Reply;
  job_submissionID : string;
  job_outboxID : string;
  job_version : time }.

(** A command the IMAP server carried out on a message of the inbox. *)
Inductive mail_cmd : Type :=
| CmdSeen (uid : Z)
| CmdFlagged (uid : Z)
| CmdDeleted (uid : Z)
| CmdMove (uid : Z) (folder : string)
| CmdCopy (uid : Z) (folder : string)
| CmdExpunge (uid : Z)
| CmdCreate (folder : string).

(** What the poller keeps, and the commands its server carried out. *)
Record poll_state : Type := mkPollState {
  ps_mail : list mail_cmd;
  ps_lastPoll : Z;
  ps_failures : Z }.

(** A command given to the SMTP server, with the server's consent or not. *)
Inductive smtp_cmd : Type :=
| SmtpDial (addr : string)
| SmtpBanner
| SmtpHello
| SmtpStartTLS
| SmtpAuth (mechanism payload : string)
| SmtpMail (from : string)
| SmtpRcpt (to : string)
| SmtpData
| SmtpWrite (msg : string)
| SmtpEnd (msg : string)    (** the end of the data, where the server takes the message over *)
| SmtpQuit.

Record smtp_event : Type := mkSmtpEvent {
  se_cmd : smtp_cmd;
  se_tls : bool;      (** the connection was encrypted *)
  se_ok : bool }.     (** the answer arrived, and the server agreed *)

(** What went over the network: SMTP commands, payloads posted to the LLM, and the
    pauses between attempts. *)
Record net_state : Type := mkNet {
  ns_smtp : list smtp_event;
  ns_posts : list string;
  ns_sleeps : list duration }.

(** [w_collector] is the audit collector the ingest puts in its context;
    [w_cappedDay] is [None] for the empty string. *)
Record World : Type := mkWorld {
  w_db : DB;
  w_tick : nat;
  w_collector : option (list AuditEntry);
  w_dispatching : gset string;
  w_jobs : list replyJob;
  w_closed : bool;
  w_cappedDay : option Z;
  w_sent : list (Reply * string);
  w_poll : poll_state;
  w_net : net_state }.

Definition w_with_db (v : DB) (w : World) : World :=
  mkWorld v w.(w_tick) w.(w_collector) w.(w_dispatching) w.(w_jobs) w.(w_closed)
    w.(w_cappedDay) w.(w_sent) w.(w_poll) w.(w_net).
Definition w_next (w : World) : World :=
  mkWorld w.(w_db) (S w.(w_tick)) w.(w_collector) w.(w_dispatching) w.(w_jobs) w.(w_closed)
    w.(w_cappedDay) w.(w_sent) w.(w_poll) w.(w_net).
Definition w_with_collector (v : option (list AuditEntry)) (w : World) : World :=
  mkWorld w.(w_db) w.(w_tick) v w.(w_dispatching) w.(w_jobs) w.(w_closed)
    w.(w_cappedDay) w.(w_sent) w.(w_poll) w.(w_net).
Definition w_with_dispatching (v : gset string) (w : World) : World :=
  mkWorld w.(w_db) w.(w_tick) w.(w_collector) v w.(w_jobs) w.(w_closed)
    w.(w_cappedDay) w.(w_sent) w.(w_poll) w.(w_net).
Definition w_with_jobs (v : list replyJob) (w : World) : World :=
  mkWorld w.(w_db) w.(w_tick) w.(w_collector) w.(w_dispatching) v w.(w_closed)
    w.(w_cappedDay) w.(w_sent) w.(w_poll) w.(w_net).
Definition w_with_closed (v : bool) (w : World) : World :=
  mkWorld w.(w_db) w.(w_tick) w.(w_collector) w.(w_dispatching) w.(w_jobs) v
    w.(w_cappedDay) w.(w_sent) w.(w_poll) w.(w_net).
Definition w_with_cappedDay (v : option Z) (w : World) : World :=
  mkWorld w.(w_db) w.(w_tick) w.(w_collector) w.(w_dispatching) w.(w_jobs) w.(w_closed)
    v w.(w_sent) w.(w_poll) w.(w_net).
Definition w_with_sent (v : list (Reply * string)) (w : World) : World :=
  mkWorld w.(w_db) w.(w_tick) w.(w_collector) w.(w_dispatching) w.(w_jobs) w.(w_closed)
    w.(w_cappedDay) v w.(w_poll) w.(w_net).

Definition w_with_poll (v : poll_state) (w : World) : World :=
  mkWorld w.(w_db) w.(w_tick) w.(w_collector) w.(w_dispatching) w.(w_jobs) w.(w_closed)
    w.(w_cappedDay) w.(w_sent) v w.(w_net).

Definition w_with_net (v : net_state) (w : World) : World :=
  mkWorld w.(w_db) w.(w_tick) w.(w_collector) w.(w_dispatching) w.(w_jobs) w.(w_closed)
    w.(w_cappedDay) w.(w_sent) w.(w_poll) v.

Definition empty_world : World := mkWorld empty_db 0 None ∅ [] false None [] (mkPollState [] 0 0) (mkNet [] [] []).

(** ** Environment and monad *)

Class Env : Type := {
  env_now : nat → time;                  (** [time.Now] *)
  env_uuid : nat → string;               (** [uuid.NewString] *)
  env_fault : nat → option string;       (** a statement's failure, [None] when it runs *)
  env_send : nat → Reply → result string; (** the answer to a send: the provider's message id *)
  env_requestID : nat → string;          (** the request id the context carries *)
  env_cancelled : nat → option error     (** [ctx.Err()] *)
}.

Definition M (A : Type) : Type := World → result A * World.

#[export] Instance M_ret : MRet M := λ A a w, (Ok a, w).
#[export] Instance M_bind : MBind M := λ A B f m w,
  match m w with (Ok a, w') => f a w' | (Err e, w') => (Err e, w') end.

Lemma bind_ok {A B} (m : M A) (f : A → M B) a w w' :
  m w = (Ok a, w') → (m ≫= f) w = f a w'.
Proof. intros Hm. unfold mbind, M_bind. by rewrite Hm. Qed.

Lemma bind_err {A B} (m : M A) (f : A → M B) e w w' :
  m w = (Err e, w') → (m ≫= f) w = (Err e, w').
Proof. intros Hm. unfold mbind, M_bind. by rewrite Hm. Qed.

Definition throw {A} (e : error) : M A := λ w, (Err e, w).
Definition attempt {A} (m : M A) : M (result A) := λ w,
  match m w with
  | (Err (ErrPanic p), w') => (Err (ErrPanic p), w')
  | (r, w') => (Ok r, w')
  end.
Definition get : M World := λ w, (Ok w, w).
Definition modify (f : World → World) : M unit := λ w, (Ok (), f w).

(** [if err := m; err != nil { return fmt.Errorf("msg: %w", err) }] *)
Definition wrap_err {A} (msg : string) (m : M A) : M A := λ w,
  match m w with
  | (Err (ErrPanic p), w') => (Err (ErrPanic p), w')
  | (Err e, w') => (Err (ErrWrap msg e), w')
  | r => r
  end.

(** A deferred [recover] around [m]: the handler [h] runs on a panic. *)
Definition recovering (m : M unit) (h : string → M unit) : M unit := λ w,
  match m w with
  | (Err (ErrPanic p), w') => h p w'
  | r => r
  end.

(** [defer release()] around [m]: it runs on every exit of [m], panics included. *)
Definition deferred {A} (m : M A) (release : M unit) : M A := λ w,
  let '(r, w') := m w in (r, (release w').2).

(** [if err := m; err != nil { log }] *)
Definition log_err {A} (m : M A) : M unit := attempt m ≫= λ _, mret ().

(** A loop whose body only fails by returning from the function. *)
Fixpoint for_each {A} (f : A → M unit) (l : list A) : M unit :=
  match l with
  | [] => mret ()
  | x :: l => f x ≫= λ _, for_each f l
  end.

Section ops.
Context {E : Env}.

(** [if err := ctx.Err(); err != nil { return err }] *)
Definition check_ctx : M unit := λ w,
  match env_cancelled w.(w_tick) with Some e => (Err e, w) | None => (Ok (), w) end.

Definition time_Now : M time := λ w, (Ok (env_now w.(w_tick)), w_next w).
Definition NewString : M string := λ w, (Ok (env_uuid w.(w_tick)), w_next w).

(** One statement: it fails without effect, as the driver says, or runs to the end. *)
Definition stmt {A} (f : DB → result (A * DB)) : M A := λ w,
  match env_fault w.(w_tick) with
  | Some msg => (Err (ErrNew msg), w_next w)
  | None => match f w.(w_db) with
            | Ok (a, d) => (Ok a, w_with_db d (w_next w))
            | Err e => (Err e, w_next w)
            end
  end.

Definition query {A} (f : DB → A) : M A := stmt (λ d, Ok (f d, d)).
Definition exec (f : DB → DB) : M unit := stmt (λ d, Ok ((), f d)).

(** [BeginTx] ... [Commit] with the deferred [Rollback]; [bare] when the error of the
    commit is returned as it is. *)
Definition tx_body {A} (bare : bool) (m : M A) : M A :=
  wrap_err "begin tx" (query id) ≫= λ _, m ≫= λ a,
  (if bare then query id else wrap_err "commit" (query id)) ≫= λ _, mret a.

Definition transaction {A} (bare : bool) (m : M A) : M A := λ w,
  match tx_body bare m w with
  | (Ok a, w') => (Ok a, w')
  | (Err e, w') => (Err e, w_with_db w.(w_db) w')
  end.
End ops.

(** ** Invariants of computations *)

Definition preserves (I : World → Prop) {A} (m : M A) : Prop := ∀ w, I w → I (m w).2.

Section preserves.
Context {E : Env} (I : World → Prop).

Lemma preserves_ret {A} (a : A) : preserves I (mret a).
Proof. by intros w. Qed.

Lemma preserves_throw {A} e : preserves I (throw (A := A) e).
Proof. by intros w. Qed.

Lemma preserves_bind {A B} (m : M A) (f : A → M B) :
  preserves I m → (∀ a, preserves I (f a)) → preserves I (m ≫= f).
Proof.
  intros Hm Hf w Hw. unfold mbind, M_bind. specialize (Hm w Hw).
  destruct (m w) as [[a|e] w']; [by apply Hf|done].
Qed.

(** The continuation may use what the first part established. *)
Lemma preserves_bind_post {A B} (m : M A) (f : A → M B) (Q : A → World → Prop) :
  preserves I m → (∀ w, I w → match m w with (Ok a, w') => Q a w' | _ => True end) →
  (∀ a w, I w → Q a w → I (f a w).2) → preserves I (m ≫= f).
Proof.
  intros Hm HQ Hf w Hw. unfold mbind, M_bind. specialize (Hm w Hw). specialize (HQ w Hw).
  destruct (m w) as [[a|e] w']; [by apply Hf|done].
Qed.

Lemma preserves_attempt {A} (m : M A) : preserves I m → preserves I (attempt m).
Proof. intros Hm w Hw. unfold attempt. specialize (Hm w Hw). by destruct (m w) as [[|[]]]. Qed.

Lemma preserves_wrap_err {A} msg (m : M A) : preserves I m → preserves I (wrap_err msg m).
Proof. intros Hm w Hw. unfold wrap_err. specialize (Hm w Hw). by destruct (m w) as [[|[]]]. Qed.

Lemma preserves_recovering (m : M unit) h :
  preserves I m → (∀ p, preserves I (h p)) → preserves I (recovering m h).
Proof.
  intros Hm Hh w Hw. unfold recovering. specialize (Hm w Hw).
  destruct (m w) as [[|[]]]; try done. by apply Hh.
Qed.

Lemma preserves_deferred {A} (m : M A) release :
  preserves I m → preserves I release → preserves I (deferred m release).
Proof.
  intros Hm Hr w Hw. unfold deferred. specialize (Hm w Hw).
  destruct (m w) as [r w']. by apply Hr.
Qed.

Lemma preserves_log_err {A} (m : M A) : preserves I m → preserves I (log_err m).
Proof. intros. apply preserves_bind; [by apply preserves_attempt|intros; apply preserves_ret]. Qed.

Lemma preserves_get : preserves I get.
Proof. by intros w. Qed.

Lemma preserves_modify f : (∀ w, I w → I (f w)) → preserves I (modify f).
Proof. intros Hf w Hw. by apply Hf. Qed.

Lemma preserves_for_each {A} (f : A → M unit) l :
  (∀ x, x ∈ l → preserves I (f x)) → preserves I (for_each f l).
Proof.
  induction l as [|x l IH]; intros Hf; cbn [for_each]; [apply preserves_ret|].
  apply preserves_bind; [apply Hf; by left|]. intros _. apply IH. intros. apply Hf. by right.
Qed.
End preserves.

(** Invariants that only look at the database. *)
Section db_preserves.
Context {E : Env} (P : DB → Prop).

Lemma preserves_check_ctx : preserves (P ∘ w_db) check_ctx.
Proof. intros w. unfold check_ctx. by destruct (env_cancelled _). Qed.

Lemma preserves_now : preserves (P ∘ w_db) time_Now.
Proof. by intros w. Qed.

Lemma preserves_uuid : preserves (P ∘ w_db) NewString.
Proof. by intros w. Qed.

Lemma preserves_stmt {A} (f : DB → result (A * DB)) :
  (∀ d a d', P d → f d = Ok (a, d') → P d') → preserves (P ∘ w_db) (stmt f).
Proof.
  intros Hf w Hw. unfold stmt. destruct (env_fault _); [done|].
  destruct (f (w_db w)) as [[a d']|] eqn:E'; [|done]. by eapply Hf.
Qed.

Lemma preserves_exec f : (∀ d, P d → P (f d)) → preserves (P ∘ w_db) (exec f).
Proof. intros Hf. apply preserves_stmt. intros d a d' Hd [= _ <-]. by apply Hf. Qed.

Lemma preserves_query {A} (f : DB → A) : preserves (P ∘ w_db) (query f).
Proof. apply preserves_stmt. by intros d a d' ? [= _ <-]. Qed.

Lemma preserves_transaction {A} bare (m : M A) :
  preserves (P ∘ w_db) m → preserves (P ∘ w_db) (transaction bare m).
Proof.
  intros Hm w Hw. unfold transaction.
  assert (preserves (P ∘ w_db) (tx_body bare m)) as Hp.
  { repeat (apply preserves_bind; [|intros]); try apply preserves_wrap_err, preserves_query;
      [done|destruct bare; try apply preserves_wrap_err; apply preserves_query|apply preserves_ret]. }
  specialize (Hp w Hw). destruct (tx_body bare m w) as [[a|e] w']; [done|]. exact Hw.
Qed.

Lemma preserves_modify_mem f :
  (∀ w, w_db (f w) = w_db w) → preserves (P ∘ w_db) (modify f).
Proof. intros Hf. apply preserves_modify. intros w Hw. unfold compose in *. by rewrite Hf. Qed.
End db_preserves.

#[export] Hint Resolve preserves_ret preserves_throw preserves_attempt preserves_wrap_err
  preserves_log_err preserves_get preserves_check_ctx preserves_now preserves_uuid preserves_query
  preserves_transaction : triage.
#[export] Hint Extern 1 (preserves _ (modify _)) =>
  apply preserves_modify_mem; intros ?; reflexivity : triage.

(** Invariants of what the process keeps in memory beside the database. *)
Definition memory : Type := gset string * list replyJob * bool * list (Reply * string).

Definition mem (w : World) : memory :=
  (w.(w_dispatching), w.(w_jobs), w.(w_closed), w.(w_sent)).

Definition Mem (x : memory) (w : World) : Prop := mem w = x.

Section mem_preserves.
Context {E : Env} (x : memory).

Lemma mem_check_ctx : preserves (Mem x) check_ctx.
Proof. intros w. unfold check_ctx. by destruct (env_cancelled _). Qed.

Lemma mem_now : preserves (Mem x) time_Now.
Proof. by intros w. Qed.

Lemma mem_uuid : preserves (Mem x) NewString.
Proof. by intros w. Qed.

Lemma mem_stmt {A} (f : DB → result (A * DB)) : preserves (Mem x) (stmt f).
Proof.
  intros w Hw. unfold stmt. destruct (env_fault _); [done|]. by destruct (f _) as [[]|].
Qed.

Lemma mem_exec f : preserves (Mem x) (exec f).
Proof. apply mem_stmt. Qed.

Lemma mem_query {A} (f : DB → A) : preserves (Mem x) (query f).
Proof. apply mem_stmt. Qed.

Lemma mem_transaction {A} bare (m : M A) :
  preserves (Mem x) m → preserves (Mem x) (transaction bare m).
Proof.
  intros Hm w Hw. unfold transaction.
  assert (preserves (Mem x) (tx_body bare m)) as Hp.
  { repeat (apply preserves_bind; [|intros]); try apply preserves_wrap_err, mem_query;
      [done|destruct bare; try apply preserves_wrap_err; apply mem_query|apply preserves_ret]. }
  specialize (Hp w Hw). by destruct (tx_body bare m w) as [[a|e] w'].
Qed.

Lemma mem_modify f : (∀ w, mem (f w) = mem w) → preserves (Mem x) (modify f).
Proof. intros Hf. apply preserves_modify. intros w. unfold Mem. by rewrite Hf. Qed.
End mem_preserves.

#[export] Hint Resolve mem_check_ctx mem_now mem_uuid mem_stmt mem_exec mem_query
  mem_transaction : triage.
#[export] Hint Extern 1 (preserves (Mem _) (modify _)) =>
  apply mem_modify; intros ?; reflexivity : triage.

(** Walks through a computation, splitting binds, conditionals and matches. *)
Ltac walk :=
  repeat first
    [ progress (intros)
    | solve [eauto 3 with triage]
    | lazymatch goal with
      | |- preserves _ (mbind _ _) => apply preserves_bind
      | |- preserves _ (for_each _ _) => apply preserves_for_each
      | |- preserves _ (wrap_err _ _) => apply preserves_wrap_err
      | |- preserves _ (attempt _) => apply preserves_attempt
      | |- preserves _ (log_err _) => apply preserves_log_err
      | |- preserves _ (recovering _ _) => apply preserves_recovering
      | |- preserves _ (deferred _ _) => apply preserves_deferred
      end
    | match goal with
      | |- preserves _ (match ?x with _ => _ end) => destruct x
      | |- preserves _ (if ?x then _ else _) => destruct x
      | |- preserves _ (let '_ := ?x in _) => destruct x
      end ].

(** ** Calls of the LLM client

    A call may spend: it adds to the spend table, takes time and goes over the network,
    and leaves everything else alone. *)
Definition w_llm (spend : gmap Z float64) (ticks : nat) (net : net_state) (w : World) : World :=
  mkWorld (db_with_spend spend w.(w_db)) (ticks + w.(w_tick)) w.(w_collector) w.(w_dispatching) w.(w_jobs) w.(w_closed)
    w.(w_cappedDay) w.(w_sent) w.(w_poll) net.

Definition Llm (w0 w : World) : Prop := ∃ spend ticks net, w = w_llm spend ticks net w0.

Definition llm_frame {A} (m : M A) : Prop := ∀ w0, preserves (Llm w0) m.

Lemma Llm_refl w : Llm w w.
Proof. exists (db_spend (w_db w)), 0%nat, (w_net w). by destruct w as [[]]. Qed.

Lemma Llm_trans w0 w1 w2 : Llm w0 w1 → Llm w1 w2 → Llm w0 w2.
Proof.
  intros (? & n1 & ? & ->) (sp & n & net & ->). exists sp, (n + n1)%nat, net. unfold w_llm. cbn.
  by rewrite Nat.add_assoc.
Qed.

(** It is enough to look at single runs. *)
Lemma llm_frame_run {A} (m : M A) : (∀ w, Llm w (m w).2) → llm_frame m.
Proof. intros Hm w0 w Hw. by eapply Llm_trans. Qed.

Lemma preserves_llm (I : World → Prop) {A} (m : M A) :
  llm_frame m → (∀ spend ticks net w, I w → I (w_llm spend ticks net w)) → preserves I m.
Proof.
  intros Hm HI w Hw. destruct (Hm w w (Llm_refl w)) as (sp & n & net & ->). by apply HI.
Qed.

(** A transaction either commits its body's database or leaves the old one. *)
Lemma transaction_atomic {E : Env} {A} bare (m : M A) w :
  match transaction bare m w with
  | (Ok a, w') => ∃ w1 w2, w_db w1 = w_db w ∧ m w1 = (Ok a, w2) ∧ w_db w' = w_db w2
  | (Err _, w') => w_db w' = w_db w
  end.
Proof.
  unfold transaction, tx_body, mbind, M_bind, wrap_err, query, stmt.
  destruct (env_fault (w_tick w)); [done|]. cbn.
  destruct (m _) as [[a|e] w2] eqn:Em; [|done].
  destruct bare; (destruct (env_fault _); [done|]); cbn; eexists _, w2; split_and!;
    try exact Em; done.
Qed.

(** ** Weakest preconditions

    [wp m Q w]: what [m] returns and leaves from [w] satisfies [Q].  [ok Q] is the
    postcondition of a computation that does not fail. *)
Definition wp {A} (m : M A) (Q : result A → World → Prop) (w : World) : Prop := Q (m w).1 (m w).2.

Definition ok {A} (Q : A → World → Prop) (r : result A) (w : World) : Prop :=
  match r with Ok a => Q a w | Err _ => False end.

Lemma wp_mono {A} (m : M A) (Q Q' : result A → World → Prop) w :
  wp m Q w → (∀ r w', Q r w' → Q' r w') → wp m Q' w.
Proof. unfold wp. auto. Qed.

Lemma wp_ret {A} (a : A) Q w : Q (Ok a) w → wp (mret a) Q w.
Proof. done. Qed.

Lemma wp_bind {A B} (m : M A) (f : A → M B) Q w :
  wp m (λ r w', match r with Ok a => wp (f a) Q w' | Err e => Q (Err e) w' end) w →
  wp (m ≫= f) Q w.
Proof. unfold wp, mbind, M_bind. by destruct (m w) as [[a|e] w']. Qed.

Lemma wp_bind_ok {A B} (m : M A) (f : A → M B) (R : A → World → Prop) Q w :
  wp m (ok R) w → (∀ a w', R a w' → wp (f a) Q w') → wp (m ≫= f) Q w.
Proof.
  intros Hm Hf. apply wp_bind. eapply wp_mono; [done|]. intros [a|e] w'; cbn; [|done]. apply Hf.
Qed.

Lemma wp_wrap_err {A} msg (m : M A) (Q : A → World → Prop) w :
  wp m (ok Q) w → wp (wrap_err msg m) (ok Q) w.
Proof. unfold wp, wrap_err. by destruct (m w) as [[a|[]] w']. Qed.

Lemma wp_attempt {A} (m : M A) (Q : result (result A) → World → Prop) w :
  wp m (λ r w', match r with Err (ErrPanic p) => Q (Err (ErrPanic p)) w' | _ => Q (Ok r) w' end) w →
  wp (attempt m) Q w.
Proof. unfold wp, attempt. by destruct (m w) as [[|[]]]. Qed.

(** No statement fails. *)
Definition fault_free (E : Env) : Prop := ∀ n, env_fault n = None.

Section fault_free.
Context {E : Env} (Hff : fault_free E).

Lemma wp_stmt {A} (f : DB → result (A * DB)) a d (Q : A → World → Prop) w :
  f (w_db w) = Ok (a, d) → Q a (w_with_db d (w_next w)) → wp (stmt f) (ok Q) w.
Proof. intros Hf HQ. unfold wp, stmt. by rewrite Hff, Hf. Qed.

Lemma wp_exec f (Q : unit → World → Prop) w :
  Q () (w_with_db (f (w_db w)) (w_next w)) → wp (exec f) (ok Q) w.
Proof. intros HQ. by eapply wp_stmt. Qed.

Lemma wp_query {A} (f : DB → A) (Q : A → World → Prop) w :
  Q (f (w_db w)) (w_next w) → wp (query f) (ok Q) w.
Proof. intros HQ. eapply wp_stmt; [done|]. by destruct w. Qed.

Lemma wp_transaction {A} bare (m : M A) (Q : A → World → Prop) w :
  (∀ w1, w_db w1 = w_db w → wp m (ok (λ a w2, Q a (w_next w2))) w1) →
  wp (transaction bare m) (ok Q) w.
Proof.
  intros Hm. specialize (Hm (w_next w) eq_refl). revert Hm.
  unfold wp, transaction, tx_body, mbind, M_bind, wrap_err, query, stmt. rewrite Hff. cbn.
  replace (w_with_db (w_db w) (w_next w)) with (w_next w) by (by destruct w).
  destruct (m (w_next w)) as [[a|e] w2]; cbn; [|done]. intros HQ.
  destruct bare; rewrite Hff; cbn; by destruct w2.
Qed.

(** A loop each of whose rounds runs; [R] relates the rounds done to the database. *)
Lemma wp_for_each {A} (f : A → M unit) (R : list A → DB → Prop) l1 l2 w :
  R l1 (w_db w) →
  (∀ l x w, l ++ [x] `prefix_of` l2 → R (l1 ++ l) (w_db w) →
     wp (f x) (ok (λ _ w', R (l1 ++ l ++ [x]) (w_db w'))) w) →
  wp (for_each f l2) (ok (λ _ w', R (l1 ++ l2) (w_db w'))) w.
Proof.
  revert l1 w. induction l2 as [|x l2 IH]; intros l1 w HR Hf; cbn [for_each].
  - rewrite app_nil_r. by apply wp_ret.
  - eapply wp_bind_ok.
    { apply (Hf [] x w); [by eexists|by rewrite app_nil_r]. }
    intros [] w' HR'. cbn in HR'.
    replace (l1 ++ x :: l2) with ((l1 ++ [x]) ++ l2) by (by rewrite <- app_assoc).
    apply IH; [done|]. intros l y w'' Hl HRl.
    rewrite <- app_assoc in *. apply (Hf (x :: l) y w''); [by apply prefix_cons|done].
Qed.
End fault_free.

(** ** Invariants with a result

    [yields I m Q]: [m] keeps [I], and what it returns satisfies [Q]. *)
Definition yields (I : World → Prop) {A} (m : M A) (Q : A → Prop) : Prop :=
  ∀ w, I w → I (m w).2 ∧ ∀ a, (m w).1 = Ok a → Q a.

Section yields.
Context (I : World → Prop).

Lemma yields_any {A} (m : M A) : preserves I m → yields I m (λ _, True).
Proof. intros Hm w Hw. split; [by apply Hm|done]. Qed.

Lemma yields_preserves {A} (m : M A) Q : yields I m Q → preserves I m.
Proof. intros Hm w Hw. by apply Hm. Qed.

Lemma yields_ret {A} (a : A) (Q : A → Prop) : Q a → yields I (mret a) Q.
Proof. intros Ha w Hw. split; [done|]. by intros ? [= <-]. Qed.

Lemma yields_throw {A} e (Q : A → Prop) : yields I (throw e) Q.
Proof. intros w Hw. split; [done|]. by intros ? ?. Qed.

Lemma yields_weaken {A} (m : M A) (Q Q' : A → Prop) :
  yields I m Q → (∀ a, Q a → Q' a) → yields I m Q'.
Proof. intros Hm HQ w Hw. destruct (Hm w Hw). eauto. Qed.

Lemma yields_bind {A B} (m : M A) (f : A → M B) (R : A → Prop) (Q : B → Prop) :
  yields I m R → (∀ a, R a → yields I (f a) Q) → yields I (m ≫= f) Q.
Proof.
  intros Hm Hf w Hw. destruct (Hm w Hw) as [HI HR]. unfold mbind, M_bind.
  destruct (m w) as [[a|e] w']; cbn in *; [|done]. apply Hf; eauto.
Qed.

(** The first part returns nothing of interest. *)
Lemma yields_seq {A B} (m : M A) (f : A → M B) (Q : B → Prop) :
  preserves I m → (∀ a, yields I (f a) Q) → yields I (m ≫= f) Q.
Proof. intros Hm Hf. eapply yields_bind; [by apply yields_any|]. auto. Qed.

Lemma yields_attempt {A} (m : M A) (Q : A → Prop) :
  yields I m Q → yields I (attempt m) (λ r, match r with Ok a => Q a | Err _ => True end).
Proof.
  intros Hm w Hw. destruct (Hm w Hw) as [HI HQ]. unfold attempt.
  destruct (m w) as [[a|e] w']; cbn in *.
  - split; [done|]. intros ? [= <-]. by apply HQ.
  - destruct e; (split; [done|]); intros ?; try discriminate; by intros [= <-].
Qed.

Lemma yields_wrap_err {A} msg (m : M A) Q : yields I m Q → yields I (wrap_err msg m) Q.
Proof.
  intros Hm w Hw. destruct (Hm w Hw) as [HI HQ]. unfold wrap_err.
  destruct (m w) as [[a|e] w']; cbn in *; [done|]. destruct e; (split; [done|]); done.
Qed.
End yields.

Lemma yields_query {E : Env} (P : DB → Prop) {A} (f : DB → A) (Q : A → Prop) :
  (∀ d, P d → Q (f d)) → yields (P ∘ w_db) (query f) Q.
Proof.
  intros HQ w Hw. split; [by apply preserves_query|]. unfold query, stmt.
  destruct (env_fault _); [done|]. intros a [= <-]. by apply HQ.
Qed.

(** Chaining a part that keeps a property of the database with what follows. *)
Lemma wp_yields {A B} (P : DB → Prop) (m : M A) (R : A → Prop) (f : A → M B) Q w :
  yields (P ∘ w_db) m R → P (w_db w) →
  (∀ e w', P (w_db w') → Q (Err e) w') →
  (∀ a w', P (w_db w') → R a → wp (f a) Q w') →
  wp (m ≫= f) Q w.
Proof.
  intros Hm Hw He Hf. apply wp_bind. unfold wp at 1. destruct (Hm w Hw) as [HP HR].
  destruct (m w) as [[a|e] w']; cbn in *; [apply Hf; eauto|by apply He].
Qed.

Lemma wp_throw {A} e (Q : result A → World → Prop) w : Q (Err e) w → wp (throw e) Q w.
Proof. done. Qed.

Lemma for_each_all {A} (f : A → M unit) (Q : A → World → Prop) l w w' :
  (∀ x w w', f x w = (Ok (), w') → Q x w') → (∀ x y, preserves (Q y) (f x)) →
  for_each f l w = (Ok (), w') → ∀ x, x ∈ l → Q x w'.
Proof.
  intros Hx Hp. assert (∀ y l, preserves (Q y) (for_each f l)) as Hl.
  { intros y l'. apply preserves_for_each. auto. }
  revert w. induction l as [|x l IH]; intros w; cbn [for_each]; [by intros _ ? ?%elem_of_nil|].
  unfold mbind, M_bind. destruct (f x w) as [[[]|e] w1] eqn:Ef; [|done].
  intros Hrun y [->|Hy]%elem_of_cons; [|by eapply IH].
  pose proof (Hl x l w1 (Hx _ _ _ Ef)) as HQ. by rewrite Hrun in HQ.
Qed.

(** [m] never fails. *)
Definition safe {A} (m : M A) : Prop := ∀ w, ∃ a w', m w = (Ok a, w').

Lemma wp_seq_safe {A B} (P : DB → Prop) (m : M A) (f : A → M B) Q w :
  safe m → preserves (P ∘ w_db) m → P (w_db w) →
  (∀ a w', P (w_db w') → wp (f a) Q w') → wp (m ≫= f) Q w.
Proof.
  intros Hs Hp Hw Hf. apply wp_bind. specialize (Hp w Hw). unfold wp at 1.
  destruct (Hs w) as (a & w' & Hm). rewrite Hm in *. by apply Hf.
Qed.

Lemma safe_ret {A} (a : A) : safe (mret a).
Proof. intros w. by exists a, w. Qed.

Lemma safe_bind {A B} (m : M A) (f : A → M B) : safe m → (∀ a, safe (f a)) → safe (m ≫= f).
Proof.
  intros Hm Hf w. destruct (Hm w) as (a & w' & Ha). destruct (Hf a w') as (b & w'' & Hb).
  exists b, w''. unfold mbind, M_bind. by rewrite Ha.
Qed.

(** [m] never panics, so a logged failure of it is harmless. *)
Definition calm {A} (m : M A) : Prop := ∀ w p, (m w).1 ≠ Err (ErrPanic p).

Lemma calm_ret {A} (a : A) : calm (mret a).
Proof. done. Qed.

Lemma calm_bind {A B} (m : M A) (f : A → M B) : calm m → (∀ a, calm (f a)) → calm (m ≫= f).
Proof.
  intros Hm Hf w p. unfold mbind, M_bind. specialize (Hm w p).
  destruct (m w) as [[a|e] w']; [apply Hf|]. intros [= ->]. by apply Hm.
Qed.

Lemma calm_wrap_err {A} msg (m : M A) : calm m → calm (wrap_err msg m).
Proof.
  intros Hm w p. unfold wrap_err. specialize (Hm w p). by destruct (m w) as [[a|[]] w'].
Qed.

Lemma calm_stmt {E : Env} {A} (f : DB → result (A * DB)) :
  (∀ d p, f d ≠ Err (ErrPanic p)) → calm (stmt f).
Proof.
  intros Hf w p. unfold stmt. destruct (env_fault _); [done|]. specialize (Hf (w_db w) p).
  destruct (f (w_db w)) as [[]|]; [done|]. cbn. intros [= ->]. by apply Hf.
Qed.

Lemma calm_transaction {E : Env} {A} bare (m : M A) : calm m → calm (transaction bare m).
Proof.
  intros Hm. assert (∀ B (f : DB → B), calm (query f)) as Hq by (intros; by apply calm_stmt).
  assert (calm (tx_body bare m)) as Hb.
  { apply calm_bind; [by apply calm_wrap_err|]. intros _. apply calm_bind; [done|]. intros a.
    apply calm_bind; [|done]. destruct bare; [|apply calm_wrap_err]; auto. }
  intros w p. unfold transaction. specialize (Hb w p). by destruct (tx_body bare m w) as [[]].
Qed.

Lemma log_err_safe {A} (m : M A) : calm m → safe (log_err m).
Proof.
  intros Hm w. unfold log_err, attempt, mbind, M_bind. specialize (Hm w).
  destruct (m w) as [[a|e] w']; [by eexists _, _|]. destruct e; try by eexists _, _.
  by destruct (Hm msg).
Qed.
