(* ===== verification/Classifier.v ===== *)
(** Document classification: [internal/infrastructure/classifier/classifier.go] and the
    client interface of [internal/infrastructure/llm/anthropic.go].

    The LLM is the record [Client] of the operations the program calls, with the law that
    a call changes nothing but the spend and the network; the classifier's theorems are
    proved for every client. *)
From Stdlib Require Import ZArith SpecFloat.
From stdpp Require Import base list strings gmap.
From S2P Require Import Prelude GoStrings GoValues Submission Checklist TextUtil World.

Open Scope Z_scope.

(** ** The LLM interface *)

Record Usage : Type := mkUsage {
  us_PromptHash : string;
  us_LatencyMs : Z;
  us_InputTokens : Z;
  us_OutputTokens : Z;
  us_EstimatedCostUSD : float64;
  us_Model : string }.

Record ClassificationCandidate : Type := mkCandidate { cc_ID : string; cc_Description : string }.

Record ClassificationRequest : Type := mkClassificationRequest {
  cq_Filename : string;
  cq_ContentType : string;
  cq_TextSample : string;
  cq_Candidates : list ClassificationCandidate;
  cq_PolicyType : string }.

Record ClassificationResponse : Type := mkClassificationResponse {
  cr_CandidateID : string;
  cr_Confidence : float64;
  cr_Reason : string;
  cr_Usage : Usage }.

Record FieldExtractionRequest : Type := mkFieldExtractionRequest {
  fq_Filename : string;
  fq_TextSample : string;
  fq_FieldName : string;
  fq_FieldDescription : string;
  fq_FieldType : string }.

Record FieldExtractionResponse : Type := mkFieldExtractionResponse {
  fr_Value : any;
  fr_Confidence : float64;
  fr_Reason : string;
  fr_Usage : Usage }.

Record IdentityRequest : Type := mkIdentityRequest { iq_Filename : string; iq_TextSample : string }.

Record IdentityResponse : Type := mkIdentityResponse {
  ir_NamedInsured : string;
  ir_EffectiveDate : string;
  ir_Usage : Usage }.

(** [llm.Client]: a response and possibly an error, as the Go methods return both. *)
Record Client : Type := mkClient {
  llm_Classify : ClassificationRequest → M (ClassificationResponse * option error);
  llm_ExtractField : FieldExtractionRequest → M (FieldExtractionResponse * option error);
  llm_ExtractIdentity : IdentityRequest → M (IdentityResponse * option error);
  llm_Classify_frame : ∀ q, llm_frame (llm_Classify q);
  llm_ExtractField_frame : ∀ q, llm_frame (llm_ExtractField q);
  llm_ExtractIdentity_frame : ∀ q, llm_frame (llm_ExtractIdentity q) }.

#[export] Hint Resolve llm_Classify_frame llm_ExtractField_frame llm_ExtractIdentity_frame : triage.

Definition ErrSpendCapReached : string := "anthropic: daily spend cap reached".

(** ** The classifier *)

Record Input : Type := mkInput {
  in_Filename : string;
  in_ContentType : string;
  in_BodyText : string;
  in_PolicyType : string;
  in_Checklist : Checklist }.

Record Result : Type := mkResult {
  res_CandidateID : string;
  res_Confidence : float64;
  res_By : string;
  res_Reason : string;
  res_Capped : bool;
  res_Usage : option Usage }.

Definition confidenceFilename : float64 := f64_ratio 95 100.
Definition confidenceKeyword : float64 := f64_ratio 85 100.

Section classify.
Context {L : GoLib}.

Definition matchByFilename (inp : Input) : gset string :=
  list_to_set (map ri_ID (List.filter
    (λ item, MatchAny item.(ri_Match).(mr_FilenamePatterns) inp.(in_Filename))
    inp.(in_Checklist).(cl_Required))).

Definition matchByContent (inp : Input) : gset string :=
  list_to_set (map ri_ID (List.filter
    (λ item, match item.(ri_Match).(mr_ContentKeywords) with
             | [] => false
             | kws => glob_ContainsAny kws inp.(in_BodyText) end)
    inp.(in_Checklist).(cl_Required))).

Definition merge (a b : gset string) : gset string := a ∪ b.

Definition singleMatch (matches : gset string) : option string :=
  match elements matches with [id] => Some id | _ => None end.

Definition candidate_ids (inp : Input) : gset string :=
  list_to_set (map ri_ID inp.(in_Checklist).(cl_Required)).

(** The verdict on the client's answer. *)
Definition llm_verdict (inp : Input) (answer : ClassificationResponse * option error) : Result * option error :=
  let '(resp, err) := answer in
  match err with
  | Some e =>
      if errors_Is e ErrSpendCapReached then
        (mkResult "" f64_zero ClassifiedByHeuristic "llm spend cap reached" true None, None)
      else
        (mkResult "" f64_zero ClassifiedByLLM ("llm error: " +:+ error_text e) false
           (Some resp.(cr_Usage)), Some e)
  | None =>
      let usage := Some resp.(cr_Usage) in
      if bool_decide (resp.(cr_CandidateID) = "" ∨ resp.(cr_CandidateID) = "unknown") then
        (mkResult "" resp.(cr_Confidence) ClassifiedByLLM resp.(cr_Reason) false usage, None)
      else if negb (bool_decide (resp.(cr_CandidateID) ∈ candidate_ids inp)) then
        (mkResult "" resp.(cr_Confidence) ClassifiedByLLM "llm returned unknown candidate id" false
           usage, None)
      else
        (mkResult resp.(cr_CandidateID) resp.(cr_Confidence) ClassifiedByLLM resp.(cr_Reason) false
           usage, None)
  end.

Definition classifyByLLM (client : Client) (inp : Input) : M (Result * option error) :=
  let candidates := map (λ item, mkCandidate item.(ri_ID) item.(ri_Description))
                      inp.(in_Checklist).(cl_Required) in
  answer ← client.(llm_Classify)
    (mkClassificationRequest inp.(in_Filename) inp.(in_ContentType) inp.(in_BodyText)
       candidates inp.(in_PolicyType));
  mret (llm_verdict inp answer).

(** What the file name and the text alone decide. *)
Definition heuristic (inp : Input) : option Result :=
  let byName := matchByFilename inp in
  let byContent := matchByContent inp in
  match singleMatch byName with
  | Some id =>
      Some (if bool_decide (id ∈ byContent)
            then mkResult id confidenceFilename ClassifiedByFilenameKeyword "filename and content match" false None
            else mkResult id confidenceFilename ClassifiedByFilename "filename match" false None)
  | None =>
      match singleMatch (merge byName byContent) with
      | Some id => Some (mkResult id confidenceKeyword ClassifiedByKeyword "content match" false None)
      | None => None
      end
  end.

Definition no_model : Result := mkResult "" f64_zero ClassifiedByHeuristic "no match, llm unavailable" false None.

Definition Classify (client : option Client) (inp : Input) : M (Result * option error) :=
  match heuristic inp with
  | Some r => mret (r, None)
  | None => match client with
            | None => mret (no_model, None)
            | Some c => classifyByLLM c inp
            end
  end.

Lemma Classify_frame client inp : llm_frame (Classify client inp).
Proof.
  intros w0. unfold Classify. destruct (heuristic inp); [apply preserves_ret|].
  destruct client as [c|]; [|apply preserves_ret]. apply preserves_bind; [apply llm_Classify_frame|].
  intros. apply preserves_ret.
Qed.

(** ** Laws *)

Lemma singleMatch_Some s id : singleMatch s = Some id ↔ s = {[id]}.
Proof.
  unfold singleMatch. split.
  - intros H. apply leibniz_equiv. intros x. rewrite <- elem_of_elements.
    destruct (elements s) as [|y [|]]; simplify_eq. set_solver.
  - intros ->. by rewrite elements_singleton.
Qed.

Lemma elem_of_matchByFilename inp id :
  id ∈ matchByFilename inp ↔
  ∃ item, item ∈ inp.(in_Checklist).(cl_Required) ∧ item.(ri_ID) = id ∧
          MatchAny item.(ri_Match).(mr_FilenamePatterns) inp.(in_Filename) = true.
Proof.
  unfold matchByFilename. rewrite elem_of_list_to_set, list_elem_of_In, in_map_iff.
  setoid_rewrite filter_In. setoid_rewrite list_elem_of_In. split; intros (i & H); exists i; tauto.
Qed.

Lemma elem_of_matchByContent inp id :
  id ∈ matchByContent inp →
  ∃ item, item ∈ inp.(in_Checklist).(cl_Required) ∧ item.(ri_ID) = id ∧
          glob_ContainsAny item.(ri_Match).(mr_ContentKeywords) inp.(in_BodyText) = true.
Proof.
  unfold matchByContent. rewrite elem_of_list_to_set, list_elem_of_In, in_map_iff.
  intros (i & Hid & Hf%filter_In). exists i. rewrite list_elem_of_In.
  destruct (mr_ContentKeywords _); [|tauto]. by destruct Hf.
Qed.

Lemma elem_of_candidate_ids inp id :
  id ∈ candidate_ids inp ↔ ∃ item, item ∈ inp.(in_Checklist).(cl_Required) ∧ item.(ri_ID) = id.
Proof.
  unfold candidate_ids. rewrite elem_of_list_to_set, list_elem_of_In, in_map_iff.
  setoid_rewrite list_elem_of_In. split; intros (i & ? & ?); eauto.
Qed.

Lemma matches_are_candidates inp id :
  id ∈ matchByFilename inp ∪ matchByContent inp → id ∈ candidate_ids inp.
Proof.
  rewrite elem_of_union, elem_of_candidate_ids.
  intros [(i & ? & ? & _)%elem_of_matchByFilename|(i & ? & ? & _)%elem_of_matchByContent]; eauto.
Qed.

(** ** What the verdict can be *)

Definition verdict_valid (inp : Input) (r : Result * option error) : Prop :=
  r.1.(res_CandidateID) = "" ∨ r.1.(res_CandidateID) ∈ candidate_ids inp.

Lemma heuristic_valid inp r : heuristic inp = Some r → r.(res_CandidateID) ∈ candidate_ids inp.
Proof.
  unfold heuristic. destruct (singleMatch (matchByFilename inp)) as [id|] eqn:E1.
  { apply singleMatch_Some in E1. intros [= <-].
    assert (id ∈ candidate_ids inp) by (apply matches_are_candidates; set_solver).
    by case_bool_decide. }
  destruct (singleMatch (merge _ _)) as [id|] eqn:E2; [|done]. intros [= <-].
  apply singleMatch_Some in E2. apply matches_are_candidates. unfold merge in E2. rewrite E2. set_solver.
Qed.

Lemma llm_verdict_valid inp answer : verdict_valid inp (llm_verdict inp answer).
Proof.
  unfold llm_verdict, verdict_valid. destruct answer as [resp [e|]]; [destruct (errors_Is _ _); by left|].
  case_bool_decide; [by left|]. case_bool_decide; [by right|by left].
Qed.

(** A document is only ever classified to an item of the checklist it is checked
    against, whatever the LLM answers; the empty id means it matched nothing. *)
Theorem Classify_candidate_valid client inp w r w' :
  Classify client inp w = (Ok r, w') →
  r.1.(res_CandidateID) = "" ∨
  ∃ item, item ∈ inp.(in_Checklist).(cl_Required) ∧ item.(ri_ID) = r.1.(res_CandidateID).
Proof.
  rewrite <- elem_of_candidate_ids. change (Classify client inp w = (Ok r, w') → verdict_valid inp r).
  unfold Classify. destruct (heuristic inp) as [h|] eqn:Eh.
  { intros [= <- _]. right. by apply heuristic_valid. }
  destruct client as [c|]; [|intros [= <- _]; by left].
  unfold classifyByLLM, mbind, M_bind. destruct (llm_Classify _ _ _) as [[answer|] w1]; [|done].
  intros [= <- _]. apply llm_verdict_valid.
Qed.

(** The heuristics take precedence over the model: when the file name, or file name
    and text together, single out one item, the verdict is that item whatever the client,
    which is not asked; it carries no error, and its confidence clears the default floor
    of 0.80, so it is never routed to review as low-confidence; it says filename-only
    exactly when the text does not corroborate. *)
Theorem Classify_heuristic client inp h w :
  heuristic inp = Some h →
  Classify client inp w = (Ok (h, None), w) ∧ h.(res_Usage) = None ∧
  f64_lt h.(res_Confidence) (f64_ratio 80 100) = false ∧
  (h.(res_By) = ClassifiedByFilename →
   matchByFilename inp = {[ h.(res_CandidateID) ]} ∧ h.(res_CandidateID) ∉ matchByContent inp).
Proof.
  intros Hh. unfold Classify. rewrite Hh. split; [done|]. revert Hh. unfold heuristic.
  destruct (singleMatch (matchByFilename inp)) as [id|] eqn:E1.
  { apply singleMatch_Some in E1. intros [= <-]. case_bool_decide; split_and!; try done; vm_compute; done. }
  destruct (singleMatch (merge _ _)) as [id|] eqn:E2; [|done]. intros [= <-].
  split_and!; try done; vm_compute; done.
Qed.
End classify.

#[export] Hint Resolve Classify_frame : triage.

Definition demo_input : Input :=
  mkInput "ACORD 125 Oakview.pdf" "application/pdf" "" "cgl"
    (mkChecklist "CGL" "cgl"
       [mkRequiredItem "acord_125" "ACORD 125" (mkMatchRules ["*ACORD*125*"] []) None;
        mkRequiredItem "loss_runs" "Loss runs" (mkMatchRules ["*loss*run*"] []) None]
       (mkEscalationPolicy 0 "")).

Definition demo_verdict : Result :=
  mkResult "acord_125" confidenceFilename ClassifiedByFilename "filename match" false None.

Lemma Classify_heuristic_witness :
  heuristic (L := demo_lib) demo_input = Some demo_verdict ∧
  Classify (L := demo_lib) None demo_input empty_world = (Ok (demo_verdict, None), empty_world).
Proof.
  assert (heuristic (L := demo_lib) demo_input = Some demo_verdict) as Hh by (vm_compute; reflexivity).
  split; [exact Hh|].
  apply (Classify_heuristic (L := demo_lib) None demo_input demo_verdict empty_world). exact Hh.
Defined.
