(* ===== verification/Tables.v ===== *)
(** Tables as lists of rows: the SQL fragments the repositories are written with.

    [upsert_by] is [INSERT ... ON CONFLICT(key) DO UPDATE]; [update_where] an [UPDATE];
    [select] a [SELECT ... WHERE ... ORDER BY ... LIMIT], rows with equal keys staying
    in rowid order; [distinct] is [SELECT DISTINCT]. *)
From Stdlib Require Import ZArith Permutation.
From stdpp Require Import base list strings.
From S2P Require Import Prelude.

Open Scope Z_scope.

Section tables.
Context {A : Type} (key : A → string).

Definition has_key (k : string) (l : list A) : bool := bool_decide (k ∈ map key l).

Definition find_key (k : string) (l : list A) : option A :=
  List.find (λ r, bool_decide (key r = k)) l.

Definition update_where (p : A → bool) (f : A → A) (l : list A) : list A :=
  map (λ r, if p r then f r else r) l.

(** [merge old new] is the row after the conflict. *)
Definition upsert_by (merge : A → A → A) (new : A) (l : list A) : list A :=
  if has_key (key new) l
  then update_where (λ r, bool_decide (key r = key new)) (λ old, merge old new) l
  else l ++ [new].

Definition select (where_ : A → bool) (less : A → A → bool) (limit : Z) (l : list A) : list A :=
  take (Z.to_nat limit) (sort_by less (List.filter where_ l)).

Lemma has_key_true k l : has_key k l = true ↔ k ∈ map key l.
Proof. apply bool_decide_eq_true. Qed.

Lemma has_key_false k l : has_key k l = false ↔ k ∉ map key l.
Proof. apply bool_decide_eq_false. Qed.

Lemma find_key_Some k l r : find_key k l = Some r → r ∈ l ∧ key r = k.
Proof.
  intros [Hin Hk]%List.find_some. apply bool_decide_eq_true in Hk.
  by apply list_elem_of_In in Hin.
Qed.

Lemma find_key_None k l : find_key k l = None ↔ k ∉ map key l.
Proof.
  unfold find_key. split.
  - intros Hn (r & -> & Hr)%list_elem_of_fmap.
    eapply List.find_none in Hn; [|by apply list_elem_of_In].
    by rewrite bool_decide_eq_false in Hn.
  - intros Hk. destruct (List.find _ l) as [r|] eqn:E; [|done]. exfalso. apply Hk.
    apply find_key_Some in E as [Hr <-]. by apply list_elem_of_fmap_2.
Qed.

Lemma find_key_unique k l r : NoDup (map key l) → r ∈ l → key r = k → find_key k l = Some r.
Proof.
  intros Hnd Hr Hk. destruct (find_key k l) as [r'|] eqn:E.
  - apply find_key_Some in E as [Hr' Hk']. f_equal.
    apply list_elem_of_lookup in Hr as [i Hi], Hr' as [j Hj].
    assert (i = j) as ->; [|congruence].
    apply (NoDup_lookup (map key l) i j k); [done| |];
      rewrite list_lookup_fmap; [rewrite Hi|rewrite Hj]; simpl; congruence.
  - apply find_key_None in E. destruct E. subst. by apply list_elem_of_fmap_2.
Qed.

Lemma elem_of_update_where p f r l :
  r ∈ update_where p f l → r ∈ l ∨ ∃ r0, r0 ∈ l ∧ p r0 = true ∧ r = f r0.
Proof.
  unfold update_where. intros (r0 & -> & Hr)%list_elem_of_fmap.
  destruct (p r0) eqn:E; [right|left]; eauto.
Qed.

Lemma update_where_map {B} (g : A → B) p f l :
  (∀ r, g (f r) = g r) → map g (update_where p f l) = map g l.
Proof.
  intros Hg. unfold update_where. rewrite map_map. apply map_ext. intros r. by destruct (p r).
Qed.

Lemma update_where_Forall (P : A → Prop) p f l :
  (∀ r, P r → p r = true → P (f r)) → Forall P l → Forall P (update_where p f l).
Proof.
  intros Hf Hl. unfold update_where. rewrite Forall_forall in *.
  intros r' (r & -> & Hr)%list_elem_of_fmap. destruct (p r) eqn:E; eauto.
Qed.

Lemma upsert_by_keys merge new l :
  (∀ old, key (merge old new) = key old) →
  map key (upsert_by merge new l) = if has_key (key new) l then map key l else map key l ++ [key new].
Proof.
  intros Hm. unfold upsert_by. destruct (has_key (key new) l).
  - by apply update_where_map.
  - by rewrite map_app.
Qed.

Lemma upsert_by_NoDup merge new l :
  (∀ old, key (merge old new) = key old) →
  NoDup (map key l) → NoDup (map key (upsert_by merge new l)).
Proof.
  intros Hm Hl. rewrite upsert_by_keys by done.
  destruct (has_key (key new) l) eqn:E; [done|]. apply has_key_false in E.
  apply NoDup_app. split_and!; [done| |apply NoDup_singleton].
  intros k Hk ->%list_elem_of_singleton. done.
Qed.

Lemma upsert_by_mono merge new l k :
  (∀ old, key (merge old new) = key old) →
  k ∈ map key l → k ∈ map key (upsert_by merge new l).
Proof.
  intros Hm Hk. rewrite upsert_by_keys by done. destruct (has_key _ _); [done|].
  apply elem_of_app. by left.
Qed.

Lemma upsert_by_has merge new l :
  (∀ old, key (merge old new) = key old) → key new ∈ map key (upsert_by merge new l).
Proof.
  intros Hm. rewrite upsert_by_keys by done. destruct (has_key _ _) eqn:E.
  - by apply has_key_true.
  - apply elem_of_app. right. by apply list_elem_of_singleton.
Qed.

Lemma upsert_by_Forall (P : A → Prop) merge new l :
  P new → (∀ old, P old → P (merge old new)) → Forall P l → Forall P (upsert_by merge new l).
Proof.
  intros Hn Hm Hl. unfold upsert_by. destruct (has_key _ _).
  - apply update_where_Forall; auto.
  - apply Forall_app. split; [done|]. by constructor.
Qed.

Lemma find_update_where p f k l :
  (∀ r, key (f r) = key r) →
  find_key k (update_where p f l) =
  match find_key k l with Some r => Some (if p r then f r else r) | None => None end.
Proof.
  intros Hf. induction l as [|r l IH]; [done|].
  change (update_where p f (r :: l)) with ((if p r then f r else r) :: update_where p f l).
  unfold find_key in *. cbn [List.find].
  replace (key (if p r then f r else r)) with (key r) by (by destruct (p r)).
  by case_bool_decide.
Qed.

(** What the upserted key reads back as, and that no other key changed. *)
Lemma find_upsert_by merge new l k :
  (∀ old, key (merge old new) = key old) →
  find_key k (upsert_by merge new l) =
  if bool_decide (key new = k)
  then Some (match find_key k l with Some old => merge old new | None => new end)
  else find_key k l.
Proof.
  intros Hm. unfold upsert_by. destruct (has_key (key new) l) eqn:E.
  - rewrite find_update_where by done. destruct (find_key k l) as [r|] eqn:Ef.
    + apply find_key_Some in Ef as [_ <-]. do 2 case_bool_decide; congruence.
    + case_bool_decide as Hk; [|done]. subst k. apply find_key_None in Ef.
      by apply has_key_true in E.
  - apply has_key_false in E. unfold find_key in *. case_bool_decide as Hk.
    + subst k. fold (find_key (key new) l). rewrite (proj2 (find_key_None _ _)) by done.
      induction l as [|r l IH]; cbn; [by rewrite bool_decide_true|].
      apply not_elem_of_cons in E as [Hne E]. rewrite bool_decide_false by done. by apply IH.
    + clear E. induction l as [|r l IH]; cbn; [by rewrite bool_decide_false|].
      case_bool_decide; done.
Qed.

Lemma elem_of_select where_ less limit l r :
  r ∈ select where_ less limit l → r ∈ l ∧ where_ r = true.
Proof.
  unfold select. intros Hr%elem_of_take.
  destruct Hr as (i & Hi & _). apply list_elem_of_lookup_2, sort_by_in in Hi.
  apply list_elem_of_In, List.filter_In in Hi as [Hi ?]. by apply list_elem_of_In in Hi.
Qed.

(** A query whose limit is not reached returns every row that qualifies. *)
Lemma select_complete where_ less limit l r :
  (length (List.filter where_ l) ≤ Z.to_nat limit)%nat →
  r ∈ l → where_ r = true → r ∈ select where_ less limit l.
Proof.
  intros Hlen Hr Hw. unfold select. rewrite take_ge by (by rewrite sort_by_length).
  apply sort_by_in, list_elem_of_In, List.filter_In. by rewrite <- list_elem_of_In.
Qed.

Lemma select_length where_ less limit l :
  (length (select where_ less limit l) ≤ Z.to_nat limit)%nat.
Proof. unfold select. rewrite length_take. lia. Qed.
End tables.

(** [SELECT DISTINCT]: first occurrences. *)
Fixpoint distinct (l : list string) : list string :=
  match l with
  | [] => []
  | x :: l => x :: List.filter (λ y, negb (bool_decide (x = y))) (distinct l)
  end.

Lemma elem_of_distinct x l : x ∈ distinct l ↔ x ∈ l.
Proof.
  induction l as [|y l IH]; [done|]. cbn [distinct]. rewrite !elem_of_cons.
  rewrite (list_elem_of_In (List.filter _ _)), List.filter_In, <- list_elem_of_In, IH.
  rewrite negb_true_iff, bool_decide_eq_false. destruct (decide (x = y)); naive_solver.
Qed.

Lemma NoDup_filter_b {A} (p : A → bool) l : NoDup l → NoDup (List.filter p l).
Proof.
  induction 1 as [|x l Hx Hl IH]; cbn [List.filter]; [constructor|].
  destruct (p x); [|done]. constructor; [|done].
  rewrite list_elem_of_In, List.filter_In, <- list_elem_of_In. tauto.
Qed.

Lemma distinct_NoDup l : NoDup (distinct l).
Proof.
  induction l as [|y l IH]; cbn [distinct]; constructor; [|by apply NoDup_filter_b].
  rewrite list_elem_of_In, List.filter_In. intros [_ Hy].
  by rewrite bool_decide_true in Hy.
Qed.

(** [LIMIT ?] with the repositories' default for a limit that is not positive. *)
Definition limit_or (limit default : Z) : Z := if limit <=? 0 then default else limit.
