(* ===== verification/Repository.v ===== *)
(** The submission repository: [internal/repository/submissions.go].

    Every method is here with its statements in order.  A statement that JSON-encodes a
    column stores what the decoder will give back ([json_item], [email_row],
    [document_row]); [scanSubmission], [loadEmails] and [loadDocuments] read rows.
    Foreign keys are on, so a row whose submission does not exist is refused. *)
From Stdlib Require Import ZArith Ascii.
From stdpp Require Import base list strings gmap.
From S2P Require Import Prelude GoStrings GoValues Submission Checklist Tables World.

Open Scope Z_scope.

(** ** Column values *)

Definition nonEmpty (l : list string) : list string :=
  List.filter (λ v, negb (bool_decide (v = ""))) (map TrimSpace l).

Definition nanoOrZero (t : time) : Z := if IsZero t then 0 else UnixNano t.

Definition json_unsupported : error := ErrNew "json: unsupported value".

Definition json_item (m : MissingItem) : MissingItem :=
  mkMissingItem (json_string m.(mi_ID)) (json_string m.(mi_Description))
    (json_string m.(mi_Reason)) m.(mi_Code)
    (if f64_eq m.(mi_Confidence) f64_zero then f64_zero else m.(mi_Confidence)).

Definition missing_json_ok (l : list MissingItem) : bool :=
  forallb (λ m, f64_finite m.(mi_Confidence)) l.

Definition stripAttachmentContent (l : list Attachment) : list Attachment :=
  map (λ a, mkAttachment a.(att_Filename) a.(att_ContentType) a.(att_Size) a.(att_SHA256) "") l.

Definition json_attachment (a : Attachment) : Attachment :=
  mkAttachment (json_string a.(att_Filename)) (json_string a.(att_ContentType)) a.(att_Size)
    (json_string a.(att_SHA256)) a.(att_Content).

(** The row of an email, as it is read back. *)
Definition email_row (e : Email) : Email :=
  mkEmail e.(em_DeterministicID) e.(em_SubmissionID) e.(em_Direction) e.(em_MessageID)
    e.(em_InReplyTo) (map json_string e.(em_References)) e.(em_FromAddress) e.(em_FromName)
    e.(em_ReplyTo) (map json_string e.(em_ToAddresses)) e.(em_Subject) e.(em_BodyText)
    (UnixNano e.(em_ReceivedAt)) e.(em_ProviderMsgID)
    (map json_attachment (stripAttachmentContent e.(em_Attachments))).

Definition json_fields (m : gmap string any) : gmap string any :=
  list_to_map (map (λ kv, (json_string kv.1, json_any kv.2)) (map_to_list m)).

Definition fields_json_ok (f : option (gmap string any)) : bool :=
  match f with None => true | Some m => forallb (λ kv, json_ok kv.2) (map_to_list m) end.

(** The [extracted_fields] column, as it is read back: ["{}"] stays unset. *)
Definition fields_col (f : option (gmap string any)) : option (gmap string any) :=
  match f with
  | None => None
  | Some m => if bool_decide (m = ∅) then None else Some (json_fields m)
  end.

Definition document_row (d : Document) : Document :=
  mkDocument d.(doc_ID) d.(doc_SubmissionID) d.(doc_EmailID) d.(doc_Filename)
    d.(doc_ContentType) d.(doc_SizeBytes) d.(doc_SHA256) d.(doc_ClassifiedAs)
    d.(doc_Confidence) d.(doc_ClassifiedBy) d.(doc_ExtractedText)
    (fields_col d.(doc_ExtractedFields)) d.(doc_Unreadable) d.(doc_Encrypted)
    (UnixNano d.(doc_CreatedAt)).

(** The columns [ON CONFLICT(id)] rewrites. *)
Definition document_merge (old new : Document) : Document :=
  mkDocument old.(doc_ID) old.(doc_SubmissionID) old.(doc_EmailID) old.(doc_Filename)
    old.(doc_ContentType) old.(doc_SizeBytes) old.(doc_SHA256) new.(doc_ClassifiedAs)
    new.(doc_Confidence) new.(doc_ClassifiedBy) new.(doc_ExtractedText)
    new.(doc_ExtractedFields) new.(doc_Unreadable) new.(doc_Encrypted) old.(doc_CreatedAt).

(** The inserted row; the three instants are already integers. *)
Definition submission_values (s : Submission) (created updated lastAction : Z) : submission_row :=
  mkSubmissionRow
    (mkSubmission s.(sub_ID) s.(sub_PolicyType) s.(sub_State) s.(sub_SubjectLine)
       s.(sub_FromAddress) s.(sub_FromName) s.(sub_ThreadKey) created updated lastAction
       (nanoOrZero s.(sub_LastReplyAt)) (UnixNano <$> s.(sub_EscalatedAt)) s.(sub_NeedsReview)
       s.(sub_OnHold) s.(sub_DeliveryFailed) s.(sub_NamedInsured)
       (UnixNano <$> s.(sub_EffectiveDate)) (UnixNano <$> s.(sub_LastEscalatedAt))
       (UnixNano <$> s.(sub_CompletedAt)) s.(sub_LastReplyHash) s.(sub_PolicyClarifyAsks)
       [] [] [])
    (MissingCurrent (map json_item s.(sub_MissingItems))).

(** On conflict [created_at], [last_reply_at] and [on_hold] stay. *)
Definition submission_merge (old new : submission_row) : submission_row :=
  let o := old.(sr_data) in
  let n := new.(sr_data) in
  mkSubmissionRow
    (mkSubmission o.(sub_ID) n.(sub_PolicyType) n.(sub_State) n.(sub_SubjectLine)
       n.(sub_FromAddress) n.(sub_FromName) n.(sub_ThreadKey) o.(sub_CreatedAt)
       n.(sub_UpdatedAt) n.(sub_LastActionAt) o.(sub_LastReplyAt) n.(sub_EscalatedAt)
       n.(sub_NeedsReview) o.(sub_OnHold) n.(sub_DeliveryFailed) n.(sub_NamedInsured)
       n.(sub_EffectiveDate) n.(sub_LastEscalatedAt) n.(sub_CompletedAt)
       n.(sub_LastReplyHash) n.(sub_PolicyClarifyAsks) [] [] [])
    new.(sr_missing).

Definition legacy_item (id : string) : MissingItem :=
  mkMissingItem id "" "" (ReasonOther "") f64_zero.

Definition decodeMissingItems (c : missing_col) : list MissingItem :=
  match c with
  | MissingCurrent items => items
  | MissingLegacy ids => map legacy_item ids
  | MissingCorrupt => []
  end.

(** Emails and documents are loaded separately. *)
Definition scanSubmission (r : submission_row) : Submission :=
  sub_with_Documents [] (sub_with_Emails [] (sub_with_MissingItems (decodeMissingItems r.(sr_missing))
    (sub_with_LastReplyAt
       (if r.(sr_data).(sub_LastReplyAt) =? 0 then zeroTime else r.(sr_data).(sub_LastReplyAt))
       r.(sr_data)))).

Definition foreign_key_failed : error := ErrNew "FOREIGN KEY constraint failed".
Definition not_null_failed : error := ErrNew "NOT NULL constraint failed".

Definition has_submission (d : DB) (id : string) : bool := has_key sr_id id d.(db_submissions).

(** ** Statements *)

(** [INSERT INTO emails ... ON CONFLICT DO NOTHING]: the rows affected. *)
Definition insert_email (e : Email) (d : DB) : result (Z * DB) :=
  if has_key em_DeterministicID e.(em_DeterministicID) d.(db_emails) then Ok (0, d)
  else if has_submission d e.(em_SubmissionID)
       then Ok (1, db_with_emails (d.(db_emails) ++ [email_row e]) d)
       else Err foreign_key_failed.

(** A NaN is bound as NULL. *)
Definition insert_document (doc : Document) (d : DB) : result (unit * DB) :=
  if IsNaN doc.(doc_Confidence) then Err not_null_failed
  else if has_key doc_ID doc.(doc_ID) d.(db_documents) || has_submission d doc.(doc_SubmissionID)
       then Ok ((), db_with_documents
                      (upsert_by doc_ID document_merge (document_row doc) d.(db_documents)) d)
       else Err foreign_key_failed.

Definition insert_submission (r : submission_row) (d : DB) : DB :=
  db_with_submissions (upsert_by sr_id submission_merge r d.(db_submissions)) d.

(** Column order of a result set. *)
Definition by_col (col : Submission → Z) (a b : submission_row) : bool :=
  col a.(sr_data) <? col b.(sr_data).
Definition by_col_desc (col : Submission → Z) (a b : submission_row) : bool :=
  col b.(sr_data) <? col a.(sr_data).
Definition by_opt_col (col : Submission → option Z) (a b : submission_row) : bool :=
  match col a.(sr_data), col b.(sr_data) with
  | Some x, Some y => x <? y
  | None, Some _ => true
  | _, _ => false
  end.

Definition in_state (r : submission_row) (s : State) : bool := bool_decide (r.(sr_data).(sub_State) = s).

(** SQLite's [lower] and [trim]: ASCII letters and spaces only. *)
Definition byte_lower (c : ascii) : ascii :=
  if in_range 65 90 (byte_of c) then to_byte (byte_of c + 32) else c.
Fixpoint sql_lower (s : string) : string :=
  match s with "" => "" | String c s => String (byte_lower c) (sql_lower s) end.
Definition sql_trim (s : string) : string := Trim s " ".

(** ** Methods *)

Section repository.
Context {L : GoLib} {E : Env}.

Definition nanoOrNow (t : time) : M Z :=
  if IsZero t then now ← time_Now; mret (UnixNano now) else mret (UnixNano t).

Definition upsertSubmissionRow (s : Submission) : M unit :=
  if negb (missing_json_ok s.(sub_MissingItems)) then
    throw (ErrWrap "marshal missing items" json_unsupported)
  else
    created ← nanoOrNow s.(sub_CreatedAt);
    updated ← nanoOrNow s.(sub_UpdatedAt);
    lastAction ← nanoOrNow s.(sub_LastActionAt);
    wrap_err "upsert submission"
      (exec (insert_submission (submission_values s created updated lastAction))).

Definition upsertEmailRow (e : Email) : M unit :=
  n ← wrap_err "upsert email" (stmt (insert_email e));
  if n =? 0 then throw (ErrSentinel ErrDuplicateEmail) else mret ().

Definition upsertDocumentRow (d : Document) : M unit :=
  if bool_decide (d.(doc_ID) = "") then throw (ErrNew "upsert document: empty id")
  else if negb (fields_json_ok d.(doc_ExtractedFields)) then
    throw (ErrWrap "marshal extracted_fields" json_unsupported)
  else wrap_err "upsert document" (stmt (insert_document d)).

(** [if err != nil && !errors.Is(err, model.ErrDuplicateEmail) { return err }] *)
Definition unless_duplicate (m : M unit) : M unit :=
  r ← attempt m;
  match r with
  | Ok _ => mret ()
  | Err e => if errors_Is e ErrDuplicateEmail then mret () else throw e
  end.

(** The statements [UpsertSubmission] and [UpsertSubmissionWithReply] share. *)
Definition upsert_rows (s : Submission) : M unit :=
  upsertSubmissionRow s ≫= λ _,
  for_each (λ e, unless_duplicate (upsertEmailRow e)) s.(sub_Emails) ≫= λ _,
  for_each upsertDocumentRow s.(sub_Documents).

Definition UpsertSubmission (s : Submission) : M unit :=
  if bool_decide (s.(sub_ID) = "") then
    throw (ErrNew "sqlite: UpsertSubmission requires non-empty id")
  else transaction false (upsert_rows s).

Definition UpsertEmail (e : Email) : M unit := transaction true (upsertEmailRow e).

Definition of_submission {A} (f : A → string) (id : string) (l : list A) : list A :=
  List.filter (λ x, bool_decide (f x = id)) l.

Definition loadEmails (id : string) : M (list Email) :=
  wrap_err "query emails"
    (query (λ d, sort_by (λ a b, a.(em_ReceivedAt) <? b.(em_ReceivedAt))
                   (of_submission em_SubmissionID id d.(db_emails)))).

Definition loadDocuments (id : string) : M (list Document) :=
  wrap_err "query documents"
    (query (λ d, sort_by (λ a b, a.(doc_CreatedAt) <? b.(doc_CreatedAt))
                   (of_submission doc_SubmissionID id d.(db_documents)))).

Definition not_found {A} : M A := throw (ErrSentinel ErrSubmissionNotFound).

Definition GetByID (id : string) : M Submission :=
  row ← wrap_err "scan submission" (query (λ d, find_key sr_id id d.(db_submissions)));
  match row with
  | None => not_found
  | Some r =>
      emails ← loadEmails id;
      docs ← loadDocuments id;
      mret (sub_with_Documents docs (sub_with_Emails emails (scanSubmission r)))
  end.

Definition findSubmissionIDsByRefs (refs : list string) : M (list string) :=
  wrap_err "query thread match"
    (query (λ d, distinct (map em_SubmissionID
       (List.filter (λ e, bool_decide (e.(em_MessageID) ∈ refs) || bool_decide (e.(em_InReplyTo) ∈ refs))
          d.(db_emails))))).

(** [ORDER BY updated_at DESC, id DESC] *)
Definition updated_desc (a b : submission_row) : bool :=
  (b.(sr_data).(sub_UpdatedAt) <? a.(sr_data).(sub_UpdatedAt)) ||
  ((b.(sr_data).(sub_UpdatedAt) =? a.(sr_data).(sub_UpdatedAt)) && string_lt (sr_id b) (sr_id a)).

Definition pickMostRecentlyUpdated (ids : list string) : M string :=
  rows ← wrap_err "select most-recent thread"
    (query (λ d, select (λ r, bool_decide (sr_id r ∈ ids)) updated_desc 1 d.(db_submissions)));
  match rows with
  | r :: _ => mret (sr_id r)
  | [] => throw (ErrWrap "select most-recent thread" (ErrSentinel "sql: no rows in result set"))
  end.

Definition FindByEmailReference (messageIDs : list string) : M (Submission * bool) :=
  let refs := nonEmpty messageIDs in
  if bool_decide (refs = []) then not_found
  else
    matches ← findSubmissionIDsByRefs refs;
    match matches with
    | [] => not_found
    | [best] => s ← GetByID best; mret (s, false)
    | _ => best ← pickMostRecentlyUpdated matches; s ← GetByID best; mret (s, true)
    end.

Definition FindByDeterministicID (deterministicID : string) : M Submission :=
  if bool_decide (deterministicID = "") then not_found
  else
    row ← wrap_err "query deterministic id"
      (query (λ d, find_key em_DeterministicID deterministicID d.(db_emails)));
    match row with
    | None => not_found
    | Some e => GetByID e.(em_SubmissionID)
    end.

(** *** Sweep queries *)

Definition list_submissions (what : string) (where_ : submission_row → bool)
    (less : submission_row → submission_row → bool) (limit : Z) : M (list Submission) :=
  wrap_err what (query (λ d, map scanSubmission (select where_ less limit d.(db_submissions)))).

Definition ListCompletedBefore (olderThan limit : Z) : M (list Submission) :=
  list_submissions "query completed-before"
    (λ r, in_state r StateComplete &&
          match r.(sr_data).(sub_CompletedAt) with Some t => t <? olderThan | None => false end &&
          negb r.(sr_data).(sub_OnHold))
    (by_opt_col sub_CompletedAt) (limit_or limit 100).

Definition ListEscalatedSince (since limit : Z) : M (list Submission) :=
  list_submissions "query escalated-since"
    (λ r, in_state r StateEscalated &&
          match r.(sr_data).(sub_EscalatedAt) with Some t => since <=? t | None => false end &&
          negb r.(sr_data).(sub_OnHold))
    (by_opt_col sub_EscalatedAt) (limit_or limit 100).

Definition is_stale (olderThan : Z) (r : submission_row) : bool :=
  in_state r StateAwaiting && (r.(sr_data).(sub_LastActionAt) <? olderThan) &&
  negb r.(sr_data).(sub_OnHold) && negb r.(sr_data).(sub_DeliveryFailed).

Definition ListStale (olderThan limit : Z) : M (list Submission) :=
  list_submissions "query stale" (is_stale olderThan) (by_col sub_LastActionAt) (limit_or limit 100).

Definition binds_soon (effAfter effBefore : Z) (r : submission_row) : bool :=
  in_state r StateAwaiting &&
  match r.(sr_data).(sub_EffectiveDate) with
  | Some t => (effAfter <=? t) && (t <=? effBefore)
  | None => false
  end && negb r.(sr_data).(sub_OnHold) && negb r.(sr_data).(sub_DeliveryFailed).

Definition ListBindSoon (effAfter effBefore limit : Z) : M (list Submission) :=
  list_submissions "query bind-soon" (binds_soon effAfter effBefore)
    (by_opt_col sub_EffectiveDate) (limit_or limit 100).

Definition ListStalledBefore (olderThan limit : Z) : M (list Submission) :=
  list_submissions "query stalled-before"
    (λ r, (in_state r StateAwaiting || in_state r StateOpen) &&
          (r.(sr_data).(sub_LastActionAt) <? olderThan) && negb r.(sr_data).(sub_OnHold))
    (by_col sub_LastActionAt) (limit_or limit 100).

Definition is_open_row (r : submission_row) : bool := negb (in_state r StateClosed).

(** [ORDER BY state ASC, last_action_at ASC] *)
Definition open_less (a b : submission_row) : bool :=
  let sa := state_string a.(sr_data).(sub_State) in
  let sb := state_string b.(sr_data).(sub_State) in
  string_lt sa sb ||
  (bool_decide (sa = sb) && (a.(sr_data).(sub_LastActionAt) <? b.(sr_data).(sub_LastActionAt))).

Definition ListOpen (limit : Z) : M (list Submission) :=
  list_submissions "query open" is_open_row open_less (limit_or limit 500).

Definition CountOpen : M Z :=
  wrap_err "count open"
    (query (λ d, Z.of_nat (length (List.filter is_open_row d.(db_submissions))))).

Definition docs_of_subs (submissionIDs : list string) (d : DB) : list Document :=
  List.filter (λ doc, bool_decide (doc.(doc_SubmissionID) ∈ submissionIDs) &&
                      negb (bool_decide (doc.(doc_ClassifiedAs) = ""))) d.(db_documents).

Definition FilenameOnlyItems (submissionIDs : list string) : M (gmap string (list string)) :=
  if bool_decide (submissionIDs = []) then mret ∅
  else
    docs ← wrap_err "query filename-only" (query (docs_of_subs submissionIDs));
    mret (list_to_map
      (omap (λ sid,
         match FilenameOnlyMatches (of_submission doc_SubmissionID sid docs) with
         | [] => None
         | ids => Some (sid, ids)
         end) (distinct (map doc_SubmissionID docs)))).

(** *** Updates *)

Definition update_submissions (what : string) (p : submission_row → bool)
    (f : Submission → Submission) : M unit :=
  wrap_err what (exec (λ d, db_with_submissions
    (update_where p (λ r, mkSubmissionRow (f r.(sr_data)) r.(sr_missing)) d.(db_submissions)) d)).

Definition SetLastReplyAt (submissionID : string) (t : time) : M unit :=
  update_submissions "set last_reply_at" (λ r, bool_decide (sr_id r = submissionID))
    (sub_with_LastReplyAt (nanoOrZero t)).

Definition ClearReplyHash (submissionID : string) : M unit :=
  update_submissions "clear reply hash" (λ r, bool_decide (sr_id r = submissionID))
    (sub_with_LastReplyHash "").

Definition SetOnHold (submissionIDs : list string) (onHold : bool) : M unit :=
  if bool_decide (submissionIDs = []) then mret ()
  else update_submissions "set on_hold" (λ r, bool_decide (sr_id r ∈ submissionIDs))
         (sub_with_OnHold onHold).

Definition closed_before (cutoff : Z) (d : DB) (id : string) : bool :=
  existsb (λ r, bool_decide (sr_id r = id) && in_state r StateClosed &&
                (r.(sr_data).(sub_UpdatedAt) <? cutoff)) d.(db_submissions).

Definition ClearExtractedTextForClosed (closedBefore : Z) : M Z :=
  let hit d doc := negb (bool_decide (doc.(doc_ExtractedText) = "")) &&
                   closed_before closedBefore d doc.(doc_SubmissionID) in
  wrap_err "clear extracted text"
    (stmt (λ d, Ok (Z.of_nat (length (List.filter (hit d) d.(db_documents))),
       db_with_documents (update_where (hit d) (doc_with_ExtractedText "") d.(db_documents)) d))).

(** *** Lookups *)

Definition ListHeldIDs : M (list string) :=
  wrap_err "list held"
    (query (λ d, map sr_id (List.filter (λ r, r.(sr_data).(sub_OnHold)) d.(db_submissions)))).

Definition reply_blocked (r : submission_row) : bool :=
  r.(sr_data).(sub_OnHold) || r.(sr_data).(sub_DeliveryFailed).

Definition ReplyBlockedIDs (submissionIDs : list string) : M (list string) :=
  let ids := nonEmpty submissionIDs in
  if bool_decide (ids = []) then mret []
  else wrap_err "query reply-blocked"
    (query (λ d, map sr_id (List.filter (λ r, bool_decide (sr_id r ∈ ids) && reply_blocked r)
                              d.(db_submissions)))).

Definition SubmissionIDsByMessageIDs (messageIDs : list string) : M (list string) :=
  let ids := nonEmpty messageIDs in
  if bool_decide (ids = []) then mret []
  else wrap_err "query submissions by message id"
    (query (λ d, distinct (map em_SubmissionID
       (List.filter (λ e, bool_decide (e.(em_MessageID) ∈ ids)) d.(db_emails))))).

Definition FindContentMatch (namedInsured fromAddress : string) (createdAfter : Z) : M Submission :=
  let insured := ToLower (TrimSpace namedInsured) in
  if bool_decide (insured = "") || bool_decide (fromAddress = "") then not_found
  else
    rows ← wrap_err "content match" (query (λ d,
      select (λ r, let s := r.(sr_data) in
                   negb (bool_decide (s.(sub_NamedInsured) = "")) &&
                   bool_decide (sql_lower (sql_trim s.(sub_NamedInsured)) = insured) &&
                   bool_decide (s.(sub_FromAddress) = fromAddress) &&
                   (in_state r StateOpen || in_state r StateAwaiting) &&
                   (createdAfter <=? s.(sub_CreatedAt)))
        (by_col_desc sub_CreatedAt) 1 d.(db_submissions)));
    match rows with
    | r :: _ => GetByID (sr_id r)
    | [] => not_found
    end.
End repository.
