(* ===== verification/OutboxRepo.v ===== *)
(** The outbox, the audit log, the ingest control and the spend tracker:
    [internal/repository/outbox.go], [audit.go], [ingest_control.go] and
    [llm_spend.go], and the transaction of [submissions.go] that writes a reply.

    [insertOutboxRow] keeps one pending reply per submission: a second one overwrites
    the text and the schedule of the first and returns its id.  [MarkSent] only settles
    the version it was given. *)
From Stdlib Require Import ZArith.
From stdpp Require Import base list strings gmap.
From S2P Require Import Prelude GoStrings GoValues Submission Checklist Tables World Repository.

Open Scope Z_scope.

Definition or_with_content (reply : option Reply) (notBefore updated : Z) (r : outbox_row) : outbox_row :=
  mkOutboxRow r.(or_id) r.(or_submission_id) reply r.(or_status) r.(or_attempts)
    r.(or_last_error) r.(or_created_at) updated notBefore.
Definition or_settle (status : OutboxStatus) (attempts : Z) (lastErr : string) (updated : Z)
    (r : outbox_row) : outbox_row :=
  mkOutboxRow r.(or_id) r.(or_submission_id) r.(or_reply) status attempts lastErr
    r.(or_created_at) updated r.(or_not_before).

Definition oe_with_row (id : string) (created updated : time) (e : OutboxEntry) : OutboxEntry :=
  mkOutboxEntry id e.(oe_SubmissionID) e.(oe_Reply) e.(oe_Status) e.(oe_Attempts)
    e.(oe_LastError) created updated e.(oe_NotBefore).

Definition is_pending (r : outbox_row) : bool := bool_decide (r.(or_status) = OutboxPending).

Definition json_reply (r : Reply) : Reply :=
  mkReply (json_string r.(rep_SubmissionID)) (json_string r.(rep_ToAddress))
    (json_string r.(rep_Subject)) (json_string r.(rep_BodyText))
    (json_string r.(rep_InReplyTo)) (map json_string r.(rep_References)).

(** The row [insertOutboxRow] inserts. *)
Definition outbox_values (e : OutboxEntry) : outbox_row :=
  mkOutboxRow e.(oe_ID) e.(oe_SubmissionID) (Some (json_reply e.(oe_Reply))) e.(oe_Status)
    e.(oe_Attempts) e.(oe_LastError) (UnixNano e.(oe_CreatedAt)) (UnixNano e.(oe_UpdatedAt))
    (nanoOrZero e.(oe_NotBefore)).

Definition pending_of (sid : string) (r : outbox_row) : bool :=
  is_pending r && bool_decide (r.(or_submission_id) = sid).

(** [INSERT INTO outbox ... ON CONFLICT(submission_id) WHERE status = 'pending' DO
    UPDATE ... RETURNING id]; the partial index only speaks of pending rows. *)
Definition upsert_outbox (new : outbox_row) (d : DB) : result (string * DB) :=
  match (if is_pending new then List.find (pending_of new.(or_submission_id)) d.(db_outbox) else None) with
  | Some old =>
      Ok (old.(or_id),
          db_with_outbox (update_where (pending_of new.(or_submission_id))
            (or_with_content new.(or_reply) new.(or_not_before) new.(or_updated_at)) d.(db_outbox)) d)
  | None =>
      if has_key or_id new.(or_id) d.(db_outbox) then Err (ErrNew "UNIQUE constraint failed: outbox.id")
      else if has_submission d new.(or_submission_id)
           then Ok (new.(or_id), db_with_outbox (d.(db_outbox) ++ [new]) d)
           else Err foreign_key_failed
  end.

Definition pending_subs (l : list outbox_row) : list string :=
  map or_submission_id (List.filter is_pending l).

(** An [UPDATE] of [outbox], subject to the index [idx_outbox_one_pending]. *)
Definition update_outbox (p : outbox_row → bool) (f : outbox_row → outbox_row) (d : DB)
  : result (unit * DB) :=
  let rows := update_where p f d.(db_outbox) in
  if bool_decide (NoDup (pending_subs rows)) then Ok ((), db_with_outbox rows d)
  else Err (ErrNew "UNIQUE constraint failed: outbox.submission_id").

(** The [UPDATE] of [MarkSent]: only the version given, only while it is pending. *)
Definition mark_sent (id : string) (version now : Z) (rows : list outbox_row) : list outbox_row :=
  update_where (λ r, bool_decide (r.(or_id) = id) && is_pending r && (r.(or_updated_at) =? version))
    (λ r, or_settle OutboxSent r.(or_attempts) r.(or_last_error) now r) rows.

(** A row decoded by [ListPending] and [GetPending]. *)
Definition entry_of_row (r : outbox_row) (reply : Reply) : OutboxEntry :=
  mkOutboxEntry r.(or_id) r.(or_submission_id) reply r.(or_status) r.(or_attempts)
    r.(or_last_error) r.(or_created_at) r.(or_updated_at)
    (if r.(or_not_before) =? 0 then zeroTime else r.(or_not_before)).

Definition decoded (rows : list outbox_row) : list OutboxEntry :=
  omap (λ r, entry_of_row r <$> r.(or_reply)) rows.
Definition poison (rows : list outbox_row) : list outbox_row :=
  List.filter (λ r, match r.(or_reply) with None => true | Some _ => false end) rows.

(** The rows [ListPending] is after. *)
Definition is_due (now retryCutoff : Z) (r : outbox_row) : bool :=
  is_pending r && (r.(or_not_before) <=? now) &&
  ((r.(or_attempts) =? 0) || (r.(or_updated_at) <=? retryCutoff)).

Section outbox.
Context {L : GoLib} {E : Env}.

(** The entry afterwards: the surviving row's id and the timestamps. *)
Definition insertOutboxRow (e : OutboxEntry) : M OutboxEntry :=
  id ← (if bool_decide (e.(oe_ID) = "") then NewString else mret e.(oe_ID));
  now ← time_Now;
  let created := if IsZero e.(oe_CreatedAt) then now else e.(oe_CreatedAt) in
  let e := oe_with_row id created now e in
  row ← wrap_err "outbox: upsert" (stmt (upsert_outbox (outbox_values e)));
  mret (oe_with_row row created now e).

Definition Enqueue (e : OutboxEntry) : M OutboxEntry := insertOutboxRow e.

Definition UpsertSubmissionWithReply (s : Submission) (reply : OutboxEntry) : M OutboxEntry :=
  if bool_decide (s.(sub_ID) = "") then
    throw (ErrNew "sqlite: UpsertSubmissionWithReply requires non-empty id")
  else transaction false (upsert_rows s ≫= λ _, insertOutboxRow reply).

Definition Outbox_Update (id : string) (status : OutboxStatus) (attempts : Z) (lastErr : string) : M unit :=
  now ← time_Now;
  wrap_err "outbox: update"
    (stmt (update_outbox (λ r, bool_decide (r.(or_id) = id))
             (or_settle status attempts lastErr (UnixNano now)))).

Definition ListPending (now retryCutoff : time) (limit : Z) : M (list OutboxEntry) :=
  rows ← wrap_err "outbox: query pending" (query (λ d,
    select (is_due (UnixNano now) (UnixNano retryCutoff))
      (λ a b, a.(or_not_before) <? b.(or_not_before)) (limit_or limit 100) d.(db_outbox)));
  for_each (λ r, log_err (Outbox_Update r.(or_id) OutboxFailed (r.(or_attempts) + 1)
                            "undecodable reply_json")) (poison rows) ≫= λ _,
  mret (decoded rows).

Definition GetPending (id : string) : M (option OutboxEntry) :=
  row ← wrap_err "outbox: get pending" (query (λ d,
    List.find (λ r, bool_decide (r.(or_id) = id) && is_pending r) d.(db_outbox)));
  match row with
  | None => mret None
  | Some r => match r.(or_reply) with
              | None => throw (ErrWrap "outbox: decode pending reply" (ErrNew "json"))
              | Some reply => mret (Some (entry_of_row r reply))
              end
  end.

Definition MarkSent (id : string) (version : time) : M unit :=
  now ← time_Now;
  wrap_err "outbox: mark sent" (exec (λ d, db_with_outbox
    (mark_sent id (UnixNano version) (UnixNano now) d.(db_outbox)) d)).

(** [UPDATE outbox SET status = 'failed' ... WHERE p]: the rows affected. *)
Definition fail_where (p : outbox_row → bool) (reason : string) (now : time) (d : DB) : result (Z * DB) :=
  Ok (Z.of_nat (length (List.filter p d.(db_outbox))),
      db_with_outbox (update_where p
        (λ r, or_settle OutboxFailed r.(or_attempts) reason (UnixNano now) r) d.(db_outbox)) d).

Definition ExpirePending (olderThan : Z) : M Z :=
  now ← time_Now;
  wrap_err "outbox: expire pending"
    (stmt (fail_where (λ r, is_pending r && (r.(or_created_at) <? olderThan))
             "expired: pending past TTL" now)).

Definition ExpirePendingForSubmissions (submissionIDs : list string) (reason : string) : M Z :=
  if bool_decide (submissionIDs = []) then mret 0
  else
    now ← time_Now;
    wrap_err "outbox: expire for submissions"
      (stmt (fail_where (λ r, is_pending r && bool_decide (r.(or_submission_id) ∈ submissionIDs))
               reason now)).

Definition delete_where {A} (p : A → bool) (l : list A) : list A := List.filter (λ r, negb (p r)) l.

Definition settled_before (olderThan : Z) (r : outbox_row) : bool :=
  negb (is_pending r) && (r.(or_created_at) <? olderThan).

Definition Outbox_Prune (olderThan : Z) : M Z :=
  wrap_err "outbox: prune" (stmt (λ d,
    Ok (Z.of_nat (length (List.filter (settled_before olderThan) d.(db_outbox))),
        db_with_outbox (delete_where (settled_before olderThan) d.(db_outbox)) d))).

(** ** Audit log *)

Definition payload_ok (p : list (string * any)) : bool := forallb (λ kv, json_ok kv.2) p.
Definition json_payload (p : list (string * any)) : list (string * any) :=
  map (λ kv, (json_string kv.1, json_any kv.2)) p.

Definition Append (e : AuditEntry) : M unit :=
  id ← (if bool_decide (e.(ae_ID) = "") then NewString else mret e.(ae_ID));
  created ← (if IsZero e.(ae_CreatedAt) then time_Now else mret e.(ae_CreatedAt));
  if negb (payload_ok e.(ae_Payload)) then throw (ErrWrap "audit: marshal payload" json_unsupported)
  else wrap_err "audit: insert" (stmt (λ d,
    if has_key ae_ID id d.(db_audit) then Err (ErrNew "UNIQUE constraint failed: audit_log.id")
    else Ok ((), db_with_audit (d.(db_audit) ++
           [mkAuditEntry id e.(ae_SubmissionID) e.(ae_EventType) (json_payload e.(ae_Payload))
              e.(ae_RequestID) (UnixNano created)]) d))).

Definition ListBySubmission (submissionID : string) : M (list AuditEntry) :=
  wrap_err "audit: query by submission"
    (query (λ d, sort_by (λ a b, a.(ae_CreatedAt) <? b.(ae_CreatedAt))
                   (of_submission ae_SubmissionID submissionID d.(db_audit)))).

Definition ListSubmissionIDsByEvent (eventType : EventType) (since : Z) : M (list string) :=
  wrap_err "audit: query by event"
    (query (λ d, distinct (map ae_SubmissionID
       (List.filter (λ e, bool_decide (e.(ae_EventType) = eventType) && (since <=? e.(ae_CreatedAt)) &&
                          negb (bool_decide (e.(ae_SubmissionID) = ""))) d.(db_audit))))).

Definition Audit_Prune (olderThan : Z) : M Z :=
  let old (e : AuditEntry) := e.(ae_CreatedAt) <? olderThan in
  wrap_err "audit: prune" (stmt (λ d,
    Ok (Z.of_nat (length (List.filter old d.(db_audit))),
        db_with_audit (delete_where old d.(db_audit)) d))).

(** ** Ingest control *)

Definition FirstBootAt (now : time) : M time :=
  v ← wrap_err "service_meta: read first_boot_at" (query db_first_boot);
  match v with
  | Some (BootAt t) => mret t
  | Some (BootGarbage raw) =>
      throw (ErrWrap ("service_meta: first_boot_at " +:+ raw +:+ " unparseable") (ErrNew "time"))
  | None =>
      wrap_err "service_meta: write first_boot_at" (exec (λ d,
        match d.(db_first_boot) with
        | None => db_with_first_boot (Some (BootAt now)) d
        | Some _ => d
        end)) ≫= λ _, mret now
  end.

Definition RecordFailure (uidValidity uid : Z) (reason : string) (now : time) : M Z :=
  wrap_err "poll_failures: record" (stmt (λ d,
    let attempts := match d.(db_failures) !! (uidValidity, uid) with
                    | Some f => f.(fr_attempts) + 1
                    | None => 1
                    end in
    Ok (attempts, db_with_failures
          (<[ (uidValidity, uid) := mkFailureRow attempts reason (UnixNano now) ]> d.(db_failures)) d))).

Definition ClearFailure (uidValidity uid : Z) : M unit :=
  wrap_err "poll_failures: clear"
    (exec (λ d, db_with_failures (delete (uidValidity, uid) d.(db_failures)) d)).

(** ** LLM spend *)

Definition Today : M float64 :=
  now ← time_Now;
  v ← wrap_err "llm_spend: query" (query (λ d, d.(db_spend) !! utc_day now));
  mret (default f64_zero v).

Definition Spend_Add (usd : float64) : M unit :=
  now ← time_Now;
  wrap_err "llm_spend: add" (exec (λ d, db_with_spend
    (<[ utc_day now := match d.(db_spend) !! utc_day now with
                       | Some old => f64_add old usd
                       | None => usd
                       end ]> d.(db_spend)) d)).
End outbox.
