(* ===== verification/Frames.v ===== *)
(** What the repositories' calls do to the table of submissions.

    [rows_of T] says something of that table alone.  Calls on the other tables keep it;
    the calls that write submissions keep it when their statement does.  The invariant of
    the stored life cycle and the protection of single columns are both instances. *)
From Stdlib Require Import ZArith.
From stdpp Require Import base list strings gmap.
From S2P Require Import Prelude GoStrings GoValues Submission Checklist Tables World Repository OutboxRepo.

Open Scope Z_scope.

Definition rows_of (T : list submission_row → Prop) (d : DB) : Prop := T d.(db_submissions).

(** The upsert of [s], at whatever instants, keeps [T]. *)
Definition upsert_keeps (T : list submission_row → Prop) (s : Submission) : Prop :=
  ∀ created updated lastAction rows,
    T rows → T (upsert_by sr_id submission_merge (submission_values s created updated lastAction) rows).

(** An [UPDATE] by [f] keeps [T], whichever rows it selects. *)
Definition update_keeps (T : list submission_row → Prop) (f : Submission → Submission) : Prop :=
  ∀ p rows, T rows → T (update_where p (λ r, mkSubmissionRow (f r.(sr_data)) r.(sr_missing)) rows).

Section rows.
Context {L : GoLib} {E : Env} (T : list submission_row → Prop).

Notation keeps_rows := (preserves (rows_of T ∘ w_db)).

(** A statement that leaves the submissions table alone. *)
Lemma rows_stmt {A} (f : DB → result (A * DB)) :
  (∀ d a d', f d = Ok (a, d') → db_submissions d' = db_submissions d) → keeps_rows (stmt f).
Proof.
  intros Hf. apply preserves_stmt. intros d a d' Hd Hok. unfold rows_of. by rewrite (Hf d a d').
Qed.

Lemma rows_exec f :
  (∀ d, db_submissions (f d) = db_submissions d) → keeps_rows (exec f).
Proof. intros Hf. apply rows_stmt. by intros d a d' [= _ <-]. Qed.

Lemma rows_upsertSubmissionRow s : upsert_keeps T s → keeps_rows (upsertSubmissionRow s).
Proof.
  intros Hs. unfold upsertSubmissionRow, nanoOrNow. walk. apply preserves_exec. intros d Hd.
  by apply Hs.
Qed.

Lemma rows_upsertEmailRow e : keeps_rows (upsertEmailRow e).
Proof.
  unfold upsertEmailRow. walk. apply rows_stmt. unfold insert_email. intros d a d'.
  destruct (has_key _ _ _); [by intros [= _ <-]|]. destruct (has_submission _ _); [|done].
  by intros [= _ <-].
Qed.

Lemma rows_upsertDocumentRow x : keeps_rows (upsertDocumentRow x).
Proof.
  unfold upsertDocumentRow. walk. apply rows_stmt. unfold insert_document. intros d a d'.
  destruct (IsNaN _); [done|]. destruct (_ || _); [|done]. by intros [= _ <-].
Qed.

#[local] Hint Resolve rows_upsertEmailRow rows_upsertDocumentRow rows_upsertSubmissionRow : triage.

Lemma rows_upsert_rows s : upsert_keeps T s → keeps_rows (upsert_rows s).
Proof. intros. unfold upsert_rows, unless_duplicate. walk. Qed.
#[local] Hint Resolve rows_upsert_rows : triage.

Lemma rows_insertOutboxRow e : keeps_rows (insertOutboxRow e).
Proof.
  unfold insertOutboxRow. walk. apply rows_stmt. unfold upsert_outbox. intros d x d'.
  destruct (if is_pending _ then _ else _); [by intros [= _ <-]|].
  destruct (has_key _ _ _); [done|]. destruct (has_submission _ _); [|done]. by intros [= _ <-].
Qed.
#[local] Hint Resolve rows_insertOutboxRow : triage.

Lemma rows_UpsertSubmission s : upsert_keeps T s → keeps_rows (UpsertSubmission s).
Proof. intros. unfold UpsertSubmission. walk. Qed.

Lemma rows_UpsertSubmissionWithReply s e :
  upsert_keeps T s → keeps_rows (UpsertSubmissionWithReply s e).
Proof. intros. unfold UpsertSubmissionWithReply. walk. apply preserves_transaction. walk. Qed.

Lemma rows_UpsertEmail e : keeps_rows (UpsertEmail e).
Proof. unfold UpsertEmail. walk. Qed.

Lemma rows_update_submissions what p f :
  update_keeps T f → keeps_rows (update_submissions what p f).
Proof.
  intros Hf. unfold update_submissions. walk. apply preserves_exec. intros d Hd. by apply Hf.
Qed.

Lemma rows_SetOnHold ids b : update_keeps T (sub_with_OnHold b) → keeps_rows (SetOnHold ids b).
Proof. intros. unfold SetOnHold. walk. by apply rows_update_submissions. Qed.

Lemma rows_Outbox_Update id st n err : keeps_rows (Outbox_Update id st n err).
Proof.
  unfold Outbox_Update. walk. apply rows_stmt. unfold update_outbox. intros d x d'.
  case_bool_decide; [|done]. by intros [= _ <-].
Qed.
#[local] Hint Resolve rows_Outbox_Update : triage.

Lemma rows_ListPending now cutoff limit : keeps_rows (ListPending now cutoff limit).
Proof. unfold ListPending. walk. Qed.

Lemma rows_MarkSent id v : keeps_rows (MarkSent id v).
Proof. unfold MarkSent. walk. by apply rows_exec. Qed.

(** Deletions, expiries and the clearing of texts: statements that count what they touched. *)
Lemma rows_counted {A} (n : DB → A) f :
  (∀ d, db_submissions (f d) = db_submissions d) → keeps_rows (stmt (λ d, Ok (n d, f d))).
Proof. intros Hf. apply rows_stmt. by intros d x d' [= _ <-]. Qed.

Lemma rows_ExpirePending t : keeps_rows (ExpirePending t).
Proof. unfold ExpirePending, fail_where. walk. by apply rows_counted. Qed.

Lemma rows_ExpireFor ids reason : keeps_rows (ExpirePendingForSubmissions ids reason).
Proof. unfold ExpirePendingForSubmissions, fail_where. walk. by apply rows_counted. Qed.

Lemma rows_Outbox_Prune t : keeps_rows (Outbox_Prune t).
Proof. by apply preserves_wrap_err, rows_counted. Qed.

Lemma rows_Audit_Prune t : keeps_rows (Audit_Prune t).
Proof. by apply preserves_wrap_err, rows_counted. Qed.

Lemma rows_ClearText t : keeps_rows (ClearExtractedTextForClosed t).
Proof. by apply preserves_wrap_err, rows_counted. Qed.

Lemma rows_Append e : keeps_rows (Append e).
Proof.
  unfold Append. walk. apply rows_stmt. intros d x d'.
  destruct (has_key _ _ _); [done|]. by intros [= _ <-].
Qed.
End rows.

#[export] Hint Resolve rows_UpsertSubmission rows_UpsertSubmissionWithReply rows_UpsertEmail
  rows_SetOnHold rows_Outbox_Update rows_ListPending rows_MarkSent rows_ExpirePending rows_ExpireFor
  rows_Outbox_Prune rows_Audit_Prune rows_ClearText rows_Append : triage.
