(* ===== verification/Persistence.v ===== *)
(** The schema invariant: what the tables satisfy whatever calls are made on the
    repositories and whichever statements fail.

    [db_wf] says that primary keys are unique, every email, document and reply belongs
    to a stored submission, and no submission has two pending replies.  [repo_op] lists
    the calls of the four repositories that write; [history] runs a sequence of them. *)
From Stdlib Require Import ZArith.
From stdpp Require Import base list strings gmap.
From S2P Require Import Prelude GoStrings GoValues Submission Checklist Tables World Repository OutboxRepo.

Open Scope Z_scope.

Record db_wf (d : DB) : Prop := {
  wf_submission_ids : NoDup (map sr_id d.(db_submissions));
  wf_email_ids : NoDup (map em_DeterministicID d.(db_emails));
  wf_document_ids : NoDup (map doc_ID d.(db_documents));
  wf_outbox_ids : NoDup (map or_id d.(db_outbox));
  wf_audit_ids : NoDup (map ae_ID d.(db_audit));
  wf_one_pending : NoDup (pending_subs d.(db_outbox));
  wf_email_parent : ∀ e, e ∈ d.(db_emails) → e.(em_SubmissionID) ∈ map sr_id d.(db_submissions);
  wf_document_parent : ∀ x, x ∈ d.(db_documents) → x.(doc_SubmissionID) ∈ map sr_id d.(db_submissions);
  wf_outbox_parent : ∀ r, r ∈ d.(db_outbox) → r.(or_submission_id) ∈ map sr_id d.(db_submissions) }.

(** ** Lemmas on tables *)

Lemma NoDup_snoc {A} (l : list A) x : NoDup l → x ∉ l → NoDup (l ++ [x]).
Proof.
  intros Hl Hx. apply NoDup_app. split_and!; [done| |apply NoDup_singleton].
  by intros y Hy ->%list_elem_of_singleton.
Qed.

Lemma NoDup_map_filter {A B} (f : A → B) p l :
  NoDup (map f l) → NoDup (map f (List.filter p l)).
Proof.
  induction l as [|x l IH]; cbn; [done|]. intros [Hx Hl]%NoDup_cons.
  destruct (p x); cbn; [|by apply IH]. apply NoDup_cons. split; [|by apply IH].
  intros (y & Heq & Hy)%list_elem_of_fmap. apply Hx. rewrite Heq.
  apply list_elem_of_In, List.filter_In in Hy as [Hy _].
  by apply list_elem_of_fmap_2, list_elem_of_In.
Qed.

Lemma pending_subs_update p f l :
  (∀ r, is_pending (f r) = is_pending r) → (∀ r, or_submission_id (f r) = or_submission_id r) →
  pending_subs (update_where p f l) = pending_subs l.
Proof.
  intros Hp Hs. unfold pending_subs, update_where.
  induction l as [|r l IH]; [done|]. cbn [map List.filter].
  assert (is_pending (if p r then f r else r) = is_pending r) as -> by (by destruct (p r)).
  destruct (is_pending r); [|done]. cbn [map]. f_equal; [by destruct (p r)|done].
Qed.

(** Settling rows only shrinks the pending ones. *)
Lemma pending_subs_settle p f l :
  (∀ r, is_pending (f r) = false) →
  pending_subs (update_where p f l) = pending_subs (List.filter (λ r, negb (p r)) l).
Proof.
  intros Hf. unfold pending_subs, update_where.
  induction l as [|r l IH]; [done|]. cbn [map List.filter]. destruct (p r); cbn [negb].
  - by rewrite Hf.
  - cbn [List.filter]. destruct (is_pending r); cbn [map]; by rewrite ?IH.
Qed.

Lemma filter_filter {A} (p q : A → bool) l :
  List.filter p (List.filter q l) = List.filter q (List.filter p l).
Proof.
  induction l as [|x l IH]; [done|]. cbn [List.filter].
  destruct (q x) eqn:Eq, (p x) eqn:Ep; cbn [List.filter]; rewrite ?Eq, ?Ep, IH; done.
Qed.

Lemma pending_subs_filter_NoDup p l : NoDup (pending_subs l) → NoDup (pending_subs (List.filter p l)).
Proof. unfold pending_subs. rewrite filter_filter. apply NoDup_map_filter. Qed.

Lemma find_pending_None sid l :
  List.find (pending_of sid) l = None → sid ∉ pending_subs l.
Proof.
  intros Hn (r & -> & Hr)%list_elem_of_fmap.
  apply list_elem_of_In, List.filter_In in Hr as [Hr Hp].
  eapply List.find_none in Hn; [|done]. unfold pending_of in Hn.
  rewrite Hp, bool_decide_true in Hn; done.
Qed.

Lemma elem_of_delete_where {A} (p : A → bool) l x : x ∈ delete_where p l → x ∈ l.
Proof. unfold delete_where. rewrite !list_elem_of_In, List.filter_In. tauto. Qed.

(** ** Statements *)

Lemma update_where_parent p f l (P : string → Prop) :
  (∀ r, or_submission_id (f r) = or_submission_id r) →
  (∀ r, r ∈ l → P (or_submission_id r)) → ∀ r, r ∈ update_where p f l → P (or_submission_id r).
Proof.
  intros Hf Hl r [Hr|(r0 & Hr0 & _ & ->)]%elem_of_update_where; [by apply Hl|].
  rewrite Hf. by apply Hl.
Qed.

(** Every update of the outbox that keeps ids and owners and the index. *)
Lemma outbox_update_wf p f d :
  (∀ r, or_id (f r) = or_id r) → (∀ r, or_submission_id (f r) = or_submission_id r) →
  NoDup (pending_subs (update_where p f d.(db_outbox))) →
  db_wf d → db_wf (db_with_outbox (update_where p f d.(db_outbox)) d).
Proof.
  intros Hid Hsub Hpend [H1 H2 H3 H4 H5 H6 H7 H8 H9]. split; try done.
  - cbn [db_outbox db_with_outbox]. by rewrite update_where_map.
  - cbn [db_outbox db_with_outbox]. by apply (update_where_parent _ _ _ (λ k, k ∈ map sr_id (db_submissions d))).
Qed.

Lemma fail_where_wf p reason now d n d' :
  db_wf d → fail_where p reason now d = Ok (n, d') → db_wf d'.
Proof.
  intros Hwf [= _ <-]. apply outbox_update_wf; try done.
  rewrite pending_subs_settle by done. apply pending_subs_filter_NoDup, Hwf.
Qed.

Lemma update_outbox_wf p f d u d' :
  (∀ r, or_id (f r) = or_id r) → (∀ r, or_submission_id (f r) = or_submission_id r) →
  db_wf d → update_outbox p f d = Ok (u, d') → db_wf d'.
Proof.
  unfold update_outbox. intros Hid Hsub Hwf. case_bool_decide; [|done]. intros [= <- <-].
  by apply outbox_update_wf.
Qed.

Lemma upsert_outbox_wf new d id d' :
  db_wf d → upsert_outbox new d = Ok (id, d') → db_wf d'.
Proof.
  unfold upsert_outbox. intros Hwf. destruct (if is_pending new then _ else _) as [old|] eqn:Ef.
  - intros [= <- <-]. apply outbox_update_wf; try done.
    rewrite pending_subs_update by done. apply Hwf.
  - destruct (has_key or_id _ _) eqn:Ek; [done|]. destruct (has_submission _ _) eqn:Es; [|done].
    intros [= <- <-]. apply has_key_false in Ek. apply has_key_true in Es.
    destruct Hwf as [H1 H2 H3 H4 H5 H6 H7 H8 H9]. split; try done; cbn.
    + rewrite map_app. by apply NoDup_snoc.
    + unfold pending_subs in *. rewrite List.filter_app, map_app. cbn.
      destruct (is_pending new); cbn; [|by rewrite app_nil_r].
      apply NoDup_snoc; [done|]. by apply find_pending_None.
    + intros r [Hr| ->%list_elem_of_singleton]%elem_of_app; [by apply H9|done].
Qed.

Lemma insert_submission_wf r d : db_wf d → db_wf (insert_submission r d).
Proof.
  intros [H1 H2 H3 H4 H5 H6 H7 H8 H9].
  assert (∀ k, k ∈ map sr_id (db_submissions d) →
          k ∈ map sr_id (upsert_by sr_id submission_merge r (db_submissions d))) as Hmono
    by (intros; by apply upsert_by_mono).
  split; cbn; eauto using upsert_by_NoDup.
Qed.

Lemma insert_email_wf e d n d' : db_wf d → insert_email e d = Ok (n, d') → db_wf d'.
Proof.
  unfold insert_email. intros Hwf. destruct (has_key _ _ _) eqn:Ek; [by intros [= _ <-]|].
  destruct (has_submission _ _) eqn:Es; [|done]. intros [= _ <-].
  apply has_key_false in Ek. apply has_key_true in Es.
  destruct Hwf as [H1 H2 H3 H4 H5 H6 H7 H8 H9]. split; try done; cbn.
  - rewrite map_app. by apply NoDup_snoc.
  - intros x [Hx| ->%list_elem_of_singleton]%elem_of_app; [by apply H7|done].
Qed.

Lemma insert_document_wf x d u d' : db_wf d → insert_document x d = Ok (u, d') → db_wf d'.
Proof.
  unfold insert_document. intros [H1 H2 H3 H4 H5 H6 H7 H8 H9]. destruct (IsNaN _); [done|].
  destruct (has_key _ _ _ || has_submission _ _) eqn:Eb; [|done]. intros [= _ <-].
  split; try done; cbn.
  - by apply upsert_by_NoDup.
  - intros y. unfold upsert_by. destruct (has_key _ _ _) eqn:Ek.
    + intros [Hy|(y0 & Hy0 & _ & ->)]%elem_of_update_where; [by apply H8|]. by apply (H8 y0).
    + cbn [orb] in Eb. apply has_key_true in Eb.
      intros [Hy| ->%list_elem_of_singleton]%elem_of_app; [by apply H8|done].
Qed.

(** Statements that rewrite submissions or documents without touching keys. *)
Lemma update_submissions_wf p f d :
  (∀ s, sub_ID (f s) = sub_ID s) → db_wf d →
  db_wf (db_with_submissions
           (update_where p (λ r, mkSubmissionRow (f r.(sr_data)) r.(sr_missing)) d.(db_submissions)) d).
Proof.
  intros Hf [H1 H2 H3 H4 H5 H6 H7 H8 H9].
  assert (map sr_id (update_where p (λ r, mkSubmissionRow (f (sr_data r)) (sr_missing r))
            (db_submissions d)) = map sr_id (db_submissions d)) as Hm
    by (apply update_where_map; intros; apply Hf).
  split; cbn; rewrite ?Hm; done.
Qed.

(** ** Calls *)

Notation keeps_wf := (preserves (db_wf ∘ w_db)).

Section calls.
Context {L : GoLib} {E : Env}.

Lemma wf_nanoOrNow t : keeps_wf (nanoOrNow t).
Proof. unfold nanoOrNow. walk. Qed.

Lemma wf_upsertSubmissionRow s : keeps_wf (upsertSubmissionRow s).
Proof.
  unfold upsertSubmissionRow. walk; try apply wf_nanoOrNow.
  apply preserves_exec. eauto using insert_submission_wf.
Qed.

Lemma wf_upsertEmailRow e : keeps_wf (upsertEmailRow e).
Proof. unfold upsertEmailRow. walk. apply preserves_stmt. eauto using insert_email_wf. Qed.

Lemma wf_upsertDocumentRow x : keeps_wf (upsertDocumentRow x).
Proof. unfold upsertDocumentRow. walk. apply preserves_stmt. eauto using insert_document_wf. Qed.

#[local] Hint Resolve wf_upsertSubmissionRow wf_upsertEmailRow wf_upsertDocumentRow : triage.

Lemma wf_upsert_rows s : keeps_wf (upsert_rows s).
Proof. unfold upsert_rows, unless_duplicate. walk. Qed.
#[local] Hint Resolve wf_upsert_rows : triage.

Lemma wf_UpsertSubmission s : keeps_wf (UpsertSubmission s).
Proof. unfold UpsertSubmission. walk. Qed.

Lemma wf_UpsertEmail e : keeps_wf (UpsertEmail e).
Proof. apply preserves_transaction, wf_upsertEmailRow. Qed.

Lemma wf_insertOutboxRow e : keeps_wf (insertOutboxRow e).
Proof.
  unfold insertOutboxRow. walk. apply preserves_stmt. eauto using upsert_outbox_wf.
Qed.
#[local] Hint Resolve wf_insertOutboxRow : triage.

Lemma wf_UpsertSubmissionWithReply s e : keeps_wf (UpsertSubmissionWithReply s e).
Proof. unfold UpsertSubmissionWithReply. walk. apply preserves_transaction. walk. Qed.

Lemma wf_update_submissions what p f :
  (∀ s, sub_ID (f s) = sub_ID s) → keeps_wf (update_submissions what p f).
Proof.
  intros Hf. unfold update_submissions. walk. apply preserves_exec.
  intros. by apply update_submissions_wf.
Qed.

Lemma wf_SetLastReplyAt id t : keeps_wf (SetLastReplyAt id t).
Proof. by apply wf_update_submissions. Qed.

Lemma wf_ClearReplyHash id : keeps_wf (ClearReplyHash id).
Proof. by apply wf_update_submissions. Qed.

Lemma wf_SetOnHold ids b : keeps_wf (SetOnHold ids b).
Proof. unfold SetOnHold. walk. by apply wf_update_submissions. Qed.

Lemma wf_ClearExtractedTextForClosed t : keeps_wf (ClearExtractedTextForClosed t).
Proof.
  unfold ClearExtractedTextForClosed. walk. apply preserves_stmt.
  intros d n d' [H1 H2 H3 H4 H5 H6 H7 H8 H9] [= _ <-]. split; try done; cbn.
  - by rewrite update_where_map.
  - intros x [Hx|(x0 & Hx0 & _ & ->)]%elem_of_update_where; [by apply H8|]. by apply (H8 x0).
Qed.

Lemma wf_Outbox_Update id st n err : keeps_wf (Outbox_Update id st n err).
Proof. unfold Outbox_Update. walk. apply preserves_stmt. intros.
  eapply update_outbox_wf; [| |eassumption|eassumption]; done. Qed.

#[local] Hint Resolve wf_Outbox_Update : triage.

Lemma wf_ListPending now cutoff limit : keeps_wf (ListPending now cutoff limit).
Proof. unfold ListPending. walk. Qed.

Lemma wf_MarkSent id v : keeps_wf (MarkSent id v).
Proof.
  unfold MarkSent. walk. apply preserves_exec. intros d Hd. apply outbox_update_wf; try done.
  rewrite pending_subs_settle by done. apply pending_subs_filter_NoDup, Hd.
Qed.

Lemma wf_ExpirePending t : keeps_wf (ExpirePending t).
Proof. unfold ExpirePending. walk. apply preserves_stmt. eauto using fail_where_wf. Qed.

Lemma wf_ExpirePendingForSubmissions ids reason : keeps_wf (ExpirePendingForSubmissions ids reason).
Proof. unfold ExpirePendingForSubmissions. walk. apply preserves_stmt. eauto using fail_where_wf. Qed.

Lemma wf_Outbox_Prune t : keeps_wf (Outbox_Prune t).
Proof.
  unfold Outbox_Prune. walk. apply preserves_stmt.
  intros d n d' [H1 H2 H3 H4 H5 H6 H7 H8 H9] [= _ <-]. split; try done; cbn.
  - by apply NoDup_map_filter.
  - by apply pending_subs_filter_NoDup.
  - intros r Hr%elem_of_delete_where. by apply H9.
Qed.

Lemma wf_Append e : keeps_wf (Append e).
Proof.
  unfold Append. walk. apply preserves_stmt. intros d u d' Hwf.
  destruct (has_key _ _ _) eqn:Ek; [done|]. intros [= _ <-]. apply has_key_false in Ek.
  destruct Hwf as [H1 H2 H3 H4 H5 H6 H7 H8 H9]. split; try done; cbn.
  rewrite map_app. by apply NoDup_snoc.
Qed.

Lemma wf_Audit_Prune t : keeps_wf (Audit_Prune t).
Proof.
  unfold Audit_Prune. walk. apply preserves_stmt.
  intros d n d' [H1 H2 H3 H4 H5 H6 H7 H8 H9] [= _ <-]. split; try done; cbn.
  by apply NoDup_map_filter.
Qed.

(** A statement on a table the invariant does not mention. *)
Lemma db_wf_other d d' :
  db_submissions d' = db_submissions d → db_emails d' = db_emails d →
  db_documents d' = db_documents d → db_outbox d' = db_outbox d → db_audit d' = db_audit d →
  db_wf d → db_wf d'.
Proof. destruct d, d'; cbn. intros -> -> -> -> -> [H1 H2 H3 H4 H5 H6 H7 H8 H9]. by split. Qed.

Lemma wf_RecordFailure v u reason now : keeps_wf (RecordFailure v u reason now).
Proof.
  unfold RecordFailure. walk. apply preserves_stmt. intros d a d' Hd [= _ <-].
  eapply db_wf_other; [..|eassumption]; done.
Qed.

Lemma wf_ClearFailure v u : keeps_wf (ClearFailure v u).
Proof. unfold ClearFailure. walk. apply preserves_exec. intros. eapply db_wf_other; [..|eassumption]; done. Qed.

Lemma wf_FirstBootAt now : keeps_wf (FirstBootAt now).
Proof.
  unfold FirstBootAt. walk. apply preserves_exec. intros d Hd.
  destruct (db_first_boot d); [done|]. eapply db_wf_other; [..|eassumption]; done.
Qed.

Lemma wf_Spend_Add usd : keeps_wf (Spend_Add usd).
Proof. unfold Spend_Add. walk. apply preserves_exec. intros. eapply db_wf_other; [..|eassumption]; done. Qed.
End calls.

#[export] Hint Resolve wf_UpsertSubmission wf_UpsertEmail wf_UpsertSubmissionWithReply
  wf_insertOutboxRow wf_SetLastReplyAt wf_ClearReplyHash wf_SetOnHold
  wf_ClearExtractedTextForClosed wf_Outbox_Update wf_ListPending wf_MarkSent wf_ExpirePending
  wf_ExpirePendingForSubmissions wf_Outbox_Prune wf_Append wf_Audit_Prune wf_RecordFailure
  wf_ClearFailure wf_FirstBootAt wf_Spend_Add : triage.

(** ** Histories *)

Inductive repo_op : Type :=
| OpUpsertSubmission (s : Submission)
| OpUpsertSubmissionWithReply (s : Submission) (e : OutboxEntry)
| OpUpsertEmail (e : Email)
| OpSetLastReplyAt (id : string) (t : time)
| OpClearReplyHash (id : string)
| OpSetOnHold (ids : list string) (b : bool)
| OpClearExtractedText (t : Z)
| OpEnqueue (e : OutboxEntry)
| OpListPending (now cutoff : time) (limit : Z)
| OpUpdate (id : string) (st : OutboxStatus) (attempts : Z) (err : string)
| OpMarkSent (id : string) (version : time)
| OpExpirePending (t : Z)
| OpExpireFor (ids : list string) (reason : string)
| OpPruneOutbox (t : Z)
| OpAppend (e : AuditEntry)
| OpPruneAudit (t : Z)
| OpFirstBoot (now : time)
| OpRecordFailure (v u : Z) (reason : string) (now : time)
| OpClearFailure (v u : Z)
| OpSpendAdd (usd : float64).

Section history.
Context {L : GoLib} {E : Env}.

Definition run_op (o : repo_op) : M unit :=
  match o with
  | OpUpsertSubmission s => log_err (UpsertSubmission s)
  | OpUpsertSubmissionWithReply s e => log_err (UpsertSubmissionWithReply s e)
  | OpUpsertEmail e => log_err (UpsertEmail e)
  | OpSetLastReplyAt id t => log_err (SetLastReplyAt id t)
  | OpClearReplyHash id => log_err (ClearReplyHash id)
  | OpSetOnHold ids b => log_err (SetOnHold ids b)
  | OpClearExtractedText t => log_err (ClearExtractedTextForClosed t)
  | OpEnqueue e => log_err (Enqueue e)
  | OpListPending now cutoff limit => log_err (ListPending now cutoff limit)
  | OpUpdate id st n err => log_err (Outbox_Update id st n err)
  | OpMarkSent id v => log_err (MarkSent id v)
  | OpExpirePending t => log_err (ExpirePending t)
  | OpExpireFor ids reason => log_err (ExpirePendingForSubmissions ids reason)
  | OpPruneOutbox t => log_err (Outbox_Prune t)
  | OpAppend e => log_err (Append e)
  | OpPruneAudit t => log_err (Audit_Prune t)
  | OpFirstBoot now => log_err (FirstBootAt now)
  | OpRecordFailure v u reason now => log_err (RecordFailure v u reason now)
  | OpClearFailure v u => log_err (ClearFailure v u)
  | OpSpendAdd usd => log_err (Spend_Add usd)
  end.

Definition history (ops : list repo_op) : M unit := for_each run_op ops.

Lemma run_op_wf o : keeps_wf (run_op o).
Proof. destruct o; cbn [run_op]; apply preserves_log_err; unfold Enqueue; auto with triage. Qed.
End history.

Lemma empty_db_wf : db_wf empty_db.
Proof. split; try apply NoDup_nil_2; intros ? []%elem_of_nil. Qed.

(** Whatever calls are made on the repositories, in whatever order, and whichever
    statements fail, a database that started empty has unique primary keys, no email,
    document or reply without its submission, and never two pending replies for one
    submission. *)
Theorem repository_history_wf (E : Env) (ops : list repo_op) :
  db_wf (w_db (history ops empty_world).2).
Proof.
  apply (preserves_for_each (db_wf ∘ w_db)); [intros; apply run_op_wf|]. exact empty_db_wf.
Qed.
