(* ===== verification/RepositoryProps.v ===== *)
(** What the repositories promise the service: round trips, ownership of columns, the
    outbox's supersede and version rules, and the ingest control's counters. *)
From Stdlib Require Import ZArith.
From stdpp Require Import base list strings gmap.
From S2P Require Import Prelude GoStrings GoValues Submission Checklist Tables World Repository OutboxRepo Persistence.

Open Scope Z_scope.

(** ** Round trip *)

(** A submission in the form the columns hold: instants within the range of
    [UnixNano], JSON text valid UTF-8, no attachment bytes, emails and documents its own,
    distinct, and in the order the queries return them. *)
Record storable (s : Submission) : Prop := {
  st_id : s.(sub_ID) ≠ "";
  st_created : fits64 s.(sub_CreatedAt) ∧ IsZero s.(sub_CreatedAt) = false;
  st_updated : fits64 s.(sub_UpdatedAt) ∧ IsZero s.(sub_UpdatedAt) = false;
  st_action : fits64 s.(sub_LastActionAt) ∧ IsZero s.(sub_LastActionAt) = false;
  st_reply : s.(sub_LastReplyAt) = zeroTime ∨ (fits64 s.(sub_LastReplyAt) ∧ s.(sub_LastReplyAt) ≠ 0);
  st_options : Forall (λ o, UnixNano <$> o = o)
    [s.(sub_EscalatedAt); s.(sub_EffectiveDate); s.(sub_LastEscalatedAt); s.(sub_CompletedAt)];
  st_missing : Forall (λ m, json_item m = m ∧ f64_finite m.(mi_Confidence) = true) s.(sub_MissingItems);
  st_emails : Forall (λ e, email_row e = e ∧ e.(em_SubmissionID) = s.(sub_ID)) s.(sub_Emails);
  st_email_ids : NoDup (map em_DeterministicID s.(sub_Emails));
  st_email_order : sort_by (λ a b, a.(em_ReceivedAt) <? b.(em_ReceivedAt)) s.(sub_Emails) = s.(sub_Emails);
  st_documents : Forall (λ x, document_row x = x ∧ x.(doc_SubmissionID) = s.(sub_ID) ∧ x.(doc_ID) ≠ "" ∧
      fields_json_ok x.(doc_ExtractedFields) = true ∧ IsNaN x.(doc_Confidence) = false) s.(sub_Documents);
  st_document_ids : NoDup (map doc_ID s.(sub_Documents));
  st_document_order :
    sort_by (λ a b, a.(doc_CreatedAt) <? b.(doc_CreatedAt)) s.(sub_Documents) = s.(sub_Documents) }.

(** Nothing of [s] is in the database. *)
Definition fresh_for (s : Submission) (d : DB) : Prop :=
  s.(sub_ID) ∉ map sr_id d.(db_submissions) ∧
  (∀ e, e ∈ s.(sub_Emails) → e.(em_DeterministicID) ∉ map em_DeterministicID d.(db_emails)) ∧
  (∀ x, x ∈ s.(sub_Documents) → x.(doc_ID) ∉ map doc_ID d.(db_documents)).

Definition the_row (s : Submission) : submission_row :=
  submission_values s (UnixNano s.(sub_CreatedAt)) (UnixNano s.(sub_UpdatedAt))
    (UnixNano s.(sub_LastActionAt)).

(** The database after a fresh submission was stored. *)
Definition db_plus (s : Submission) (d : DB) : DB :=
  db_with_documents (d.(db_documents) ++ s.(sub_Documents))
    (db_with_emails (d.(db_emails) ++ s.(sub_Emails))
      (db_with_submissions (d.(db_submissions) ++ [the_row s]) d)).

Lemma prefix_snoc_in {A} (l l2 : list A) x : l ++ [x] `prefix_of` l2 → x ∈ l2.
Proof. intros [k ->]. rewrite <- app_assoc. apply elem_of_app. right. by left. Qed.

Lemma prefix_snoc_fresh {A B} (f : A → B) (l l2 : list A) x :
  l ++ [x] `prefix_of` l2 → NoDup (map f l2) → f x ∉ map f l.
Proof.
  intros [k ->]. rewrite !map_app. intros [Hnd _]%NoDup_app. apply NoDup_app in Hnd as (_ & Hd & _).
  intros Hin. apply (Hd _ Hin). by left.
Qed.

Lemma scan_the_row s :
  storable s → scanSubmission (the_row s) = sub_with_Documents [] (sub_with_Emails [] s).
Proof.
  intros [Hid [Hc _] [Hu _] [Ha _] Hr Ho Hm _ _ _ _ _ _]. destruct s; cbn in *.
  unfold scanSubmission, the_row, submission_values, nanoOrZero; cbn.
  repeat (apply Forall_cons in Ho as [-> Ho]).
  assert (map json_item sub_MissingItems = sub_MissingItems) as ->.
  { clear -Hm. induction Hm as [|m l [Hm _] _ IH]; cbn; congruence. }
  unfold UnixNano. rewrite (wrap64_id _ Hc), (wrap64_id _ Hu), (wrap64_id _ Ha).
  unfold sub_with_MissingItems, sub_with_LastReplyAt, sub_with_Emails, sub_with_Documents; cbn.
  f_equal.
  destruct Hr as [->|[Hf Hne]]; [done|].
  destruct (IsZero sub_LastReplyAt) eqn:E.
  - apply Z.eqb_eq in E. unfold zeroTime in *. by rewrite E.
  - rewrite wrap64_id by done. by rewrite (proj2 (Z.eqb_neq _ _)).
Qed.

Section roundtrip.
Context {L : GoLib} {E : Env} (Hff : fault_free E).

Lemma wp_nanoOrNow t w (Q : Z → World → Prop) :
  IsZero t = false → Q (UnixNano t) w → wp (nanoOrNow t) (ok Q) w.
Proof. intros Ht HQ. unfold nanoOrNow. by rewrite Ht. Qed.

Lemma wp_upsertSubmissionRow s w :
  storable s →
  wp (upsertSubmissionRow s) (ok (λ _ w', w_db w' = insert_submission (the_row s) (w_db w))) w.
Proof.
  intros Hs. unfold upsertSubmissionRow.
  assert (missing_json_ok (sub_MissingItems s) = true) as ->.
  { apply forallb_forall. intros m Hm. pose proof (st_missing _ Hs) as Hall.
    rewrite Forall_forall in Hall. by apply Hall, list_elem_of_In. }
  cbn [negb].
  eapply wp_bind_ok with (R := λ a w', a = UnixNano s.(sub_CreatedAt) ∧ w' = w).
  { apply wp_nanoOrNow; [apply Hs|done]. }
  intros ? ? [-> ->].
  eapply wp_bind_ok with (R := λ a w', a = UnixNano s.(sub_UpdatedAt) ∧ w' = w).
  { apply wp_nanoOrNow; [apply Hs|done]. }
  intros ? ? [-> ->].
  eapply wp_bind_ok with (R := λ a w', a = UnixNano s.(sub_LastActionAt) ∧ w' = w).
  { apply wp_nanoOrNow; [apply Hs|done]. }
  intros ? ? [-> ->]. by apply wp_wrap_err, wp_exec.
Qed.

Lemma wp_emails s d w :
  storable s → fresh_for s d → w_db w = db_with_submissions (d.(db_submissions) ++ [the_row s]) d →
  wp (for_each (λ e, unless_duplicate (upsertEmailRow e)) s.(sub_Emails))
     (ok (λ _ w', w_db w' = db_with_emails (d.(db_emails) ++ s.(sub_Emails)) (w_db w))) w.
Proof.
  intros Hs (_ & Hfresh & _) Hw.
  apply (wp_for_each (λ e, unless_duplicate (upsertEmailRow e))
           (λ l d', d' = db_with_emails (d.(db_emails) ++ l) (w_db w)) []).
  { rewrite app_nil_r, Hw. by destruct d. }
  intros l e w' Hl Hw'. cbn [app] in *. unfold unless_duplicate. apply wp_bind, wp_attempt.
  pose proof (st_emails _ Hs) as Hall. rewrite Forall_forall in Hall.
  destruct (Hall e (prefix_snoc_in _ _ _ Hl)) as [Hrow Hown].
  pose proof (prefix_snoc_fresh em_DeterministicID _ _ _ Hl (st_email_ids _ Hs)) as Hnew.
  assert (insert_email e (w_db w') =
          Ok (1, db_with_emails (d.(db_emails) ++ l ++ [e]) (w_db w))) as Hins.
  { unfold insert_email. rewrite Hw', Hw.
    rewrite (proj2 (has_key_false em_DeterministicID _ _)).
    2:{ cbn. rewrite map_app, elem_of_app. intros [Hin|Hin]; [|done].
        by apply (Hfresh e (prefix_snoc_in _ _ _ Hl)). }
    unfold has_submission. cbn. rewrite (proj2 (has_key_true sr_id _ _)).
    2:{ rewrite map_app, elem_of_app. right. rewrite Hown. by left. }
    rewrite Hrow, <- app_assoc. done. }
  unfold wp, upsertEmailRow, wrap_err, mbind, M_bind, stmt. rewrite Hff, Hins. done.
Qed.

Lemma wp_documents s d w :
  storable s → fresh_for s d → s.(sub_ID) ∈ map sr_id (w_db w).(db_submissions) →
  (w_db w).(db_documents) = d.(db_documents) →
  wp (for_each upsertDocumentRow s.(sub_Documents))
     (ok (λ _ w', w_db w' = db_with_documents (d.(db_documents) ++ s.(sub_Documents)) (w_db w))) w.
Proof.
  intros Hs (_ & _ & Hfresh) Hsub Hdocs.
  apply (wp_for_each upsertDocumentRow
           (λ l d', d' = db_with_documents (d.(db_documents) ++ l) (w_db w)) []).
  { rewrite app_nil_r, <- Hdocs. by destruct (w_db w). }
  intros l x w' Hl Hw'. cbn [app] in *.
  pose proof (st_documents _ Hs) as Hall. rewrite Forall_forall in Hall.
  destruct (Hall x (prefix_snoc_in _ _ _ Hl)) as (Hrow & Hown & Hne & Hjson & Hnan).
  pose proof (prefix_snoc_fresh doc_ID _ _ _ Hl (st_document_ids _ Hs)) as Hnew.
  unfold upsertDocumentRow. rewrite bool_decide_false by done. rewrite Hjson. cbn [negb].
  apply wp_wrap_err. eapply wp_stmt; [done| |done].
  unfold insert_document. rewrite Hnan, Hw'.
  assert (has_submission (db_with_documents (db_documents d ++ l) (w_db w)) (doc_SubmissionID x) = true)
    as -> by (by apply has_key_true; rewrite Hown).
  rewrite orb_true_r. unfold upsert_by. rewrite Hrow.
  rewrite (proj2 (has_key_false doc_ID _ _)).
  2:{ cbn. rewrite map_app, elem_of_app. intros [Hin|Hin]; [|done].
      by apply (Hfresh x (prefix_snoc_in _ _ _ Hl)). }
  cbn. by rewrite <- app_assoc.
Qed.

Lemma insert_submission_fresh s d :
  s.(sub_ID) ∉ map sr_id d.(db_submissions) →
  insert_submission (the_row s) d = db_with_submissions (d.(db_submissions) ++ [the_row s]) d.
Proof.
  intros Hs. unfold insert_submission, upsert_by. by rewrite (proj2 (has_key_false sr_id _ _)).
Qed.

Lemma wp_UpsertSubmission s w :
  storable s → fresh_for s (w_db w) →
  wp (UpsertSubmission s) (ok (λ _ w', w_db w' = db_plus s (w_db w))) w.
Proof.
  intros Hs Hfr. unfold UpsertSubmission. rewrite bool_decide_false by apply Hs.
  apply wp_transaction; [done|]. intros w1 Hw1. unfold upsert_rows.
  eapply wp_bind_ok; [by apply wp_upsertSubmissionRow|]. intros [] w2 Hw2.
  rewrite Hw1, insert_submission_fresh in Hw2 by apply Hfr.
  eapply wp_bind_ok; [by eapply wp_emails|]. intros [] w3 Hw3. rewrite Hw2 in Hw3.
  eapply wp_mono; [eapply (wp_documents s (w_db w)); try done|].
  - rewrite Hw3. cbn. rewrite map_app. apply elem_of_app. right. by left.
  - by rewrite Hw3.
  - intros [[]|] w4; [|done]. cbn. intros ->. by rewrite Hw3.
Qed.
End roundtrip.

Lemma of_submission_app {A} (f : A → string) id l1 l2 :
  (∀ x, x ∈ l1 → f x ≠ id) → Forall (λ x, f x = id) l2 → of_submission f id (l1 ++ l2) = l2.
Proof.
  intros H1 H2. unfold of_submission. rewrite List.filter_app.
  replace (List.filter _ l1) with (@nil A); cbn.
  - induction H2 as [|x l Hx _ IH]; [done|]. cbn. rewrite bool_decide_true by done. by rewrite IH.
  - induction l1 as [|x l1 IH]; [done|]. cbn. rewrite bool_decide_false by (apply H1; by left).
    apply IH. intros. apply H1. by right.
Qed.

(** C21: storing and loading: in a sound database, a submission in stored form whose
    id, emails and documents are new is stored without error when no statement fails,
    and [GetByID] then returns exactly it. *)
Theorem upsert_get_roundtrip (E : Env) s w :
  fault_free E → db_wf (w_db w) → storable s → fresh_for s (w_db w) →
  ∃ w1 w2, UpsertSubmission s w = (Ok (), w1) ∧ GetByID s.(sub_ID) w1 = (Ok s, w2).
Proof.
  intros Hff Hwf Hs Hfr. pose proof (wp_UpsertSubmission Hff s w Hs Hfr) as Hup.
  unfold wp in Hup. destruct (UpsertSubmission s w) as [[[]|e] w1]; cbn in Hup; [|done].
  assert (wp (GetByID (sub_ID s)) (ok (λ s' _, s' = s)) w1) as Hget.
  { unfold GetByID. eapply wp_bind_ok.
    { apply wp_wrap_err, wp_query; [done|].
      instantiate (1 := λ o w', o = Some (the_row s) ∧ w_db w' = w_db w1). cbn.
      split; [|done]. rewrite Hup. apply find_key_unique; [|cbn; apply elem_of_app; right; by left|done].
      cbn. rewrite map_app. apply NoDup_snoc; [apply Hwf|apply Hfr]. }
    intros ? w2 [-> Hw2]. eapply wp_bind_ok.
    { apply wp_wrap_err, wp_query; [done|].
      instantiate (1 := λ l w', l = s.(sub_Emails) ∧ w_db w' = w_db w1). cbv beta.
      split; [|done]. rewrite Hw2, Hup.
      change (db_emails (db_plus s (w_db w))) with (db_emails (w_db w) ++ sub_Emails s). rewrite of_submission_app; [apply Hs| |].
      - intros e He Heq. apply (proj1 Hfr). rewrite <- Heq. by apply (wf_email_parent _ Hwf).
      - eapply Forall_impl; [apply (st_emails _ Hs)|]. by intros ? []. }
    intros ? w3 [-> Hw3]. eapply wp_bind_ok.
    { apply wp_wrap_err, wp_query; [done|].
      instantiate (1 := λ l w', l = s.(sub_Documents)). cbv beta. rewrite Hw3, Hup.
      change (db_documents (db_plus s (w_db w))) with (db_documents (w_db w) ++ sub_Documents s).
      rewrite of_submission_app; [apply Hs| |].
      - intros x Hx Heq. apply (proj1 Hfr). rewrite <- Heq. by apply (wf_document_parent _ Hwf).
      - eapply Forall_impl; [apply (st_documents _ Hs)|]. by intros ? (_ & ? & _). }
    intros ? w4 ->. apply wp_ret. rewrite scan_the_row by done. by destruct s. }
  unfold wp in Hget. destruct (GetByID (sub_ID s) w1) as [[s'|e] w2] eqn:Eg; cbn in Hget; [|done].
  subst s'. by exists w1, w2.
Qed.

(** An environment for evaluation: the clock shows 10 ns per interaction, ids are
    counted, no statement fails and the mail server accepts everything. *)
Definition demo_env : Env :=
  {| env_now n := 10 * (1 + Z.of_nat n); env_uuid n := "id-" +:+ fmt_d (Z.of_nat n);
     env_fault _ := None; env_send _ _ := Ok "<sent@mail>"; env_requestID _ := "";
     env_cancelled _ := None |}.

Definition demo_stored : Submission :=
  let s := NewSubmission "sub-1" "cyber_liability" "Acme" "b@x.com" "Bo" "<m1>" 5 in
  sub_with_Emails [mkEmail "det-1" "sub-1" DirectionInbound "<m1>" "" [] "b@x.com" "Bo" "" [] "Acme"
                     "hi" 4 "" []]
    (sub_with_MissingItems [mkMissingItem "app" "App" "r" ReasonNotProvided f64_zero] s).

Lemma upsert_get_roundtrip_witness :
  ∃ w1 w2, UpsertSubmission (E := demo_env) demo_stored empty_world = (Ok (), w1) ∧
           GetByID (E := demo_env) "sub-1" w1 = (Ok demo_stored, w2).
Proof.
  apply (upsert_get_roundtrip demo_env demo_stored empty_world).
  - done.
  - exact empty_db_wf.
  - split.
    + done.
    + split; [split; discriminate|done].
    + split; [split; discriminate|done].
    + split; [split; discriminate|done].
    + by left.
    + by repeat constructor.
    + repeat constructor.
    + repeat constructor.
    + apply NoDup_singleton.
    + done.
    + constructor.
    + apply NoDup_nil_2.
    + done.
  - split_and!; [by intros ?%elem_of_nil|by intros e _ ?%elem_of_nil|by intros e ?%elem_of_nil].
Defined.

(** ** Ownership of columns *)

Definition kept_columns (old new : Submission) : Prop :=
  new.(sub_CreatedAt) = old.(sub_CreatedAt) ∧ new.(sub_OnHold) = old.(sub_OnHold) ∧
  new.(sub_LastReplyAt) = old.(sub_LastReplyAt).

(** The columns an upsert always takes from the submission. *)
Definition written_columns (s new : Submission) : Prop :=
  new.(sub_State) = s.(sub_State) ∧ new.(sub_PolicyType) = s.(sub_PolicyType) ∧
  new.(sub_NeedsReview) = s.(sub_NeedsReview) ∧ new.(sub_DeliveryFailed) = s.(sub_DeliveryFailed) ∧
  new.(sub_LastReplyHash) = s.(sub_LastReplyHash) ∧
  new.(sub_PolicyClarifyAsks) = s.(sub_PolicyClarifyAsks) ∧
  new.(sub_NamedInsured) = s.(sub_NamedInsured) ∧
  new.(sub_EscalatedAt) = UnixNano <$> s.(sub_EscalatedAt) ∧
  new.(sub_CompletedAt) = UnixNano <$> s.(sub_CompletedAt).

Section ownership.
Context {E : Env}.

Notation keeps_subs x := (preserves ((λ d, db_submissions d = x) ∘ w_db)).

Lemma keeps_subs_email x e : keeps_subs x (upsertEmailRow e).
Proof.
  unfold upsertEmailRow. walk. apply preserves_stmt. unfold insert_email. intros d n d' Hd.
  destruct (has_key _ _ _); [by intros [= _ <-]|]. destruct (has_submission _ _); [|done].
  by intros [= _ <-].
Qed.

Lemma keeps_subs_document x doc : keeps_subs x (upsertDocumentRow doc).
Proof.
  unfold upsertDocumentRow. walk. apply preserves_stmt. unfold insert_document. intros d n d' Hd.
  destruct (IsNaN _); [done|]. destruct (_ || _); [|done]. by intros [= _ <-].
Qed.

#[local] Hint Resolve keeps_subs_email keeps_subs_document : triage.

(** The submission row is the upserted one whatever happens to emails and documents. *)
Lemma upsert_rows_subs s w :
  wp (upsert_rows s) (λ r w',
    match r with
    | Ok _ => ∃ c u l, db_submissions (w_db w') =
                upsert_by sr_id submission_merge (submission_values s c u l) (db_submissions (w_db w))
    | Err _ => True
    end) w.
Proof.
  unfold upsert_rows, upsertSubmissionRow. destruct (negb _); [done|].
  assert (∀ t w1, ∃ c w2, nanoOrNow t w1 = (Ok c, w2) ∧ w_db w2 = w_db w1) as Hnano.
  { intros t w1. unfold nanoOrNow. destruct (IsZero t); eexists _, _; split; done. }
  unfold wp at 1, mbind, M_bind.
  destruct (Hnano (sub_CreatedAt s) w) as (c & w1 & -> & H1).
  destruct (Hnano (sub_UpdatedAt s) w1) as (u & w2 & -> & H2).
  destruct (Hnano (sub_LastActionAt s) w2) as (l & w3 & -> & H3).
  unfold wrap_err, exec, stmt. destruct (env_fault (w_tick w3)); [done|]. cbn.
  set (w4 := w_with_db _ _).
  assert (preserves ((λ d, db_submissions d = db_submissions (w_db w4)) ∘ w_db)
    (for_each (λ e, unless_duplicate (upsertEmailRow e)) (sub_Emails s) ≫= λ _,
     for_each upsertDocumentRow (sub_Documents s))) as Hk by (unfold unless_duplicate; walk).
  specialize (Hk w4 eq_refl). unfold mbind, M_bind in Hk.
  destruct (for_each _ (sub_Emails s) w4) as [[]]; [|done].
  destruct (for_each _ (sub_Documents s) _) as [[]]; [|done].
  exists c, u, l. unfold compose in Hk. cbn in Hk |- *. rewrite Hk. cbn. congruence.
Qed.

Lemma find_upserted s c u l rows :
  ∃ r, find_key sr_id s.(sub_ID)
         (upsert_by sr_id submission_merge (submission_values s c u l) rows) = Some r ∧
       written_columns s r.(sr_data) ∧ decodeMissingItems r.(sr_missing) = map json_item s.(sub_MissingItems) ∧
       ∀ r0, find_key sr_id s.(sub_ID) rows = Some r0 → kept_columns r0.(sr_data) r.(sr_data).
Proof.
  rewrite find_upsert_by by done. rewrite bool_decide_true by done. eexists. split; [done|].
  destruct (find_key _ _ _) as [r0|]; split_and!; try done; by intros ? [= <-].
Qed.
End ownership.

(** An upsert is all or nothing, and does not write what it does not own: if it
    fails the database is unchanged; if it succeeds the stored row has the submission's
    state, flags, fingerprint and missing items, while the creation time, the hold flag
    and the time of the last reply of a row that was already there stay, so that a
    concurrent hold or send is never overwritten. *)
Theorem upsert_owns_its_columns (E : Env) s w :
  match UpsertSubmission s w with
  | (Err _, w') => w_db w' = w_db w
  | (Ok _, w') =>
      ∃ r, find_key sr_id s.(sub_ID) (db_submissions (w_db w')) = Some r ∧
           written_columns s r.(sr_data) ∧
           decodeMissingItems r.(sr_missing) = map json_item s.(sub_MissingItems) ∧
           ∀ r0, find_key sr_id s.(sub_ID) (db_submissions (w_db w)) = Some r0 →
                 kept_columns r0.(sr_data) r.(sr_data)
  end.
Proof.
  unfold UpsertSubmission. case_bool_decide; [done|].
  pose proof (transaction_atomic false (upsert_rows s) w) as Hat.
  destruct (transaction false (upsert_rows s) w) as [[[]|e] w']; [|done].
  destruct Hat as (w1 & w2 & Hw1 & Hrun & ->). pose proof (upsert_rows_subs s w1) as Hsub.
  unfold wp in Hsub. rewrite Hrun in Hsub. destruct Hsub as (c & u & l & Hsub). cbn in Hsub.
  rewrite Hsub, Hw1. apply find_upserted.
Qed.

(** ** The outbox *)

Definition the_pending (sid : string) (d : DB) : option outbox_row :=
  List.find (pending_of sid) d.(db_outbox).

Lemma find_pending_unique sid l r :
  NoDup (pending_subs l) → r ∈ l → pending_of sid r = true → List.find (pending_of sid) l = Some r.
Proof.
  intros Hnd Hr Hp. induction l as [|x l IH]; [by apply elem_of_nil in Hr|]. cbn.
  apply andb_true_iff in Hp as Hp'. destruct Hp' as [Hpend Hsid%bool_decide_eq_true].
  unfold pending_subs in Hnd. cbn in Hnd.
  apply elem_of_cons in Hr as [<-|Hr]; [by rewrite Hp|].
  destruct (is_pending x) eqn:Ex; cbn in Hnd.
  - apply NoDup_cons in Hnd as [Hx Hnd]. unfold pending_of at 1. rewrite Ex. cbn.
    rewrite bool_decide_false; [by apply IH|]. intros Heq. apply Hx. rewrite Heq, <- Hsid.
    apply list_elem_of_fmap_2, list_elem_of_In, List.filter_In. by rewrite <- list_elem_of_In.
  - unfold pending_of at 1. rewrite Ex. cbn. by apply IH.
Qed.

Lemma update_where_mem {A} (p : A → bool) (f : A → A) l r :
  r ∈ l → (if p r then f r else r) ∈ update_where p f l.
Proof. intros Hr. unfold update_where. by apply (list_elem_of_fmap_2 (λ r, if p r then f r else r)). Qed.

(** What the statement of [insertOutboxRow] leaves for a pending entry. *)
Lemma upsert_outbox_pending new d id d' :
  db_wf d → is_pending new = true → upsert_outbox new d = Ok (id, d') →
  ∃ r, the_pending new.(or_submission_id) d' = Some r ∧ r.(or_id) = id ∧
       r.(or_reply) = new.(or_reply) ∧ r.(or_not_before) = new.(or_not_before) ∧
       r.(or_updated_at) = new.(or_updated_at) ∧
       match the_pending new.(or_submission_id) d with
       | Some old => r.(or_id) = old.(or_id) ∧ r.(or_attempts) = old.(or_attempts) ∧
                     r.(or_created_at) = old.(or_created_at)
       | None => r = new
       end.
Proof.
  intros Hwf Hp Hup. pose proof (upsert_outbox_wf _ _ _ _ Hwf Hup) as Hwf'. revert Hup.
  unfold upsert_outbox, the_pending. rewrite Hp.
  destruct (List.find _ _) as [old|] eqn:Ef.
  - intros [= <- <-]. apply List.find_some in Ef as [Hin Hold].
    eexists. split.
    { apply find_pending_unique; [apply Hwf'| |].
      - apply (update_where_mem _ _ _ old), list_elem_of_In, Hin.
      - rewrite Hold. done. }
    rewrite Hold. done.
  - destruct (has_key _ _ _); [done|]. destruct (has_submission _ _); [|done].
    intros [= <- <-]. exists new. split_and!; try done.
    apply find_pending_unique; [apply Hwf'|cbn; apply elem_of_app; right; by left|].
    unfold pending_of. by rewrite Hp, bool_decide_true.
Qed.

Lemma insertOutboxRow_row {E : Env} e w :
  db_wf (w_db w) → e.(oe_Status) = OutboxPending →
  match insertOutboxRow e w with
  | (Err _, w') => w_db w' = w_db w
  | (Ok e', w') =>
      db_emails (w_db w') = db_emails (w_db w) ∧
      ∃ r, the_pending e.(oe_SubmissionID) (w_db w') = Some r ∧ r.(or_id) = e'.(oe_ID) ∧
           r.(or_reply) = Some (json_reply e.(oe_Reply)) ∧
           r.(or_not_before) = nanoOrZero e.(oe_NotBefore) ∧
           r.(or_updated_at) = UnixNano e'.(oe_UpdatedAt) ∧
           match the_pending e.(oe_SubmissionID) (w_db w) with
           | Some old => r.(or_id) = old.(or_id) ∧ r.(or_attempts) = old.(or_attempts) ∧
                         r.(or_created_at) = old.(or_created_at)
           | None => r.(or_attempts) = e.(oe_Attempts)
           end
  end.
Proof.
  intros Hwf Hst. unfold insertOutboxRow.
  assert (∃ id w1, (if bool_decide (oe_ID e = "") then NewString else mret (oe_ID e)) w = (Ok id, w1) ∧
          w_db w1 = w_db w) as (id & w1 & Hid & Hw1) by (case_bool_decide; eexists _, _; done).
  unfold mbind, M_bind. rewrite Hid. cbn. unfold wrap_err, stmt.
  destruct (env_fault _); [done|]. cbn. rewrite Hw1.
  destruct (upsert_outbox _ _) as [[row d']|[]] eqn:Eu; [|done..]. cbn.
  split.
  { revert Eu. unfold upsert_outbox. destruct (if is_pending _ then _ else _); [by intros [= _ <-]|].
    destruct (has_key _ _ _); [done|]. destruct (has_submission _ _); [|done]. by intros [= _ <-]. }
  eapply upsert_outbox_pending in Eu as (r & Hr & <- & H1 & H2 & H3 & H4);
    [|done|by apply bool_decide_eq_true]. cbn in *.
  exists r. split_and!; try done. destruct (the_pending _ (w_db w)); [done|]. rewrite H4. done.
Qed.

(** Replies coalesce: queueing a reply leaves exactly one pending row for its
    submission, with the new text, schedule and version, under the id the caller gets
    back.  When a reply was already pending its id, attempt count and creation time are
    inherited, so it can still dead-letter and expire; a failed call changes nothing. *)
Theorem insertOutboxRow_supersedes (E : Env) e w :
  db_wf (w_db w) → e.(oe_Status) = OutboxPending →
  match insertOutboxRow e w with
  | (Err _, w') => w_db w' = w_db w
  | (Ok e', w') =>
      ∃ r, the_pending e.(oe_SubmissionID) (w_db w') = Some r ∧ r.(or_id) = e'.(oe_ID) ∧
           r.(or_reply) = Some (json_reply e.(oe_Reply)) ∧
           r.(or_not_before) = nanoOrZero e.(oe_NotBefore) ∧
           r.(or_updated_at) = UnixNano e'.(oe_UpdatedAt) ∧
           match the_pending e.(oe_SubmissionID) (w_db w) with
           | Some old => r.(or_id) = old.(or_id) ∧ r.(or_attempts) = old.(or_attempts) ∧
                         r.(or_created_at) = old.(or_created_at)
           | None => r.(or_attempts) = e.(oe_Attempts)
           end
  end.
Proof.
  intros Hwf Hst. pose proof (insertOutboxRow_row e w Hwf Hst) as H.
  destruct (insertOutboxRow e w) as [[e'|err] w']; [apply H|done].
Qed.

Definition demo_entry : OutboxEntry :=
  mkOutboxEntry "" "sub-1" emptyReply OutboxPending 0 "" zeroTime zeroTime 7.

Lemma insertOutboxRow_supersedes_witness :
  let w := (UpsertSubmission (E := demo_env) demo_stored empty_world).2 in
  ∃ e' w', insertOutboxRow (E := demo_env) demo_entry w = (Ok e', w') ∧
  ∃ r, the_pending "sub-1" (w_db w') = Some r ∧ r.(or_id) = e'.(oe_ID) ∧ r.(or_attempts) = 0.
Proof.
  set (w := (UpsertSubmission demo_stored empty_world).2).
  pose proof (insertOutboxRow_supersedes demo_env demo_entry w
    (wf_UpsertSubmission demo_stored empty_world empty_db_wf) eq_refl) as H.
  destruct (insertOutboxRow demo_entry w) as [[e'|e] w'] eqn:Ei; [|by vm_compute in Ei].
  exists e', w'. split; [done|]. destruct H as (r & Hr & Hid & _ & _ & _ & Hatt).
  exists r. split_and!; [done|done|exact Hatt].
Defined.
