(* ===== verification/Schema.v ===== *)
(** The database file and its migrations: [internal/database/sqlite.go].

    A [store] is the content of the file: the bookkeeping table [schema_migrations], and
    everything else, of any type [Sch].  What a script does to it is the engine's
    business, the parameter [run_script]: the error it stops at, if any, and the state
    it reached, half-done statements included.  Every statement may also fail for
    reasons of its own ([env_fault]), which is how a process that dies is read. *)
From Stdlib Require Import ZArith Sorting.Sorted.
From stdpp Require Import base list strings.
From S2P Require Import Prelude GoStrings GoValues Submission World.

Open Scope Z_scope.

(** ** The directory of the scripts *)

(** [os.ReadDir] (each name, and whether it is a directory) and [os.ReadFile]. *)
Record ScriptDir : Type := mkScriptDir {
  sd_entries : result (list (string * bool));
  sd_file : string → result string }.

Definition TrimSuffix (s suffix : string) : string :=
  if HasSuffix s suffix then stake (String.length s - String.length suffix) s else s.

Definition migration_files (entries : list (string * bool)) : list string :=
  sort_Strings (filter (λ n, HasSuffix n ".sql" = true) (filter (λ e, e.2 = false) entries).*1).

Definition version_of (name : string) : string := TrimSuffix name ".sql".

(** ** Opening the file *)

(** The data source name: write-ahead log, foreign keys, and a busy timeout. *)
Definition dsn (path : string) : string :=
  "file:" +:+ path +:+ "?_pragma=journal_mode(WAL)&_pragma=foreign_keys(on)&_pragma=busy_timeout(5000)&_pragma=synchronous(NORMAL)".

Record db_handle : Type := mkHandle { dh_dsn : string; dh_maxOpenConns : Z; dh_maxIdleConns : Z }.

(** [dir] is [filepath.Dir(path)]; [mkdir], [opened] and [ping] are the answers of
    [os.MkdirAll], [sql.Open] and [PingContext]. *)
Definition Open (path dir : string) (mkdir opened ping : option error) : result db_handle :=
  let fails (msg : string) (r : option error) (k : result db_handle) :=
    match r with Some e => Err (ErrWrap msg e) | None => k end in
  if bool_decide (path = "") then Err (ErrNew "sqlite: empty path")
  else fails ("sqlite: create dir " +:+ dir)
         (if negb (bool_decide (dir = "")) && negb (bool_decide (dir = ".")) then mkdir else None)
       (fails "sqlite open" opened
       (fails "sqlite ping" ping (Ok (mkHandle (dsn path) 8 4)))).

(** ** Statements *)

Section schema.
Context {Sch : Type} (run_script : string → Sch → option string * Sch).

Record store : Type := mkStore {
  st_data : Sch;
  st_migrations : option (list (string * time)) }.   (** [None]: no such table yet *)

(** A connection: the file and how many statements it has been asked to run. *)
Definition conn : Type := store * nat.
Definition C (A : Type) : Type := conn → result A * conn.

#[export] Instance C_ret : MRet C := λ A a c, (Ok a, c).
#[export] Instance C_bind : MBind C := λ A B f m c,
  match m c with (Ok a, c') => f a c' | (Err e, c') => (Err e, c') end.

Definition c_lift {A} (msg : string) (r : result A) : C A := λ c,
  match r with Ok a => (Ok a, c) | Err e => (Err (ErrWrap msg e), c) end.

Section runs.
Context {E : Env}.

(** [if _, err := db.ExecContext(...); err != nil { return fmt.Errorf("msg: %w", err) }];
    [f] gives the error of the engine and the state it leaves. *)
Definition c_stmt {A} (msg : string) (f : store → result A * store) : C A := λ '(st, n),
  match env_fault n with
  | Some m => (Err (ErrWrap msg (ErrNew m)), (st, S n))
  | None => match f st with
            | (Ok a, st') => (Ok a, (st', S n))
            | (Err e, st') => (Err (ErrWrap msg e), (st', S n))
            end
  end.

Definition create_schema_migrations (st : store) : result unit * store :=
  (Ok (), mkStore st.(st_data) (Some (default [] st.(st_migrations)))).

(** [SELECT version FROM schema_migrations WHERE version = ?]: false is [sql.ErrNoRows]. *)
Definition select_version (v : string) (st : store) : result bool * store :=
  match st.(st_migrations) with
  | None => (Err (ErrNew "no such table: schema_migrations"), st)
  | Some ms => (Ok (bool_decide (v ∈ ms.*1)), st)
  end.

Definition exec_script (body : string) (st : store) : result unit * store :=
  let '(e, d) := run_script body st.(st_data) in
  (match e with Some m => Err (ErrNew m) | None => Ok () end, mkStore d st.(st_migrations)).

(** [version] is the primary key. *)
Definition insert_version (v : string) (at_ : time) (st : store) : result unit * store :=
  match st.(st_migrations) with
  | None => (Err (ErrNew "no such table: schema_migrations"), st)
  | Some ms =>
    if bool_decide (v ∈ ms.*1) then (Err (ErrNew "UNIQUE constraint failed"), st)
    else (Ok (), mkStore st.(st_data) (Some (ms ++ [(v, at_)])))
  end.

Definition c_now : C time := λ '(st, n), (Ok (env_now n), (st, S n)).

(** ** Migrations *)

Definition migration_tx (version body : string) : C unit :=
  c_stmt ("migrations: begin " +:+ version) (λ st, (Ok (), st)) ≫= λ _,
  c_stmt ("migrations: apply " +:+ version) (exec_script body) ≫= λ _,
  c_now ≫= λ now,
  c_stmt ("migrations: record " +:+ version) (insert_version version now) ≫= λ _,
  c_stmt ("migrations: commit " +:+ version) (λ st, (Ok (), st)).

(** The deferred [tx.Rollback()] undoes whatever was not committed. *)
Definition applyMigration (version body : string) : C unit := λ c,
  match migration_tx version body c with
  | (Ok u, c') => (Ok u, c')
  | (Err e, (_, n)) => (Err e, (c.1, n))
  end.

Definition migrate_one (dir : ScriptDir) (name : string) : C unit :=
  let version := version_of name in
  c_stmt ("migrations: check " +:+ version) (select_version version) ≫= λ known : bool,
  if known then mret ()
  else c_lift ("migrations: read " +:+ name) (dir.(sd_file) name) ≫= λ body,
       applyMigration version body.

Fixpoint migrate_all (dir : ScriptDir) (files : list string) : C unit :=
  match files with
  | [] => mret ()
  | name :: rest => migrate_one dir name ≫= λ _, migrate_all dir rest
  end.

Definition Migrate (dir : ScriptDir) : C unit :=
  c_stmt "migrations: create schema_migrations" create_schema_migrations ≫= λ _,
  c_lift "migrations: read dir" dir.(sd_entries) ≫= λ entries,
  migrate_all dir (migration_files entries).

(** Both statements leave the content as it is. *)
Definition Vacuum : C unit :=
  c_stmt "sqlite vacuum" (λ st, (Ok (), st)) ≫= λ _, c_stmt "sqlite wal checkpoint" (λ st, (Ok (), st)).
End runs.

(** One start of the process: what its environment does, and the directory it finds. *)
Definition start : Type := Env * ScriptDir.

Definition run_start (st : store) (s : start) : result unit * store :=
  let '(r, (st', _)) := Migrate (E := s.1) s.2 (st, 0%nat) in (r, st').

Definition run_starts (st : store) (l : list start) : store :=
  foldl (λ st s, (run_start st s).2) st l.

(** ** What a run must amount to *)

(** The scripts of [files] whose version is not among [known] yet, each once. *)
Fixpoint pending (known : list string) (files : list string) : list string :=
  match files with
  | [] => []
  | name :: rest =>
    if bool_decide (version_of name ∈ known) then pending known rest
    else name :: pending (known ++ [version_of name]) rest
  end.

(** Running whole scripts one after the other, every one of them without error. *)
Fixpoint replay (log : list (string * string)) (d : Sch) : option Sch :=
  match log with
  | [] => Some d
  | (_, body) :: log => match run_script body d with
                        | (None, d') => replay log d'
                        | _ => None
                        end
  end.

(** [log] lists the scripts of [names] with the text the directory has for them. *)
Definition scripts_of (dir : ScriptDir) (names : list string) (log : list (string * string)) : Prop :=
  Forall2 (λ name entry, entry.1 = version_of name ∧ dir.(sd_file) name = Ok entry.2) names log.

Definition versions (st : store) : list string := (default [] st.(st_migrations)).*1.
End schema.
