(* ===== verification/SchemaProps.v ===== *)
(** Theorems about migrations: what any sequence of starts, each interrupted anywhere,
    leaves in the database file. *)
From Stdlib Require Import ZArith Sorting.Sorted.
From stdpp Require Import base list strings sets.
From S2P Require Import Prelude GoStrings GoValues Submission World Schema.

Open Scope Z_scope.

(** ** The scripts a run has to apply *)

Lemma pending_known known files name :
  name ∈ pending known files → version_of name ∉ known.
Proof.
  revert known. induction files as [|f files IH]; intros known; cbn [pending]; [by intros ?%elem_of_nil|].
  case_bool_decide; [apply IH|]. intros [->|Hn]%elem_of_cons; [done|].
  apply IH in Hn. rewrite not_elem_of_app in Hn. tauto.
Qed.

Lemma pending_NoDup known files : NoDup (version_of <$> pending known files).
Proof.
  revert known. induction files as [|f files IH]; intros known; cbn [pending]; [constructor|].
  case_bool_decide; [apply IH|]. cbn. constructor; [|apply IH].
  intros (y & -> & Hy%pending_known)%list_elem_of_fmap. apply Hy, elem_of_app. right.
  by apply list_elem_of_singleton.
Qed.

Lemma pending_sublist known files : sublist (pending known files) files.
Proof.
  revert known. induction files as [|f files IH]; intros known; cbn [pending]; [constructor|].
  case_bool_decide; [by apply sublist_cons|by apply sublist_skip].
Qed.

(** Applying a few of them leaves the others. *)
Lemma pending_app known files todo rest :
  pending known files = todo ++ rest → pending (known ++ (version_of <$> todo)) files = rest.
Proof.
  revert known todo. induction files as [|f files IH]; intros known todo; cbn [pending].
  { intros Hp. by destruct todo. }
  case_bool_decide as Hf.
  - intros Hp. rewrite bool_decide_eq_true_2 by (apply elem_of_app; by left). by apply IH.
  - destruct todo as [|g todo]; cbn [app fmap list_fmap].
    + intros <-. rewrite app_nil_r, bool_decide_eq_false_2 by done. done.
    + intros [= <- Hp]. rewrite bool_decide_eq_true_2 by set_solver.
      specialize (IH _ _ Hp). by rewrite <- app_assoc in IH.
Qed.

Lemma pending_nil_known known files name :
  pending known files = [] → name ∈ files → version_of name ∈ known.
Proof.
  induction files as [|f files IH]; cbn [pending]; [by intros _ ?%elem_of_nil|].
  case_bool_decide; [|done]. intros Hp [->|Hn]%elem_of_cons; [done|auto].
Qed.

Lemma ordered_distinct_sorted (l : list string) :
  ordered string_lt l → NoDup l → StronglySorted (λ a b, string_lt a b = true) l.
Proof.
  induction 1 as [|x l Hl IH Hx]; intros Hnd; [constructor|]. inversion_clear Hnd as [|? ? Hxl Hd].
  constructor; [by apply IH|]. rewrite Forall_forall in Hx |- *. intros y Hy.
  destruct (string_lt x y) eqn:Exy; [done|]. specialize (Hx y Hy). cbn in Hx.
  by rewrite (string_lt_trichotomy x y Exy Hx) in Hxl.
Qed.

Lemma sublist_ordered (l k : list string) :
  sublist l k → ordered string_lt k → ordered string_lt l.
Proof.
  induction 1 as [|x l k Hs IH|x l k Hs IH]; intros Ho; [done|..]; inversion_clear Ho as [|? ? Hk Hx].
  - constructor; [by apply IH|]. rewrite Forall_forall in Hx |- *. intros y Hy. apply Hx.
    by eapply elem_of_submseteq, sublist_submseteq.
  - by apply IH.
Qed.

Lemma pending_sorted known entries :
  StronglySorted (λ a b, string_lt a b = true) (pending known (migration_files entries)).
Proof.
  apply ordered_distinct_sorted.
  - eapply sublist_ordered; [apply pending_sublist|]. unfold migration_files, sort_Strings. apply (sort_by_ordered string_lt).
  - eapply NoDup_fmap_1, pending_NoDup.
Qed.

(** ** One run *)

Section props.
Context {Sch : Type} (run_script : string → Sch → option string * Sch).

Lemma replay_app log log' d :
  replay run_script (log ++ log') d = replay run_script log d ≫= replay run_script log'.
Proof.
  revert d. induction log as [|[v body] log IH]; intros d; [done|]. cbn [app replay].
  destruct (run_script body d) as [[e|] d']; [done|apply IH].
Qed.

Section run.
Context {E : Env}.

(** A migration is applied and recorded, or the file is as it was. *)
Lemma applyMigration_spec v body st n ms :
  st.(st_migrations) = Some ms → v ∉ ms.*1 →
  match applyMigration run_script v body (st, n) with
  | (Ok _, (st', _)) => ∃ d t, run_script body st.(st_data) = (None, d) ∧
                                st' = mkStore d (Some (ms ++ [(v, t)]))
  | (Err _, (st', _)) => st' = st
  end.
Proof.
  intros Hms Hv. unfold applyMigration, migration_tx, mbind, C_bind, c_stmt, c_now, exec_script, insert_version.
  destruct (env_fault n); [done|]. destruct (env_fault (S n)); [done|].
  destruct (run_script body (st_data st)) as [[e|] d] eqn:Hr; [done|]. cbn [st_migrations st_data].
  rewrite Hms, bool_decide_eq_false_2 by done. repeat case_match; simplify_eq/=; try done; eauto.
Qed.

(** What a run did: some of the pending scripts, in order, whole, and recorded. *)
Definition did (dir : ScriptDir) (ms : list string) (files : list string) (st st' : store)
    (finished : Prop) : Prop :=
  ∃ names rest log ms', pending ms files = names ++ rest ∧ scripts_of dir names log ∧
    replay run_script log st.(st_data) = Some st'.(st_data) ∧
    st'.(st_migrations) = Some ms' ∧ ms'.*1 = ms ++ (version_of <$> names) ∧
    (finished → rest = []).

Lemma did_none dir ms files st rows :
  st.(st_migrations) = Some rows → rows.*1 = ms → did dir ms files st st False.
Proof.
  intros Hs Hr. exists [], (pending ms files), [], rows. cbn. rewrite app_nil_r. split_and!; try done.
  constructor.
Qed.

Lemma migrate_one_spec dir name st n ms :
  st.(st_migrations) = Some ms →
  match migrate_one run_script dir name (st, n) with
  | (Ok _, (st', _)) =>
    if bool_decide (version_of name ∈ ms.*1) then st' = st
    else ∃ body d t, dir.(sd_file) name = Ok body ∧ run_script body st.(st_data) = (None, d) ∧
           st' = mkStore d (Some (ms ++ [(version_of name, t)]))
  | (Err _, (st', _)) => st' = st
  end.
Proof.
  intros Hms. unfold migrate_one, mbind, C_bind, c_stmt, select_version, c_lift.
  destruct (env_fault n); [done|]. rewrite Hms. case_bool_decide as Hv; [done|].
  destruct (sd_file dir name) as [body|e]; [|done].
  pose proof (applyMigration_spec (version_of name) body st (S n) ms Hms Hv) as Ha.
  destruct (applyMigration run_script _ _ _) as [[[]|e] [st' n']]; [|done].
  destruct Ha as (d & t & ? & ?). by exists body, d, t.
Qed.

Lemma migrate_all_spec dir files st n ms rows :
  st.(st_migrations) = Some rows → rows.*1 = ms →
  let '(r, (st', _)) := migrate_all run_script dir files (st, n) in did dir ms files st st' (r = Ok ()).
Proof.
  revert st n ms rows. induction files as [|name files IH]; intros st n ms rows Hst Hms; cbn [migrate_all].
  { exists [], [], [], rows. cbn. rewrite app_nil_r. split_and!; try done. constructor. }
  unfold mbind, C_bind at 1. pose proof (migrate_one_spec dir name st n rows Hst) as H1.
  destruct (migrate_one run_script dir name (st, n)) as [[[]|e] [st1 n1]]; cbn in H1.
  2:{ subst st1. destruct (did_none dir ms (name :: files) st rows) as (? & ? & ? & ? & ? & ? & ? & ? & ? & ?); [done..|].
      eexists _, _, _, _. split_and!; eauto. done. }
  rewrite Hms in H1. destruct (decide (version_of name ∈ ms)) as [Hv|Hv].
  - rewrite bool_decide_eq_true_2 in H1 by done. subst st1.
    specialize (IH st n1 ms rows Hst Hms). destruct (migrate_all _ _ _ _) as [r [st2 n2]].
    unfold did in *. cbn [pending]. by rewrite bool_decide_eq_true_2 by done.
  - rewrite bool_decide_eq_false_2 in H1 by done. destruct H1 as (body & d & t & Hf & Hr & ->).
    specialize (IH (mkStore d (Some (rows ++ [(version_of name, t)]))) n1 (ms ++ [version_of name]) _ eq_refl).
    destruct (migrate_all _ _ _ _) as [r [st2 n2]].
    destruct IH as (names & rest & log & ms' & Hp & Hl & Hd & Hs & Hk & Hfin).
    { by rewrite fmap_app, Hms. }
    exists (name :: names), rest, ((version_of name, body) :: log), ms'.
    cbn [pending replay app fmap list_fmap]. rewrite bool_decide_eq_false_2 by done. rewrite Hr, Hp, Hk.
    split_and!; try done; [by constructor|by rewrite <- app_assoc].
Qed.

(** A start either fails before the scripts, leaving data and record alone, or does
    part of what is pending, all of it when it returns without error. *)
Lemma Migrate_did dir st n :
  let '(r, (st', _)) := Migrate run_script dir (st, n) in
  (st'.(st_data) = st.(st_data) ∧ versions st' = versions st ∧ r ≠ Ok ()) ∨
  (∃ entries, dir.(sd_entries) = Ok entries ∧
     did dir (versions st) (migration_files entries) st st' (r = Ok ())).
Proof.
  unfold Migrate, mbind, C_bind, c_stmt, c_lift, create_schema_migrations, versions.
  destruct (env_fault n); [by left|]. destruct (sd_entries dir) as [entries|e]; [|by left].
  pose proof (migrate_all_spec dir (migration_files entries)
    (mkStore (st_data st) (Some (default [] (st_migrations st)))) (S n) _ _ eq_refl eq_refl) as H.
  destruct (migrate_all _ _ _ _) as [r [st' n']]. right. by exists entries.
Qed.
End run.

(** ** Histories *)

Lemma scripts_of_app dir names log names' log' :
  scripts_of dir names log → scripts_of dir names' log' → scripts_of dir (names ++ names') (log ++ log').
Proof. apply Forall2_app. Qed.

Lemma scripts_of_versions dir names log : scripts_of dir names log → log.*1 = version_of <$> names.
Proof. induction 1 as [|name [v b] names log [Hv _] _ IH]; [done|]. cbn in *. by rewrite Hv, IH. Qed.

(** The text a log holds for a name is the directory's, so a log is the only one. *)
Lemma scripts_of_unique dir names log log' : scripts_of dir names log → scripts_of dir names log' → log = log'.
Proof.
  intros H. revert log'. induction H as [|name [v b] names log [Hv Hb] _ IH]; intros log' H'.
  - by inversion H'.
  - inversion H' as [|? [v' b'] ? ? [Hv' Hb'] Hl]; subst. cbn in *. rewrite (IH _ Hl). congruence.
Qed.

(** Where a sequence of starts stands: [names] of the pending scripts are done. *)
Definition upto (dir : ScriptDir) (files : list string) (d : Sch) (st : store) (finished : Prop) : Prop :=
  ∃ names rest log, pending [] files = names ++ rest ∧ scripts_of dir names log ∧
    replay run_script log d = Some st.(st_data) ∧ versions st = version_of <$> names ∧
    (finished → rest = []).

Lemma run_start_upto dir entries d st (P : Prop) s :
  s.2 = dir → dir.(sd_entries) = Ok entries → upto dir (migration_files entries) d st P →
  upto dir (migration_files entries) d (run_start run_script st s).2
    ((run_start run_script st s).1 = Ok ()).
Proof.
  intros <- He (names & rest & log & Hp & Hl & Hd & Hv & _). unfold run_start.
  pose proof (@Migrate_did s.1 s.2 st 0%nat) as HM.
  destruct (@Migrate _ run_script s.1 s.2 (st, 0%nat)) as [r [st' n']]. cbn [fst snd] in *.
  destruct HM as [(Hd' & Hv' & Hr)|(en & He' & names' & rest' & log' & ms' & Hp' & Hl' & Hd' & Hms & Hk & Hf)].
  - exists names, rest, log. rewrite Hd', Hv'. split_and!; done.
  - rewrite He in He'. injection He' as <-. rewrite Hv in Hp', Hk.
    pose proof (pending_app [] _ _ _ Hp) as Hrest. cbn [app] in Hrest. rewrite Hrest in Hp'. subst rest.
    exists (names ++ names'), rest', (log ++ log'). split_and!.
    + by rewrite Hp, app_assoc.
    + by apply scripts_of_app.
    + rewrite replay_app, Hd. exact Hd'.
    + unfold versions. rewrite Hms. cbn. by rewrite Hk, fmap_app.
    + exact Hf.
Qed.

Lemma run_starts_upto dir entries d starts :
  dir.(sd_entries) = Ok entries → Forall (λ s, s.2 = dir) starts →
  upto dir (migration_files entries) d (run_starts run_script (mkStore d None) starts) False.
Proof.
  intros He. induction starts as [|s starts IH] using rev_ind; intros Hs.
  - exists [], (pending [] (migration_files entries)), []. split_and!; try done. constructor.
  - apply Forall_app in Hs as [Hs Hs1]. rewrite Forall_singleton in Hs1.
    unfold run_starts. rewrite foldl_app. cbn [foldl].
    destruct (run_start_upto dir entries d _ _ s Hs1 He (IH Hs)) as (a & b & c & H1 & H2 & H3 & H4 & _).
    exists a, b, c. split_and!; done.
Qed.

(** ** An undisturbed start *)

Lemma migrate_all_total {E : Env} dir files st n rows log :
  (∀ k, env_fault k = None) → st.(st_migrations) = Some rows →
  scripts_of dir (pending rows.*1 files) log → is_Some (replay run_script log st.(st_data)) →
  (migrate_all run_script dir files (st, n)).1 = Ok ().
Proof.
  intros Hq. revert st n rows log.
  induction files as [|name files IH]; intros st n rows log Hst Hl Hd; [done|].
  cbn [migrate_all pending] in *. unfold mbind, C_bind at 1.
  unfold migrate_one, mbind, C_bind at 1, c_stmt at 1, select_version. rewrite Hq, Hst.
  case_bool_decide as Hv; cbn; [by eapply IH|].
  inversion Hl as [|? [v body] ? log' [Hv' Hb] Hl']; subst. cbn in Hv', Hb. subst v. unfold c_lift. rewrite Hb.
  destruct Hd as [d' Hd]. cbn [replay] in Hd. destruct (run_script body (st_data st)) as [[e|] d1] eqn:Hr; [done|].
  unfold applyMigration, migration_tx, mbind, C_bind, c_stmt, c_now, exec_script, insert_version.
  rewrite !Hq, Hr. cbn [st_migrations st_data]. rewrite Hst, bool_decide_eq_false_2 by done.
  do 2 (rewrite Hq; cbv beta iota zeta).
  eapply IH; [done| |by eexists]. by rewrite fmap_app.
Qed.

Lemma run_start_total st s entries log :
  (∀ k, @env_fault s.1 k = None) → s.2.(sd_entries) = Ok entries →
  scripts_of s.2 (pending (versions st) (migration_files entries)) log →
  is_Some (replay run_script log st.(st_data)) → (run_start run_script st s).1 = Ok ().
Proof.
  intros Hq He Hl Hd. unfold run_start, Migrate, mbind, C_bind, c_stmt, c_lift, create_schema_migrations.
  rewrite Hq, He. pose proof (@migrate_all_total s.1 s.2 (migration_files entries)
    (mkStore (st_data st) (Some (default [] (st_migrations st)))) 1%nat _ log Hq eq_refl Hl Hd) as H.
  by destruct (migrate_all _ _ _ _) as [r [st' n']].
Qed.

(** C33: Interrupting migrations does no harm.  Over any number of starts on one directory,
    each failing at any statement, the database is exactly what running a first part of
    the scripts in lexical order gives, each once and whole, and exactly these are
    recorded; a start that reports success has applied them all; and when the scripts
    are sound an undisturbed start does report success. *)
Theorem migrations_resume dir entries d starts s :
  dir.(sd_entries) = Ok entries → Forall (λ s, s.2 = dir) starts → s.2 = dir →
  let files := pending [] (migration_files entries) in
  let st := run_starts run_script (mkStore d None) starts in
  StronglySorted (λ a b, string_lt a b = true) files ∧
  upto dir (migration_files entries) d st False ∧
  ((run_start run_script st s).1 = Ok () →
     upto dir (migration_files entries) d (run_start run_script st s).2 True) ∧
  (∀ log, scripts_of dir files log → is_Some (replay run_script log d) →
     (∀ k, @env_fault s.1 k = None) → (run_start run_script st s).1 = Ok ()).
Proof.
  intros He Hs Hsd files st. pose proof (run_starts_upto dir entries d starts He Hs) as Hu. fold st in Hu.
  split_and!; [apply pending_sorted|done|..].
  - intros Hok. destruct (run_start_upto dir entries d st _ s Hsd He Hu) as (a & b & c & H1 & H2 & H3 & H4 & H5).
    exists a, b, c. split_and!; auto.
  - intros log Hlog Hrep Hq. destruct Hu as (names & rest & done_log & Hp & Hl & Hd & Hv & _).
    unfold files in Hlog. rewrite Hp in Hlog. apply Forall2_app_inv_l in Hlog as (l1 & l2 & H1 & H2 & ->).
    pose proof (scripts_of_unique dir names _ _ H1 Hl) as ->. subst dir.
    apply (run_start_total st s entries l2); [done|done| |].
    + rewrite Hv. pose proof (pending_app [] _ _ _ Hp) as Hr. cbn [app] in Hr. by rewrite Hr.
    + rewrite replay_app, Hd in Hrep. exact Hrep.
Qed.

(** Along any history of starts, with the directory changing between them and failures
    anywhere, the database is what running the recorded scripts one after the other
    gives, no version is ever applied twice, and after a start that succeeds every script
    of its directory is recorded. *)
Theorem migrate_history d starts :
  let st := run_starts run_script (mkStore d None) starts in
  (∃ log, replay run_script log d = Some st.(st_data) ∧ log.*1 = versions st ∧ NoDup (versions st) ∧
     ∀ v body, (v, body) ∈ log → ∃ s name, s ∈ starts ∧ v = version_of name ∧ s.2.(sd_file) name = Ok body) ∧
  (∀ s entries name, (run_start run_script st s).1 = Ok () → s.2.(sd_entries) = Ok entries →
     name ∈ migration_files entries → version_of name ∈ versions (run_start run_script st s).2).
Proof.
  intros st. split.
  - subst st. induction starts as [|s starts (log & Hr & Hv & Hnd & Ho)] using rev_ind.
    { exists []. split_and!; [done|done|constructor|]. by intros ? ? ?%elem_of_nil. }
    unfold run_starts. rewrite foldl_app. cbn [foldl]. fold (run_starts run_script (mkStore d None) starts).
    set (st := run_starts run_script (mkStore d None) starts) in *. unfold run_start.
    pose proof (@Migrate_did s.1 s.2 st 0%nat) as HM. destruct (@Migrate _ _ _ _ _) as [r [st' n']]. cbn [snd].
    destruct HM as [(Hd' & Hv' & _)|(en & _ & names & rest & log' & ms' & Hp & Hl & Hd' & Hms & Hk & _)].
    + exists log. rewrite Hd', Hv'. split_and!; [done..|]. intros v b Hb.
      destruct (Ho v b Hb) as (s' & name & ? & ?). exists s', name. set_solver.
    + assert (versions st' = versions st ++ (version_of <$> names)) as Hvs by (unfold versions; by rewrite Hms).
      exists (log ++ log'). rewrite replay_app, Hr, Hvs, fmap_app, Hv, (scripts_of_versions _ _ _ Hl).
      split_and!; [done|done| |].
      * pose proof (pending_NoDup (versions st) (migration_files en)) as Hn. rewrite Hp, fmap_app in Hn.
        apply NoDup_app. split_and!; [done| |by apply NoDup_app in Hn as (? & _)].
        intros v Hv1 (name & -> & Hn2)%list_elem_of_fmap.
        eapply (pending_known _ (migration_files en)); [|done]. rewrite Hp. set_solver.
      * intros v b [Hb|Hb]%elem_of_app.
        { destruct (Ho v b Hb) as (s' & name & ? & ?). exists s', name. set_solver. }
        apply list_elem_of_lookup in Hb as [i Hi]. destruct (Forall2_lookup_r _ _ _ _ _ Hl Hi) as (name & _ & Hvn & Hf).
        exists s, name. split_and!; [set_solver|done..].
  - intros s entries name. unfold run_start. pose proof (@Migrate_did s.1 s.2 st 0%nat) as HM.
    destruct (@Migrate _ _ _ _ _) as [r [st' n']]. cbn [fst snd]. intros -> He Hn.
    destruct HM as [(_ & _ & ?)|(en & He' & names & rest & log' & ms' & Hp & _ & _ & Hms & Hk & Hf)]; [done|].
    rewrite He in He'. injection He' as <-. rewrite (Hf eq_refl), app_nil_r in Hp.
    pose proof (pending_app (versions st) (migration_files entries) names [] ltac:(by rewrite app_nil_r)) as Hdone.
    unfold versions at 1. rewrite Hms. cbn. rewrite Hk. by eapply pending_nil_known.
Qed.
End props.

(** ** A run *)

(** An environment whose statement [k] fails, if any. *)
Definition failing_at (k : option nat) : Env :=
  {| env_now n := Z.of_nat n; env_uuid _ := ""; env_send _ _ := Ok "";
     env_fault n := if bool_decide (Some n = k) then Some "disk I/O error" else None;
     env_requestID _ := ""; env_cancelled _ := None |}.

Definition demo_script (body : string) (d : list string) : option string * list string :=
  if bool_decide (body = "bad") then (Some "syntax error", d ++ ["half"]) else (None, d ++ [body]).

Definition demo_dir : ScriptDir :=
  mkScriptDir (Ok [("0002_b.sql", false); ("0001_a.sql", false); ("old.sql", true); ("notes.txt", false)])
    (λ n, if bool_decide (n = "0001_a.sql") then Ok "a" else Ok "b").

Definition demo_starts : list start := [(failing_at (Some 9%nat), demo_dir); (failing_at (Some 1%nat), demo_dir)].

Lemma failing_at_none k : @env_fault (failing_at None) k = None.
Proof. done. Qed.

(** The second script is cut off while it is recorded: only the first one is there. *)
Lemma demo_interrupted :
  run_starts demo_script (mkStore [] None) demo_starts = mkStore ["a"] (Some [("0001_a", 4)]).
Proof. vm_compute. reflexivity. Qed.

Lemma migrations_resume_witness :
  let st := run_starts demo_script (mkStore [] None) demo_starts in
  st.(st_data) = ["a"] ∧ (run_start demo_script st (failing_at None, demo_dir)).1 = Ok ().
Proof.
  cbv zeta. split; [by rewrite demo_interrupted|].
  refine (proj2 (proj2 (proj2 (migrations_resume demo_script demo_dir _ [] demo_starts
    (failing_at None, demo_dir) eq_refl _ eq_refl))) [("0001_a", "a"); ("0002_b", "b")] _ _ failing_at_none).
  - repeat constructor.
  - vm_compute. repeat constructor.
  - vm_compute. by eexists.
Defined.
