(* ===== verification/Config.v ===== *)
(** The configuration: [internal/config/config.go].

    The records have the fields of the source; [ConfigLoad] reads them from the
    environment.  Durations are products of a configured count and a unit and wrap
    like Go's [int64]. *)
From Stdlib Require Import ZArith Ascii.
From stdpp Require Import base list strings.
From S2P Require Import Prelude GoStrings GoValues.

Open Scope Z_scope.

Definition maxPort : Z := 65535.
Definition AuthModePassword : string := "password".
Definition AuthModeOAuth : string := "oauth".
Definition OAuthProviderGoogle : string := "google".
Definition OAuthProviderMicrosoft : string := "microsoft".

Record ServiceConfig : Type := mkServiceConfig { svc_Name : string }.

Record HTTPConfig : Type := mkHTTPConfig {
  http_Port : Z; http_ReadTimeoutSec : Z; http_WriteTimeoutSec : Z;
  http_ShutdownTimeoutSec : Z; http_PollStaleMultiplier : Z }.

Record DatabaseConfig : Type := mkDatabaseConfig { db_Path : string }.

Record LogConfig : Type := mkLogConfig {
  log_Level : string; log_Format : string; log_Directory : string;
  log_MaxAgeDays : Z; log_RotationHours : Z }.

Record IMAPConfig : Type := mkIMAPConfig {
  imap_Host : string; imap_Port : string; imap_Username : string; imap_Password : string;
  imap_Mailbox : string; imap_PollIntervalSeconds : Z; imap_MaxMessageMB : Z;
  imap_FileByStatus : bool; imap_FolderPrefix : string; imap_FolderComplete : string;
  imap_FolderAwaiting : string; imap_FolderEscalated : string;
  imap_FolderUnknownPolicy : string; imap_FolderHold : string; imap_HoldScanLimit : Z;
  imap_IgnoreBefore : string; imap_PollMaxAttempts : Z; imap_PollTimeoutSeconds : Z;
  imap_CompleteLabel : string }.

Record SMTPConfig : Type := mkSMTPConfig {
  smtp_Host : string; smtp_Port : string; smtp_Username : string; smtp_Password : string;
  smtp_FromAddress : string; smtp_FromName : string }.

Record OAuthConfig : Type := mkOAuthConfig {
  oauth_Provider : string; oauth_ClientID : string; oauth_ClientSecret : string;
  oauth_TenantID : string; oauth_RefreshToken : string; oauth_User : string }.

Record MailConfig : Type := mkMailConfig { mail_AuthMode : string; mail_OAuth : OAuthConfig }.

Record OutboundConfig : Type := mkOutboundConfig { out_Provider : string }.

Record AnthropicConfig : Type := mkAnthropicConfig {
  llm_APIKey : string; llm_Model : string; llm_TimeoutSec : Z; llm_MaxTokens : Z;
  llm_DailyCapUSD : float64 }.

Record ClassifierConfig : Type := mkClassifierConfig { cls_ConfidenceFloor : float64 }.

Record DocumentConfig : Type := mkDocumentConfig {
  dcf_UnreadableMinSizeBytes : Z; dcf_UnreadableMinChars : Z;
  dcf_AttachmentLinkDomains : list string }.

Record ChecklistsConfig : Type := mkChecklistsConfig { clc_Directory : string }.

Record EscalationConfig : Type := mkEscalationConfig {
  esc_IntervalMinutes : Z; esc_ThresholdHours : Z; esc_AutoCloseAfterHours : Z;
  esc_AwaitingAutoCloseAfterHours : Z; esc_BindWindowDays : Z; esc_BindGraceDays : Z;
  esc_MinGapHours : Z }.

Record RetentionConfig : Type := mkRetentionConfig {
  ret_AuditDays : Z; ret_OutboxPendingTTLHours : Z; ret_IntervalHours : Z }.

Record DigestConfig : Type := mkDigestConfig {
  dig_IntervalHours : Z; dig_Recipient : string; dig_MaxRows : Z;
  dig_LegacyIntervalHours : Z; dig_LegacyRecipient : string }.

Record RetryConfig : Type := mkRetryConfig { rty_Attempts : Z; rty_BaseDelayMs : Z }.

(** [RepliesEnabled] is a pointer: [None] reads as enabled. *)
Record ReplyConfig : Type := mkReplyConfig {
  rpl_Workers : Z; rpl_QueueSize : Z; rpl_RepliesEnabled : option bool;
  rpl_PolicyClarifyMaxAsks : Z; rpl_CoalesceWindowSeconds : Z; rpl_FlushIntervalSeconds : Z }.

Record ThreadingConfig : Type := mkThreadingConfig { thr_MatchWindowDays : Z }.

Record Config : Type := mkConfig {
  cfg_Service : ServiceConfig; cfg_HTTP : HTTPConfig; cfg_Database : DatabaseConfig;
  cfg_Log : LogConfig; cfg_IMAP : IMAPConfig; cfg_SMTP : SMTPConfig; cfg_Mail : MailConfig;
  cfg_Outbound : OutboundConfig; cfg_Anthropic : AnthropicConfig;
  cfg_Classifier : ClassifierConfig; cfg_Document : DocumentConfig;
  cfg_Checklists : ChecklistsConfig; cfg_Escalation : EscalationConfig;
  cfg_Digest : DigestConfig; cfg_Retry : RetryConfig; cfg_Reply : ReplyConfig;
  cfg_Threading : ThreadingConfig; cfg_Retention : RetentionConfig }.

(** ** Durations *)

Definition defaultThreadMatchWindowDays : Z := 14.

(** [time.Duration(n) * 24 * time.Hour] *)
Definition days (n : Z) : duration := wrap64 (wrap64 (n * 24) * Hour).

Definition MatchWindow (t : ThreadingConfig) : duration :=
  days (if t.(thr_MatchWindowDays) <=? 0 then defaultThreadMatchWindowDays
        else t.(thr_MatchWindowDays)).

Definition ReadTimeout (h : HTTPConfig) : duration := dur_mul h.(http_ReadTimeoutSec) Second.
Definition WriteTimeout (h : HTTPConfig) : duration := dur_mul h.(http_WriteTimeoutSec) Second.
Definition ShutdownTimeout (h : HTTPConfig) : duration := dur_mul h.(http_ShutdownTimeoutSec) Second.
Definition Timeout (a : AnthropicConfig) : duration := dur_mul a.(llm_TimeoutSec) Second.
Definition PollInterval (i : IMAPConfig) : duration := dur_mul i.(imap_PollIntervalSeconds) Second.
Definition PollTimeout (i : IMAPConfig) : duration := dur_mul i.(imap_PollTimeoutSeconds) Second.
Definition AuditRetention (r : RetentionConfig) : duration := days r.(ret_AuditDays).
Definition OutboxPendingTTL (r : RetentionConfig) : duration := dur_mul r.(ret_OutboxPendingTTLHours) Hour.
Definition Retention_Interval (r : RetentionConfig) : duration := dur_mul r.(ret_IntervalHours) Hour.
Definition Escalation_Interval (e : EscalationConfig) : duration := dur_mul e.(esc_IntervalMinutes) Minute.
Definition Threshold (e : EscalationConfig) : duration := dur_mul e.(esc_ThresholdHours) Hour.
Definition AutoCloseAfter (e : EscalationConfig) : duration := dur_mul e.(esc_AutoCloseAfterHours) Hour.
Definition AwaitingAutoCloseAfter (e : EscalationConfig) : duration :=
  dur_mul e.(esc_AwaitingAutoCloseAfterHours) Hour.
Definition BindGrace (e : EscalationConfig) : duration := days e.(esc_BindGraceDays).
Definition BindWindow (e : EscalationConfig) : duration := days e.(esc_BindWindowDays).
Definition MinGap (e : EscalationConfig) : duration := dur_mul e.(esc_MinGapHours) Hour.
Definition Digest_Interval (d : DigestConfig) : duration := dur_mul d.(dig_IntervalHours) Hour.
Definition BaseDelay (r : RetryConfig) : duration := dur_mul r.(rty_BaseDelayMs) Millisecond.
Definition CoalesceWindow (r : ReplyConfig) : duration := dur_mul r.(rpl_CoalesceWindowSeconds) Second.
Definition FlushInterval (r : ReplyConfig) : duration := dur_mul r.(rpl_FlushIntervalSeconds) Second.

(** [int64(i.MaxMessageMB) << 20] *)
Definition MaxMessageBytes (i : IMAPConfig) : Z := wrap64 (Z.shiftl i.(imap_MaxMessageMB) 20).

Definition PollStaleAfter (c : Config) : duration :=
  wrap64 (PollInterval c.(cfg_IMAP) * Z.max c.(cfg_HTTP).(http_PollStaleMultiplier) 1).

(** ** Validation *)

(** [strconv.Atoi]: an optional sign, decimal digits, within an [int]. *)
Fixpoint digits (acc : Z) (s : string) : option Z :=
  match s with
  | "" => Some acc
  | String c s => if in_range 48 57 (byte_of c) then digits (10 * acc + (byte_of c - 48)) s else None
  end.

Definition Atoi (s : string) : option Z :=
  let '(neg, body) := match s with
                      | String "-" r => (true, r)
                      | String "+" r => (false, r)
                      | _ => (false, s)
                      end in
  if bool_decide (body = "") then None
  else match digits 0 body with
       | None => None
       | Some n => let v := if neg then - n else n in
                   if (int64_min <=? v) && (v <=? int64_max) then Some v else None
       end.

Definition validatePort (name raw : string) : result unit :=
  match Atoi raw with
  | None => Err (ErrWrap ("config: " +:+ name +:+ " " +:+ raw +:+ " is not a number") (ErrNew "strconv"))
  | Some p =>
      if (p <? 1) || (maxPort <? p) then Err (ErrNew ("config: " +:+ name +:+ " must be in 1..65535"))
      else Ok ()
  end.

Definition IMAP_Configured (i : IMAPConfig) : bool :=
  negb (bool_decide (i.(imap_Host) = "")) && negb (bool_decide (i.(imap_Username) = "")) &&
  negb (bool_decide (i.(imap_Password) = "")).

Definition SMTP_Configured (s : SMTPConfig) : bool :=
  negb (bool_decide (s.(smtp_Host) = "")) && negb (bool_decide (s.(smtp_FromAddress) = "")).

Section validate.
Context {L : GoLib}.

Definition OAuthEnabled (m : MailConfig) : bool := EqualFold m.(mail_AuthMode) AuthModeOAuth.

Definition IMAPConfigured (c : Config) : bool :=
  if OAuthEnabled c.(cfg_Mail) then negb (bool_decide (c.(cfg_IMAP).(imap_Host) = ""))
  else IMAP_Configured c.(cfg_IMAP).

Definition OAuth_validate (o : OAuthConfig) : result unit :=
  if bool_decide (o.(oauth_Provider) = "") || bool_decide (o.(oauth_ClientID) = "") ||
     bool_decide (o.(oauth_ClientSecret) = "") || bool_decide (o.(oauth_User) = "")
  then Err (ErrNew "config: oauth requires MAIL_OAUTH_PROVIDER, MAIL_OAUTH_CLIENT_ID, MAIL_OAUTH_CLIENT_SECRET and MAIL_OAUTH_USER")
  else
    let p := ToLower o.(oauth_Provider) in
    if bool_decide (p = OAuthProviderMicrosoft) then
      if bool_decide (o.(oauth_TenantID) = "")
      then Err (ErrNew "config: MAIL_OAUTH_PROVIDER=microsoft requires MAIL_OAUTH_TENANT_ID") else Ok ()
    else if bool_decide (p = OAuthProviderGoogle) then
      if bool_decide (o.(oauth_RefreshToken) = "")
      then Err (ErrNew "config: MAIL_OAUTH_PROVIDER=google requires MAIL_OAUTH_REFRESH_TOKEN") else Ok ()
    else Err (ErrNew ("config: MAIL_OAUTH_PROVIDER " +:+ o.(oauth_Provider) +:+
                      " invalid (want google|microsoft)")).

Definition Mail_Validate (m : MailConfig) : result unit :=
  let mode := ToLower m.(mail_AuthMode) in
  if bool_decide (mode = "") || bool_decide (mode = AuthModePassword) then Ok ()
  else if bool_decide (mode = AuthModeOAuth) then OAuth_validate m.(mail_OAuth)
  else Err (ErrNew ("config: MAIL_AUTH_MODE " +:+ m.(mail_AuthMode) +:+ " invalid (want password|oauth)")).

Definition RFC3339 : string := "2006-01-02T15:04:05Z07:00".

(** [None] when unset. *)
Definition IgnoreBeforeTime (i : IMAPConfig) : result (option time) :=
  let raw := TrimSpace i.(imap_IgnoreBefore) in
  if bool_decide (raw = "") then Ok None
  else match time_Parse RFC3339 raw with
       | None => Err (ErrWrap ("config: IMAP_IGNORE_BEFORE " +:+ raw +:+ " is not RFC3339") (ErrNew "time"))
       | Some t => Ok (Some t)
       end.

Definition guard (bad : bool) (msg : string) : result unit := if bad then Err (ErrNew msg) else Ok ().

Open Scope go_scope.

Definition Validate (c : Config) : result unit :=
  _ <-? guard ((c.(cfg_HTTP).(http_Port) <? 1) || (maxPort <? c.(cfg_HTTP).(http_Port)))
          "config: http.port must be in 1..65535";
  _ <-? guard (bool_decide (c.(cfg_Database).(db_Path) = "")) "config: database.path required";
  _ <-? guard (bool_decide (c.(cfg_Checklists).(clc_Directory) = "")) "config: checklists.directory required";
  _ <-? guard (c.(cfg_Log).(log_MaxAgeDays) <? 0) "config: log.max_age_days must be >= 0";
  _ <-? guard (c.(cfg_Log).(log_RotationHours) <=? 0) "config: log.rotation_hours must be > 0";
  _ <-? guard (c.(cfg_Escalation).(esc_IntervalMinutes) <=? 0)
          "config: escalation.interval_minutes must be > 0";
  _ <-? Mail_Validate c.(cfg_Mail);
  _ <-? (if IMAPConfigured c then
           _ <-? guard (c.(cfg_IMAP).(imap_PollIntervalSeconds) <=? 0)
                   "config: imap.poll_interval_seconds must be > 0";
           _ <-? IgnoreBeforeTime c.(cfg_IMAP);
           _ <-? guard (c.(cfg_IMAP).(imap_MaxMessageMB) <? 0)
                   "config: imap.max_message_mb must be >= 0";
           validatePort "imap.port" c.(cfg_IMAP).(imap_Port)
         else Ok ());
  _ <-? (if SMTP_Configured c.(cfg_SMTP) then validatePort "smtp.port" c.(cfg_SMTP).(smtp_Port) else Ok ());
  if negb (bool_decide (c.(cfg_Anthropic).(llm_APIKey) = "")) then
    _ <-? guard (c.(cfg_Anthropic).(llm_MaxTokens) <=? 0) "config: anthropic.max_tokens must be > 0";
    guard (c.(cfg_Anthropic).(llm_TimeoutSec) <=? 0) "config: anthropic.timeout_seconds must be > 0"
  else Ok ().
End validate.

(** ** What a validated configuration guarantees *)

(** A port in the range of TCP, as text. *)
Definition port_ok (raw : string) : Prop := ∃ p, Atoi raw = Some p ∧ 1 ≤ p ≤ maxPort.

Definition oauth_ok {L : GoLib} (o : OAuthConfig) : Prop :=
  o.(oauth_ClientID) ≠ "" ∧ o.(oauth_ClientSecret) ≠ "" ∧ o.(oauth_User) ≠ "" ∧ o.(oauth_Provider) ≠ "" ∧
  ((ToLower o.(oauth_Provider) = OAuthProviderMicrosoft ∧ o.(oauth_TenantID) ≠ "") ∨
   (ToLower o.(oauth_Provider) = OAuthProviderGoogle ∧ o.(oauth_RefreshToken) ≠ "")).

Record config_ok {L : GoLib} (c : Config) : Prop := {
  ok_http : 1 ≤ c.(cfg_HTTP).(http_Port) ≤ maxPort;
  ok_paths : c.(cfg_Database).(db_Path) ≠ "" ∧ c.(cfg_Checklists).(clc_Directory) ≠ "";
  ok_log : 0 ≤ c.(cfg_Log).(log_MaxAgeDays) ∧ 0 < c.(cfg_Log).(log_RotationHours);
  ok_ticker : 0 < c.(cfg_Escalation).(esc_IntervalMinutes);
  ok_mail : ToLower c.(cfg_Mail).(mail_AuthMode) ∈ [""; AuthModePassword] ∨
            (ToLower c.(cfg_Mail).(mail_AuthMode) = AuthModeOAuth ∧ oauth_ok c.(cfg_Mail).(mail_OAuth));
  ok_imap : IMAPConfigured c = true →
    0 < c.(cfg_IMAP).(imap_PollIntervalSeconds) ∧ 0 ≤ c.(cfg_IMAP).(imap_MaxMessageMB) ∧
    port_ok c.(cfg_IMAP).(imap_Port) ∧ is_ok (IgnoreBeforeTime c.(cfg_IMAP)) = true;
  ok_smtp : SMTP_Configured c.(cfg_SMTP) = true → port_ok c.(cfg_SMTP).(smtp_Port);
  ok_llm : c.(cfg_Anthropic).(llm_APIKey) ≠ "" →
    0 < c.(cfg_Anthropic).(llm_MaxTokens) ∧ 0 < c.(cfg_Anthropic).(llm_TimeoutSec) }.

Lemma guard_Ok b msg : guard b msg = Ok () ↔ b = false.
Proof. destruct b; done. Qed.

Lemma bind_Ok_unit {A} (r : result A) (k : A → result unit) :
  result_bind r k = Ok () ↔ ∃ a, r = Ok a ∧ k a = Ok ().
Proof. destruct r; cbn; split; [eauto|by intros (? & [= ->] & ?)|done|by intros (? & ? & ?)]. Qed.

Lemma bind_guard b msg (k : unit → result unit) :
  result_bind (guard b msg) k = Ok () ↔ b = false ∧ k () = Ok ().
Proof. destruct b; cbn; split; [done|by intros []|done|tauto]. Qed.

Lemma validatePort_Ok name raw : validatePort name raw = Ok () ↔ port_ok raw.
Proof.
  unfold validatePort, port_ok. destruct (Atoi raw) as [p|].
  - destruct (Z.ltb_spec p 1), (Z.ltb_spec maxPort p); cbn; split; try done;
      try (intros (? & [= <-] & ?); lia). intros _. exists p. done.
  - split; [done|]. by intros (? & ? & ?).
Qed.

Section spec.
Context {L : GoLib}.

Lemma OAuth_validate_Ok o : OAuth_validate o = Ok () ↔ oauth_ok o.
Proof.
  unfold OAuth_validate, oauth_ok, OAuthProviderGoogle, OAuthProviderMicrosoft. generalize (ToLower (oauth_Provider o)). intros p.
  repeat case_bool_decide; cbn [orb]; (split; [try discriminate; tauto|]);
    intros (Hc & Hs & Hu & Hp & [[He Hne]|[He Hne]]); try done; exfalso;
    rewrite He in *; congruence.
Qed.

Lemma Mail_Validate_Ok m :
  Mail_Validate m = Ok () ↔
  ToLower m.(mail_AuthMode) ∈ [""; AuthModePassword] ∨
  (ToLower m.(mail_AuthMode) = AuthModeOAuth ∧ oauth_ok m.(mail_OAuth)).
Proof.
  unfold Mail_Validate, AuthModePassword, AuthModeOAuth. rewrite !elem_of_cons, elem_of_nil, <- OAuth_validate_Ok.
  generalize (ToLower (mail_AuthMode m)). intros mode.
  repeat case_bool_decide; cbn [orb]; (split; [try discriminate; tauto|]); try done;
    intros [[?|[?|[]]]|[? ?]]; try done; congruence.
Qed.

(** Validation accepts exactly the usable configurations: a TCP port for HTTP, for
    IMAP and SMTP when they are configured, positive ticker intervals (a zero one panics
    [time.NewTicker]), complete OAuth credentials for the chosen provider, a parseable
    ingest cutoff, and positive LLM limits when a key is set. *)
Theorem Validate_spec c : Validate c = Ok () ↔ config_ok c.
Proof.
  unfold Validate. rewrite !bind_guard, !bind_Ok_unit.
  split.
  - intros (H1 & H2 & H3 & H4 & H5 & H6 & [] & H7 & H8).
    rewrite bind_Ok_unit in H8. destruct H8 as ([] & H8 & H9).
    rewrite bind_Ok_unit in H9. destruct H9 as ([] & H9 & H10).
    apply bool_decide_eq_false in H2, H3. split; try lia; [done|by apply Mail_Validate_Ok|..].
    + intros Hi. rewrite Hi, bind_guard, bind_Ok_unit in H8.
      destruct H8 as (Ha & t & Hb & Hc). rewrite bind_guard, validatePort_Ok in Hc.
      rewrite Hb. split_and!; try done; try lia; apply Hc.
    + intros Hs. rewrite Hs in H9. by eapply validatePort_Ok.
    + intros Hk. rewrite bool_decide_false in H10 by done. cbn [negb] in H10.
      rewrite bind_guard, guard_Ok in H10. lia.
  - intros [H1 [H2 H3] [H4 H5] H6 H7 H8 H9 H10].
    split_and!; try (by apply bool_decide_eq_false); try lia.
    exists (). split; [by apply Mail_Validate_Ok|].
    rewrite bind_Ok_unit. exists (). split.
    { destruct (IMAPConfigured c); [|done]. destruct (H8 eq_refl) as (Ha & Hb & Hc & Hd).
      rewrite bind_guard, bind_Ok_unit. split; [lia|].
      destruct (IgnoreBeforeTime _) as [t|]; [|done]. exists t. split; [done|].
      rewrite bind_guard, validatePort_Ok. split; [lia|done]. }
    rewrite bind_Ok_unit. exists (). split.
    { destruct (SMTP_Configured _); [|done]. apply validatePort_Ok. auto. }
    case_bool_decide as Hk; [done|]. cbn [negb]. specialize (H10 Hk).
    rewrite bind_guard, guard_Ok. lia.
Qed.
End spec.
