(* ===== verification/ConfigLoad.v ===== *)
(** Reading the configuration from the environment: [Load] of [internal/config/config.go].

    The struct tags name the variable of every field and its default; what
    [github.com/caarlos0/env] does with them is the class [EnvLib], and what its
    documentation promises the class [EnvLaws]. *)
From Stdlib Require Import ZArith Ascii.
From stdpp Require Import base list strings gmap.
From S2P Require Import Prelude GoStrings GoValues Config.

Open Scope Z_scope.

Class EnvLib : Type := {
  (** The text of a field: from the variable, if set, and the tag's default. *)
  env_value : option string → option string → option string;
  env_int : string → option Z;
  env_int64 : string → option Z;
  env_float64 : string → option float64;
  env_bool : string → option bool;
  env_strings : string → option (list string);
  (** The error that lists the fields that did not parse. *)
  env_error : list string → error }.

(** A computation that goes on after a field that does not parse, and reports it. *)
Definition parsed (A : Type) : Type := A * list string.
#[export] Instance parsed_ret : MRet parsed := λ A a, (a, []).
#[export] Instance parsed_bind : MBind parsed := λ A B f m,
  let '(a, bad) := m in let '(b, bad') := f a in (b, bad ++ bad').

Section load.
Context {L : GoLib} {EL : EnvLib} (environ : gmap string string).

(** A field of a type the library can parse; left at its zero value when there is no text. *)
Definition tagged {A} (parse : string → option A) (zero : A) (name : string) (def : option string) : parsed A :=
  match env_value (environ !! name) def with
  | None => (zero, [])
  | Some text => match parse text with Some a => (a, []) | None => (zero, [name]) end
  end.

Definition str (name : string) : parsed string := tagged Some "" name None.
Definition str_or (name def : string) : parsed string := tagged Some "" name (Some def).
Definition int (name : string) : parsed Z := tagged env_int 0 name None.
Definition int_or (name def : string) : parsed Z := tagged env_int 0 name (Some def).

Definition parse_HTTP : parsed HTTPConfig :=
  port ← int_or "HTTP_PORT" "8080";
  rt ← int_or "HTTP_READ_TIMEOUT_SECONDS" "15";
  wt ← int_or "HTTP_WRITE_TIMEOUT_SECONDS" "30";
  st ← int_or "HTTP_SHUTDOWN_TIMEOUT_SECONDS" "10";
  mul ← int_or "HEALTH_POLL_STALE_MULTIPLIER" "3";
  mret (mkHTTPConfig port rt wt st mul).

Definition parse_Log : parsed LogConfig :=
  level ← str_or "LOG_LEVEL" "info";
  format ← str_or "LOG_FORMAT" "json";
  dir ← str "LOG_DIR";
  age ← int_or "LOG_MAX_AGE_DAYS" "14";
  rotation ← int_or "LOG_ROTATION_HOURS" "24";
  mret (mkLogConfig level format dir age rotation).

Definition parse_IMAP : parsed IMAPConfig :=
  host ← str "IMAP_HOST";
  port ← str_or "IMAP_PORT" "993";
  username ← str "IMAP_USERNAME";
  password ← str "IMAP_PASSWORD";
  mailbox ← str_or "IMAP_MAILBOX" "INBOX";
  interval ← int_or "IMAP_POLL_INTERVAL_SECONDS" "30";
  maxMB ← int_or "IMAP_MAX_MESSAGE_MB" "32";
  file ← tagged env_bool false "IMAP_FILE_BY_STATUS" (Some "true");
  prefix ← str_or "IMAP_FOLDER_PREFIX" "Triage";
  complete ← str_or "IMAP_FOLDER_COMPLETE" "Ready for Underwriting";
  awaiting ← str_or "IMAP_FOLDER_AWAITING" "Waiting on Broker";
  escalated ← str_or "IMAP_FOLDER_ESCALATED" "Escalated";
  unknown ← str_or "IMAP_FOLDER_UNKNOWN_POLICY" "Unknown Policy";
  hold ← str_or "IMAP_FOLDER_HOLD" "Hold";
  limit ← int_or "IMAP_HOLD_SCAN_LIMIT" "200";
  before ← str "IMAP_IGNORE_BEFORE";
  attempts ← int_or "POLL_MAX_ATTEMPTS" "5";
  timeout ← int_or "IMAP_POLL_TIMEOUT_SECONDS" "120";
  label ← str "IMAP_COMPLETE_LABEL";
  mret (mkIMAPConfig host port username password mailbox interval maxMB file prefix complete awaiting
          escalated unknown hold limit before attempts timeout label).

Definition parse_SMTP : parsed SMTPConfig :=
  host ← str "SMTP_HOST";
  port ← str_or "SMTP_PORT" "587";
  username ← str "SMTP_USERNAME";
  password ← str "SMTP_PASSWORD";
  from ← str "SMTP_FROM_ADDRESS";
  name ← str_or "SMTP_FROM_NAME" "Submission Triage";
  mret (mkSMTPConfig host port username password from name).

Definition parse_OAuth : parsed OAuthConfig :=
  provider ← str "MAIL_OAUTH_PROVIDER";
  id ← str "MAIL_OAUTH_CLIENT_ID";
  secret ← str "MAIL_OAUTH_CLIENT_SECRET";
  tenant ← str "MAIL_OAUTH_TENANT_ID";
  refresh ← str "MAIL_OAUTH_REFRESH_TOKEN";
  user ← str "MAIL_OAUTH_USER";
  mret (mkOAuthConfig provider id secret tenant refresh user).

Definition parse_Mail : parsed MailConfig :=
  mode ← str_or "MAIL_AUTH_MODE" "password"; oauth ← parse_OAuth; mret (mkMailConfig mode oauth).

Definition parse_Anthropic : parsed AnthropicConfig :=
  key ← str "ANTHROPIC_API_KEY";
  model ← str_or "ANTHROPIC_MODEL" "claude-haiku-4-5";
  timeout ← int_or "ANTHROPIC_TIMEOUT_SECONDS" "30";
  tokens ← int_or "ANTHROPIC_MAX_TOKENS" "2048";
  cap ← tagged env_float64 f64_zero "LLM_DAILY_USD_CAP" (Some "10.00");
  mret (mkAnthropicConfig key model timeout tokens cap).

Definition parse_Document : parsed DocumentConfig :=
  size ← tagged env_int64 0 "UNREADABLE_MIN_SIZE_BYTES" (Some "51200");
  chars ← int_or "UNREADABLE_MIN_CHARS" "100";
  domains ← tagged env_strings [] "ATTACHMENT_LINK_DOMAINS"
    (Some "sharefile,dropbox,wetransfer,box.com,drive.google,sharepoint,egnyte,hightail,smartvault");
  mret (mkDocumentConfig size chars domains).

Definition parse_Escalation : parsed EscalationConfig :=
  interval ← int_or "ESCALATION_INTERVAL_MINUTES" "15";
  threshold ← int_or "ESCALATION_THRESHOLD_HOURS" "72";
  close ← int_or "ESCALATION_AUTO_CLOSE_AFTER_HOURS" "336";
  awaiting ← int_or "AWAITING_AUTO_CLOSE_AFTER_HOURS" "2160";
  bind ← int_or "ESCALATION_BIND_WINDOW_DAYS" "7";
  grace ← int_or "ESCALATION_BIND_GRACE_DAYS" "3";
  gap ← int_or "ESCALATION_MIN_GAP_HOURS" "24";
  mret (mkEscalationConfig interval threshold close awaiting bind grace gap).

Definition parse_Digest : parsed DigestConfig :=
  interval ← int_or "DIGEST_INTERVAL_HOURS" "24";
  recipient ← str "DIGEST_RECIPIENT";
  rows ← int_or "DIGEST_MAX_ROWS" "500";
  legacyInterval ← int "ESCALATION_DIGEST_INTERVAL_HOURS";
  legacyRecipient ← str "ESCALATION_DIGEST_RECIPIENT";
  mret (mkDigestConfig interval recipient rows legacyInterval legacyRecipient).

Definition parse_Reply : parsed ReplyConfig :=
  workers ← int_or "REPLY_WORKERS" "4";
  queue ← int_or "REPLY_QUEUE_SIZE" "64";
  enabled ← tagged (λ s, Some <$> env_bool s) None "REPLIES_ENABLED" (Some "true");
  asks ← int_or "POLICY_CLARIFY_MAX_ASKS" "3";
  window ← int_or "REPLY_COALESCE_WINDOW_SECONDS" "120";
  flush ← int_or "REPLY_FLUSH_INTERVAL_SECONDS" "30";
  mret (mkReplyConfig workers queue enabled asks window flush).

Definition parse_Retention : parsed RetentionConfig :=
  audit ← int_or "AUDIT_RETENTION_DAYS" "90";
  ttl ← int_or "OUTBOX_PENDING_TTL_HOURS" "168";
  interval ← int_or "RETENTION_INTERVAL_HOURS" "24";
  mret (mkRetentionConfig audit ttl interval).

(** [env.Parse(&cfg)], in the order of the fields of [Config]. *)
Definition env_Parse : parsed Config :=
  name ← str_or "SERVICE_NAME" "submission-triage";
  http ← parse_HTTP;
  path ← str_or "DB_PATH" "./data/submission-triage.db";
  log ← parse_Log;
  imap ← parse_IMAP;
  smtp ← parse_SMTP;
  mail ← parse_Mail;
  outbound ← str "OUTBOUND_PROVIDER";
  llm ← parse_Anthropic;
  floor ← tagged env_float64 f64_zero "CLASSIFIER_CONFIDENCE_FLOOR" (Some "0.80");
  document ← parse_Document;
  checklists ← str_or "CHECKLISTS_DIR" "./checklists";
  escalation ← parse_Escalation;
  digest ← parse_Digest;
  attempts ← int_or "RETRY_ATTEMPTS" "3";
  delay ← int_or "RETRY_BASE_DELAY_MS" "500";
  reply ← parse_Reply;
  window ← int_or "THREAD_MATCH_WINDOW_DAYS" "14";
  retention ← parse_Retention;
  mret (mkConfig (mkServiceConfig name) http (mkDatabaseConfig path) log imap smtp mail
          (mkOutboundConfig outbound) llm (mkClassifierConfig floor) document (mkChecklistsConfig checklists)
          escalation digest (mkRetryConfig attempts delay) reply (mkThreadingConfig window) retention).

Definition Load : result Config :=
  match env_Parse with
  | (cfg, []) => match Validate cfg with Err e => Err e | Ok _ => Ok cfg end
  | (_, bad) => Err (ErrWrap "parse config from environment" (env_error bad))
  end.
End load.

(** ** What the library promises *)

Class EnvLaws {EL : EnvLib} : Prop := {
  env_unset def : env_value None def = def;
  env_set text def : text ≠ "" → env_value (Some text) def = Some text;
  env_blank : env_value (Some "") None = None ∨ env_value (Some "") None = Some "";
  env_int_decimal text n : Atoi text = Some n → - 2 ^ 31 ≤ n < 2 ^ 31 → env_int text = Some n;
  env_int64_decimal text n : Atoi text = Some n → env_int64 text = Some n;
  env_float64_decimal : env_float64 "10.00" = Some (f64_of_Z 10) ∧ env_float64 "0.80" = Some (f64_ratio 80 100);
  env_bool_words : env_bool "true" = Some true ∧ env_bool "false" = Some false;
  env_strings_commas text : text ≠ "" → env_strings text = Some (Split text ","%char) }.
Arguments EnvLaws EL : clear implicits.

(** ** The documented defaults *)

(** [.env.example] without the mailbox it is filled in with. *)
Definition env_example : gmap string string := list_to_map [
  ("SERVICE_NAME", "submission-triage"); ("HTTP_PORT", "8080"); ("HTTP_READ_TIMEOUT_SECONDS", "15");
  ("HTTP_WRITE_TIMEOUT_SECONDS", "30"); ("HTTP_SHUTDOWN_TIMEOUT_SECONDS", "10");
  ("HEALTH_POLL_STALE_MULTIPLIER", "3"); ("DB_PATH", "./data/submission-triage.db"); ("LOG_LEVEL", "info");
  ("LOG_FORMAT", "json"); ("LOG_DIR", ""); ("LOG_MAX_AGE_DAYS", "14"); ("LOG_ROTATION_HOURS", "24");
  ("IMAP_PORT", "993"); ("IMAP_PASSWORD", ""); ("IMAP_MAILBOX", "INBOX"); ("IMAP_POLL_INTERVAL_SECONDS", "30");
  ("IMAP_MAX_MESSAGE_MB", "32"); ("IMAP_IGNORE_BEFORE", ""); ("IMAP_POLL_TIMEOUT_SECONDS", "120");
  ("POLL_MAX_ATTEMPTS", "5"); ("IMAP_FILE_BY_STATUS", "true"); ("IMAP_FOLDER_PREFIX", "Triage");
  ("IMAP_FOLDER_COMPLETE", "Ready for Underwriting"); ("IMAP_FOLDER_AWAITING", "Waiting on Broker");
  ("IMAP_FOLDER_ESCALATED", "Escalated"); ("IMAP_FOLDER_UNKNOWN_POLICY", "Unknown Policy");
  ("IMAP_FOLDER_HOLD", "Hold"); ("IMAP_HOLD_SCAN_LIMIT", "200"); ("SMTP_PORT", "587"); ("SMTP_PASSWORD", "");
  ("SMTP_FROM_NAME", "Submission Triage"); ("OUTBOUND_PROVIDER", ""); ("MAIL_AUTH_MODE", "password");
  ("MAIL_OAUTH_PROVIDER", ""); ("MAIL_OAUTH_CLIENT_ID", ""); ("MAIL_OAUTH_CLIENT_SECRET", "");
  ("MAIL_OAUTH_USER", ""); ("MAIL_OAUTH_TENANT_ID", ""); ("MAIL_OAUTH_REFRESH_TOKEN", "");
  ("ANTHROPIC_API_KEY", ""); ("ANTHROPIC_MODEL", "claude-haiku-4-5"); ("ANTHROPIC_TIMEOUT_SECONDS", "30");
  ("ANTHROPIC_MAX_TOKENS", "2048"); ("LLM_DAILY_USD_CAP", "10.00"); ("CLASSIFIER_CONFIDENCE_FLOOR", "0.80");
  ("UNREADABLE_MIN_SIZE_BYTES", "51200"); ("UNREADABLE_MIN_CHARS", "100");
  ("ATTACHMENT_LINK_DOMAINS", "sharefile,dropbox,wetransfer,box.com,drive.google,sharepoint,egnyte,hightail,smartvault");
  ("CHECKLISTS_DIR", "./checklists"); ("ESCALATION_INTERVAL_MINUTES", "15"); ("ESCALATION_THRESHOLD_HOURS", "72");
  ("ESCALATION_AUTO_CLOSE_AFTER_HOURS", "336"); ("AWAITING_AUTO_CLOSE_AFTER_HOURS", "2160");
  ("ESCALATION_BIND_WINDOW_DAYS", "7"); ("ESCALATION_BIND_GRACE_DAYS", "3"); ("ESCALATION_MIN_GAP_HOURS", "24");
  ("DIGEST_INTERVAL_HOURS", "24"); ("DIGEST_RECIPIENT", ""); ("DIGEST_MAX_ROWS", "500");
  ("THREAD_MATCH_WINDOW_DAYS", "14"); ("RETENTION_INTERVAL_HOURS", "24"); ("AUDIT_RETENTION_DAYS", "90");
  ("OUTBOX_PENDING_TTL_HOURS", "168"); ("REPLIES_ENABLED", "true"); ("POLICY_CLARIFY_MAX_ASKS", "3");
  ("REPLY_WORKERS", "4"); ("REPLY_QUEUE_SIZE", "64"); ("REPLY_COALESCE_WINDOW_SECONDS", "120");
  ("REPLY_FLUSH_INTERVAL_SECONDS", "30"); ("RETRY_ATTEMPTS", "3"); ("RETRY_BASE_DELAY_MS", "500")].

(** The configuration of a service nobody has configured; [enabled] is the kill switch. *)
Definition default_config (enabled : bool) : Config :=
  mkConfig (mkServiceConfig "submission-triage") (mkHTTPConfig 8080 15 30 10 3)
    (mkDatabaseConfig "./data/submission-triage.db") (mkLogConfig "info" "json" "" 14 24)
    (mkIMAPConfig "" "993" "" "" "INBOX" 30 32 true "Triage" "Ready for Underwriting"
       "Waiting on Broker" "Escalated" "Unknown Policy" "Hold" 200 "" 5 120 "")
    (mkSMTPConfig "" "587" "" "" "" "Submission Triage")
    (mkMailConfig "password" (mkOAuthConfig "" "" "" "" "" ""))
    (mkOutboundConfig "") (mkAnthropicConfig "" "claude-haiku-4-5" 30 2048 (f64_of_Z 10))
    (mkClassifierConfig (f64_ratio 80 100))
    (mkDocumentConfig 51200 100 ["sharefile"; "dropbox"; "wetransfer"; "box.com"; "drive.google";
       "sharepoint"; "egnyte"; "hightail"; "smartvault"])
    (mkChecklistsConfig "./checklists") (mkEscalationConfig 15 72 336 2160 7 3 24)
    (mkDigestConfig 24 "" 500 0 "") (mkRetryConfig 3 500)
    (mkReplyConfig 4 64 (Some enabled) 3 120 30) (mkThreadingConfig 14) (mkRetentionConfig 90 168 24).

(** ** Fields left at their defaults *)

Section defaults.
Context {L : GoLib} {EL : EnvLib} {EnvOk : EnvLaws EL} (environ : gmap string string).

(** The variable is not set, or to its default. *)
Definition untouched (name def : string) : Prop := environ !! name = None ∨ environ !! name = Some def.

Lemma tagged_default {A} (parse : string → option A) zero name def a :
  def ≠ "" → untouched name def → parse def = Some a → tagged environ parse zero name (Some def) = (a, []).
Proof.
  intros Hd Hn Hp. unfold tagged.
  assert (env_value (environ !! name) (Some def) = Some def) as ->
    by (destruct Hn as [->| ->]; [apply env_unset|by apply env_set]).
  by rewrite Hp.
Qed.

Lemma str_default name : untouched name "" → str environ name = ("", []).
Proof.
  intros [Hn|Hn]; unfold str, tagged; rewrite Hn; [by rewrite env_unset|]. by destruct env_blank as [-> | ->].
Qed.

Lemma int_unset name : environ !! name = None → int environ name = (0, []).
Proof. intros Hn. unfold int, tagged. by rewrite Hn, env_unset. Qed.

Lemma str_or_default name def : def ≠ "" → untouched name def → str_or environ name def = (def, []).
Proof. intros. by apply tagged_default. Qed.

Lemma int_or_default name def n :
  Atoi def = Some n → - 2 ^ 31 ≤ n < 2 ^ 31 → untouched name def → int_or environ name def = (n, []).
Proof.
  intros Hn Hr Hu. apply tagged_default; [by intros ->|done|]. by apply env_int_decimal.
Qed.
End defaults.

Section documented.
Context {L : GoLib} {EL : EnvLib} {EnvOk : EnvLaws EL} (environ : gmap string string) (enabled : bool).

(** Every variable but the kill switch is unset or as documented. *)
Hypothesis Hdoc : ∀ name, name ≠ "REPLIES_ENABLED" → environ !! name = None ∨ environ !! name = env_example !! name.
Hypothesis Hswitch :
  tagged environ (λ s, Some <$> env_bool s) None "REPLIES_ENABLED" (Some "true") = (Some enabled, []).

Lemma documented name def :
  env_example !! name = Some def → name ≠ "REPLIES_ENABLED" → untouched environ name def.
Proof. intros He Hn. unfold untouched. rewrite <-He. by apply Hdoc. Qed.

Lemma undocumented name : env_example !! name = None → name ≠ "REPLIES_ENABLED" → environ !! name = None.
Proof. intros He Hn. destruct (Hdoc name Hn) as [|Hd]; [done|]. by rewrite Hd. Qed.

(** Evaluates a field that is left at its default. *)
Ltac field_is lem := erewrite lem by first
  [ done | apply documented; [vm_compute; reflexivity|done] | left; apply undocumented; [vm_compute; reflexivity|done]
  | apply undocumented; [vm_compute; reflexivity|done] | vm_compute; reflexivity | vm_compute; by intuition discriminate ].
Ltac fields := repeat first [ field_is str_default | field_is str_or_default | field_is int_unset | field_is int_or_default ].

Ltac tagged_is parse law := erewrite (tagged_default _ parse) by first
  [ done | apply documented; [vm_compute; reflexivity|done] | by apply law | vm_compute; reflexivity ].

Lemma env_Parse_documented : env_Parse environ = (default_config enabled, []).
Proof.
  assert (parse_HTTP environ = (mkHTTPConfig 8080 15 30 10 3, [])) as Hhttp by (unfold parse_HTTP; by fields).
  assert (parse_Log environ = (mkLogConfig "info" "json" "" 14 24, [])) as Hlog by (unfold parse_Log; by fields).
  assert (parse_SMTP environ = (cfg_SMTP (default_config true), [])) as Hsmtp by (unfold parse_SMTP; by fields).
  assert (parse_Mail environ = (cfg_Mail (default_config true), [])) as Hmail
    by (unfold parse_Mail, parse_OAuth; by fields).
  assert (parse_Escalation environ = (mkEscalationConfig 15 72 336 2160 7 3 24, [])) as Hesc
    by (unfold parse_Escalation; by fields).
  assert (parse_Digest environ = (mkDigestConfig 24 "" 500 0 "", [])) as Hdig by (unfold parse_Digest; by fields).
  assert (parse_Retention environ = (mkRetentionConfig 90 168 24, [])) as Hret
    by (unfold parse_Retention; by fields).
  assert (parse_IMAP environ = (cfg_IMAP (default_config true), [])) as Himap.
  { unfold parse_IMAP. tagged_is env_bool env_bool_words. by fields. }
  assert (parse_Anthropic environ = (cfg_Anthropic (default_config true), [])) as Hllm.
  { unfold parse_Anthropic. tagged_is env_float64 env_float64_decimal. by fields. }
  assert (parse_Document environ = (cfg_Document (default_config true), [])) as Hdoc'.
  { unfold parse_Document. tagged_is env_int64 env_int64_decimal. tagged_is env_strings env_strings_commas.
    by fields. }
  assert (parse_Reply environ = (cfg_Reply (default_config enabled), [])) as Hrep.
  { unfold parse_Reply. rewrite Hswitch. by fields. }
  unfold env_Parse. rewrite Hhttp, Hlog, Hsmtp, Hmail, Hesc, Hdig, Hret, Himap, Hllm, Hdoc', Hrep.
  tagged_is env_float64 env_float64_decimal. by fields.
Qed.

Lemma Load_documented : Load environ = Ok (default_config enabled).
Proof. unfold Load. rewrite env_Parse_documented. reflexivity. Qed.
End documented.

(** ** What [Load] returns *)

(** Whoever sets some of the documented values, or none, gets the documented defaults:
    the mailbox, the mail server and the model are off, and everything validates. *)
Theorem Load_defaults (L : GoLib) (EL : EnvLib) (laws : EnvLaws EL) (environ : gmap string string) :
  environ ⊆ env_example → Load environ = Ok (default_config true).
Proof.
  intros Hsub.
  assert (∀ name, environ !! name = None ∨ environ !! name = env_example !! name) as Hdoc.
  { intros name. destruct (environ !! name) as [v|] eqn:En; [right|by left]. symmetry. by eapply lookup_weaken. }
  apply Load_documented; [by intros|]. apply tagged_default; [done| |].
  - unfold untouched. destruct (Hdoc "REPLIES_ENABLED") as [->| ->]; [by left|by right].
  - by rewrite (proj1 env_bool_words).
Qed.

(** The kill switch turns the replies off and changes nothing else. *)
Theorem Load_kill_switch (L : GoLib) (EL : EnvLib) (laws : EnvLaws EL) (environ : gmap string string) :
  environ ⊆ env_example →
  Load (<[ "REPLIES_ENABLED" := "false" ]> environ) = Ok (default_config false).
Proof.
  intros Hsub. apply Load_documented.
  - intros name Hn. rewrite lookup_insert_ne by done.
    destruct (environ !! name) as [v|] eqn:En; [right|by left]. symmetry. by eapply lookup_weaken.
  - unfold tagged. rewrite lookup_insert_eq, env_set, (proj2 env_bool_words) by done. done.
Qed.

(** A configuration that is loaded is usable, and nothing usable is refused. *)
Theorem Load_Ok (L : GoLib) (EL : EnvLib) (environ : gmap string string) (c : Config) :
  Load environ = Ok c ↔ env_Parse environ = (c, []) ∧ config_ok c.
Proof.
  rewrite <-Validate_spec. unfold Load. destruct (env_Parse environ) as [c' [|b bad]].
  - destruct (Validate c') as [[]|e] eqn:Ev; split.
    + by intros [= <-].
    + by intros [[= <-] _].
    + done.
    + intros [[= <-] Hv]. by rewrite Hv in Ev.
  - split; [done|by intros [? _]].
Qed.

(** ** A library that keeps the promises *)

Definition env_std : EnvLib := {|
  env_value v def := match v with None | Some "" => def | Some text => Some text end;
  env_int text := match Atoi text with
                  | Some n => if (- 2 ^ 31 <=? n) && (n <? 2 ^ 31) then Some n else None
                  | None => None
                  end;
  env_int64 := Atoi;
  env_float64 text := if bool_decide (text = "10.00") then Some (f64_of_Z 10)
                      else if bool_decide (text = "0.80") then Some (f64_ratio 80 100) else None;
  env_bool text := if bool_decide (text = "true") then Some true
                   else if bool_decide (text = "false") then Some false else None;
  env_strings text := Some (if bool_decide (text = "") then [] else Split text ","%char);
  env_error bad := ErrNew (Join bad "; ") |}.

#[export] Instance env_std_laws : EnvLaws env_std.
Proof.
  split; cbn; try done.
  - by intros [|] ? ?.
  - by left.
  - intros text n -> Hr. by destruct (Z.leb_spec (- 2 ^ 31) n), (Z.ltb_spec n (2 ^ 31)); try lia.
  - intros text Ht. by rewrite bool_decide_false.
Qed.

Lemma Load_defaults_witness (L : GoLib) :
  Load (EL := env_std) (<[ "HTTP_PORT" := "8080" ]> ∅) = Ok (default_config true).
Proof. apply (Load_defaults L env_std env_std_laws). by apply insert_subseteq_l, map_empty_subseteq. Qed.

(** A number out of range is refused by name, one out of the port range by validation. *)
Lemma Load_refuses (L : GoLib) :
  Load (EL := env_std) (<[ "HTTP_PORT" := "http" ]> ∅) =
    Err (ErrWrap "parse config from environment" (ErrNew "HTTP_PORT")) ∧
  Load (EL := env_std) (<[ "HTTP_PORT" := "80800" ]> ∅) = Err (ErrNew "config: http.port must be in 1..65535").
Proof. split; vm_compute; reflexivity. Qed.
