(* ===== verification/Service.v ===== *)
(** The submissions service: [internal/service/submissions.go], everything below the
    ingest itself: policy inference, thread references, document text, classification,
    identity, checklist evaluation, the reply decision, claims, and the audit trail.

    A method that mutates its [*model.Submission] returns the new value.  The LLM client
    may answer differently at each call, so it is a function of the interaction
    counter. *)
From Stdlib Require Import ZArith Ascii.
From stdpp Require Import base list strings gmap.
From S2P Require Import Prelude GoStrings GoValues Submission Checklist Reply TextUtil Classifier ChecklistStore Tables World Repository OutboxRepo Config.

Open Scope Z_scope.

(** ** Constants and dependencies *)

Definition bodyPolicyScanBytes : nat := 512.

Definition quoteMarkers : list string :=
  [nl +:+ ">"; "-----Original Message-----"; nl +:+ "From:";
   nl +:+ "________________________________"].

Definition policyAliases : list (string * string) :=
  [("general liability", "cgl"); ("cgl", "cgl"); ("business owners", "bop"); ("bop", "bop");
   ("workers' comp", "workers_compensation"); ("workers comp", "workers_compensation");
   ("property", "commercial_property"); ("cyber", "cyber_liability")].

Definition defaultOutboxRetryAfter : duration := 2 * Minute.
Definition defaultOutboxMaxAttempts : Z := 10.
Definition defaultOutboxBatch : Z := 100.
Definition defaultDigestMaxRows : Z := 500.
Definition sweepBatch : Z := 100.
Definition missingAttachmentItemID : string := "missing_attachment".

Definition maxExtractedTextBytes : nat := Z.to_nat (256 * 1024).
Definition pdfTrailerScanBytes : nat := Z.to_nat (4 * 1024).
Definition pdfExtension : string := ".pdf".

(** The strings of [FieldType]. *)
Definition field_type_string (t : FieldType) : string :=
  match t with FieldTypeNumber => "number" | FieldTypeString => "string" end.

(** A text extractor; [None] when it panics. *)
Definition TextExtractor : Type := string → option (result string).

Record Service : Type := mkService {
  sv_cfg : Config;
  sv_checklists : Store;
  sv_extractors : gmap string TextExtractor;
  sv_llm : option Client;
  sv_mailName : string;
  sv_queue : Z;
  sv_coalesceWindow : duration;
  sv_outboxRetryAfter : duration;
  sv_outboxMaxAttempts : Z;
  sv_outboxBatch : Z }.

Definition NewSubmissionsService (cfg : Config) (st : Store) (ext : gmap string TextExtractor)
    (llm : option Client) (mailName : string) : Service :=
  let queue := if cfg.(cfg_Reply).(rpl_QueueSize) <=? 0 then 64 else cfg.(cfg_Reply).(rpl_QueueSize) in
  mkService cfg st ext llm mailName queue (CoalesceWindow cfg.(cfg_Reply)) defaultOutboxRetryAfter
    defaultOutboxMaxAttempts defaultOutboxBatch.

Record IngestRequest : Type := mkIngestRequest {
  rq_MessageID : string;
  rq_InReplyTo : string;
  rq_References : list string;
  rq_FromAddress : string;
  rq_FromName : string;
  rq_ReplyTo : string;
  rq_ToAddresses : list string;
  rq_Subject : string;
  rq_BodyText : string;
  rq_ReceivedAt : time;
  rq_Attachments : list Attachment;
  rq_Source : string;
  rq_AutoSubmitted : bool;
  rq_AutoResponseHeaders : list (string * string);
  rq_Bounce : bool;
  rq_BouncePermanent : bool }.

Definition rq_with_ReceivedAt (t : time) (r : IngestRequest) : IngestRequest :=
  mkIngestRequest r.(rq_MessageID) r.(rq_InReplyTo) r.(rq_References) r.(rq_FromAddress)
    r.(rq_FromName) r.(rq_ReplyTo) r.(rq_ToAddresses) r.(rq_Subject) r.(rq_BodyText) t
    r.(rq_Attachments) r.(rq_Source) r.(rq_AutoSubmitted) r.(rq_AutoResponseHeaders)
    r.(rq_Bounce) r.(rq_BouncePermanent).

Record IngestResult : Type := mkIngestResult {
  ir_SubmissionID : string;
  ir_State : State;
  ir_IsDuplicate : bool;
  ir_PolicyUnknown : bool;
  ir_NeedsReview : bool;
  ir_MissingItems : list MissingItem;
  ir_ReplyQueued : bool }.

(** ** Pure helpers *)

Section helpers.
Context {L : GoLib}.

Definition attachment_hash (a : Attachment) : string :=
  if bool_decide (a.(att_SHA256) = "") then sha256_hex a.(att_Content) else a.(att_SHA256).

Definition computeEmailID (messageID body : string) (atts : list Attachment) : string :=
  sha256_hex (messageID +:+ String nul "" +:+ body +:+
              nul_prefixed (sort_Strings (map attachment_hash atts))).

(** The non-empty trimmed references, first occurrences. *)
Definition cleanThreadRefs (messageID inReplyTo : string) (references : list string) : list string :=
  distinct (nonEmpty (messageID :: inReplyTo :: references)).

(** The closure [consider]: earliest occurrence wins, earlier candidates on a tie. *)
Definition consider (lower : string) (best : string * option nat) (cand : string * string)
  : string * option nat :=
  let '(needle, policy) := cand in
  if bool_decide (needle = "") then best
  else match Index lower (ToLower needle) with
       | None => best
       | Some i =>
         match best.2 with
         | Some bestAt => if (bestAt <=? i)%nat then best else (policy, Some i)
         | None => (policy, Some i)
         end
       end.

Definition policy_candidates (all : list Checklist) : list (string * string) :=
  flat_map (λ c, [(c.(cl_Name), c.(cl_PolicyType)); (c.(cl_PolicyType), c.(cl_PolicyType))]) all ++
  policyAliases.

Definition inferPolicyType (text : string) (all : list Checklist) : string :=
  (foldl (consider (ToLower text)) (PolicyTypeUnknown, None) (policy_candidates all)).1.

Definition cut_at (body marker : string) : string :=
  match Index body marker with Some i => stake i body | None => body end.

Definition replyBodyPrefix (body : string) : string :=
  stake bodyPolicyScanBytes (foldl cut_at body quoteMarkers).

Definition inboundEmail (req : IngestRequest) (emailID submissionID : string) : Email :=
  mkEmail emailID submissionID DirectionInbound req.(rq_MessageID) req.(rq_InReplyTo)
    req.(rq_References) req.(rq_FromAddress) req.(rq_FromName) req.(rq_ReplyTo)
    req.(rq_ToAddresses) req.(rq_Subject) req.(rq_BodyText) req.(rq_ReceivedAt) ""
    req.(rq_Attachments).

Definition outboundEmail (r : Reply) (providerMsgID : string) (now : time) : Email :=
  let z := String nul "" in
  let key := if bool_decide (providerMsgID = "")
             then r.(rep_SubmissionID) +:+ z +:+ r.(rep_ToAddress) +:+ z +:+ r.(rep_Subject) +:+ z +:+
                  r.(rep_BodyText)
             else r.(rep_SubmissionID) +:+ z +:+ providerMsgID in
  mkEmail (sha256_hex key) r.(rep_SubmissionID) DirectionOutbound providerMsgID r.(rep_InReplyTo)
    r.(rep_References) "" "" "" [r.(rep_ToAddress)] r.(rep_Subject) r.(rep_BodyText) now
    providerMsgID [].

(** *** Document text *)

Definition normalizeContentType (contentType : string) : string :=
  match ParseMediaType contentType with
  | Some (mt, _) => mt
  | None => ToLower (TrimSpace contentType)
  end.

Definition isPDF (contentType : string) : bool :=
  let ct := normalizeContentType contentType in
  bool_decide (ct = "application/pdf") || bool_decide (ct = "application/x-pdf").

Definition pdfTrailer (content : string) : string :=
  sdrop (String.length content - pdfTrailerScanBytes) content.

Definition looksLikePDF (a : Attachment) : bool :=
  if bool_decide (a.(att_Content) = "") then false
  else if isPDF a.(att_ContentType) || HasSuffix (ToLower a.(att_Filename)) pdfExtension then true
  else HasPrefix a.(att_Content) "%PDF-".

Definition isEncrypted (a : Attachment) : bool :=
  if negb (looksLikePDF a) then false else Contains (pdfTrailer a.(att_Content)) "/Encrypt".

Definition extractText (svc : Service) (a : Attachment) : string :=
  if bool_decide (a.(att_Content) = "") then ""
  else
    let ct := normalizeContentType a.(att_ContentType) in
    match svc.(sv_extractors) !! ct with
    | None => if HasPrefix ct "text/" then a.(att_Content) else ""
    | Some ext => match ext a.(att_Content) with
                  | Some (Ok out) => out
                  | Some (Err _) | None => ""
                  end
    end.

Definition isUnreadable (svc : Service) (a : Attachment) (text : string) : bool :=
  let ct := normalizeContentType a.(att_ContentType) in
  if HasPrefix ct "text/" then false
  else match svc.(sv_extractors) !! ct with
       | None => true
       | Some _ =>
         if negb (isPDF a.(att_ContentType)) then false
         else if a.(att_Size) <? svc.(sv_cfg).(cfg_Document).(dcf_UnreadableMinSizeBytes) then false
         else len (TrimSpace text) <? svc.(sv_cfg).(cfg_Document).(dcf_UnreadableMinChars)
       end.

(** *** Account identity *)

Definition applicationItemIDs : list string := ["acord_125"; "acord_130"; "cyber_application"].

Definition effectiveDateFormats : list string :=
  ["2006-01-02"; "01/02/2006"; "1/2/2006"; "2006/01/02"; "January 2, 2006"; "Jan 2, 2006";
   "02-Jan-2006"; "2 January 2006"].

Definition is_application (d : Document) : bool :=
  bool_decide (d.(doc_ClassifiedAs) ∈ applicationItemIDs) && negb d.(doc_Unreadable) &&
  negb d.(doc_Encrypted) && negb (bool_decide (TrimSpace d.(doc_ExtractedText) = "")).

Definition applicationDoc (docs : list Document) : option Document := List.find is_application docs.

Definition named_insured_label : string := "named insured".

Definition cleanInsured (s : string) : string :=
  let s := TrimSpace s in
  if (len s <? 2) || (120 <? len s) then ""
  else
    let low := ToLower s in
    if Contains low named_insured_label || Contains low "mailing address" then "" else s.

Fixpoint first_nonempty (l : list string) : option string :=
  match l with
  | [] => None
  | v :: l => if bool_decide (v = "") then first_nonempty l else Some v
  end.

Definition label_cutset : string := ":.-# " +:+ String "009" "".

(** [line\[i:\]], which panics out of range. *)
Definition slice_from (line : string) (i : nat) : result string :=
  if (String.length line <? i)%nat then Err (ErrPanic "slice bounds out of range")
  else Ok (sdrop i line).

(** The index is found in the lower-cased line and used in the line itself. *)
Fixpoint named_insured_lines (lines : list string) : result string :=
  match lines with
  | [] => Ok ""
  | line :: rest =>
    match Index (ToLower line) named_insured_label with
    | None => named_insured_lines rest
    | Some idx =>
      match slice_from line (idx + String.length named_insured_label) with
      | Err e => Err e
      | Ok after =>
        let v := cleanInsured (TrimSpace (TrimLeft (TrimSpace after) label_cutset)) in
        if bool_decide (v = "") then
          match first_nonempty (map (λ l, cleanInsured (TrimSpace l)) (take 2 rest)) with
          | Some v => Ok v
          | None => named_insured_lines rest
          end
        else Ok v
      end
    end
  end.

Definition namedInsuredFromText (text : string) : result string :=
  named_insured_lines (Split text "010").

Definition parseEffectiveDate (s : string) : option time :=
  let s := TrimSpace s in
  if bool_decide (s = "") then None
  else foldr (λ f k, match time_Parse f s with Some t => Some t | None => k end) None effectiveDateFormats.
End helpers.

Definition opts_of (svc : Service) : ChecklistOptions :=
  mkChecklistOptions svc.(sv_cfg).(cfg_Classifier).(cls_ConfidenceFloor).

Definition policyClarifyExhausted (svc : Service) (sub : Submission) : bool :=
  let maxAsks := svc.(sv_cfg).(cfg_Reply).(rpl_PolicyClarifyMaxAsks) in
  (0 <? maxAsks) && (maxAsks <? sub.(sub_PolicyClarifyAsks)).

Definition replyNotBefore (svc : Service) (sub : Submission) (now : time) : time :=
  if IsZero sub.(sub_LastReplyAt) then now
  else
    let scheduled := Add sub.(sub_LastReplyAt) svc.(sv_coalesceWindow) in
    if After scheduled now then scheduled else now.

Definition knownChecklistNames (svc : Service) : list string :=
  List.filter (λ n, negb (bool_decide (n = ""))) (map cl_Name svc.(sv_checklists).(store_All)).

Definition repliesDisabled (svc : Service) : bool :=
  match svc.(sv_cfg).(cfg_Reply).(rpl_RepliesEnabled) with Some false => true | _ => false end.

Definition reviewDocs (svc : Service) (sub : Submission) : list any :=
  let floor := svc.(sv_cfg).(cfg_Classifier).(cls_ConfidenceFloor) in
  omap (λ d,
    if bool_decide (d.(doc_ClassifiedAs) = "") || (negb d.(doc_Unreadable) && f64_le floor d.(doc_Confidence))
    then None
    else Some (AMap [("document_id", AString d.(doc_ID)); ("filename", AString d.(doc_Filename));
                     ("classified_as", AString d.(doc_ClassifiedAs));
                     ("confidence", AFloat64 d.(doc_Confidence));
                     ("unreadable", ABool d.(doc_Unreadable))])) sub.(sub_Documents).

Section decisions.
Context {L : GoLib} (svc : Service).

Definition looksLikeMissingAttachment (inbound : Email) (broker : list MissingItem) : bool :=
  if bool_decide (inbound.(em_Attachments) ≠ []) || bool_decide (broker = []) then false
  else
    let body := ToLower inbound.(em_BodyText) in
    existsb (λ d, negb (bool_decide (d = "")) && Contains body (ToLower d))
      svc.(sv_cfg).(cfg_Document).(dcf_AttachmentLinkDomains) || Contains body "attach".

Definition missing_attachment_item : MissingItem :=
  mkMissingItem missingAttachmentItemID "" "" ReasonMissingAttachment f64_zero.

(** [None] when no reply is to be sent. *)
Definition buildReply (sub : Submission) (missing : list MissingItem) (inbound : Email)
    (policyUnknown : bool) : option (Reply * string) :=
  if policyUnknown then
    if policyClarifyExhausted svc sub then None
    else Some (BuildPolicyUnknownReply sub inbound (knownChecklistNames svc),
               ReplyFingerprint ReplyKindPolicyUnknown missing)
  else match missing with
       | [] => Some (BuildCompletionReply sub inbound, ReplyFingerprint ReplyKindCompletion [])
       | _ =>
         match BrokerActionable missing with
         | [] => None
         | broker =>
           let broker := if looksLikeMissingAttachment inbound broker
                         then [missing_attachment_item] else broker in
           Some (BuildMissingItemsReply sub broker inbound,
                 ReplyFingerprint ReplyKindMissingItems broker)
         end
       end.
End decisions.

(** ** Audit trail *)

Section effects.
Context {L : GoLib} {E : Env} (svc : Service).

(** Buffered in the ingest's collector when there is one, else written at once. *)
Definition audit (submissionID : string) (evt : EventType) (payload : list (string * any)) : M unit :=
  w ← get;
  let entry := mkAuditEntry "" submissionID evt payload (env_requestID w.(w_tick)) zeroTime in
  match w.(w_collector) with
  | Some es => modify (w_with_collector (Some (es ++ [entry])))
  | None => log_err (Append entry)
  end.

Definition flushAudit : M unit :=
  w ← get;
  match w.(w_collector) with
  | None => mret ()
  | Some es =>
      for_each (λ e, log_err (Append e)) es ≫= λ _, modify (w_with_collector (Some []))
  end.

Definition reparentAudits (from to : string) : M unit :=
  modify (λ w, w_with_collector
    (map (λ e, if bool_decide (e.(ae_SubmissionID) = from)
               then mkAuditEntry e.(ae_ID) to e.(ae_EventType) e.(ae_Payload) e.(ae_RequestID)
                      e.(ae_CreatedAt)
               else e) <$> w.(w_collector)) w).

Definition AuditFileFailed (submissionID folder reason : string) : M unit :=
  audit submissionID EventMailFileFailed [("folder", AString folder); ("error", AString reason)].

(** Once per UTC day, past the collector; a day stands for its rendering. *)
Definition auditCapOnce : M unit :=
  now ← time_Now;
  w ← get;
  if bool_decide (w.(w_cappedDay) = Some (utc_day now)) then mret ()
  else
    modify (w_with_cappedDay (Some (utc_day now))) ≫= λ _,
    r ← attempt (Append (mkAuditEntry "" "" EventLLMCapped [("day", AInt (utc_day now))]
                           (env_requestID w.(w_tick)) zeroTime));
    match r with
    | Ok _ => mret ()
    | Err _ => modify (w_with_cappedDay None)
    end.

Definition auditLLMCall (submissionID op filename : string) (u : Usage) : M unit :=
  if bool_decide (u.(us_PromptHash) = "") && (u.(us_InputTokens) =? 0) && (u.(us_OutputTokens) =? 0)
  then mret ()
  else audit submissionID EventLLMCall
    [("op", AString op); ("filename", AString filename); ("model", AString u.(us_Model));
     ("prompt_hash", AString u.(us_PromptHash)); ("latency_ms", AInt64 u.(us_LatencyMs));
     ("input_tokens", AInt u.(us_InputTokens)); ("output_tokens", AInt u.(us_OutputTokens));
     ("estimated_cost_usd", AFloat64 u.(us_EstimatedCostUSD))].

(** ** Claims and the worker queue *)

Definition claimDispatch (submissionID : string) : M bool :=
  w ← get;
  if bool_decide (submissionID ∈ w.(w_dispatching)) then mret false
  else modify (λ w, w_with_dispatching ({[submissionID]} ∪ w.(w_dispatching)) w) ≫= λ _, mret true.

Definition releaseDispatch (submissionID : string) : M unit :=
  modify (λ w, w_with_dispatching (w.(w_dispatching) ∖ {[submissionID]}) w).

Definition enqueueReply (job : replyJob) : M bool :=
  w ← get;
  if w.(w_closed) then mret false
  else if Z.of_nat (length w.(w_jobs)) <? svc.(sv_queue)
       then modify (λ w, w_with_jobs (w.(w_jobs) ++ [job]) w) ≫= λ _, mret true
       else mret false.

(** ** Classification of attachments *)

Definition extractField (submissionID filename text : string) (rf : RequiresField) : M any :=
  match svc.(sv_llm) with
  | None => mret ANil
  | Some c =>
    answer ← c.(llm_ExtractField)
      (mkFieldExtractionRequest filename text rf.(rf_Name)
         ("expected type " +:+ field_type_string rf.(rf_Type)) (field_type_string rf.(rf_Type)));
    let '(resp, err) := answer : FieldExtractionResponse * option error in
    auditLLMCall submissionID "extract_field" filename resp.(fr_Usage) ≫= λ _,
    match err with
    | Some e =>
      if errors_Is e ErrSpendCapReached then auditCapOnce ≫= λ _, mret ANil
      else
        audit submissionID EventLLMFailed
          [("filename", AString filename); ("op", AString "extract_field");
           ("field_name", AString rf.(rf_Name)); ("error", AString (error_text e))] ≫= λ _, mret ANil
    | None =>
        audit submissionID EventFieldExtracted
          [("filename", AString filename); ("field_name", AString rf.(rf_Name));
           ("value", resp.(fr_Value)); ("confidence", AFloat64 resp.(fr_Confidence));
           ("reason", AString resp.(fr_Reason))] ≫= λ _, mret resp.(fr_Value)
    end
  end.

Definition item_by_id (cl : Checklist) (id : string) : option RequiredItem :=
  List.find (λ i, bool_decide (i.(ri_ID) = id)) (rev cl.(cl_Required)).

Definition classifyAttachment (subID : string) (e : Email) (cl : Checklist) (a : Attachment)
  : M Document :=
  let text := extractText svc a in
  let encrypted := isEncrypted a && bool_decide (TrimSpace text = "") in
  let unreadable := negb encrypted && isUnreadable svc a text in
  verdict ← Classify svc.(sv_llm) (mkInput a.(att_Filename) a.(att_ContentType) text cl.(cl_PolicyType) cl);
  let '(result, err) := verdict : Result * option error in
  (if result.(res_Capped) then auditCapOnce else mret ()) ≫= λ _,
  match err with
  | Some e' => audit subID EventLLMFailed
      [("filename", AString a.(att_Filename)); ("op", AString "classify");
       ("error", AString (error_text e'))]
  | None => mret ()
  end ≫= λ _,
  match result.(res_Usage) with
  | Some u => auditLLMCall subID "classify" a.(att_Filename) u
  | None => mret ()
  end ≫= λ _,
  id ← NewString;
  now ← time_Now;
  let doc := mkDocument id subID e.(em_DeterministicID) a.(att_Filename) a.(att_ContentType)
    a.(att_Size) a.(att_SHA256) result.(res_CandidateID) result.(res_Confidence) result.(res_By)
    (TruncateBytes text maxExtractedTextBytes) None unreadable encrypted now in
  audit subID EventDocumentClassified
    [("filename", AString a.(att_Filename)); ("classified_as", AString result.(res_CandidateID));
     ("confidence", AFloat64 result.(res_Confidence)); ("by", AString result.(res_By));
     ("reason", AString result.(res_Reason))] ≫= λ _,
  (if unreadable then audit subID EventDocumentUnreadable
     [("filename", AString a.(att_Filename)); ("size_bytes", AInt a.(att_Size));
      ("extracted_chars", AInt (len (TrimSpace text)))]
   else mret ()) ≫= λ _,
  (if encrypted then audit subID EventDocumentEncrypted
     [("filename", AString a.(att_Filename)); ("size_bytes", AInt a.(att_Size))]
   else mret ()) ≫= λ _,
  match item_by_id cl result.(res_CandidateID) with
  | Some item =>
    match item.(ri_RequiresField) with
    | Some rf =>
      extracted ← extractField subID a.(att_Filename) text rf;
      match extracted with
      | ANil => mret doc
      | v => mret (doc_with_ExtractedFields (Some {[ rf.(rf_Name) := v ]}) doc)
      end
    | None => mret doc
    end
  | None => mret doc
  end.

Fixpoint classifyAttachments (subID : string) (e : Email) (cl : Checklist) (atts : list Attachment)
  : M (list Document) :=
  match atts with
  | [] => mret []
  | a :: atts =>
      d ← classifyAttachment subID e cl a;
      ds ← classifyAttachments subID e cl atts;
      mret (d :: ds)
  end.

(** ** Identity *)

Definition extractIdentity (sub : Submission) : M Submission :=
  if negb (bool_decide (sub.(sub_NamedInsured) = "")) then mret sub
  else match applicationDoc sub.(sub_Documents) with
  | None => mret sub
  | Some doc =>
    ne ← match svc.(sv_llm) with
         | None => mret ("", "")
         | Some c =>
           answer ← c.(llm_ExtractIdentity) (mkIdentityRequest doc.(doc_Filename) doc.(doc_ExtractedText));
           let '(resp, err) := answer : IdentityResponse * option error in
           auditLLMCall sub.(sub_ID) "extract_identity" doc.(doc_Filename) resp.(ir_Usage) ≫= λ _,
           match err with
           | Some e =>
             if errors_Is e ErrSpendCapReached then auditCapOnce ≫= λ _, mret ("", "")
             else audit sub.(sub_ID) EventLLMFailed
                    [("filename", AString doc.(doc_Filename)); ("op", AString "extract_identity");
                     ("error", AString (error_text e))] ≫= λ _, mret ("", "")
           | None => mret (resp.(ir_NamedInsured), resp.(ir_EffectiveDate))
           end
         end;
    let '(named, effective) := ne : string * string in
    named ← (if bool_decide (named = "") then
               match namedInsuredFromText doc.(doc_ExtractedText) with
               | Ok v => mret v
               | Err e => throw e
               end
             else mret named);
    if bool_decide (named = "") then mret sub
    else
      let sub := sub_with_NamedInsured named sub in
      let sub := match parseEffectiveDate effective with
                 | Some t => sub_with_EffectiveDate (Some t) sub
                 | None => sub
                 end in
      audit sub.(sub_ID) EventIdentityExtracted
        [("named_insured", AString named); ("effective_date", AString effective)] ≫= λ _, mret sub
  end.

(** ** Evaluation *)

Definition resolvePolicyType (sub : Submission) (inbound : Email) : M Submission :=
  match svc.(sv_checklists).(store_Get) sub.(sub_PolicyType) with
  | Some _ => mret sub
  | None =>
    let all := svc.(sv_checklists).(store_All) in
    let bySubject := inferPolicyType inbound.(em_Subject) all in
    let resolved := if bool_decide (bySubject = PolicyTypeUnknown)
                    then inferPolicyType (replyBodyPrefix inbound.(em_BodyText)) all else bySubject in
    if bool_decide (resolved = PolicyTypeUnknown) then mret sub
    else
      let sub := sub_with_PolicyType resolved sub in
      audit sub.(sub_ID) EventPolicyResolved
        [("policy_type", AString resolved); ("asks", AInt sub.(sub_PolicyClarifyAsks))] ≫= λ _, mret sub
  end.

(** The submission, what it is missing, and whether no checklist matched. *)
Definition evaluate (sub : Submission) (inbound : Email)
  : M (Submission * list MissingItem * bool) :=
  sub ← resolvePolicyType sub inbound;
  r ← match svc.(sv_checklists).(store_Get) sub.(sub_PolicyType) with
      | None =>
        let sub := sub_with_PolicyClarifyAsks (wrap64 (sub.(sub_PolicyClarifyAsks) + 1))
                     (sub_with_PolicyType PolicyTypeUnknown sub) in
        audit sub.(sub_ID) EventPolicyUnknown
          [("subject_hint", AString inbound.(em_Subject)); ("asks", AInt sub.(sub_PolicyClarifyAsks))] ≫= λ _,
        mret (sub, [PolicyUnknownItem], true)
      | Some cl =>
        docs ← classifyAttachments sub.(sub_ID) inbound cl inbound.(em_Attachments);
        let sub := foldl (λ s d, AttachDocument d s) sub docs in
        mret (sub, EvaluateChecklist sub cl (opts_of svc), false)
      end;
  let '(sub, missing, policyUnknown) := r : Submission * list MissingItem * bool in
  let sub := sub_with_MissingItems missing sub in
  audit sub.(sub_ID) EventChecklistEvaluated
    [("policy_type", AString sub.(sub_PolicyType)); ("missing_count", AInt (Z.of_nat (length missing)));
     ("missing_ids", AList (map (λ m, AString m.(mi_ID)) missing))] ≫= λ _,
  mret (sub, missing, policyUnknown).

Definition next_state (missing : list MissingItem) : State :=
  match missing with [] => StateComplete | _ => StateAwaiting end.

Definition transitionState (sub : Submission) (missing : list MissingItem) : M Submission :=
  let prev := sub.(sub_State) in
  now ← time_Now;
  match TransitionTo sub (next_state missing) now with
  | Err e => throw (ErrWrap "transition" e)
  | Ok sub =>
    (if bool_decide (prev = sub.(sub_State)) then mret ()
     else audit sub.(sub_ID) EventStateTransitioned
            [("from", AString (state_string prev)); ("to", AString (state_string sub.(sub_State)))]) ≫= λ _,
    mret sub
  end.

Definition createSubmission (req : IngestRequest) : M Submission :=
  let policy := inferPolicyType req.(rq_Subject) svc.(sv_checklists).(store_All) in
  let threadKey := match req.(rq_References) with r :: _ => r | [] => req.(rq_MessageID) end in
  id ← NewString;
  now ← time_Now;
  let sub := NewSubmission id policy req.(rq_Subject) req.(rq_FromAddress) req.(rq_FromName) threadKey now in
  audit sub.(sub_ID) EventStateTransitioned
    [("from", AString ""); ("to", AString (state_string sub.(sub_State))); ("note", AString "created")] ≫= λ _,
  mret sub.

(** Whether replies are blocked for this submission, auditing why. *)
Definition replySuppressed (sub : Submission) : M bool :=
  if repliesDisabled svc then
    audit sub.(sub_ID) EventReplyDisabled [("reason", AString "kill_switch")] ≫= λ _, mret true
  else if sub.(sub_DeliveryFailed) then
    audit sub.(sub_ID) EventReplySuppressed [("reason", AString "delivery_failed")] ≫= λ _, mret true
  else if sub.(sub_OnHold) then
    audit sub.(sub_ID) EventReplySuppressed [("reason", AString "on_hold")] ≫= λ _, mret true
  else mret false.
End effects.
