(* ===== verification/Ingest.v ===== *)
(** The ingest: [IngestEmail] of [internal/service/submissions.go], from resolving the
    thread to committing the submission with its reply.

    [ingest_body] is the body of [ingestEmailInner] between installing the audit
    collector and the deferred flush.  Parallel deliveries of one message are collapsed
    by [singleflight] before it, so a run is one delivery. *)
From Stdlib Require Import ZArith.
From stdpp Require Import base list strings gmap.
From S2P Require Import Prelude GoStrings GoValues Submission Checklist Reply Classifier ChecklistStore Tables World Repository OutboxRepo Config Service.

Open Scope Z_scope.

Section ingest.
Context {L : GoLib} {E : Env} (svc : Service).

Definition audit_duplicate (id emailID source : string) : M unit :=
  audit id EventEmailDuplicate [("deterministic_id", AString emailID); ("source", AString source)].

Definition duplicate_result (s : Submission) : IngestResult :=
  mkIngestResult s.(sub_ID) s.(sub_State) true false false [] false.

(** The submission the email belongs to, or the result of a duplicate. *)
Definition resolveSubmission (req : IngestRequest) (emailID : string) : M (Submission + IngestResult) :=
  let refs := cleanThreadRefs req.(rq_MessageID) req.(rq_InReplyTo) req.(rq_References) in
  r ← attempt (FindByEmailReference refs);
  match (r : result (Submission * bool)) with
  | Ok (found, ambiguous) =>
    if bool_decide (emailID ∈ map em_DeterministicID found.(sub_Emails)) then
      audit_duplicate found.(sub_ID) emailID req.(rq_Source) ≫= λ _, mret (inr (duplicate_result found))
    else
      (if ambiguous then
         audit found.(sub_ID) EventThreadAmbiguous [("refs", AList (map AString refs))]
       else mret ()) ≫= λ _,
      audit found.(sub_ID) EventThreadMatched
        [("matched_by", AString "thread_headers"); ("message_id", AString req.(rq_MessageID))] ≫= λ _,
      mret (inl found)
  | Err e =>
    if errors_Is e ErrSubmissionNotFound then
      d ← attempt (FindByDeterministicID emailID);
      match (d : result Submission) with
      | Ok existing =>
        audit_duplicate existing.(sub_ID) emailID req.(rq_Source) ≫= λ _,
        mret (inr (duplicate_result existing))
      | Err de =>
        if negb (errors_Is de ErrSubmissionNotFound) then
          throw (ErrWrap "dedup by deterministic id" de)
        else
          created ← wrap_err "create submission" (createSubmission svc req);
          mret (inl created)
      end
    else throw (ErrWrap "find by reference" e)
  end.

Definition reevaluate (existing : Submission) : Submission :=
  match svc.(sv_checklists).(store_Get) existing.(sub_PolicyType) with
  | Some cl => sub_with_MissingItems (EvaluateChecklist existing cl (opts_of svc)) existing
  | None => existing
  end.

(** The existing submission with the new one's email and documents. *)
Definition merge_into (existing newSub : Submission) (inbound : Email) : Submission :=
  let existing := AttachEmail (em_with_SubmissionID existing.(sub_ID) inbound) existing in
  let existing := foldl (λ s d, AttachDocument (doc_with_SubmissionID s.(sub_ID) d) s)
                    existing newSub.(sub_Documents) in
  if bool_decide (existing.(sub_NamedInsured) = "")
  then sub_with_EffectiveDate newSub.(sub_EffectiveDate)
         (sub_with_NamedInsured newSub.(sub_NamedInsured) existing)
  else existing.

Definition contentMatch (newSub : Submission) (inbound : Email) : M (option Submission) :=
  if bool_decide (newSub.(sub_NamedInsured) = "") then mret None
  else
    now ← time_Now;
    let cutoff := UnixNano (Add now (dur_neg (MatchWindow svc.(sv_cfg).(cfg_Threading)))) in
    r ← attempt (FindContentMatch newSub.(sub_NamedInsured) newSub.(sub_FromAddress) cutoff);
    match (r : result Submission) with
    | Err _ => mret None
    | Ok existing =>
      reparentAudits newSub.(sub_ID) existing.(sub_ID) ≫= λ _,
      let existing := merge_into existing newSub inbound in
      now ← time_Now;
      let existing := reevaluate (MarkAction now existing) in
      audit existing.(sub_ID) EventThreadMatchedByContent
        [("named_insured", AString existing.(sub_NamedInsured));
         ("from", AString existing.(sub_FromAddress));
         ("email_id", AString inbound.(em_DeterministicID))] ≫= λ _,
      mret (Some existing)
    end.

Definition persistSuppressed (sub : Submission) (headers : list (string * string))
    (res : IngestResult) : M IngestResult :=
  wrap_err "persist suppressed submission" (UpsertSubmission sub) ≫= λ _,
  audit sub.(sub_ID) EventReplySuppressed
    [("reason", AString "auto_submitted");
     ("headers", AMap (map (λ kv, (kv.1, AString kv.2)) headers))] ≫= λ _,
  mret res.

Definition persistBounce (sub : Submission) (req : IngestRequest) : M IngestResult :=
  let sub := if req.(rq_BouncePermanent)
             then sub_with_NeedsReview true (sub_with_DeliveryFailed true sub) else sub in
  audit sub.(sub_ID) EventReplyBounced
    [("from", AString req.(rq_FromAddress)); ("permanent", ABool req.(rq_BouncePermanent))] ≫= λ _,
  wrap_err "persist bounce" (UpsertSubmission sub) ≫= λ _,
  mret (mkIngestResult sub.(sub_ID) sub.(sub_State) false false sub.(sub_NeedsReview) [] false).

Definition persistNoReply (sub : Submission) (res : IngestResult) : M IngestResult :=
  wrap_err "persist submission" (UpsertSubmission sub) ≫= λ _, mret res.

Definition with_reply_queued (r : IngestResult) : IngestResult :=
  mkIngestResult r.(ir_SubmissionID) r.(ir_State) r.(ir_IsDuplicate) r.(ir_PolicyUnknown)
    r.(ir_NeedsReview) r.(ir_MissingItems) true.

(** Queues [reply]: the claim, the transaction, then the online dispatch when due. *)
Definition queue_reply (sub : Submission) (reply : Reply) (fingerprint : string) (res : IngestResult)
  : M IngestResult :=
  let sub := sub_with_LastReplyHash fingerprint sub in
  now ← time_Now;
  let notBefore := replyNotBefore svc sub now in
  id ← NewString;
  let entry := mkOutboxEntry id sub.(sub_ID) reply OutboxPending 0 "" zeroTime zeroTime notBefore in
  claimed ← claimDispatch sub.(sub_ID);
  r ← attempt (UpsertSubmissionWithReply sub entry);
  match (r : result OutboxEntry) with
  | Err e =>
    (if (claimed : bool) then releaseDispatch sub.(sub_ID) else mret ()) ≫= λ _,
    throw (ErrWrap "persist submission with reply" e)
  | Ok entry =>
    let res := with_reply_queued res in
    queued ← (if (claimed : bool) && negb (After notBefore now)
              then enqueueReply svc (mkReplyJob reply sub.(sub_ID) entry.(oe_ID) entry.(oe_UpdatedAt))
              else mret false);
    if (queued : bool) then mret res
    else (if (claimed : bool) then releaseDispatch sub.(sub_ID) else mret ()) ≫= λ _, mret res
  end.

(** From the reply decision to the commit. *)
Definition reply_or_persist (sub : Submission) (missing : list MissingItem) (inbound : Email)
    (policyUnknown : bool) (res : IngestResult) : M IngestResult :=
  match buildReply svc sub missing inbound policyUnknown with
  | None => persistNoReply sub res
  | Some (reply, fingerprint) =>
    suppressed ← replySuppressed svc sub;
    if (suppressed : bool) then persistNoReply sub res
    else if bool_decide (fingerprint = sub.(sub_LastReplyHash)) then
      audit sub.(sub_ID) EventReplySuppressed [("reason", AString "unchanged")] ≫= λ _,
      persistNoReply sub res
    else queue_reply sub reply fingerprint res
  end.

(** The review flag and the state, once the checklist was evaluated. *)
Definition settle (sub : Submission) (missing : list MissingItem) : M Submission :=
  let prevReview := sub.(sub_NeedsReview) in
  let sub := sub_with_NeedsReview (RequiresReview missing || policyClarifyExhausted svc sub) sub in
  (if sub.(sub_NeedsReview) && negb prevReview
   then audit sub.(sub_ID) EventNeedsReview [("documents", AList (reviewDocs svc sub))]
   else mret ()) ≫= λ _,
  transitionState sub missing.

(** The email attached, the clocks moved and a past bounce forgotten. *)
Definition attach_inbound (sub : Submission) (req : IngestRequest) (emailID : string) (inbound : Email)
  : M Submission :=
  let sub := AttachEmail inbound sub in
  sub ← (if negb req.(rq_AutoSubmitted) && negb req.(rq_Bounce)
         then now ← time_Now; mret (MarkAction now sub) else mret sub);
  sub ← (if negb req.(rq_Bounce) && sub.(sub_DeliveryFailed)
         then audit sub.(sub_ID) EventDeliveryRetried [("from", AString req.(rq_FromAddress))] ≫= λ _,
              mret (sub_with_DeliveryFailed false sub)
         else mret sub);
  audit sub.(sub_ID) EventEmailReceived
    [("deterministic_id", AString emailID); ("message_id", AString req.(rq_MessageID));
     ("attachment_count", AInt (Z.of_nat (length req.(rq_Attachments))));
     ("source", AString req.(rq_Source))] ≫= λ _,
  mret sub.

(** Evaluation, identity and content threading. *)
Definition evaluate_and_thread (sub : Submission) (inbound : Email) (newSubmission : bool)
  : M (Submission * list MissingItem * bool) :=
  r ← evaluate svc sub inbound;
  let '(sub, missing, policyUnknown) := r : Submission * list MissingItem * bool in
  sub ← (if policyUnknown then mret sub else extractIdentity svc sub);
  merged ← (if newSubmission then contentMatch sub inbound else mret None);
  match merged with
  | Some m => mret (m, m.(sub_MissingItems), bool_decide (m.(sub_PolicyType) = PolicyTypeUnknown))
  | None => mret (sub, missing, policyUnknown)
  end.

Definition ingest_body (req : IngestRequest) (emailID : string) : M IngestResult :=
  r ← resolveSubmission req emailID;
  match (r : Submission + IngestResult) with
  | inr dup => mret dup
  | inl sub =>
    let newSubmission := bool_decide (sub.(sub_Emails) = []) in
    let inbound := inboundEmail req emailID sub.(sub_ID) in
    sub ← attach_inbound sub req emailID inbound;
    if req.(rq_Bounce) then persistBounce sub req
    else
      r ← evaluate_and_thread sub inbound newSubmission;
      let '(sub, missing, policyUnknown) := r : Submission * list MissingItem * bool in
      sub ← settle sub missing;
      let res := mkIngestResult sub.(sub_ID) sub.(sub_State) false policyUnknown
                   sub.(sub_NeedsReview) missing false in
      if req.(rq_AutoSubmitted) then persistSuppressed sub req.(rq_AutoResponseHeaders) res
      else reply_or_persist sub missing inbound policyUnknown res
  end.

(** The collector lives for the ingest and is flushed on every exit, panics included. *)
Definition ingestEmailInner (req : IngestRequest) (emailID : string) : M IngestResult := λ w,
  let '(r, w) := ingest_body req emailID (w_with_collector (Some []) w) in
  let w := (flushAudit w).2 in
  (r, w_with_collector None w).

Definition IngestEmail (req : IngestRequest) : M IngestResult :=
  req ← (if IsZero req.(rq_ReceivedAt)
         then now ← time_Now; mret (rq_with_ReceivedAt now req) else mret req);
  ingestEmailInner req (computeEmailID req.(rq_MessageID) req.(rq_BodyText) req.(rq_Attachments)).
End ingest.
