(* ===== verification/Delivery.v ===== *)
(** Delivery of replies: [deliver], the online worker and the outbox sweep of
    [internal/service/submissions.go] and [outbox_worker.go].

    [w_sent] records what the mail server accepted. *)
From Stdlib Require Import ZArith.
From stdpp Require Import base list strings gmap.
From S2P Require Import Prelude GoStrings GoValues Submission Checklist Classifier ChecklistStore Tables World Repository OutboxRepo Config Service.

Open Scope Z_scope.

Section delivery.
Context {L : GoLib} {E : Env} (svc : Service).

Definition SendThreadedReply (r : Reply) : M string := λ w,
  match env_send w.(w_tick) r with
  | Ok id => (Ok id, w_with_sent (w.(w_sent) ++ [(r, id)]) (w_next w))
  | Err e => (Err e, w_next w)
  end.

Definition deliver (reply : Reply) (submissionID : string) : M unit :=
  providerMsgID ← SendThreadedReply reply;
  now ← time_Now;
  log_err (UpsertEmail (outboundEmail reply providerMsgID now)) ≫= λ _,
  now ← time_Now;
  log_err (SetLastReplyAt submissionID now) ≫= λ _,
  audit submissionID EventReplySent
    [("provider_msg_id", AString providerMsgID); ("to", AString reply.(rep_ToAddress));
     ("subject", AString reply.(rep_Subject)); ("via", AString svc.(sv_mailName))].

Definition dispatchOnline (job : replyJob) : M unit :=
  deferred
    (r ← attempt (deliver job.(job_reply) job.(job_submissionID));
     match (r : result unit) with
     | Err e => audit job.(job_submissionID) EventReplyFailed [("error", AString (error_text e))]
     | Ok _ => log_err (MarkSent job.(job_outboxID) job.(job_version))
     end)
    (releaseDispatch job.(job_submissionID)).

(** One round of [replyWorker]. *)
Definition replyWorker_step : M unit :=
  w ← get;
  match w.(w_jobs) with
  | [] => mret ()
  | job :: rest => modify (w_with_jobs rest) ≫= λ _, dispatchOnline job
  end.

(** What happens to a row whose delivery failed. *)
Definition settle_failure (row : OutboxEntry) (err : error) : M unit :=
  let attempts := row.(oe_Attempts) + 1 in
  if attempts <? svc.(sv_outboxMaxAttempts) then
    log_err (Outbox_Update row.(oe_ID) OutboxPending attempts (error_text err))
  else
    log_err (Outbox_Update row.(oe_ID) OutboxFailed attempts (error_text err)) ≫= λ _,
    log_err (ClearReplyHash row.(oe_SubmissionID)) ≫= λ _,
    audit row.(oe_SubmissionID) EventReplyFailed
      [("error", AString (error_text err)); ("attempts", AInt attempts); ("dead_lettered", ABool true)].

Definition redeliverOne (listed : OutboxEntry) : M unit :=
  deferred
    (fresh ← attempt (GetPending listed.(oe_ID));
     match (fresh : result (option OutboxEntry)) with
     | Err _ | Ok None => mret ()
     | Ok (Some row) =>
       r ← attempt (deliver row.(oe_Reply) row.(oe_SubmissionID));
       match (r : result unit) with
       | Err e => settle_failure row e
       | Ok _ => log_err (MarkSent row.(oe_ID) row.(oe_UpdatedAt))
       end
     end)
    (releaseDispatch listed.(oe_SubmissionID)).

Definition blockedSubmissions (rows : list OutboxEntry) : M (list string) :=
  if bool_decide (map oe_ID rows = []) then mret []
  else wrap_err "outbox: reply-blocked lookup" (ReplyBlockedIDs (distinct (map oe_SubmissionID rows))).

Definition sweep_row (blocked : list string) (row : OutboxEntry) : M unit :=
  check_ctx ≫= λ _,
  if bool_decide (row.(oe_SubmissionID) ∈ blocked) then mret ()
  else
    claimed ← claimDispatch row.(oe_SubmissionID);
    if (claimed : bool) then redeliverOne row else mret ().

Definition RedeliverOutbox : M unit :=
  if repliesDisabled svc then mret ()
  else
    now ← time_Now;
    let cutoff := Add now (dur_neg svc.(sv_outboxRetryAfter)) in
    rows ← wrap_err "outbox: list pending" (ListPending now cutoff svc.(sv_outboxBatch));
    blocked ← blockedSubmissions rows;
    for_each (sweep_row blocked) rows.
End delivery.
