(* ===== verification/Sweeps.v ===== *)
(** The periodic checks of [internal/service/submissions.go], [escalation.go] and
    [retention.go]: escalation, closure, the Hold folder, the digest and retention. *)
From Stdlib Require Import ZArith.
From stdpp Require Import base list strings gmap.
From S2P Require Import Prelude GoStrings GoValues Submission Checklist Reply Digest Classifier ChecklistStore Tables World Repository OutboxRepo Config Service Delivery.

Open Scope Z_scope.

Section sweeps.
Context {L : GoLib} {E : Env} (svc : Service).

(** ** Escalation *)

Definition startOfUTCDay (t : time) : time := utc_midnight t.

(** Whether the submission was escalated. *)
Definition escalate (sub : Submission) (now : time) (reason : string) : M bool :=
  if bool_decide (map mi_ID (BrokerActionable sub.(sub_MissingItems)) = []) then mret false
  else match TransitionTo sub StateEscalated now with
       | Err _ => mret false
       | Ok sub =>
         let sub := sub_with_LastEscalatedAt (Some now) sub in
         r ← attempt (UpsertSubmission sub);
         match (r : result unit) with
         | Err _ => mret false
         | Ok _ =>
           audit sub.(sub_ID) EventEscalated
             [("reason", AString reason); ("last_action_at", ATime sub.(sub_LastActionAt))] ≫= λ _,
           mret true
         end
       end.

(** The smallest positive checklist threshold below the global one. *)
Definition minThreshold (globalThreshold : duration) : duration :=
  foldl (λ acc c, let t := dur_mul c.(cl_Escalation).(ep_ThresholdHours) Hour in
                  if (0 <? t) && (t <? acc) then t else acc)
    globalThreshold svc.(sv_checklists).(store_All).

Definition threshold_for (globalThreshold : duration) (sub : Submission) : duration :=
  match svc.(sv_checklists).(store_Get) sub.(sub_PolicyType) with
  | Some cl => if 0 <? cl.(cl_Escalation).(ep_ThresholdHours)
               then dur_mul cl.(cl_Escalation).(ep_ThresholdHours) Hour else globalThreshold
  | None => globalThreshold
  end.

(** The quiet-time pass: the ids escalated. *)
Fixpoint quiet_pass (globalThreshold : duration) (now : time) (stale : list Submission)
  : M (list string) :=
  match stale with
  | [] => mret []
  | sub :: rest =>
    hit ← (if Sub now sub.(sub_LastActionAt) <? threshold_for globalThreshold sub then mret false
           else escalate sub now "quiet_threshold");
    ids ← quiet_pass globalThreshold now rest;
    mret (if (hit : bool) then sub.(sub_ID) :: ids else ids)
  end.

Definition bind_nudge (minGap : duration) (now : time) (escalated : list string) (sub : Submission)
  : M unit :=
  if bool_decide (sub.(sub_ID) ∈ escalated) then mret ()
  else match sub.(sub_LastEscalatedAt) with
       | Some t => if Sub now t <? minGap then mret ()
                   else escalate sub now "bind_window" ≫= λ _, mret ()
       | None => escalate sub now "bind_window" ≫= λ _, mret ()
       end.

Definition CheckEscalations : M unit :=
  now ← time_Now;
  let cfg := svc.(sv_cfg).(cfg_Escalation) in
  let globalThreshold := Threshold cfg in
  stale ← wrap_err "list stale"
    (ListStale (UnixNano (Add now (dur_neg (minThreshold globalThreshold)))) 100);
  escalated ← quiet_pass globalThreshold now stale;
  if BindWindow cfg <=? 0 then mret ()
  else
    let graceFloor := startOfUTCDay (Add now (dur_neg (BindGrace cfg))) in
    soon ← wrap_err "list bind-soon"
      (ListBindSoon (UnixNano graceFloor) (UnixNano (Add now (BindWindow cfg))) sweepBatch);
    for_each (bind_nudge (MinGap cfg) now escalated) soon.

(** ** Closure *)

Definition closeQuiet (sub : Submission) (reason : string) (now : time) : M unit :=
  match TransitionTo sub StateClosed now with
  | Err _ => mret ()
  | Ok sub =>
    r ← attempt (UpsertSubmission sub);
    match (r : result unit) with
    | Err _ => mret ()
    | Ok _ => audit sub.(sub_ID) EventClosed [("reason", AString reason); ("auto_close_at", ATime now)]
    end
  end.

Definition closeSettled (now cutoff : time) : M unit :=
  subs ← wrap_err "list completed-before" (ListCompletedBefore (UnixNano cutoff) sweepBatch);
  for_each (λ sub, closeQuiet sub "auto_close_after_complete" now) subs ≫= λ _,
  esc ← wrap_err "list escalated" (ListEscalatedSince 0 500);
  for_each (λ sub, if After sub.(sub_LastActionAt) cutoff then mret ()
                   else closeQuiet sub "auto_close_after_escalation" now) esc.

Definition CheckClosures : M unit :=
  now ← time_Now;
  let cfg := svc.(sv_cfg).(cfg_Escalation) in
  (if 0 <? AutoCloseAfter cfg then closeSettled now (Add now (dur_neg (AutoCloseAfter cfg)))
   else mret ()) ≫= λ _,
  if AwaitingAutoCloseAfter cfg <=? 0 then mret ()
  else
    stalled ← wrap_err "list stalled-before"
      (ListStalledBefore (UnixNano (Add now (dur_neg (AwaitingAutoCloseAfter cfg)))) sweepBatch);
    for_each (λ sub, closeQuiet sub "auto_close_stalled" now) stalled.

(** ** The Hold folder *)

Definition not_in (set l : list string) : list string := List.filter (λ id, negb (bool_decide (id ∈ set))) l.

Definition ReconcileHold (messageIDs : list string) : M unit :=
  inFolder ← wrap_err "resolve hold folder" (SubmissionIDsByMessageIDs messageIDs);
  held ← wrap_err "list held" ListHeldIDs;
  let toHold := not_in held inFolder in
  let toRelease := not_in inFolder held in
  wrap_err "hold" (SetOnHold toHold true) ≫= λ _,
  wrap_err "release" (SetOnHold toRelease false) ≫= λ _,
  log_err (ExpirePendingForSubmissions toRelease "stale: queued before hold") ≫= λ _,
  for_each (λ id, audit id EventHeld []) toHold ≫= λ _,
  for_each (λ id, audit id EventReleased []) toRelease.

(** ** The digest *)

Definition firstDigestRecipient : string :=
  match List.filter (λ r, negb (bool_decide (r = "")))
          (map (λ c, c.(cl_Escalation).(ep_DigestRecipient)) svc.(sv_checklists).(store_All)) with
  | r :: _ => r
  | [] => svc.(sv_cfg).(cfg_Digest).(dig_Recipient)
  end.

(** The description of an item, the last one of its id. *)
Definition item_description (cl : Checklist) (id : string) : string :=
  match item_by_id cl id with Some i => i.(ri_Description) | None => "" end.

Definition filename_only_names (cl : Checklist) (sub : Submission) (ids : list string) : list string :=
  omap (λ id, if bool_decide (id ∈ map mi_ID sub.(sub_MissingItems)) then None
              else let d := item_description cl id in
                   if bool_decide (d = "") then None else Some d) ids.

Definition resolveFilenameOnly (subs : list Submission) (byID : gmap string (list string))
  : gmap string (list string) :=
  foldl (λ out sub,
    match byID !! sub.(sub_ID) with
    | None | Some [] => out
    | Some ids =>
      match svc.(sv_checklists).(store_Get) sub.(sub_PolicyType) with
      | None => out
      | Some cl => match filename_only_names cl sub ids with
                   | [] => out
                   | names => <[ sub.(sub_ID) := names ]> out
                   end
      end
    end) ∅ subs.

Definition replyWithheld (subs : list Submission) : M (gset string) :=
  r ← attempt (ListSubmissionIDsByEvent EventReplyDisabled 0);
  match (r : result (list string)) with
  | Err _ => mret ∅
  | Ok ids =>
    mret (list_to_set (map sub_ID (List.filter
      (λ s, bool_decide (s.(sub_ID) ∈ ids) && IsZero s.(sub_LastReplyAt)) subs)))
  end.

Definition SendDigest : M unit :=
  if Digest_Interval svc.(sv_cfg).(cfg_Digest) <=? 0 then mret ()
  else if bool_decide (firstDigestRecipient = "") then mret ()
  else
    let maxRows := if svc.(sv_cfg).(cfg_Digest).(dig_MaxRows) <=? 0 then defaultDigestMaxRows
                   else svc.(sv_cfg).(cfg_Digest).(dig_MaxRows) in
    subs ← wrap_err "list open" (ListOpen maxRows);
    if bool_decide (map sub_ID subs = []) then mret ()
    else
      omitted ← (if Z.of_nat (length subs) =? maxRows then
                   r ← attempt CountOpen;
                   match (r : result Z) with
                   | Ok total => mret (if maxRows <? total then total - maxRows else 0)
                   | Err _ => mret 0
                   end
                 else mret 0);
      flagged ← wrap_err "filename-only items" (FilenameOnlyItems (map sub_ID subs));
      withheld ← replyWithheld subs;
      now ← time_Now;
      let open := Z.of_nat (length subs) in
      let body := BuildDigest subs (resolveFilenameOnly subs flagged) withheld omitted now in
      wrap_err "send digest" (SendThreadedReply
        (mkReply "" firstDigestRecipient
           ("[submission-triage] Daily digest (" +:+ fmt_d (open + omitted) +:+ " open)") body "" [])) ≫= λ _,
      audit "" EventDigestSent [("recipient", AString firstDigestRecipient); ("open", AInt open);
                                ("omitted", AInt omitted)].

(** ** Retention *)

Definition PruneRetention : M Z :=
  now ← time_Now;
  let cfg := svc.(sv_cfg).(cfg_Retention) in
  touched ← (if 0 <? OutboxPendingTTL cfg
             then ExpirePending (UnixNano (Add now (dur_neg (OutboxPendingTTL cfg)))) else mret 0);
  if AuditRetention cfg <=? 0 then mret touched
  else
    let cutoff := UnixNano (Add now (dur_neg (AuditRetention cfg))) in
    audits ← Audit_Prune cutoff;
    settled ← Outbox_Prune cutoff;
    docs ← ClearExtractedTextForClosed cutoff;
    mret (touched + (audits + settled + docs)).

(** ** Workers: one tick each *)

Definition recoverCheck (name : string) (body : M unit) : M unit :=
  recovering body (λ _, audit "" EventWorkerPanic [("check", AString name)]).

Definition periodic_checks : M unit :=
  recoverCheck "periodic_checks" (log_err CheckEscalations ≫= λ _, log_err CheckClosures).
Definition digest_tick : M unit := recoverCheck "digest" (log_err SendDigest).
Definition outbox_sweep : M unit := recoverCheck "outbox_sweep" (log_err (RedeliverOutbox svc)).

(** [vacuum] is the database's. *)
Definition retention_sweep (vacuum : M unit) : M unit :=
  r ← attempt PruneRetention;
  match (r : result Z) with
  | Err _ => mret ()
  | Ok touched => if touched =? 0 then mret () else log_err vacuum
  end.
End sweeps.
