(* ===== verification/ServiceInv.v ===== *)
(** The invariant of the running service.

    [db_inv] is the schema invariant together with the life cycle's: in every stored row
    the escalation and completion clocks agree with the state.  Every entry point of the
    service keeps it, whichever statements fail: the ingest, the reply worker, the outbox
    sweep, the periodic checks, the Hold reconcile, the digest and retention. *)
From Stdlib Require Import ZArith.
From stdpp Require Import base list strings gmap.
From S2P Require Import Prelude GoStrings GoValues Submission Checklist Reply Classifier ChecklistStore Tables World Repository OutboxRepo Frames Persistence Config Service Ingest Delivery Sweeps.

Open Scope Z_scope.

Definition row_ok (r : submission_row) : Prop := lifecycle_wf r.(sr_data).
Definition rows_ok : DB → Prop := rows_of (Forall row_ok).
Definition db_inv (d : DB) : Prop := db_wf d ∧ rows_ok d.

Notation Inv := (db_inv ∘ w_db).

(** ** Life cycle of stored values *)

(** [lifecycle_wf] looks only at the state and at which clocks are set. *)
Lemma lifecycle_wf_ext s s' :
  s'.(sub_State) = s.(sub_State) →
  (s'.(sub_EscalatedAt) = None ↔ s.(sub_EscalatedAt) = None) →
  (s'.(sub_CompletedAt) = None ↔ s.(sub_CompletedAt) = None) →
  lifecycle_wf s → lifecycle_wf s'.
Proof.
  unfold lifecycle_wf. intros -> He Hc.
  destruct (sub_State s); rewrite <- ?not_eq_None_Some; tauto.
Qed.

Lemma submission_values_ok s c u l : lifecycle_wf s → row_ok (submission_values s c u l).
Proof.
  apply lifecycle_wf_ext; [done| |]; cbn; apply fmap_None.
Qed.

Lemma submission_merge_ok old new : row_ok new → row_ok (submission_merge old new).
Proof. by apply lifecycle_wf_ext. Qed.

Lemma scanSubmission_ok r : row_ok r → lifecycle_wf (scanSubmission r).
Proof. by apply lifecycle_wf_ext. Qed.

(** ** Statements *)

Lemma lifecycle_upsert s : lifecycle_wf s → upsert_keeps (Forall row_ok) s.
Proof.
  intros Hs c u l rows Hrows. apply upsert_by_Forall; [by apply submission_values_ok| |done].
  intros old _. by apply submission_merge_ok, submission_values_ok.
Qed.

Lemma lifecycle_update f :
  (∀ s, lifecycle_wf s → lifecycle_wf (f s)) → update_keeps (Forall row_ok) f.
Proof.
  intros Hf p rows Hrows. apply update_where_Forall; [|done]. intros r Hr _. by apply Hf.
Qed.

#[local] Hint Resolve lifecycle_upsert lifecycle_update : triage.

Section stmts.
Context {L : GoLib} {E : Env}.

Notation keeps_rows := (preserves (rows_of (Forall row_ok) ∘ w_db)).

(** ** Calls keep the invariant *)

Lemma inv_split {A} (m : M A) :
  preserves (db_wf ∘ w_db) m → keeps_rows m → preserves Inv m.
Proof. intros H1 H2 w [Hw1 Hw2]. split; [by apply H1|by apply H2]. Qed.

Lemma inv_UpsertSubmission s : lifecycle_wf s → preserves Inv (UpsertSubmission s).
Proof. intros. apply inv_split; auto with triage. Qed.

Lemma inv_UpsertSubmissionWithReply s e :
  lifecycle_wf s → preserves Inv (UpsertSubmissionWithReply s e).
Proof. intros. apply inv_split; auto with triage. Qed.

Lemma inv_UpsertEmail e : preserves Inv (UpsertEmail e).
Proof. apply inv_split; auto with triage. Qed.

Lemma inv_SetLastReplyAt id t : preserves Inv (SetLastReplyAt id t).
Proof. apply inv_split; [auto with triage|]. by apply rows_update_submissions, lifecycle_update. Qed.

Lemma inv_ClearReplyHash id : preserves Inv (ClearReplyHash id).
Proof. apply inv_split; [auto with triage|]. by apply rows_update_submissions, lifecycle_update. Qed.

Lemma inv_SetOnHold ids b : preserves Inv (SetOnHold ids b).
Proof. apply inv_split; [auto with triage|]. by apply rows_SetOnHold, lifecycle_update. Qed.

Lemma inv_Outbox_Update id st n err : preserves Inv (Outbox_Update id st n err).
Proof. apply inv_split; auto with triage. Qed.

Lemma inv_ListPending now cutoff limit : preserves Inv (ListPending now cutoff limit).
Proof. apply inv_split; auto with triage. Qed.

Lemma inv_MarkSent id v : preserves Inv (MarkSent id v).
Proof. apply inv_split; auto with triage. Qed.

Lemma inv_ExpirePending t : preserves Inv (ExpirePending t).
Proof. apply inv_split; auto with triage. Qed.

Lemma inv_ExpireFor ids reason : preserves Inv (ExpirePendingForSubmissions ids reason).
Proof. apply inv_split; auto with triage. Qed.

Lemma inv_Outbox_Prune t : preserves Inv (Outbox_Prune t).
Proof. apply inv_split; auto with triage. Qed.

Lemma inv_Audit_Prune t : preserves Inv (Audit_Prune t).
Proof. apply inv_split; auto with triage. Qed.

Lemma inv_ClearText t : preserves Inv (ClearExtractedTextForClosed t).
Proof. apply inv_split; auto with triage. Qed.

Lemma inv_Append e : preserves Inv (Append e).
Proof. apply inv_split; auto with triage. Qed.
End stmts.

#[export] Hint Resolve inv_UpsertSubmission inv_UpsertSubmissionWithReply inv_UpsertEmail
  inv_SetLastReplyAt inv_ClearReplyHash inv_SetOnHold inv_Outbox_Update inv_ListPending
  inv_MarkSent inv_ExpirePending inv_ExpireFor inv_Outbox_Prune inv_Audit_Prune inv_ClearText
  inv_Append : triage.

(** ** What lookups return *)

Section lookups.
Context {L : GoLib} {E : Env}.

Lemma find_row_ok id d r : db_inv d → find_key sr_id id d.(db_submissions) = Some r → row_ok r.
Proof.
  intros [_ Hrows] [Hin _]%find_key_Some. unfold rows_ok, rows_of in Hrows. rewrite Forall_forall in Hrows.
  by apply Hrows.
Qed.

Lemma GetByID_ok id : yields Inv (GetByID id) lifecycle_wf.
Proof.
  unfold GetByID. eapply yields_bind.
  { apply yields_wrap_err, (yields_query db_inv _ (λ o, ∀ r, o = Some r → row_ok r)).
    intros d Hd r. by apply find_row_ok. }
  intros [r|] Hr; [|apply yields_throw].
  apply yields_seq; [unfold loadEmails; walk|]. intros emails.
  apply yields_seq; [unfold loadDocuments; walk|]. intros docs.
  apply yields_ret. eapply lifecycle_wf_ext; [..|apply scanSubmission_ok, Hr; reflexivity]; done.
Qed.

Lemma FindByEmailReference_ok refs :
  yields Inv (FindByEmailReference refs) (λ p, lifecycle_wf p.1).
Proof.
  unfold FindByEmailReference. case_bool_decide; [apply yields_throw|].
  apply yields_seq; [unfold findSubmissionIDsByRefs; walk|].
  intros [|best [|second rest]]; [apply yields_throw|..].
  - eapply yields_bind; [apply GetByID_ok|]. intros s Hs. by apply yields_ret.
  - apply yields_seq; [unfold pickMostRecentlyUpdated; walk|]. intros id.
    eapply yields_bind; [apply GetByID_ok|]. intros s Hs. by apply yields_ret.
Qed.

Lemma FindByDeterministicID_ok id : yields Inv (FindByDeterministicID id) lifecycle_wf.
Proof.
  unfold FindByDeterministicID. case_bool_decide; [apply yields_throw|].
  apply yields_seq; [walk|]. intros [e|]; [apply GetByID_ok|apply yields_throw].
Qed.

Lemma FindContentMatch_ok named from after : yields Inv (FindContentMatch named from after) lifecycle_wf.
Proof.
  unfold FindContentMatch. destruct (_ || _); [apply yields_throw|].
  apply yields_seq; [walk|]. intros [|r rows]; [apply yields_throw|apply GetByID_ok].
Qed.

Lemma list_submissions_ok what where_ less limit :
  yields Inv (list_submissions what where_ less limit) (Forall lifecycle_wf).
Proof.
  unfold list_submissions. apply yields_wrap_err, (yields_query db_inv). intros d [_ Hrows].
  rewrite Forall_forall. intros s (r & -> & Hr)%list_elem_of_fmap.
  apply elem_of_select in Hr as [Hr _]. apply scanSubmission_ok.
  unfold rows_ok, rows_of in Hrows. rewrite Forall_forall in Hrows. by apply Hrows.
Qed.
End lookups.

(** ** The service's methods *)

Section methods.
Context {L : GoLib} {E : Env} (svc : Service).

Lemma inv_audit id evt payload : preserves Inv (audit id evt payload).
Proof. unfold audit. walk. Qed.
#[local] Hint Resolve inv_audit : triage.

Lemma inv_flushAudit : preserves Inv flushAudit.
Proof. unfold flushAudit. walk. Qed.

Lemma inv_auditCapOnce : preserves Inv auditCapOnce.
Proof. unfold auditCapOnce. walk. Qed.

Lemma inv_auditLLMCall id op f u : preserves Inv (auditLLMCall id op f u).
Proof. unfold auditLLMCall. walk. Qed.

Lemma inv_llm {A} (m : M A) : llm_frame m → preserves Inv m.
Proof. intros Hm. apply preserves_llm; [done|]. by intros sp n net w [[] Hr]. Qed.

#[local] Hint Resolve inv_auditCapOnce inv_auditLLMCall inv_llm : triage.

Lemma inv_extractField id f text rf : preserves Inv (extractField svc id f text rf).
Proof. unfold extractField. walk. Qed.
#[local] Hint Resolve inv_extractField : triage.

Lemma inv_classifyAttachment id e cl a : preserves Inv (classifyAttachment svc id e cl a).
Proof. unfold classifyAttachment. walk. Qed.
#[local] Hint Resolve inv_classifyAttachment : triage.

Lemma inv_classifyAttachments id e cl atts : preserves Inv (classifyAttachments svc id e cl atts).
Proof. induction atts; cbn [classifyAttachments]; walk. Qed.
#[local] Hint Resolve inv_classifyAttachments : triage.

Lemma inv_claimDispatch id : preserves Inv (claimDispatch id).
Proof. unfold claimDispatch. walk. Qed.

Lemma inv_releaseDispatch id : preserves Inv (releaseDispatch id).
Proof. unfold releaseDispatch. walk. Qed.

Lemma inv_enqueueReply job : preserves Inv (enqueueReply svc job).
Proof. unfold enqueueReply. walk. Qed.

Lemma inv_replySuppressed sub : preserves Inv (replySuppressed svc sub).
Proof. unfold replySuppressed. walk. Qed.

#[local] Hint Resolve inv_claimDispatch inv_releaseDispatch inv_enqueueReply inv_replySuppressed : triage.

(** Methods that return a new submission return one with a sound life cycle. *)
Lemma extractIdentity_ok sub :
  lifecycle_wf sub → yields Inv (extractIdentity svc sub) lifecycle_wf.
Proof.
  intros Hs. unfold extractIdentity. case_bool_decide; cbn [negb]; [|by apply yields_ret].
  destruct (applicationDoc _) as [doc|]; [|by apply yields_ret].
  apply yields_seq; [walk|]. intros [named effective].
  apply yields_seq; [walk|]. intros named'. case_bool_decide; [by apply yields_ret|].
  apply yields_seq; [auto with triage|]. intros []. apply yields_ret.
  by destruct (parseEffectiveDate effective).
Qed.

Lemma resolvePolicyType_ok sub inbound :
  lifecycle_wf sub → yields Inv (resolvePolicyType svc sub inbound) lifecycle_wf.
Proof.
  intros Hs. unfold resolvePolicyType. destruct (store_Get _ _); [by apply yields_ret|].
  destruct (bool_decide (_ = PolicyTypeUnknown)); [by apply yields_ret|].
  apply yields_seq; [auto with triage|]. intros []. by apply yields_ret.
Qed.

Lemma attach_documents_ok docs sub :
  lifecycle_wf sub → lifecycle_wf (foldl (λ s d, AttachDocument d s) sub docs).
Proof. revert sub. induction docs; intros sub Hs; cbn; [done|]. by apply IHdocs. Qed.

Lemma evaluate_ok sub inbound :
  lifecycle_wf sub → yields Inv (evaluate svc sub inbound) (λ r, lifecycle_wf r.1.1).
Proof.
  intros Hs. unfold evaluate. eapply yields_bind; [by apply resolvePolicyType_ok|].
  clear sub Hs. intros sub Hs. eapply yields_bind with (R := λ r, lifecycle_wf r.1.1).
  { destruct (store_Get _ _) as [cl|].
    - apply yields_seq; [auto with triage|]. intros docs. apply yields_ret.
      by apply attach_documents_ok.
    - apply yields_seq; [auto with triage|]. intros []. by apply yields_ret. }
  intros [[sub' missing] pu] Hs'. apply yields_seq; [auto with triage|]. intros [].
  by apply yields_ret.
Qed.

Lemma transitionState_ok sub missing :
  lifecycle_wf sub → yields Inv (transitionState sub missing) lifecycle_wf.
Proof.
  intros Hs. unfold transitionState. apply yields_seq; [auto with triage|]. intros now.
  destruct (TransitionTo _ _ _) as [sub'|] eqn:Et; [|apply yields_throw].
  apply yields_seq; [walk|]. intros []. apply yields_ret. by eapply TransitionTo_wf.
Qed.

Lemma createSubmission_ok req : yields Inv (createSubmission svc req) lifecycle_wf.
Proof.
  unfold createSubmission. apply yields_seq; [auto with triage|]. intros id.
  apply yields_seq; [auto with triage|]. intros now.
  apply yields_seq; [auto with triage|]. intros []. apply yields_ret. apply NewSubmission_wf.
Qed.

Lemma resolveSubmission_ok req id :
  yields Inv (resolveSubmission svc req id) (λ r, match r with inl s => lifecycle_wf s | inr _ => True end).
Proof.
  unfold resolveSubmission. eapply yields_bind; [apply yields_attempt, FindByEmailReference_ok|].
  intros [[found amb]|e] Hr; cbn in Hr.
  - case_bool_decide.
    + apply yields_seq; [unfold audit_duplicate; auto with triage|]. intros []. by apply yields_ret.
    + apply yields_seq; [walk|]. intros []. apply yields_seq; [auto with triage|]. intros [].
      by apply yields_ret.
  - destruct (errors_Is e _); [|apply yields_throw].
    eapply yields_bind; [apply yields_attempt, FindByDeterministicID_ok|]. intros [s|de] Hs.
    + apply yields_seq; [unfold audit_duplicate; auto with triage|]. intros []. by apply yields_ret.
    + destruct (errors_Is de _); cbn [negb]; [|apply yields_throw].
      eapply yields_bind; [apply yields_wrap_err, createSubmission_ok|]. intros s' Hs'.
      by apply yields_ret.
Qed.

Lemma merge_into_ok existing newSub inbound :
  lifecycle_wf existing → lifecycle_wf (merge_into existing newSub inbound).
Proof.
  intros He. unfold merge_into.
  assert (∀ docs s, lifecycle_wf s →
    lifecycle_wf (foldl (λ s d, AttachDocument (doc_with_SubmissionID (sub_ID s) d) s) s docs)) as Hf.
  { induction docs as [|d docs IH]; intros s Hs; cbn; [done|]. by apply IH. }
  specialize (Hf (sub_Documents newSub) (AttachEmail (em_with_SubmissionID (sub_ID existing) inbound) existing) He).
  case_bool_decide; [|done]. by eapply lifecycle_wf_ext.
Qed.

Lemma contentMatch_ok newSub inbound :
  yields Inv (contentMatch svc newSub inbound)
    (λ r, match r with Some s => lifecycle_wf s | None => True end).
Proof.
  unfold contentMatch. case_bool_decide; [by apply yields_ret|].
  apply yields_seq; [auto with triage|]. intros now.
  eapply yields_bind; [apply yields_attempt, FindContentMatch_ok|].
  intros [existing|e] He; [|by apply yields_ret].
  apply yields_seq; [unfold reparentAudits; walk|]. intros [].
  apply yields_seq; [auto with triage|]. intros now'.
  apply yields_seq; [auto with triage|]. intros []. apply yields_ret.
  pose proof (merge_into_ok existing newSub inbound He) as Hm. unfold reevaluate.
  destruct (store_Get _ _); by eapply lifecycle_wf_ext.
Qed.

(** *** Ingest *)

Lemma inv_queue_reply sub reply fp res :
  lifecycle_wf sub → preserves Inv (queue_reply svc sub reply fp res).
Proof.
  intros Hs. assert (lifecycle_wf (sub_with_LastReplyHash fp sub)) by done.
  unfold queue_reply. walk.
Qed.

Lemma inv_persistNoReply sub res : lifecycle_wf sub → preserves Inv (persistNoReply sub res).
Proof. intros. unfold persistNoReply. walk. Qed.

Lemma inv_persistSuppressed sub h res : lifecycle_wf sub → preserves Inv (persistSuppressed sub h res).
Proof. intros. unfold persistSuppressed. walk. Qed.

Lemma inv_persistBounce sub req : lifecycle_wf sub → preserves Inv (persistBounce sub req).
Proof.
  intros Hs. unfold persistBounce. walk. apply inv_UpsertSubmission. by destruct (rq_BouncePermanent req).
Qed.

#[local] Hint Resolve inv_queue_reply inv_persistNoReply inv_persistSuppressed inv_persistBounce : triage.

Lemma inv_reply_or_persist sub missing inbound pu res :
  lifecycle_wf sub → preserves Inv (reply_or_persist svc sub missing inbound pu res).
Proof. intros. unfold reply_or_persist. walk. Qed.

Lemma settle_ok sub missing : lifecycle_wf sub → yields Inv (settle svc sub missing) lifecycle_wf.
Proof.
  intros Hs. unfold settle. apply yields_seq; [walk|]. intros []. by apply transitionState_ok.
Qed.

Lemma attach_inbound_ok sub req id inbound :
  lifecycle_wf sub → yields Inv (attach_inbound sub req id inbound) lifecycle_wf.
Proof.
  intros Hs. unfold attach_inbound. eapply yields_bind with (R := lifecycle_wf).
  { destruct (_ && _); [|by apply yields_ret]. apply yields_seq; [auto with triage|]. intros now.
    by apply yields_ret. }
  clear Hs. intros s Hs. eapply yields_bind with (R := lifecycle_wf).
  { destruct (_ && _); [|by apply yields_ret]. apply yields_seq; [auto with triage|]. intros [].
    by apply yields_ret. }
  clear s Hs. intros s Hs. apply yields_seq; [auto with triage|]. intros []. by apply yields_ret.
Qed.

Lemma evaluate_and_thread_ok sub inbound new :
  lifecycle_wf sub → yields Inv (evaluate_and_thread svc sub inbound new) (λ r, lifecycle_wf r.1.1).
Proof.
  intros Hs. unfold evaluate_and_thread. eapply yields_bind; [by apply evaluate_ok|].
  intros [[s missing] pu] Hs'. eapply yields_bind with (R := lifecycle_wf).
  { destruct pu; [by apply yields_ret|by apply extractIdentity_ok]. }
  intros s2 Hs2.
  eapply yields_bind with (R := λ r, match r with Some s => lifecycle_wf s | None => True end).
  { destruct new; [apply contentMatch_ok|by apply yields_ret]. }
  intros [m|] Hm; by apply yields_ret.
Qed.

Lemma inv_ingest_body req id : preserves Inv (ingest_body svc req id).
Proof.
  apply (yields_preserves _ _ (λ _, True)). unfold ingest_body.
  eapply yields_bind; [apply resolveSubmission_ok|]. intros [sub|dup] Hs; [|by apply yields_ret].
  eapply yields_bind; [by apply attach_inbound_ok|]. intros sub2 Hs2.
  destruct (rq_Bounce req); [apply yields_any; auto with triage|].
  eapply yields_bind; [by apply evaluate_and_thread_ok|]. intros [[sub3 missing] pu] Hs3.
  eapply yields_bind; [by apply settle_ok|]. intros sub4 Hs4.
  apply yields_any. destruct (rq_AutoSubmitted req); auto using inv_reply_or_persist with triage.
Qed.

Lemma inv_IngestEmail req : preserves Inv (IngestEmail svc req).
Proof.
  unfold IngestEmail. apply preserves_bind; [walk|]. intros req'. intros w Hw.
  unfold ingestEmailInner.
  pose proof (inv_ingest_body req' (computeEmailID (rq_MessageID req') (rq_BodyText req') (rq_Attachments req'))
    (w_with_collector (Some []) w) Hw) as Hb.
  destruct (ingest_body _ _ _ _) as [r w']. pose proof (inv_flushAudit w' Hb) as Hf.
  by destruct (flushAudit w') as [r' w''].
Qed.
End methods.

#[export] Hint Resolve inv_audit inv_claimDispatch inv_releaseDispatch inv_IngestEmail : triage.

(** *** Delivery and sweeps *)

Section workers.
Context {L : GoLib} {E : Env} (svc : Service).

Lemma inv_SendThreadedReply r : preserves Inv (SendThreadedReply r).
Proof. intros w Hw. unfold SendThreadedReply. by destruct (env_send _ _). Qed.
#[local] Hint Resolve inv_SendThreadedReply : triage.

Lemma inv_deliver reply id : preserves Inv (deliver svc reply id).
Proof. unfold deliver. walk. Qed.
#[local] Hint Resolve inv_deliver : triage.

Lemma inv_dispatchOnline job : preserves Inv (dispatchOnline svc job).
Proof. unfold dispatchOnline. walk. Qed.
#[local] Hint Resolve inv_dispatchOnline : triage.

Lemma inv_replyWorker_step : preserves Inv (replyWorker_step svc).
Proof. unfold replyWorker_step. walk. Qed.

Lemma inv_redeliverOne row : preserves Inv (redeliverOne svc row).
Proof. unfold redeliverOne, settle_failure, GetPending. walk. Qed.
#[local] Hint Resolve inv_redeliverOne : triage.

Lemma inv_RedeliverOutbox : preserves Inv (RedeliverOutbox svc).
Proof. unfold RedeliverOutbox, blockedSubmissions, ReplyBlockedIDs, sweep_row. walk. Qed.

Lemma inv_escalate sub now reason :
  lifecycle_wf sub → preserves Inv (escalate sub now reason).
Proof.
  intros Hs. unfold escalate. case_bool_decide; [walk|].
  destruct (TransitionTo _ _ _) as [s'|] eqn:Et; [|walk].
  assert (lifecycle_wf (sub_with_LastEscalatedAt (Some now) s')) by (exact (TransitionTo_wf _ _ _ _ Hs Et)).
  walk.
Qed.
#[local] Hint Resolve inv_escalate : triage.

Lemma inv_quiet_pass g now stale :
  Forall lifecycle_wf stale → preserves Inv (quiet_pass svc g now stale).
Proof. induction 1; cbn [quiet_pass]; walk. Qed.

Lemma inv_bind_nudge gap now ids sub :
  lifecycle_wf sub → preserves Inv (bind_nudge gap now ids sub).
Proof. intros. unfold bind_nudge. walk. Qed.

Lemma inv_closeQuiet sub reason now : lifecycle_wf sub → preserves Inv (closeQuiet sub reason now).
Proof.
  intros Hs. unfold closeQuiet. destruct (TransitionTo _ _ _) as [s'|] eqn:Et; [|walk].
  assert (lifecycle_wf s') by (by eapply TransitionTo_wf). walk.
Qed.
#[local] Hint Resolve inv_closeQuiet : triage.

(** A loop over a query's result. *)
Lemma inv_listed {B} what where_ less limit (f : list Submission → M B) msg :
  (∀ subs, Forall lifecycle_wf subs → preserves Inv (f subs)) →
  preserves Inv (wrap_err msg (list_submissions what where_ less limit) ≫= f).
Proof.
  intros Hf. apply (yields_preserves _ _ (λ _, True)).
  eapply yields_bind; [apply yields_wrap_err, list_submissions_ok|]. intros subs Hs.
  by apply yields_any, Hf.
Qed.

Lemma inv_for_subs (f : Submission → M unit) subs :
  (∀ s, lifecycle_wf s → preserves Inv (f s)) → Forall lifecycle_wf subs →
  preserves Inv (for_each f subs).
Proof. intros Hf Hs. rewrite Forall_forall in Hs. apply preserves_for_each. auto. Qed.

Lemma inv_CheckEscalations : preserves Inv (CheckEscalations svc).
Proof.
  unfold CheckEscalations. apply preserves_bind; [auto with triage|]. intros now.
  apply inv_listed. intros stale Hst. apply preserves_bind; [by apply inv_quiet_pass|].
  intros ids. destruct (_ <=? _); [walk|]. apply inv_listed. intros soon Hso.
  apply inv_for_subs; [|done]. intros. by apply inv_bind_nudge.
Qed.

Lemma inv_CheckClosures : preserves Inv (CheckClosures svc).
Proof.
  unfold CheckClosures. apply preserves_bind; [auto with triage|]. intros now.
  apply preserves_bind.
  { destruct (_ <? _); [|walk]. unfold closeSettled. apply inv_listed. intros subs Hs.
    apply preserves_bind; [apply inv_for_subs; auto with triage|]. intros [].
    apply inv_listed. intros esc He. apply inv_for_subs; [|done]. intros. walk. }
  intros []. destruct (_ <=? _); [walk|]. apply inv_listed. intros subs Hs.
  apply inv_for_subs; auto with triage.
Qed.

Lemma inv_ReconcileHold ids : preserves Inv (ReconcileHold ids).
Proof. unfold ReconcileHold, SubmissionIDsByMessageIDs, ListHeldIDs. walk. Qed.

Lemma inv_SendDigest : preserves Inv (SendDigest svc).
Proof.
  unfold SendDigest, ListOpen, list_submissions, CountOpen, FilenameOnlyItems, replyWithheld,
    ListSubmissionIDsByEvent. walk.
Qed.

Lemma inv_PruneRetention : preserves Inv (PruneRetention svc).
Proof. unfold PruneRetention. walk. Qed.
End workers.

#[export] Hint Resolve inv_replyWorker_step inv_RedeliverOutbox inv_CheckEscalations
  inv_CheckClosures inv_ReconcileHold inv_SendDigest inv_PruneRetention : triage.

(** ** Histories of the running service *)

(** What can happen: a message is ingested, a worker takes a job, a ticker fires. *)
Inductive event : Type :=
| EvIngest (req : IngestRequest)
| EvWorker
| EvOutboxSweep
| EvPeriodicChecks
| EvDigest
| EvHoldFolder (messageIDs : list string)
| EvRetention
| EvFileFailed (id folder reason : string).

Section events.
Context {L : GoLib} {E : Env} (svc : Service).

Definition run_event (e : event) : M unit :=
  match e with
  | EvIngest req => log_err (IngestEmail svc req)
  | EvWorker => replyWorker_step svc
  | EvOutboxSweep => outbox_sweep svc
  | EvPeriodicChecks => periodic_checks svc
  | EvDigest => digest_tick svc
  | EvHoldFolder ids => log_err (ReconcileHold ids)
  | EvRetention => retention_sweep svc (mret ())
  | EvFileFailed id folder reason => AuditFileFailed id folder reason
  end.

Definition run_events (es : list event) : M unit := for_each (λ e, log_err (run_event e)) es.

Lemma run_event_inv e : preserves Inv (run_event e).
Proof.
  destruct e; cbn [run_event]; unfold outbox_sweep, periodic_checks, digest_tick, recoverCheck,
    retention_sweep, AuditFileFailed; walk.
Qed.
End events.

Lemma empty_db_inv : db_inv empty_db.
Proof. split; [apply empty_db_wf|constructor]. Qed.

(** The invariant of the running service.  Starting from an empty database, after
    any sequence of ingests, worker rounds, sweeps, holds, digests and retention runs,
    with any statement, delivery or LLM call failing along the way: keys are unique,
    nothing is orphaned, no submission has two pending replies, and in every stored row
    the escalation and completion clocks agree with the state. *)
Theorem service_history_inv (L : GoLib) (E : Env) (svc : Service) (es : list event) :
  db_inv (w_db (run_events svc es empty_world).2).
Proof.
  apply (preserves_for_each Inv); [|exact empty_db_inv].
  intros e _. apply preserves_log_err, run_event_inv.
Qed.
