(* ===== verification/Still.v ===== *)
(** Calls that have nothing to do with sending replies.

    [still m]: whatever fails, [m] leaves the claims, the queue, the mail sent and the
    outbox as they are, and time does not go back.  All of the ingest before its commit,
    the checks and most of the repositories' calls are like this. *)
From Stdlib Require Import ZArith.
From stdpp Require Import base list strings gmap.
From S2P Require Import Prelude GoStrings GoValues Submission Checklist Reply Classifier ChecklistStore Tables World Repository OutboxRepo Config Service Ingest Delivery Sweeps.

Open Scope Z_scope.

Definition Still (x : memory) (o : list outbox_row) (n : nat) (w : World) : Prop :=
  mem w = x ∧ (w_db w).(db_outbox) = o ∧ (n ≤ w.(w_tick))%nat.

Definition still {A} (m : M A) : Prop := ∀ x o n, preserves (Still x o n) m.

Lemma still_mem {A} (m : M A) x : still m → preserves (Mem x) m.
Proof. intros Hm w Hw. by destruct (Hm x _ 0%nat w (conj Hw (conj eq_refl (Nat.le_0_l _)))). Qed.

Lemma still_at {A} (m : M A) x o n : still m → preserves (Still x o n) m.
Proof. auto. Qed.

(** ** Statements *)

Section statements.
Context {E : Env} (x : memory) (o : list outbox_row) (n : nat).
Notation P := (preserves (Still x o n)).

Lemma still_now : P time_Now.
Proof. intros w (Hm & Ho & Hn). split_and!; [done..|]. cbn. lia. Qed.

Lemma still_uuid : P NewString.
Proof. intros w (Hm & Ho & Hn). split_and!; [done..|]. cbn. lia. Qed.

Lemma still_ctx : P check_ctx.
Proof. intros w Hw. unfold check_ctx. by destruct (env_cancelled _). Qed.

Lemma still_modify f : (∀ w, mem (f w) = mem w) → (∀ w, w_db (f w) = w_db w) → (∀ w, w_tick (f w) = w_tick w) → P (modify f).
Proof. intros Hm Hd Ht w (? & ? & ?). unfold Still. cbn. by rewrite Hm, Hd, Ht. Qed.

Lemma still_stmt {A} (f : DB → result (A * DB)) :
  (∀ d a d', f d = Ok (a, d') → db_outbox d' = db_outbox d) → P (stmt f).
Proof.
  intros Hf w (Hm & Ho & Hn). unfold stmt. destruct (env_fault _).
  - split_and!; [done..|]. cbn. lia.
  - destruct (f (w_db w)) as [[a d]|e] eqn:Ef; (split_and!; [done| |cbn; lia]); [|done]. cbn.
    by rewrite (Hf _ _ _ Ef).
Qed.

Lemma still_exec f : (∀ d, db_outbox (f d) = db_outbox d) → P (exec f).
Proof. intros Hf. apply still_stmt. by intros d a d' [= _ <-]. Qed.

Lemma still_query {A} (f : DB → A) : P (query f).
Proof. apply still_stmt. by intros d a d' [= _ <-]. Qed.

(** A statement that counts what it touched. *)
Lemma still_counted {A} (k : DB → A) f :
  (∀ d, db_outbox (f d) = db_outbox d) → P (stmt (λ d, Ok (k d, f d))).
Proof. intros Hf. apply still_stmt. by intros d a d' [= _ <-]. Qed.

Lemma still_transaction {A} bare (m : M A) : P m → P (transaction bare m).
Proof.
  intros Hm w Hw. unfold transaction.
  assert (P (tx_body bare m)) as Hp.
  { repeat (apply preserves_bind; [|intros]); try apply preserves_wrap_err, still_query;
      [done|destruct bare; try apply preserves_wrap_err; apply still_query|apply preserves_ret]. }
  specialize (Hp w Hw). destruct (tx_body bare m w) as [[a|e] w']; [done|].
  destruct Hw as (_ & Ho & _), Hp as (Hx & _ & Hn). done.
Qed.

Lemma still_llm {A} (m : M A) : llm_frame m → P m.
Proof.
  intros Hm. apply preserves_llm; [done|]. intros sp k net w (Hx & Ho & Hn). split_and!; [done..|]. cbn. lia.
Qed.
End statements.

#[export] Hint Resolve still_now still_uuid still_ctx still_query still_transaction still_llm still_at : triage.
#[export] Hint Extern 1 (preserves (Still _ _ _) (modify _)) =>
  apply still_modify; intros ?; reflexivity : triage.
#[export] Hint Extern 1 (preserves (Still _ _ _) (exec _)) =>
  apply still_exec; intros ?; reflexivity : triage.

(** Walks through a call whose statements leave the outbox alone. *)
Ltac still_walk := intros ? ? ?; walk.

(** ** Repositories *)

Section repositories.
Context {L : GoLib} {E : Env}.

Lemma still_upsertSubmissionRow s : still (upsertSubmissionRow s).
Proof. unfold upsertSubmissionRow, nanoOrNow. still_walk. Qed.

Lemma still_upsertEmailRow e : still (upsertEmailRow e).
Proof.
  unfold upsertEmailRow. still_walk. apply still_stmt. unfold insert_email. intros d a d'.
  destruct (has_key _ _ _); [by intros [= _ <-]|]. destruct (has_submission _ _); [|done]. by intros [= _ <-].
Qed.

Lemma still_upsertDocumentRow y : still (upsertDocumentRow y).
Proof.
  unfold upsertDocumentRow. still_walk. apply still_stmt. unfold insert_document. intros d a d'.
  destruct (IsNaN _); [done|]. destruct (_ || _); [|done]. by intros [= _ <-].
Qed.

#[local] Hint Resolve still_upsertSubmissionRow still_upsertEmailRow still_upsertDocumentRow : triage.

Lemma still_upsert_rows s : still (upsert_rows s).
Proof. unfold upsert_rows, unless_duplicate. still_walk. Qed.
#[local] Hint Resolve still_upsert_rows : triage.

Lemma still_UpsertSubmission s : still (UpsertSubmission s).
Proof. unfold UpsertSubmission. still_walk. Qed.

Lemma still_UpsertEmail e : still (UpsertEmail e).
Proof. unfold UpsertEmail. still_walk. Qed.

Lemma still_update_submissions what p f : still (update_submissions what p f).
Proof. unfold update_submissions. still_walk. Qed.

Lemma still_GetByID id : still (GetByID id).
Proof. unfold GetByID, loadEmails, loadDocuments, not_found. still_walk. Qed.
#[local] Hint Resolve still_GetByID still_update_submissions : triage.

Lemma still_FindByEmailReference refs : still (FindByEmailReference refs).
Proof.
  unfold FindByEmailReference, findSubmissionIDsByRefs, pickMostRecentlyUpdated, not_found. still_walk.
Qed.

Lemma still_FindByDeterministicID id : still (FindByDeterministicID id).
Proof. unfold FindByDeterministicID, not_found. still_walk. Qed.

Lemma still_FindContentMatch insured from since : still (FindContentMatch insured from since).
Proof. unfold FindContentMatch, not_found. still_walk. Qed.

Lemma still_SetOnHold ids b : still (SetOnHold ids b).
Proof. unfold SetOnHold. still_walk. Qed.

Lemma still_SetLastReplyAt id t : still (SetLastReplyAt id t).
Proof. apply still_update_submissions. Qed.

Lemma still_ClearReplyHash id : still (ClearReplyHash id).
Proof. apply still_update_submissions. Qed.

Lemma still_ClearText t : still (ClearExtractedTextForClosed t).
Proof. intros x o n. by apply preserves_wrap_err, still_counted. Qed.

Lemma still_Append e : still (Append e).
Proof.
  unfold Append. still_walk. apply still_stmt. intros d b d'.
  destruct (has_key _ _ _); [done|]. by intros [= _ <-].
Qed.

Lemma still_Audit_Prune t : still (Audit_Prune t).
Proof. intros x o n. by apply preserves_wrap_err, still_counted. Qed.

Lemma still_GetPending id : still (GetPending id).
Proof. unfold GetPending. still_walk. Qed.
End repositories.

#[export] Hint Resolve still_upsert_rows still_UpsertSubmission still_UpsertEmail still_update_submissions still_GetByID
  still_FindByEmailReference still_FindByDeterministicID still_FindContentMatch still_SetOnHold
  still_SetLastReplyAt still_ClearReplyHash still_ClearText still_Append still_Audit_Prune still_GetPending : triage.

(** ** The service *)

Section service.
Context {L : GoLib} {E : Env} (svc : Service).

Lemma still_audit id evt p : still (audit id evt p).
Proof. unfold audit. still_walk. Qed.
#[local] Hint Resolve still_audit : triage.

Lemma still_flushAudit : still flushAudit.
Proof. unfold flushAudit. still_walk. Qed.

Lemma still_createSubmission req : still (createSubmission svc req).
Proof. unfold createSubmission. still_walk. Qed.

Lemma still_auditCapOnce : still auditCapOnce.
Proof. unfold auditCapOnce. still_walk. Qed.

Lemma still_auditLLMCall id op f u : still (auditLLMCall id op f u).
Proof. unfold auditLLMCall. still_walk. Qed.
#[local] Hint Resolve still_auditCapOnce still_auditLLMCall : triage.

Lemma still_classifyAttachment id e cl a : still (classifyAttachment svc id e cl a).
Proof. unfold classifyAttachment, extractField. still_walk. Qed.
#[local] Hint Resolve still_classifyAttachment : triage.

Lemma still_classifyAttachments id e cl atts : still (classifyAttachments svc id e cl atts).
Proof. induction atts; cbn [classifyAttachments]; still_walk. Qed.
#[local] Hint Resolve still_classifyAttachments : triage.

Lemma still_evaluate sub inbound : still (evaluate svc sub inbound).
Proof. unfold evaluate, resolvePolicyType. still_walk. Qed.

Lemma still_extractIdentity sub : still (extractIdentity svc sub).
Proof. unfold extractIdentity. still_walk. Qed.

Lemma still_contentMatch sub inbound : still (contentMatch svc sub inbound).
Proof. unfold contentMatch, reparentAudits. still_walk. Qed.

Lemma still_attach_inbound sub req id inbound : still (attach_inbound sub req id inbound).
Proof. unfold attach_inbound. still_walk. Qed.

Lemma still_settle sub missing : still (settle svc sub missing).
Proof. unfold settle, transitionState. still_walk. Qed.

Lemma still_replySuppressed sub : still (replySuppressed svc sub).
Proof. unfold replySuppressed. still_walk. Qed.

Lemma still_persistNoReply sub res : still (persistNoReply sub res).
Proof. unfold persistNoReply. still_walk. Qed.

Lemma still_persistBounce sub req : still (persistBounce sub req).
Proof. unfold persistBounce. still_walk. Qed.

Lemma still_persistSuppressed sub hs res : still (persistSuppressed sub hs res).
Proof. unfold persistSuppressed. still_walk. Qed.

Lemma still_escalate sub now reason : still (escalate sub now reason).
Proof. unfold escalate. still_walk. Qed.
#[local] Hint Resolve still_escalate : triage.

Lemma still_bind_nudge gap now ids sub : still (bind_nudge gap now ids sub).
Proof. unfold bind_nudge. still_walk. Qed.

Lemma still_closeQuiet sub reason now : still (closeQuiet sub reason now).
Proof. unfold closeQuiet. still_walk. Qed.
End service.

#[export] Hint Resolve still_audit still_flushAudit still_createSubmission still_evaluate still_extractIdentity
  still_contentMatch still_attach_inbound still_settle still_replySuppressed still_persistNoReply
  still_persistBounce still_persistSuppressed still_escalate still_bind_nudge still_closeQuiet : triage.

(** ** The commit does not panic *)

Section calm.
Context {L : GoLib} {E : Env}.

Lemma calm_for_each {A} (f : A → M unit) l : (∀ y, calm (f y)) → calm (for_each f l).
Proof. intros Hf. induction l as [|y l IH]; cbn [for_each]; [apply calm_ret|]. by apply calm_bind. Qed.

Lemma calm_unless_duplicate m : calm m → calm (unless_duplicate m).
Proof.
  intros Hm w p. unfold unless_duplicate, mbind, M_bind, attempt. specialize (Hm w).
  destruct (m w) as [[[]|e] w']; [done|].
  destruct e; cbn; try done; by case_match.
Qed.

Lemma calm_upsert_rows s : calm (upsert_rows s).
Proof.
  assert (∀ t, calm (nanoOrNow t)) as Hn.
  { intros t. unfold nanoOrNow. destruct (IsZero t); [|apply calm_ret]. by apply calm_bind. }
  unfold upsert_rows. apply calm_bind.
  { unfold upsertSubmissionRow. destruct (negb _); [done|]. do 3 (apply calm_bind; [done|intros]).
    by apply calm_wrap_err, calm_stmt. }
  intros []. apply calm_bind; [apply calm_for_each; intros e|intros []; apply calm_for_each; intros d].
  - apply calm_unless_duplicate. unfold upsertEmailRow.
    apply calm_bind; [|intros n; by destruct (n =? 0)].
    apply calm_wrap_err, calm_stmt. intros d p. unfold insert_email.
    destruct (has_key _ _ _); [done|]. by destruct (has_submission _ _).
  - unfold upsertDocumentRow. case_bool_decide; [done|]. destruct (negb _); [done|].
    apply calm_wrap_err, calm_stmt. intros d' p. unfold insert_document. destruct (IsNaN _); [done|].
    by destruct (_ || _).
Qed.

Lemma calm_UpsertSubmissionWithReply s e : calm (UpsertSubmissionWithReply s e).
Proof.
  unfold UpsertSubmissionWithReply. case_bool_decide; [done|]. apply calm_transaction, calm_bind.
  { apply calm_upsert_rows. }
  intros []. unfold insertOutboxRow. apply calm_bind; [by case_bool_decide|]. intros id.
  apply calm_bind; [done|]. intros now. apply calm_bind; [|done]. apply calm_wrap_err, calm_stmt.
  intros d p. unfold upsert_outbox. destruct (if is_pending _ then _ else _); [done|].
  destruct (has_key _ _ _); [done|]. by destruct (has_submission _ _).
Qed.
End calm.
