(* ===== verification/Tasks.v ===== *)
(** Goroutines over the shared world.

    A [task] is a computation cut into steps: between two steps of one goroutine any
    other may run.  [atomic] makes one step of a call, [run] runs a task without
    interference, and [step] is the interleaving: any live task makes its next step, a
    new task is started, or the process dies and comes back with its database.

    The audit collector travels in an ingest's context: [in_collector] puts it back
    before each of the ingest's steps and takes it out afterwards. *)
From Stdlib Require Import ZArith Morphisms.
From stdpp Require Import base list strings gmap.
From S2P Require Import Prelude GoValues Submission World Service.

Inductive task (A : Type) : Type :=
| TRet (r : result A)
| TStep (m : World → task A * World).
Arguments TRet {A} r.
Arguments TStep {A} m.

(** Induction over the steps still to come. *)
Lemma task_steps {A} (P : task A → Prop) :
  (∀ r, P (TRet r)) → (∀ m, (∀ w, P (m w).1) → P (TStep m)) → ∀ t, P t.
Proof. intros Hr Hs. fix go 1. intros [r|m]; [apply Hr|]. apply Hs. intros w. apply go. Qed.

(** What follows a task, its failures included. *)
Fixpoint ton {A B} (t : task A) (h : result A → task B) : task B :=
  match t with
  | TRet r => h r
  | TStep m => TStep (λ w, let '(t', w') := m w in (ton t' h, w'))
  end.

#[export] Instance task_ret : MRet task := λ A a, TRet (Ok a).
#[export] Instance task_bind : MBind task := λ A B f t,
  ton t (λ r, match r with Ok a => f a | Err e => TRet (Err e) end).

(** A call during which nothing else runs. *)
Definition atomic {A} (m : M A) : task A := TStep (λ w, let '(r, w') := m w in (TRet r, w')).

Definition tattempt {A} (t : task A) : task (result A) :=
  ton t (λ r, match r with Err (ErrPanic p) => TRet (Err (ErrPanic p)) | _ => TRet (Ok r) end).
Definition tlog_err {A} (t : task A) : task unit := tattempt t ≫= λ _, mret ().
Definition tthrow {A} (e : error) : task A := TRet (Err e).
Definition trecovering (t : task unit) (h : string → task unit) : task unit :=
  ton t (λ r, match r with Err (ErrPanic p) => h p | _ => TRet r end).
Definition tdeferred {A} (t : task A) (release : task unit) : task A :=
  ton t (λ r, ton release (λ _, TRet r)).

Fixpoint tfor_each {A} (f : A → task unit) (l : list A) : task unit :=
  match l with
  | [] => mret ()
  | x :: l => f x ≫= λ _, tfor_each f l
  end.

Fixpoint run {A} (t : task A) : M A :=
  match t with
  | TRet r => λ w, (r, w)
  | TStep m => λ w, let '(t', w') := m w in run t' w'
  end.

(** A goroutine with its own collector, flushed when it ends. *)
Fixpoint in_collector {E : Env} {A} (es : option (list AuditEntry)) (t : task A) : task A :=
  match t with
  | TRet r => TStep (λ w, (TRet r, w_with_collector None (flushAudit (w_with_collector es w)).2))
  | TStep m => TStep (λ w, let '(t', w') := m (w_with_collector es w) in
                           (in_collector w'.(w_collector) t', w_with_collector None w'))
  end.

(** ** Runs without interference *)

(** Two computations that cannot be told apart. *)
Definition same {A} (m m' : M A) : Prop := ∀ w, m w = m' w.

#[export] Instance same_equiv {A} : Equivalence (same (A := A)).
Proof.
  split; [by intros m w|by intros m m' H w|].
  intros m1 m2 m3 H1 H2 w. by rewrite H1.
Qed.

#[export] Instance same_bind_proper {A B} :
  Proper (pointwise_relation A same ==> same ==> same) (mbind (M := M) (B := B)).
Proof.
  intros f f' Hf m m' Hm w. unfold mbind, M_bind. rewrite (Hm w).
  destruct (m' w) as [[a|e] w']; [apply Hf|done].
Qed.

#[export] Instance same_attempt_proper {A} : Proper (same ==> same) (attempt (A := A)).
Proof. intros m m' Hm w. unfold attempt. by rewrite (Hm w). Qed.

#[export] Instance same_recovering_proper :
  Proper (same ==> pointwise_relation string same ==> same) recovering.
Proof.
  intros m m' Hm h h' Hh w. unfold recovering. rewrite (Hm w).
  destruct (m' w) as [[|[]] ?]; try done. apply Hh.
Qed.

#[export] Instance same_deferred_proper {A} :
  Proper (same ==> same ==> same) (deferred (A := A)).
Proof.
  intros m m' Hm r r' Hr w. unfold deferred. rewrite (Hm w). destruct (m' w). by rewrite (Hr _).
Qed.

Lemma run_ton {A B} (t : task A) (h : result A → task B) w :
  run (ton t h) w = let '(r, w') := run t w in run (h r) w'.
Proof.
  revert w. induction t as [r|m IH] using task_steps; intros w; cbn; [done|].
  specialize (IH w). destruct (m w) as [t' w']. apply IH.
Qed.

Section runs.
Context {A B : Type}.

Lemma run_atomic (m : M A) : same (run (atomic m)) m.
Proof. intros w. cbn. by destruct (m w). Qed.

Lemma run_bind (t : task A) (f : A → task B) m (g : A → M B) :
  same (run t) m → (∀ a, same (run (f a)) (g a)) → same (run (t ≫= f)) (m ≫= g).
Proof.
  intros Ht Hf w. unfold mbind at 1, task_bind. rewrite run_ton, (Ht w). unfold mbind, M_bind.
  destruct (m w) as [[a|e] w']; [apply Hf|done].
Qed.

Lemma run_attempt (t : task A) m : same (run t) m → same (run (tattempt t)) (attempt m).
Proof.
  intros Ht w. unfold tattempt, attempt. rewrite run_ton, (Ht w).
  by destruct (m w) as [[|[]] w'].
Qed.

Lemma run_deferred (t : task A) release m r :
  same (run t) m → same (run release) r → same (run (tdeferred t release)) (deferred m r).
Proof.
  intros Ht Hr w. unfold tdeferred, deferred. rewrite run_ton, (Ht w).
  destruct (m w) as [x w']. rewrite run_ton, (Hr w'). by destruct (r w').
Qed.
End runs.

Lemma run_ret {A} (a : A) : same (run (mret a)) (mret a).
Proof. done. Qed.

Lemma run_throw {A} e : same (run (tthrow (A := A) e)) (throw e).
Proof. done. Qed.

Lemma run_log_err {A} (t : task A) m : same (run t) m → same (run (tlog_err t)) (log_err m).
Proof. intros. apply run_bind; [by apply run_attempt|done]. Qed.

Lemma run_recovering t h m g :
  same (run t) m → (∀ p, same (run (h p)) (g p)) → same (run (trecovering t h)) (recovering m g).
Proof.
  intros Ht Hh w. unfold trecovering, recovering. rewrite run_ton, (Ht w).
  destruct (m w) as [[|[]] w']; try done. apply Hh.
Qed.

Lemma run_for_each {A} (f : A → task unit) g l :
  (∀ x, same (run (f x)) (g x)) → same (run (tfor_each f l)) (for_each g l).
Proof. intros Hf. induction l as [|x l IH]; cbn [tfor_each for_each]; [done|]. by apply run_bind. Qed.

(** The collector's steps put together: the ingest with its deferred flush. *)
Lemma run_in_collector {E : Env} {A} (t : task A) es w :
  run (in_collector es t) w =
  let '(r, w') := run t (w_with_collector es w) in
  (r, w_with_collector None (flushAudit w').2).
Proof.
  revert es w. induction t as [r|m IH] using task_steps; intros es w; cbn; [done|].
  specialize (IH (w_with_collector es w)). destruct (m _) as [t' w']. cbn in *. rewrite IH.
  by replace (w_with_collector (w_collector w') (w_with_collector None w')) with w' by by destruct w'.
Qed.

(** Follows a task and the computation it was cut from in parallel. *)
Ltac runs :=
  repeat first
    [ progress (intros)
    | apply run_ret | apply run_throw | apply run_atomic
    | lazymatch goal with
      | |- same (run (mbind _ _)) _ => apply run_bind
      | |- same (run (tattempt _)) _ => apply run_attempt
      | |- same (run (tlog_err _)) _ => apply run_log_err
      | |- same (run (tfor_each _ _)) _ => apply run_for_each
      | |- same (run (trecovering _ _)) _ => apply run_recovering
      | |- same (run (tdeferred _ _)) _ => apply run_deferred
      end
    | solve [auto]
    | match goal with
      | |- same (run (match ?x with _ => _ end)) _ => destruct x
      | |- same (run (if ?x then _ else _)) _ => destruct x
      | |- same (run (let '_ := ?x in _)) _ => destruct x
      end ].

(** ** Tasks that keep an invariant

    [sound I Q t]: whatever happens between the steps of [t], as long as it keeps [I], the
    steps of [t] keep it too, and what [t] returns in the end satisfies [Q]. *)
Inductive sound (I : World → Prop) {A} (Q : A → Prop) : task A → Prop :=
| sound_ret r : (∀ a, r = Ok a → Q a) → sound I Q (TRet r)
| sound_step m : (∀ w, I w → I (m w).2) → (∀ w, I w → sound I Q (m w).1) → sound I Q (TStep m).

Section sound.
Context (I : World → Prop).

Lemma sound_ton {A B} (t : task A) (h : result A → task B) (Q : A → Prop) (R : B → Prop) :
  sound I Q t → (∀ r, (∀ a, r = Ok a → Q a) → sound I R (h r)) → sound I R (ton t h).
Proof.
  intros Ht Hh. induction Ht as [r Hr|m Hm _ IH]; cbn; [by apply Hh|]. constructor.
  - intros w Hw. specialize (Hm w Hw). by destruct (m w).
  - intros w Hw. specialize (IH w Hw). by destruct (m w).
Qed.

Lemma sound_bind {A B} (t : task A) (f : A → task B) (Q : A → Prop) (R : B → Prop) :
  sound I Q t → (∀ a, Q a → sound I R (f a)) → sound I R (t ≫= f).
Proof.
  intros Ht Hf. eapply sound_ton; [done|]. intros [a|e] Hr; [by apply Hf, Hr|]. by constructor.
Qed.

Lemma sound_atomic {A} (m : M A) (Q : A → Prop) : yields I m Q → sound I Q (atomic m).
Proof.
  intros Hm. constructor; intros w Hw; destruct (Hm w Hw) as [HI HQ]; destruct (m w) as [r w'].
  - exact HI.
  - by constructor.
Qed.

Lemma sound_return {A} (a : A) (Q : A → Prop) : Q a → sound I Q (mret a).
Proof. intros Ha. constructor. by intros ? [= <-]. Qed.

Lemma sound_throw {A} e (Q : A → Prop) : sound I Q (tthrow e).
Proof. by constructor. Qed.

Lemma sound_weaken {A} (t : task A) (Q Q' : A → Prop) :
  sound I Q t → (∀ a, Q a → Q' a) → sound I Q' t.
Proof. intros Ht HQ. induction Ht; constructor; eauto. Qed.

Lemma sound_attempt {A} (t : task A) (Q : A → Prop) :
  sound I Q t → sound I (λ r, match r with Ok a => Q a | Err _ => True end) (tattempt t).
Proof.
  intros Ht. eapply sound_ton; [done|].
  intros [a|e] Hr; [|destruct e]; constructor; intros ? [= <-]; auto.
Qed.
End sound.

(** A task whose result does not matter. *)
Notation keeps I t := (sound I (λ _, True) t).

Section keeps.
Context (I : World → Prop).

Lemma keeps_atomic {A} (m : M A) : preserves I m → keeps I (atomic m).
Proof. intros Hm. by apply sound_atomic, yields_any. Qed.

Lemma keeps_bind {A B} (t : task A) (f : A → task B) (R : B → Prop) :
  keeps I t → (∀ a, sound I R (f a)) → sound I R (t ≫= f).
Proof. intros Ht Hf. eapply sound_bind; [done|]. auto. Qed.

Lemma keeps_attempt {A} (t : task A) : keeps I t → keeps I (tattempt t).
Proof. intros Ht. eapply sound_weaken; [by apply sound_attempt|done]. Qed.

Lemma keeps_log_err {A} (t : task A) : keeps I t → keeps I (tlog_err t).
Proof. intros Ht. apply keeps_bind; [by apply keeps_attempt|]. intros. by apply sound_return. Qed.

Lemma keeps_recovering t h : keeps I t → (∀ p, keeps I (h p)) → keeps I (trecovering t h).
Proof.
  intros Ht Hh. eapply sound_ton; [done|]. intros [a|[]] _; try (by constructor). apply Hh.
Qed.

Lemma keeps_deferred {A} (t : task A) release :
  keeps I t → keeps I release → keeps I (tdeferred t release).
Proof.
  intros Ht Hr. eapply sound_ton; [done|]. intros r _. eapply sound_ton; [done|]. by constructor.
Qed.

Lemma keeps_for_each {A} (f : A → task unit) l :
  (∀ x, x ∈ l → keeps I (f x)) → keeps I (tfor_each f l).
Proof.
  induction l as [|x l IH]; intros Hf; cbn [tfor_each]; [by apply sound_return|].
  apply keeps_bind; [apply Hf; by left|]. intros _. apply IH. intros. apply Hf. by right.
Qed.

(** The collector is no part of the invariant. *)
Lemma keeps_in_collector {E : Env} {A} (t : task A) es :
  (∀ c w, I w → I (w_with_collector c w)) → preserves I flushAudit →
  keeps I t → keeps I (in_collector es t).
Proof.
  intros Hc Hfl Ht. revert es. induction Ht as [r _|m Hm _ IH]; intros es; cbn; constructor.
  - intros w Hw. cbn. auto.
  - intros w _. by constructor.
  - intros w Hw. specialize (Hm _ (Hc es w Hw)). destruct (m _) as [t' w']. by apply Hc.
  - intros w Hw. specialize (IH _ (Hc es w Hw)). destruct (m _) as [t' w']. by apply IH.
Qed.
End keeps.

(** Walks through a task, down to its calls. *)
Ltac twalk :=
  repeat first
    [ progress (intros)
    | apply sound_return; exact I
    | apply sound_throw
    | apply keeps_atomic; solve [walk]
    | lazymatch goal with
      | |- sound _ _ (mbind _ _) => apply keeps_bind
      | |- sound _ _ (tattempt _) => apply keeps_attempt
      | |- sound _ _ (tlog_err _) => apply keeps_log_err
      | |- sound _ _ (trecovering _ _) => apply keeps_recovering
      | |- sound _ _ (tdeferred _ _) => apply keeps_deferred
      | |- sound _ _ (tfor_each _ _) => apply keeps_for_each
      end
    | solve [eauto 3 with triage]
    | match goal with
      | |- sound _ _ (match ?x with _ => _ end) => destruct x
      | |- sound _ _ (if ?x then _ else _) => destruct x
      | |- sound _ _ (let '_ := ?x in _) => destruct x
      end ].

(** ** The process *)

Record system : Type := mkSystem {
  sy_tasks : list (task unit);
  sy_world : World }.

(** What a new process finds: the database, and what the servers have seen. *)
Definition reboot (w : World) : World :=
  mkWorld w.(w_db) w.(w_tick) None ∅ [] false None w.(w_sent)
    (mkPollState w.(w_poll).(ps_mail) 0 0) w.(w_net).

Section interleaving.
Context {Ev : Type} (start : Ev → task unit).

Inductive step : system → system → Prop :=
| step_start ts w e : step (mkSystem ts w) (mkSystem (ts ++ [start e]) w)
| step_task ts w i m t w' :
    ts !! i = Some (TStep m) → m w = (t, w') →
    step (mkSystem ts w) (mkSystem (<[ i := t ]> ts) w')
| step_crash ts w : step (mkSystem ts w) (mkSystem [] (reboot w)).

(** A schedule, and playing it; choosing a task that is not there does nothing. *)
Inductive choice : Type := CStart (e : Ev) | CTask (i : nat) | CCrash.

Definition move (c : choice) (p : system) : system :=
  match c with
  | CStart e => mkSystem (p.(sy_tasks) ++ [start e]) p.(sy_world)
  | CTask i =>
    match p.(sy_tasks) !! i with
    | Some (TStep m) => let '(t, w') := m p.(sy_world) in mkSystem (<[ i := t ]> p.(sy_tasks)) w'
    | _ => p
    end
  | CCrash => mkSystem [] (reboot p.(sy_world))
  end.

Definition play (cs : list choice) (p : system) : system := foldl (λ p c, move c p) p cs.

Lemma play_steps cs p : rtc step p (play cs p).
Proof.
  revert p. induction cs as [|c cs IH]; intros [ts w]; cbn; [done|].
  destruct c as [e|i|]; cbn.
  - eapply rtc_l; [apply step_start|apply IH].
  - destruct (ts !! i) as [[r|m]|] eqn:Ei; [apply IH| |apply IH].
    destruct (m w) as [t w'] eqn:Em. eapply rtc_l; [by eapply step_task|apply IH].
  - eapply rtc_l; [apply step_crash|apply IH].
Qed.

(** A state in which the invariant holds and every goroutine will keep it. *)
Definition steady (I : World → Prop) (p : system) : Prop :=
  I p.(sy_world) ∧ Forall (λ t, keeps I t) p.(sy_tasks).

Section steady.
Context (I : World → Prop) (Hr : ∀ w, I w → I (reboot w)).

Lemma steady_start ts w e :
  keeps I (start e) → steady I (mkSystem ts w) → steady I (mkSystem (ts ++ [start e]) w).
Proof. intros He [HI Ht]. split; [done|]. apply Forall_app. auto. Qed.

Lemma steady_task ts w i m t w' :
  ts !! i = Some (TStep m) → m w = (t, w') →
  steady I (mkSystem ts w) → steady I (mkSystem (<[ i := t ]> ts) w').
Proof.
  intros Hi Hm [HI Ht]. cbn in *. pose proof (Forall_lookup_1 _ _ _ _ Ht Hi) as Hk.
  inversion Hk as [|m' H1 H2]; subst. specialize (H1 _ HI). specialize (H2 _ HI). rewrite Hm in *.
  split; [done|]. by apply Forall_insert.
Qed.

Lemma steady_crash ts w : steady I (mkSystem ts w) → steady I (mkSystem [] (reboot w)).
Proof. intros [HI _]. split; [by apply Hr|constructor]. Qed.

(** An invariant every task keeps holds in every interleaving. *)
Lemma interleaving_invariant p p' :
  (∀ e, keeps I (start e)) → steady I p → rtc step p p' → steady I p'.
Proof.
  intros Hs Hp. induction 1 as [|p1 p2 p3 Hstep _ IH]; [done|]. apply IH.
  destruct Hstep; eauto using steady_start, steady_task, steady_crash.
Qed.

(** The same for the tasks a schedule starts. *)
Lemma play_invariant cs p :
  (∀ e, CStart e ∈ cs → keeps I (start e)) → steady I p → steady I (play cs p).
Proof.
  revert p. induction cs as [|c cs IH]; intros [ts w] Hs Hp; cbn; [done|].
  apply IH; [intros e He; apply Hs; by right|]. destruct c as [e|i|]; cbn.
  - apply steady_start; [|done]. apply Hs. by left.
  - destruct (ts !! i) as [[r|m]|] eqn:Ei; [done| |done]. destruct (m w) as [t w'] eqn:Em.
    by eapply steady_task.
  - by eapply steady_crash.
Qed.
End steady.

(** ** Every task ends *)

(** One step of one of the tasks, in any world. *)
Inductive advance : list (task unit) → list (task unit) → Prop :=
| advance_step ts i m w : ts !! i = Some (TStep m) → advance ts (<[ i := (m w).1 ]> ts).

Lemma advance_cons_inv t ts ts' :
  advance (t :: ts) ts' →
  (∃ m w, t = TStep m ∧ ts' = (m w).1 :: ts) ∨ (∃ ts1, advance ts ts1 ∧ ts' = t :: ts1).
Proof.
  inversion 1 as [? i m w Hi]; subst. destruct i as [|i]; cbn in *.
  - injection Hi as ->. left. eauto.
  - right. eexists. split; [by eapply advance_step|done].
Qed.

(** Without new starts no schedule goes on forever, whatever the world does in between. *)
Lemma advance_wf : well_founded (flip advance).
Proof.
  intros ts. induction ts as [|t ts IH].
  - constructor. intros ts' Hts. inversion Hts; subst. by rewrite lookup_nil in *.
  - revert ts IH. induction t as [r|m IHt] using task_steps; intros ts IH; induction IH as [ts Hts IHts];
      constructor; intros ts' Ha; apply advance_cons_inv in Ha as [(m' & w & Hm & ->)|(ts1 & Hts1 & ->)];
      try discriminate; try (by apply IHts).
    injection Hm as <-. apply IHt. by constructor.
Qed.
End interleaving.
