(* ===== verification/Interleave.v ===== *)
(** The service's goroutines as tasks.

    The poller's ingest, the reply workers and the sweeps run in goroutines of their own
    over one database and one set of claims.  Each is cut here at its calls of the
    repositories, of the LLM and of the mail server: a submission that was read is written
    back some steps later, from the copy the goroutine holds.  [task_of] is the task of
    each event; run without interference it is the event's computation. *)
From Stdlib Require Import ZArith.
From stdpp Require Import base list strings gmap.
From S2P Require Import Prelude GoStrings GoValues Submission Checklist Reply Classifier ChecklistStore Tables World Repository OutboxRepo Config Service Ingest Delivery Sweeps ServiceInv Tasks.

Open Scope Z_scope.

Section tasks.
Context {L : GoLib} {E : Env} (svc : Service).

(** ** The ingest *)

Definition resolve_task (req : IngestRequest) (emailID : string) : task (Submission + IngestResult) :=
  let refs := cleanThreadRefs req.(rq_MessageID) req.(rq_InReplyTo) req.(rq_References) in
  r ← tattempt (atomic (FindByEmailReference refs));
  match (r : result (Submission * bool)) with
  | Ok (found, ambiguous) =>
    if bool_decide (emailID ∈ map em_DeterministicID found.(sub_Emails)) then
      atomic (audit_duplicate found.(sub_ID) emailID req.(rq_Source)) ≫= λ _,
      mret (inr (duplicate_result found))
    else
      (if ambiguous then
         atomic (audit found.(sub_ID) EventThreadAmbiguous [("refs", AList (map AString refs))])
       else mret ()) ≫= λ _,
      atomic (audit found.(sub_ID) EventThreadMatched
        [("matched_by", AString "thread_headers"); ("message_id", AString req.(rq_MessageID))]) ≫= λ _,
      mret (inl found)
  | Err e =>
    if errors_Is e ErrSubmissionNotFound then
      d ← tattempt (atomic (FindByDeterministicID emailID));
      match (d : result Submission) with
      | Ok existing =>
        atomic (audit_duplicate existing.(sub_ID) emailID req.(rq_Source)) ≫= λ _,
        mret (inr (duplicate_result existing))
      | Err de =>
        if negb (errors_Is de ErrSubmissionNotFound) then
          tthrow (ErrWrap "dedup by deterministic id" de)
        else
          created ← atomic (wrap_err "create submission" (createSubmission svc req));
          mret (inl created)
      end
    else tthrow (ErrWrap "find by reference" e)
  end.

Definition evaluate_task (sub : Submission) (inbound : Email) (newSubmission : bool)
  : task (Submission * list MissingItem * bool) :=
  r ← atomic (evaluate svc sub inbound);
  let '(sub, missing, policyUnknown) := r : Submission * list MissingItem * bool in
  sub ← (if policyUnknown then mret sub else atomic (extractIdentity svc sub));
  merged ← (if newSubmission then atomic (contentMatch svc sub inbound) else mret None);
  match merged with
  | Some m => mret (m, m.(sub_MissingItems), bool_decide (m.(sub_PolicyType) = PolicyTypeUnknown))
  | None => mret (sub, missing, policyUnknown)
  end.

(** An id is drawn in one step with the claim: nobody else can know it before. *)
Definition draw_claim (submissionID : string) : M (string * bool) :=
  id ← NewString; claimed ← claimDispatch submissionID; mret (id, claimed).

Definition queue_task (sub : Submission) (reply : Reply) (fingerprint : string) (res : IngestResult)
  : task IngestResult :=
  let sub := sub_with_LastReplyHash fingerprint sub in
  now ← atomic time_Now;
  let notBefore := replyNotBefore svc sub now in
  c ← atomic (draw_claim sub.(sub_ID));
  let '(id, claimed) := (c : string * bool) in
  let entry := mkOutboxEntry id sub.(sub_ID) reply OutboxPending 0 "" zeroTime zeroTime notBefore in
  r ← tattempt (atomic (UpsertSubmissionWithReply sub entry));
  match (r : result OutboxEntry) with
  | Err e =>
    (if (claimed : bool) then atomic (releaseDispatch sub.(sub_ID)) else mret ()) ≫= λ _,
    tthrow (ErrWrap "persist submission with reply" e)
  | Ok entry =>
    let res := with_reply_queued res in
    queued ← (if (claimed : bool) && negb (After notBefore now)
              then atomic (enqueueReply svc (mkReplyJob reply sub.(sub_ID) entry.(oe_ID) entry.(oe_UpdatedAt)))
              else mret false);
    if (queued : bool) then mret res
    else (if (claimed : bool) then atomic (releaseDispatch sub.(sub_ID)) else mret ()) ≫= λ _, mret res
  end.

Definition reply_task (sub : Submission) (missing : list MissingItem) (inbound : Email)
    (policyUnknown : bool) (res : IngestResult) : task IngestResult :=
  match buildReply svc sub missing inbound policyUnknown with
  | None => atomic (persistNoReply sub res)
  | Some (reply, fingerprint) =>
    suppressed ← atomic (replySuppressed svc sub);
    if (suppressed : bool) then atomic (persistNoReply sub res)
    else if bool_decide (fingerprint = sub.(sub_LastReplyHash)) then
      atomic (audit sub.(sub_ID) EventReplySuppressed [("reason", AString "unchanged")]) ≫= λ _,
      atomic (persistNoReply sub res)
    else queue_task sub reply fingerprint res
  end.

Definition ingest_steps (req : IngestRequest) (emailID : string) : task IngestResult :=
  r ← resolve_task req emailID;
  match (r : Submission + IngestResult) with
  | inr dup => mret dup
  | inl sub =>
    let newSubmission := bool_decide (sub.(sub_Emails) = []) in
    let inbound := inboundEmail req emailID sub.(sub_ID) in
    sub ← atomic (attach_inbound sub req emailID inbound);
    if req.(rq_Bounce) then atomic (persistBounce sub req)
    else
      r ← evaluate_task sub inbound newSubmission;
      let '(sub, missing, policyUnknown) := r : Submission * list MissingItem * bool in
      sub ← atomic (settle svc sub missing);
      let res := mkIngestResult sub.(sub_ID) sub.(sub_State) false policyUnknown
                   sub.(sub_NeedsReview) missing false in
      if req.(rq_AutoSubmitted) then atomic (persistSuppressed sub req.(rq_AutoResponseHeaders) res)
      else reply_task sub missing inbound policyUnknown res
  end.

Definition ingest_task (req : IngestRequest) : task IngestResult :=
  req ← (if IsZero req.(rq_ReceivedAt)
         then now ← atomic time_Now; mret (rq_with_ReceivedAt now req) else mret req);
  in_collector (Some [])
    (ingest_steps req (computeEmailID req.(rq_MessageID) req.(rq_BodyText) req.(rq_Attachments))).

(** ** Escalation and closure *)

Fixpoint quiet_task (globalThreshold : duration) (now : time) (stale : list Submission)
  : task (list string) :=
  match stale with
  | [] => mret []
  | sub :: rest =>
    hit ← (if Sub now sub.(sub_LastActionAt) <? threshold_for svc globalThreshold sub then mret false
           else atomic (escalate sub now "quiet_threshold"));
    ids ← quiet_task globalThreshold now rest;
    mret (if (hit : bool) then sub.(sub_ID) :: ids else ids)
  end.

Definition escalations_task : task unit :=
  now ← atomic time_Now;
  let cfg := svc.(sv_cfg).(cfg_Escalation) in
  let globalThreshold := Threshold cfg in
  stale ← atomic (wrap_err "list stale"
    (ListStale (UnixNano (Add now (dur_neg (minThreshold svc globalThreshold)))) 100));
  escalated ← quiet_task globalThreshold now stale;
  if BindWindow cfg <=? 0 then mret ()
  else
    let graceFloor := startOfUTCDay (Add now (dur_neg (BindGrace cfg))) in
    soon ← atomic (wrap_err "list bind-soon"
      (ListBindSoon (UnixNano graceFloor) (UnixNano (Add now (BindWindow cfg))) sweepBatch));
    tfor_each (λ sub, atomic (bind_nudge (MinGap cfg) now escalated sub)) soon.

Definition settled_task (now cutoff : time) : task unit :=
  subs ← atomic (wrap_err "list completed-before" (ListCompletedBefore (UnixNano cutoff) sweepBatch));
  tfor_each (λ sub, atomic (closeQuiet sub "auto_close_after_complete" now)) subs ≫= λ _,
  esc ← atomic (wrap_err "list escalated" (ListEscalatedSince 0 500));
  tfor_each (λ sub, if After sub.(sub_LastActionAt) cutoff then mret ()
                    else atomic (closeQuiet sub "auto_close_after_escalation" now)) esc.

Definition closures_task : task unit :=
  now ← atomic time_Now;
  let cfg := svc.(sv_cfg).(cfg_Escalation) in
  (if 0 <? AutoCloseAfter cfg then settled_task now (Add now (dur_neg (AutoCloseAfter cfg)))
   else mret ()) ≫= λ _,
  if AwaitingAutoCloseAfter cfg <=? 0 then mret ()
  else
    stalled ← atomic (wrap_err "list stalled-before"
      (ListStalledBefore (UnixNano (Add now (dur_neg (AwaitingAutoCloseAfter cfg)))) sweepBatch));
    tfor_each (λ sub, atomic (closeQuiet sub "auto_close_stalled" now)) stalled.

Definition checks_task : task unit :=
  trecovering (tlog_err escalations_task ≫= λ _, tlog_err closures_task)
    (λ _, atomic (audit "" EventWorkerPanic [("check", AString "periodic_checks")])).

(** ** The Hold folder *)

Definition hold_task (messageIDs : list string) : task unit :=
  inFolder ← atomic (wrap_err "resolve hold folder" (SubmissionIDsByMessageIDs messageIDs));
  held ← atomic (wrap_err "list held" ListHeldIDs);
  let toHold := not_in held inFolder in
  let toRelease := not_in inFolder held in
  atomic (wrap_err "hold" (SetOnHold toHold true)) ≫= λ _,
  atomic (wrap_err "release" (SetOnHold toRelease false)) ≫= λ _,
  atomic (log_err (ExpirePendingForSubmissions toRelease "stale: queued before hold")) ≫= λ _,
  tfor_each (λ id, atomic (audit id EventHeld [])) toHold ≫= λ _,
  tfor_each (λ id, atomic (audit id EventReleased [])) toRelease.

(** ** The outbox *)

Definition deliver_task (reply : Reply) (submissionID : string) : task unit :=
  providerMsgID ← atomic (SendThreadedReply reply);
  now ← atomic time_Now;
  atomic (log_err (UpsertEmail (outboundEmail reply providerMsgID now))) ≫= λ _,
  now ← atomic time_Now;
  atomic (log_err (SetLastReplyAt submissionID now)) ≫= λ _,
  atomic (audit submissionID EventReplySent
    [("provider_msg_id", AString providerMsgID); ("to", AString reply.(rep_ToAddress));
     ("subject", AString reply.(rep_Subject)); ("via", AString svc.(sv_mailName))]).

Definition dispatch_task (job : replyJob) : task unit :=
  tdeferred
    (r ← tattempt (deliver_task job.(job_reply) job.(job_submissionID));
     match (r : result unit) with
     | Err e => atomic (audit job.(job_submissionID) EventReplyFailed [("error", AString (error_text e))])
     | Ok _ => atomic (log_err (MarkSent job.(job_outboxID) job.(job_version)))
     end)
    (atomic (releaseDispatch job.(job_submissionID))).

(** The worker takes a job off the channel in one step. *)
Definition take_job : M (option replyJob) :=
  w ← get;
  match w.(w_jobs) with
  | [] => mret None
  | job :: rest => modify (w_with_jobs rest) ≫= λ _, mret (Some job)
  end.

Definition worker_task : task unit :=
  job ← atomic take_job;
  match job with None => mret () | Some job => dispatch_task job end.

Definition redeliver_task (listed : OutboxEntry) : task unit :=
  tdeferred
    (fresh ← tattempt (atomic (GetPending listed.(oe_ID)));
     match (fresh : result (option OutboxEntry)) with
     | Err _ | Ok None => mret ()
     | Ok (Some row) =>
       r ← tattempt (deliver_task row.(oe_Reply) row.(oe_SubmissionID));
       match (r : result unit) with
       | Err e => atomic (settle_failure svc row e)
       | Ok _ => atomic (log_err (MarkSent row.(oe_ID) row.(oe_UpdatedAt)))
       end
     end)
    (atomic (releaseDispatch listed.(oe_SubmissionID))).

Definition sweep_row_task (blocked : list string) (row : OutboxEntry) : task unit :=
  atomic check_ctx ≫= λ _,
  if bool_decide (row.(oe_SubmissionID) ∈ blocked) then mret ()
  else
    claimed ← atomic (claimDispatch row.(oe_SubmissionID));
    if (claimed : bool) then redeliver_task row else mret ().

Definition redeliver_outbox_task : task unit :=
  if repliesDisabled svc then mret ()
  else
    now ← atomic time_Now;
    let cutoff := Add now (dur_neg svc.(sv_outboxRetryAfter)) in
    rows ← atomic (wrap_err "outbox: list pending" (ListPending now cutoff svc.(sv_outboxBatch)));
    blocked ← atomic (blockedSubmissions rows);
    tfor_each (sweep_row_task blocked) rows.

Definition outbox_task : task unit :=
  trecovering (tlog_err redeliver_outbox_task)
    (λ _, atomic (audit "" EventWorkerPanic [("check", AString "outbox_sweep")])).

(** ** Retention *)

Definition prune_task : task Z :=
  now ← atomic time_Now;
  let cfg := svc.(sv_cfg).(cfg_Retention) in
  touched ← (if 0 <? OutboxPendingTTL cfg
             then atomic (ExpirePending (UnixNano (Add now (dur_neg (OutboxPendingTTL cfg))))) else mret 0);
  if AuditRetention cfg <=? 0 then mret touched
  else
    let cutoff := UnixNano (Add now (dur_neg (AuditRetention cfg))) in
    audits ← atomic (Audit_Prune cutoff);
    settled ← atomic (Outbox_Prune cutoff);
    docs ← atomic (ClearExtractedTextForClosed cutoff);
    mret (touched + (audits + settled + docs)).

Definition retention_task : task unit :=
  r ← tattempt prune_task;
  match (r : result Z) with
  | Err _ => mret ()
  | Ok touched => if touched =? 0 then mret () else atomic (log_err (mret ()))
  end.

(** The digest only reads until it is sent: one step. *)
Definition task_of (e : event) : task unit :=
  match e with
  | EvIngest req => tlog_err (ingest_task req)
  | EvWorker => worker_task
  | EvOutboxSweep => outbox_task
  | EvPeriodicChecks => checks_task
  | EvDigest => atomic (digest_tick svc)
  | EvHoldFolder ids => tlog_err (hold_task ids)
  | EvRetention => retention_task
  | EvFileFailed id folder reason => atomic (AuditFileFailed id folder reason)
  end.

(** ** Without interference *)

Lemma run_resolve req id : same (run (resolve_task req id)) (resolveSubmission svc req id).
Proof. unfold resolve_task, resolveSubmission. runs. Qed.

Lemma run_evaluate sub inbound new :
  same (run (evaluate_task sub inbound new)) (evaluate_and_thread svc sub inbound new).
Proof. unfold evaluate_task, evaluate_and_thread. runs. Qed.

Lemma run_draw {B} sid (f : string → bool → task B) g :
  (∀ id claimed, same (run (f id claimed)) (g id claimed)) →
  same (run (c ← atomic (draw_claim sid); let '(id, claimed) := (c : string * bool) in f id claimed))
       (id ← NewString; claimed ← claimDispatch sid; g id claimed).
Proof.
  intros Hf w. cbn. unfold draw_claim, mbind, M_bind, task_bind. cbn.
  destruct (claimDispatch _ _) as [[claimed|] w']; [apply Hf|done].
Qed.

Lemma run_queue sub reply fp res :
  same (run (queue_task sub reply fp res)) (queue_reply svc sub reply fp res).
Proof.
  unfold queue_task, queue_reply. apply run_bind; [apply run_atomic|]. intros now. apply run_draw. runs.
Qed.

#[local] Hint Resolve run_resolve run_evaluate run_queue : core.

Lemma run_reply sub missing inbound pu res :
  same (run (reply_task sub missing inbound pu res)) (reply_or_persist svc sub missing inbound pu res).
Proof. unfold reply_task, reply_or_persist. runs. Qed.
#[local] Hint Resolve run_reply : core.

Lemma run_ingest_steps req id : same (run (ingest_steps req id)) (ingest_body svc req id).
Proof. unfold ingest_steps, ingest_body. runs. Qed.

Lemma run_ingest req : same (run (ingest_task req)) (IngestEmail svc req).
Proof.
  unfold ingest_task, IngestEmail. runs. intros w. unfold ingestEmailInner.
  rewrite run_in_collector, (run_ingest_steps _ _ _). by destruct (ingest_body _ _ _ _).
Qed.

Lemma run_quiet g now stale : same (run (quiet_task g now stale)) (quiet_pass svc g now stale).
Proof. induction stale; cbn [quiet_task quiet_pass]; runs. Qed.
#[local] Hint Resolve run_ingest run_quiet : core.

Lemma run_checks : same (run checks_task) (periodic_checks svc).
Proof.
  unfold checks_task, periodic_checks, recoverCheck, escalations_task, CheckEscalations,
    closures_task, CheckClosures, settled_task, closeSettled. runs.
Qed.

Lemma run_hold ids : same (run (hold_task ids)) (ReconcileHold ids).
Proof. unfold hold_task, ReconcileHold. runs. Qed.

Lemma run_deliver reply id : same (run (deliver_task reply id)) (deliver svc reply id).
Proof. unfold deliver_task, deliver. runs. Qed.
#[local] Hint Resolve run_checks run_hold run_deliver : core.

Lemma run_dispatch job : same (run (dispatch_task job)) (dispatchOnline svc job).
Proof. unfold dispatch_task, dispatchOnline. runs. Qed.
#[local] Hint Resolve run_dispatch : core.

Lemma run_worker : same (run worker_task) (replyWorker_step svc).
Proof.
  assert (same (replyWorker_step svc)
    (take_job ≫= λ j, match j with None => mret () | Some job => dispatchOnline svc job end)) as ->.
  { intros w. unfold replyWorker_step, take_job, mbind, M_bind. cbn. by destruct (w_jobs w). }
  unfold worker_task. runs.
Qed.

Lemma run_outbox : same (run outbox_task) (outbox_sweep svc).
Proof.
  unfold outbox_task, outbox_sweep, recoverCheck, redeliver_outbox_task, RedeliverOutbox,
    sweep_row_task, sweep_row, redeliver_task, redeliverOne. runs.
Qed.

Lemma run_retention : same (run retention_task) (retention_sweep svc (mret ())).
Proof. unfold retention_task, retention_sweep, prune_task, PruneRetention. runs. Qed.
#[local] Hint Resolve run_worker run_outbox run_retention : core.

Lemma run_task_of e : same (run (task_of e)) (run_event svc e).
Proof. destruct e; cbn [task_of run_event]; runs. Qed.
End tasks.
