(* ===== verification/Ghost.v ===== *)
(** What a goroutine owns, step by step.

    A task is given a ghost state: the claim it holds, or where it is in an abstract model.
    [follows mv Q g t]: from [g], every step of [t], in whatever world it is made, is a
    move of the ghost state that [mv] allows, and what [t] returns and the ghost state it
    ends in satisfy [Q].  The rules follow the constructs the tasks are made of. *)
From Stdlib Require Import ZArith.
From stdpp Require Import base list strings gmap.
From S2P Require Import Prelude GoStrings GoValues Submission Checklist Reply Classifier ChecklistStore Tables World Repository OutboxRepo Config Service Ingest Delivery Sweeps Still Tasks Interleave.

(** Steps that have nothing to do with sending move nothing, and the collector is no part
    of the ghost state. *)
Class Resting {G : Type} (mv : G → G → World → World → Prop) : Prop := {
  resting_still g w w' :
    mem w' = mem w → (w_db w').(db_outbox) = (w_db w).(db_outbox) → (w_tick w ≤ w_tick w')%nat → mv g g w w';
  resting_collector g g' c c' w w' : mv g g' (w_with_collector c w) w' → mv g g' w (w_with_collector c' w') }.

Section ghost.
Context {G : Type} (mv : G → G → World → World → Prop).

Fixpoint follows {A} (Q : result A → G → Prop) (g : G) (t : task A) : Prop :=
  match t with
  | TRet r => Q r g
  | TStep m => ∀ w, let '(t', w') := m w in ∃ g', mv g g' w w' ∧ follows Q g' t'
  end.

Lemma follows_ton {A B} (Q : result A → G → Prop) (R : result B → G → Prop) g t h :
  follows Q g t → (∀ r g', Q r g' → follows R g' (h r)) → follows R g (ton t h).
Proof.
  intros Ht Hh. revert g Ht. induction t as [r|m IH] using task_steps; intros g Ht; cbn in *; [by apply Hh|].
  intros w. specialize (Ht w). specialize (IH w). destruct (m w) as [t' w'].
  destruct Ht as (g' & Hg & Ht'). exists g'. split; [done|]. by apply IH.
Qed.

Lemma follows_weaken {A} (Q Q' : result A → G → Prop) g t :
  follows Q g t → (∀ r g', Q r g' → Q' r g') → follows Q' g t.
Proof.
  intros Ht HQ. revert g Ht. induction t as [r|m IH] using task_steps; intros g Ht; cbn in *; [auto|].
  intros w. specialize (Ht w). specialize (IH w). destruct (m w) as [t' w'].
  destruct Ht as (g' & Hg & Ht'). exists g'. split; [done|]. by apply IH.
Qed.

Lemma follows_bind {A B} (Q : result A → G → Prop) (R : result B → G → Prop) g t (f : A → task B) :
  follows Q g t → (∀ a g', Q (Ok a) g' → follows R g' (f a)) → (∀ e g', Q (Err e) g' → R (Err e) g') →
  follows R g (t ≫= f).
Proof. intros Ht Hf He. eapply follows_ton; [done|]. intros [a|e] g' Hq; [by apply Hf|by apply He]. Qed.

Lemma follows_call {A} (Q : result A → G → Prop) g (m : M A) :
  (∀ w, ∃ g', mv g g' w (m w).2 ∧ Q (m w).1 g') → follows Q g (atomic m).
Proof. intros Hm w. specialize (Hm w). by destruct (m w). Qed.

(** One of the goroutine's steps. *)
Lemma follows_step_inv {A} (Q : result A → G → Prop) g (m : World → task A * World) w t w' :
  follows Q g (TStep m) → m w = (t, w') → ∃ g', mv g g' w w' ∧ follows Q g' t.
Proof. intros Ht Hm. specialize (Ht w). cbn in Ht. by rewrite Hm in Ht. Qed.

(** ** Tasks that go from one state to another, whatever they return *)

Definition ends {A} (g g' : G) (t : task A) : Prop := follows (λ _ p, p = g') g t.

Lemma ends_return {A} g (r : result A) : ends g g (TRet r).
Proof. done. Qed.

Lemma ends_bind {A B} g (t : task A) (f : A → task B) :
  ends g g t → (∀ a, ends g g (f a)) → ends g g (t ≫= f).
Proof. intros Ht Hf. eapply follows_bind; [done|..]; [intros a ? ->; apply Hf|done]. Qed.

(** What comes first may move if the rest does not depend on its result. *)
Lemma ends_on {A B} g g1 g2 (t : task A) (h : result A → task B) :
  ends g g1 t → (∀ r, ends g1 g2 (h r)) → ends g g2 (ton t h).
Proof. intros Ht Hh. eapply follows_ton; [done|]. intros r ? ->. apply Hh. Qed.

Lemma ends_attempt {A} g (t : task A) : ends g g t → ends g g (tattempt t).
Proof. intros Ht. eapply ends_on; [done|]. by intros [a|[]]. Qed.

Lemma ends_log_err {A} g (t : task A) : ends g g t → ends g g (tlog_err t).
Proof. intros Ht. apply ends_bind; [by apply ends_attempt|]. done. Qed.

Lemma ends_recovering g t h : ends g g t → (∀ p, ends g g (h p)) → ends g g (trecovering t h).
Proof. intros Ht Hh. eapply ends_on; [done|]. intros [a|e]; [done|]. by destruct e. Qed.

Lemma ends_deferred {A} g g1 (t : task A) release :
  ends g g t → ends g g1 release → ends g g1 (tdeferred t release).
Proof. intros Ht Hr. eapply ends_on; [done|]. intros r. by eapply ends_on. Qed.

Lemma ends_for_each {A} g (f : A → task unit) l :
  (∀ x, ends g g (f x)) → ends g g (tfor_each f l).
Proof. intros Hf. induction l as [|x l IH]; cbn [tfor_each]; [done|]. by apply ends_bind. Qed.

(** ** Calls that move nothing *)

Context {R : Resting mv}.

Lemma still_move {A} g (m : M A) w : still m → mv g g w (m w).2.
Proof.
  intros Hm. destruct (Hm (mem w) _ (w_tick w) w (conj eq_refl (conj eq_refl (le_n _)))) as (Hx & Ho & Hn).
  by apply resting_still.
Qed.

Lemma follows_still {A} (Q : result A → G → Prop) g (m : M A) :
  still m → (∀ w, Q (m w).1 g) → follows Q g (atomic m).
Proof. intros Hm HQ. apply follows_call. intros w. exists g. split; [by apply still_move|done]. Qed.

Lemma ends_still {A} g (m : M A) : still m → ends g g (atomic m).
Proof. intros Hm. by apply follows_still. Qed.

(** The collector plays no part. *)
Lemma follows_in_collector {E : Env} {A} (Q : result A → G → Prop) es g t :
  follows Q g t → follows Q g (in_collector es t).
Proof.
  revert es g. induction t as [r|m IH] using task_steps; intros es g Ht; cbn in *; intros w.
  - exists g. split; [|done]. apply (resting_collector g g es). apply still_move, still_flushAudit.
  - specialize (Ht (w_with_collector es w)). specialize (IH (w_with_collector es w)).
    destruct (m _) as [t' w']. destruct Ht as (g' & Hg & Ht'). exists g'.
    split; [by eapply resting_collector|]. by apply IH.
Qed.
End ghost.

Create HintDb ghost.

(** Walks through a task that leaves the ghost state alone. *)
Ltac gwalk :=
  repeat first
    [ progress (intros)
    | apply ends_return
    | solve [eauto 3 with ghost]
    | lazymatch goal with |- ends ?mv _ _ (atomic _) => apply (ends_still mv); solve [unfold still; intros ? ? ?; walk] end
    | lazymatch goal with
      | |- ends _ _ _ (mbind _ _) => apply ends_bind
      | |- ends _ _ _ (tattempt _) => apply ends_attempt
      | |- ends _ _ _ (tlog_err _) => apply ends_log_err
      | |- ends _ _ _ (trecovering _ _) => apply ends_recovering
      | |- ends _ _ _ (tfor_each _ _) => apply ends_for_each
      end
    | match goal with
      | |- ends _ _ _ (match ?x with _ => _ end) => destruct x
      | |- ends _ _ _ (if ?x then _ else _) => destruct x
      | |- ends _ _ _ (let '_ := ?x in _) => destruct x
      end ].

(** ** The parts of the service that send nothing *)

Section service.
Context {L : GoLib} {E : Env} (svc : Service) {G : Type} (mv : G → G → World → World → Prop) {R : Resting mv}.
Notation rests t := (∀ g, ends mv g g t).

Lemma resolve_task_rests req id : rests (resolve_task svc req id).
Proof. unfold resolve_task, audit_duplicate. gwalk. Qed.

Lemma evaluate_task_rests sub inbound new : rests (evaluate_task svc sub inbound new).
Proof. unfold evaluate_task. gwalk. Qed.

Lemma quiet_task_rests threshold now stale : rests (quiet_task svc threshold now stale).
Proof. induction stale as [|sub stale IH]; cbn [quiet_task]; gwalk. Qed.
#[local] Hint Resolve quiet_task_rests : ghost.

Lemma checks_task_rests : rests (checks_task svc).
Proof.
  unfold checks_task, escalations_task, closures_task, settled_task, ListStale, ListBindSoon,
    ListCompletedBefore, ListEscalatedSince, ListStalledBefore, list_submissions. gwalk.
Qed.

Lemma file_failed_rests id folder reason : rests (atomic (AuditFileFailed id folder reason)).
Proof. unfold AuditFileFailed. gwalk. Qed.

(** The ingest moves where it queues its reply. *)
Lemma ingest_task_ends g req :
  (∀ sub reply fp res, ends mv g g (queue_task svc sub reply fp res)) → ends mv g g (ingest_task svc req).
Proof.
  intros Hq. pose proof (λ r i, resolve_task_rests r i g). pose proof (λ s i b, evaluate_task_rests s i b g).
  unfold ingest_task. apply ends_bind; [gwalk|]. intros r. apply (follows_in_collector mv).
  change (ends mv g g (ingest_steps svc r (computeEmailID (rq_MessageID r) (rq_BodyText r) (rq_Attachments r)))).
  unfold ingest_steps, reply_task. gwalk.
Qed.
End service.
