(* ===== verification/Demo.v ===== *)
(** Concrete values the examples and witnesses evaluate on: a configuration, a service
    with one checklist and no LLM, and requests. *)
From Stdlib Require Import ZArith.
From stdpp Require Import base list strings gmap.
From S2P Require Import Prelude GoStrings GoValues Submission Checklist Classifier ChecklistStore Tables World Repository OutboxRepo Config Service.

Open Scope Z_scope.

(** The defaults of the [envDefault] tags, where the service reads them. *)
Definition demo_config : Config :=
  mkConfig (mkServiceConfig "submission-triage") (mkHTTPConfig 8080 15 30 10 3)
    (mkDatabaseConfig "./data/submission-triage.db") (mkLogConfig "info" "json" "" 14 24)
    (mkIMAPConfig "" "993" "" "" "INBOX" 30 32 true "Triage" "Ready for Underwriting"
       "Waiting on Broker" "Escalated" "Unknown Policy" "Hold" 200 "" 5 120 "")
    (mkSMTPConfig "" "587" "" "" "" "Submission Triage")
    (mkMailConfig "password" (mkOAuthConfig "" "" "" "" "" ""))
    (mkOutboundConfig "") (mkAnthropicConfig "" "claude-haiku-4-5" 30 2048 (f64_of_Z 10))
    (mkClassifierConfig (f64_ratio 80 100)) (mkDocumentConfig 51200 100 ["sharefile"; "dropbox"])
    (mkChecklistsConfig "./checklists") (mkEscalationConfig 15 72 336 2160 7 3 24)
    (mkDigestConfig 24 "ops@agency.com" 500 0 "") (mkRetryConfig 3 500)
    (mkReplyConfig 4 64 (Some true) 3 120 30) (mkThreadingConfig 14) (mkRetentionConfig 90 168 24).

Definition demo_required : list RequiredItem :=
  [mkRequiredItem "cyber_application" "Cyber application" (mkMatchRules ["*application*"] []) None;
   mkRequiredItem "loss_runs" "Loss runs" (mkMatchRules ["*loss*"] []) None].

Definition cyber : Checklist :=
  mkChecklist "Cyber Liability" "cyber_liability" demo_required (mkEscalationPolicy 0 "").

Definition demo_store : Store :=
  mkStore (λ p, if bool_decide (p = "cyber_liability") then Some cyber else None) [cyber].

Definition demo_service : Service := NewSubmissionsService demo_config demo_store ∅ None "smtp".

Definition demo_attachment (name content : string) : Attachment :=
  mkAttachment name "text/plain" (len content) "" content.

Definition demo_request (messageID inReplyTo subject body : string) (atts : list Attachment)
  : IngestRequest :=
  mkIngestRequest messageID inReplyTo [] "bo@broker.com" "Bo" "" ["in@agency.com"] subject body
    1000 atts "imap" false [] false false.

(** A new submission for cyber with its application but no loss runs. *)
Definition first_mail : IngestRequest :=
  demo_request "<m1@broker>" "" "New cyber submission" "Hello, please find the file."
    [demo_attachment "application.txt" "Named Insured: Acme LLC"].
