(* ===== verification/InterleaveProps.v ===== *)
(** What holds under every interleaving of the service's goroutines. *)
From Stdlib Require Import ZArith.
From stdpp Require Import base list strings gmap.
From S2P Require Import Prelude GoStrings GoValues Submission Checklist Reply Classifier ChecklistStore Tables World Repository OutboxRepo Frames Persistence RepositoryProps Config Service Ingest Delivery Sweeps ServiceInv Tasks Interleave Demo.

Open Scope Z_scope.

(** ** The invariant of the database *)

Section invariant.
Context {L : GoLib} {E : Env} (svc : Service).

#[local] Hint Resolve inv_SendThreadedReply inv_redeliverOne inv_persistBounce inv_persistNoReply
  inv_persistSuppressed inv_enqueueReply inv_replySuppressed inv_escalate inv_closeQuiet
  inv_bind_nudge inv_flushAudit : triage.

(** A call whose result has a sound life cycle, and what follows. *)
Lemma sound_call {A B} (m : M A) (Q : A → Prop) (f : A → task B) (R : B → Prop) :
  yields Inv m Q → (∀ a, Q a → sound Inv R (f a)) → sound Inv R (atomic m ≫= f).
Proof. intros Hm. apply sound_bind. by apply sound_atomic. Qed.

Lemma resolve_task_ok req id :
  sound Inv (λ r, match r with inl s => lifecycle_wf s | inr _ => True end) (resolve_task svc req id).
Proof.
  unfold resolve_task. eapply sound_bind.
  { eapply sound_attempt, sound_atomic, FindByEmailReference_ok. }
  intros [[found amb]|e] Hr; cbn in Hr.
  - case_bool_decide; (apply keeps_bind; [unfold audit_duplicate; twalk|]); intros [].
    + by apply sound_return.
    + apply keeps_bind; [twalk|]. intros []. by apply sound_return.
  - destruct (errors_Is e _); [|apply sound_throw].
    eapply sound_bind; [eapply sound_attempt, sound_atomic, FindByDeterministicID_ok|].
    intros [s|de] Hs.
    + apply keeps_bind; [unfold audit_duplicate; twalk|]. intros []. by apply sound_return.
    + destruct (errors_Is de _); cbn [negb]; [|apply sound_throw].
      eapply sound_call; [apply yields_wrap_err, createSubmission_ok|]. intros s' Hs'.
      by apply sound_return.
Qed.

Lemma evaluate_task_ok sub inbound new :
  lifecycle_wf sub → sound Inv (λ r, lifecycle_wf r.1.1) (evaluate_task svc sub inbound new).
Proof.
  intros Hs. unfold evaluate_task. eapply sound_call; [by apply evaluate_ok|].
  intros [[s missing] pu] Hs'. eapply sound_bind with (Q := lifecycle_wf).
  { destruct pu; [by apply sound_return|by apply sound_atomic, extractIdentity_ok]. }
  intros s2 Hs2.
  eapply sound_bind with (Q := λ r, match r with Some s => lifecycle_wf s | None => True end).
  { destruct new; [apply sound_atomic, contentMatch_ok|by apply sound_return]. }
  intros [m|] Hm; by apply sound_return.
Qed.

Lemma queue_task_keeps sub reply fp res :
  lifecycle_wf sub → keeps Inv (queue_task svc sub reply fp res).
Proof.
  intros Hs. assert (lifecycle_wf (sub_with_LastReplyHash fp sub)) by done.
  unfold queue_task, draw_claim. twalk.
Qed.
#[local] Hint Resolve queue_task_keeps : triage.

Lemma ingest_task_keeps req : keeps Inv (ingest_task svc req).
Proof.
  unfold ingest_task. apply keeps_bind; [twalk|]. intros req'.
  apply keeps_in_collector; [done|apply inv_flushAudit|]. unfold ingest_steps.
  eapply sound_bind; [apply resolve_task_ok|]. intros [sub|dup] Hs; [|by apply sound_return].
  eapply sound_call; [by apply attach_inbound_ok|]. intros sub2 Hs2.
  destruct (rq_Bounce req'); [twalk|].
  eapply sound_bind; [by apply evaluate_task_ok|]. intros [[sub3 missing] pu] Hs3.
  eapply sound_call; [by apply settle_ok|]. intros sub4 Hs4. unfold reply_task. twalk.
Qed.

Lemma quiet_task_keeps g now stale :
  Forall lifecycle_wf stale → keeps Inv (quiet_task svc g now stale).
Proof. induction 1; cbn [quiet_task]; twalk. Qed.

(** A loop over the copies a query returned. *)
Lemma sound_listed {B} what where_ less limit (f : list Submission → task B) msg :
  (∀ subs, Forall lifecycle_wf subs → keeps Inv (f subs)) →
  keeps Inv (atomic (wrap_err msg (list_submissions what where_ less limit)) ≫= f).
Proof. intros Hf. eapply sound_call; [apply yields_wrap_err, list_submissions_ok|]. done. Qed.

Lemma sound_for_subs (f : Submission → task unit) subs :
  (∀ s, lifecycle_wf s → keeps Inv (f s)) → Forall lifecycle_wf subs → keeps Inv (tfor_each f subs).
Proof. intros Hf Hs. rewrite Forall_forall in Hs. apply keeps_for_each. auto. Qed.

Lemma escalations_task_keeps : keeps Inv (escalations_task svc).
Proof.
  unfold escalations_task. apply keeps_bind; [twalk|]. intros now.
  apply sound_listed. intros stale Hst. apply keeps_bind; [by apply quiet_task_keeps|]. intros ids.
  destruct (_ <=? _); [twalk|]. apply sound_listed. intros soon Hso.
  apply sound_for_subs; [|done]. twalk.
Qed.

Lemma closures_task_keeps : keeps Inv (closures_task svc).
Proof.
  unfold closures_task. apply keeps_bind; [twalk|]. intros now. apply keeps_bind.
  { destruct (_ <? _); [|twalk]. unfold settled_task. apply sound_listed. intros subs Hs.
    apply keeps_bind; [apply sound_for_subs; [twalk|done]|]. intros [].
    apply sound_listed. intros esc He. apply sound_for_subs; [|done]. twalk. }
  intros []. destruct (_ <=? _); [twalk|]. apply sound_listed. intros subs Hs.
  apply sound_for_subs; [twalk|done].
Qed.

#[local] Hint Resolve ingest_task_keeps escalations_task_keeps closures_task_keeps : triage.

Lemma deliver_task_keeps reply id : keeps Inv (deliver_task svc reply id).
Proof. unfold deliver_task. twalk. Qed.
#[local] Hint Resolve deliver_task_keeps : triage.

Lemma sweep_row_task_keeps blocked row : keeps Inv (sweep_row_task svc blocked row).
Proof. unfold sweep_row_task, redeliver_task, settle_failure, GetPending. twalk. Qed.
#[local] Hint Resolve sweep_row_task_keeps : triage.

Lemma task_of_keeps e : keeps Inv (task_of svc e).
Proof.
  destruct e; cbn [task_of]; unfold worker_task, take_job, dispatch_task, checks_task, hold_task,
    SubmissionIDsByMessageIDs, ListHeldIDs, outbox_task, redeliver_outbox_task, blockedSubmissions,
    ReplyBlockedIDs, retention_task, prune_task, digest_tick, recoverCheck, AuditFileFailed; twalk.
Qed.
End invariant.

(** ** What stays of a row

    A statement about the table of submissions that no upsert of a copy, however old, and
    no clearing of a reply hash can break. *)
Class RowFrame (T : list submission_row → Prop) : Prop := {
  rf_upsert : ∀ s, upsert_keeps T s;
  rf_hash : update_keeps T (sub_with_LastReplyHash "") }.

Section frame.
Context {L : GoLib} {E : Env} (svc : Service) (T : list submission_row → Prop) `{!RowFrame T}.

Notation Fr := (rows_of T ∘ w_db).

#[local] Hint Resolve rf_upsert rf_hash : triage.

Lemma fr_audit id evt payload : preserves Fr (audit id evt payload).
Proof. unfold audit. walk. Qed.
#[local] Hint Resolve fr_audit : triage.

Lemma fr_flushAudit : preserves Fr flushAudit.
Proof. unfold flushAudit. walk. Qed.

Lemma fr_GetByID id : preserves Fr (GetByID id).
Proof. unfold GetByID, loadEmails, loadDocuments, not_found. walk. Qed.
#[local] Hint Resolve fr_GetByID : triage.

Lemma fr_resolve_task req id : keeps Fr (resolve_task svc req id).
Proof.
  unfold resolve_task, audit_duplicate, FindByEmailReference, FindByDeterministicID, not_found,
    findSubmissionIDsByRefs, pickMostRecentlyUpdated, createSubmission. twalk.
Qed.

Lemma fr_auditCapOnce : preserves Fr auditCapOnce.
Proof. unfold auditCapOnce. walk. Qed.

Lemma fr_auditLLMCall id op f u : preserves Fr (auditLLMCall id op f u).
Proof. unfold auditLLMCall. walk. Qed.
#[local] Hint Resolve fr_auditCapOnce fr_auditLLMCall : triage.

Lemma fr_llm {A} (m : M A) : llm_frame m → preserves Fr m.
Proof. intros Hm. by apply preserves_llm. Qed.
#[local] Hint Resolve fr_llm : triage.

Lemma fr_classifyAttachment id e cl a : preserves Fr (classifyAttachment svc id e cl a).
Proof. unfold classifyAttachment, extractField. walk. Qed.
#[local] Hint Resolve fr_classifyAttachment : triage.

Lemma fr_classifyAttachments id e cl atts : preserves Fr (classifyAttachments svc id e cl atts).
Proof. induction atts; cbn [classifyAttachments]; walk. Qed.
#[local] Hint Resolve fr_classifyAttachments : triage.

Lemma fr_evaluate sub inbound : preserves Fr (evaluate svc sub inbound).
Proof. unfold evaluate, resolvePolicyType. walk. Qed.

Lemma fr_extractIdentity sub : preserves Fr (extractIdentity svc sub).
Proof. unfold extractIdentity. walk. Qed.

Lemma fr_contentMatch sub inbound : preserves Fr (contentMatch svc sub inbound).
Proof. unfold contentMatch, FindContentMatch, not_found, reparentAudits. walk. Qed.
#[local] Hint Resolve fr_evaluate fr_extractIdentity fr_contentMatch : triage.

Lemma fr_attach_inbound sub req id inbound : preserves Fr (attach_inbound sub req id inbound).
Proof. unfold attach_inbound. walk. Qed.

Lemma fr_settle sub missing : preserves Fr (settle svc sub missing).
Proof. unfold settle, transitionState. walk. Qed.
#[local] Hint Resolve fr_attach_inbound fr_settle fr_flushAudit fr_resolve_task : triage.

Lemma fr_ingest_task req : keeps Fr (ingest_task svc req).
Proof.
  unfold ingest_task. apply keeps_bind; [twalk|]. intros req'.
  apply keeps_in_collector; [done|auto with triage|].
  unfold ingest_steps, evaluate_task, reply_task, queue_task, draw_claim, persistBounce, persistSuppressed,
    persistNoReply, claimDispatch, releaseDispatch, enqueueReply, replySuppressed. twalk.
Qed.

Lemma fr_escalate sub now reason : preserves Fr (escalate sub now reason).
Proof. unfold escalate. walk. Qed.

Lemma fr_closeQuiet sub reason now : preserves Fr (closeQuiet sub reason now).
Proof. unfold closeQuiet. walk. Qed.
#[local] Hint Resolve fr_escalate fr_closeQuiet : triage.

Lemma fr_quiet_task g now stale : keeps Fr (quiet_task svc g now stale).
Proof. induction stale; cbn [quiet_task]; twalk. Qed.
#[local] Hint Resolve fr_quiet_task fr_ingest_task : triage.

Lemma fr_checks_task : keeps Fr (checks_task svc).
Proof.
  unfold checks_task, escalations_task, closures_task, settled_task, bind_nudge, ListStale,
    ListBindSoon, ListCompletedBefore, ListEscalatedSince, ListStalledBefore, list_submissions.
  twalk.
Qed.

Lemma fr_digest_tick : preserves Fr (digest_tick svc).
Proof.
  assert (∀ r, preserves Fr (SendThreadedReply r)) as Hs.
  { intros r w Hw. unfold SendThreadedReply. by destruct (env_send _ _). }
  unfold digest_tick, recoverCheck, SendDigest, ListOpen, list_submissions, CountOpen,
    FilenameOnlyItems, replyWithheld, ListSubmissionIDsByEvent. walk.
Qed.
#[local] Hint Resolve fr_checks_task fr_digest_tick : triage.

(** Deliveries stamp [last_reply_at]. *)
Lemma fr_deliver_task reply id :
  (∀ t, update_keeps T (sub_with_LastReplyAt t)) → keeps Fr (deliver_task svc reply id).
Proof.
  intros Hr. assert (∀ r, preserves Fr (SendThreadedReply r)) as Hs.
  { intros r w Hw. unfold SendThreadedReply. by destruct (env_send _ _). }
  assert (∀ id t, preserves Fr (SetLastReplyAt id t)) as Hl.
  { intros. by apply rows_update_submissions. }
  unfold deliver_task. twalk.
Qed.

Lemma fr_ClearReplyHash id : preserves Fr (ClearReplyHash id).
Proof. apply rows_update_submissions. auto with triage. Qed.
#[local] Hint Resolve fr_deliver_task fr_ClearReplyHash : triage.

(** Which events may change what the frame speaks of. *)
Definition stamps_replies (e : event) : bool :=
  match e with EvWorker | EvOutboxSweep => true | _ => false end.
Definition moves_holds (e : event) : bool :=
  match e with EvHoldFolder _ => true | _ => false end.

Lemma fr_task_of e :
  (stamps_replies e = true → ∀ t, update_keeps T (sub_with_LastReplyAt t)) →
  (moves_holds e = true → ∀ b, update_keeps T (sub_with_OnHold b)) →
  keeps Fr (task_of svc e).
Proof.
  intros Hr Hh.
  destruct e; cbn in Hr, Hh; try specialize (Hr eq_refl); try specialize (Hh eq_refl); cbn [task_of];
    unfold worker_task, take_job, dispatch_task, releaseDispatch, hold_task, SubmissionIDsByMessageIDs,
      ListHeldIDs, outbox_task, redeliver_outbox_task, blockedSubmissions, ReplyBlockedIDs,
      sweep_row_task, claimDispatch, redeliver_task, settle_failure, GetPending, retention_task,
      prune_task, AuditFileFailed; twalk.
Qed.
End frame.

(** ** The theorems *)

(** C1: in every state reached by any interleaving of the service's goroutines at their
    calls, with any failures and crashes, the schema's keys, references and the index of
    one pending reply per submission hold, and the clocks of every stored submission agree
    with its state. *)
Theorem interleaved_history_inv (L : GoLib) (E : Env) (svc : Service) (p : system) :
  rtc (step (task_of svc)) (mkSystem [] empty_world) p → db_inv (w_db (sy_world p)).
Proof.
  intros Hp. refine (proj1 (interleaving_invariant (task_of svc) Inv _ _ _ _ _ Hp)).
  - by intros w.
  - intros e. apply task_of_keeps.
  - split; [exact empty_db_inv|constructor].
Qed.

(** The row of [id] is there and satisfies [G]. *)
Definition row_has (id : string) (G : Submission → Prop) (rows : list submission_row) : Prop :=
  ∃ r, find_key sr_id id rows = Some r ∧ G r.(sr_data).

Lemma row_has_update id G f :
  (∀ s, sub_ID (f s) = sub_ID s) → (∀ s, G s → G (f s)) → update_keeps (row_has id G) f.
Proof.
  intros Hid Hf p rows (r & Hr & HG). unfold row_has. rewrite find_update_where by (intros; apply Hid).
  rewrite Hr. eexists. split; [done|]. destruct (p r); [by apply Hf|done].
Qed.

(** A condition on the columns the upsert leaves alone. *)
Lemma row_has_frame id (G : Submission → Prop) :
  (∀ old new : submission_row, G (sr_data old) → G (sr_data (submission_merge old new))) →
  (∀ s, G s → G (sub_with_LastReplyHash "" s)) → RowFrame (row_has id G).
Proof.
  intros Hm Hh. split; [|by apply row_has_update].
  intros s c u l rows (r & Hr & HG). unfold row_has. rewrite find_upsert_by, Hr by done.
  case_bool_decide; eexists; (split; [done|]); auto.
Qed.

Section columns.
Context {L : GoLib} {E : Env} (svc : Service) (cs : list (choice (Ev := event))) (w : World).

Definition played : World := sy_world (play (task_of svc) cs (mkSystem [] w)).

Lemma column_kept id (G : Submission → Prop) r :
  (∀ old new : submission_row, G (sr_data old) → G (sr_data (submission_merge old new))) →
  (∀ s, G s → G (sub_with_LastReplyHash "" s)) →
  (∀ e t s, CStart e ∈ cs → stamps_replies e = true → G s → G (sub_with_LastReplyAt t s)) →
  (∀ e b s, CStart e ∈ cs → moves_holds e = true → G s → G (sub_with_OnHold b s)) →
  find_key sr_id id (db_submissions (w_db w)) = Some r → G r.(sr_data) →
  row_has id G (db_submissions (w_db played)).
Proof.
  intros Hm Hh Hr Ho Hf HG. pose proof (row_has_frame id G Hm Hh) as Hfr.
  refine (proj1 (play_invariant (task_of svc) (rows_of (row_has id G) ∘ w_db) _ cs _ _ _)).
  - by intros w'.
  - intros e He. apply fr_task_of; [done|..].
    + intros Hs t. apply row_has_update; [done|]. eauto.
    + intros Hs b. apply row_has_update; [done|]. eauto.
  - split; [by exists r|constructor].
Qed.
End columns.

(** C2: under every schedule a stored submission keeps its creation time; its hold flag
    changes only by a reconciliation of the Hold folder and its last reply time only by a
    delivery, whatever stale copies the other goroutines write back. *)
Theorem protected_columns (L : GoLib) (E : Env) (svc : Service) cs w id r :
  find_key sr_id id (db_submissions (w_db w)) = Some r →
  ∃ r', find_key sr_id id (db_submissions (w_db (played svc cs w))) = Some r' ∧
    sub_CreatedAt (sr_data r') = sub_CreatedAt (sr_data r) ∧
    ((∀ e, CStart e ∈ cs → moves_holds e = false) →
       sub_OnHold (sr_data r') = sub_OnHold (sr_data r)) ∧
    ((∀ e, CStart e ∈ cs → stamps_replies e = false) →
       sub_LastReplyAt (sr_data r') = sub_LastReplyAt (sr_data r)).
Proof.
  intros Hr. destruct (column_kept svc cs w id (λ s, sub_CreatedAt s = sub_CreatedAt (sr_data r)) r)
    as (r' & Hr' & HG); try done.
  exists r'. split_and!; [done|done|intros He..].
  - destruct (column_kept svc cs w id (λ s, sub_OnHold s = sub_OnHold (sr_data r)) r)
      as (r2 & Hr2 & HG2); try done; [|congruence].
    intros e b s Hs Hm. by rewrite He in Hm.
  - destruct (column_kept svc cs w id (λ s, sub_LastReplyAt s = sub_LastReplyAt (sr_data r)) r)
      as (r2 & Hr2 & HG2); try done; [|congruence].
    intros e b s Hs Hm. by rewrite He in Hm.
Qed.

(** The cutting into steps is faithful.  Run without interference, the task of each
    event is exactly the event's computation: same result, same world. *)
Theorem tasks_are_events (L : GoLib) (E : Env) (svc : Service) (e : event) (w : World) :
  run (task_of svc e) w = run_event svc e w.
Proof. apply run_task_of. Qed.

(** Two goroutines over the demo service: the checks have started when a mail comes in. *)
Definition demo_schedule : list (choice (Ev := event)) :=
  CStart EvPeriodicChecks :: CTask 0 :: CStart (EvIngest first_mail) :: replicate 30 (CTask 1) ++
  [CTask 0; CCrash; CStart EvOutboxSweep; CTask 0; CTask 0].
Definition demo_system : system :=
  play (task_of (L := demo_lib) (E := demo_env) demo_service) demo_schedule (mkSystem [] empty_world).

Lemma interleaved_history_inv_witness :
  map sr_id (db_submissions (w_db (sy_world demo_system))) = ["id-3"] ∧
  db_inv (w_db (sy_world demo_system)).
Proof.
  split; [vm_compute; reflexivity|].
  apply (interleaved_history_inv demo_lib demo_env demo_service demo_system).
  apply play_steps.
Defined.

Definition stored_world : World := sy_world demo_system.
Definition first_row : submission_row :=
  default (mkSubmissionRow demo_stored MissingCorrupt) (head (db_submissions (w_db stored_world))).

Lemma protected_columns_witness :
  ∃ r', find_key sr_id "id-3" (db_submissions (w_db (played (L := demo_lib) (E := demo_env)
          demo_service [CStart EvPeriodicChecks; CTask 0; CTask 0] stored_world))) = Some r' ∧
    sub_OnHold (sr_data r') = false.
Proof.
  destruct (protected_columns demo_lib demo_env demo_service
    [CStart EvPeriodicChecks; CTask 0; CTask 0] stored_world "id-3" first_row ltac:(vm_compute; reflexivity))
    as (r' & Hr' & _ & Hh & _).
  exists r'. split; [exact Hr'|]. rewrite Hh; [vm_compute; reflexivity|].
  intros e He. rewrite !elem_of_cons, elem_of_nil in He. destruct He as [[= ->]|[?|[?|[]]]]; done.
Defined.
