(* ===== verification/IngestProps.v ===== *)
(** What an ingest does to the database.

    Before its commit an ingest only reads and appends audit entries ([Section frame]:
    any property of the database that audit appends respect survives that part), so a
    failure leaves submissions, emails, documents and replies as they were; the commit
    records the email, and queues a reply only past every gate; and a message already
    recorded is recognised. *)
From Stdlib Require Import ZArith.
From stdpp Require Import base list strings gmap.
From S2P Require Import Prelude GoStrings GoValues Submission Checklist Reply Classifier ChecklistStore Tables World Repository OutboxRepo Persistence RepositoryProps Config Service Ingest Delivery Sweeps ServiceInv Demo.

Open Scope Z_scope.

(** ** Before the commit *)

(** What the part before the commit leaves of a submission. *)
Record same_case (s s' : Submission) : Prop := {
  sc_id : s'.(sub_ID) = s.(sub_ID);
  sc_emails : s'.(sub_Emails) = s.(sub_Emails);
  sc_hold : s'.(sub_OnHold) = s.(sub_OnHold);
  sc_hash : s'.(sub_LastReplyHash) = s.(sub_LastReplyHash);
  sc_failed : s'.(sub_DeliveryFailed) = s.(sub_DeliveryFailed) }.

Lemma same_case_refl s : same_case s s.
Proof. done. Qed.

Lemma same_case_trans s1 s2 s3 : same_case s1 s2 → same_case s2 s3 → same_case s1 s3.
Proof. intros [] []. split; congruence. Qed.

Lemma same_case_TransitionTo s next now s' : TransitionTo s next now = Ok s' → same_case s s'.
Proof.
  unfold TransitionTo. case_bool_decide; [by intros [= <-]|].
  destruct (allowed _); [|done]. case_bool_decide; [|done]. intros [= <-]. by destruct next.
Qed.

Section frame.
Context {L : GoLib} {E : Env} (svc : Service) (P : DB → Prop)
  (Happend : ∀ e, preserves (P ∘ w_db) (Append e)) (Hspend : ∀ spend d, P d → P (db_with_spend spend d)).
Notation I := (P ∘ w_db).

#[local] Hint Resolve Happend : triage.

Lemma frame_audit id evt payload : preserves I (audit id evt payload).
Proof. unfold audit. walk. Qed.
#[local] Hint Resolve frame_audit : triage.

Lemma frame_flushAudit : preserves I flushAudit.
Proof. unfold flushAudit. walk. Qed.

Lemma frame_auditCapOnce : preserves I auditCapOnce.
Proof. unfold auditCapOnce. walk. Qed.

Lemma frame_auditLLMCall id op f u : preserves I (auditLLMCall id op f u).
Proof. unfold auditLLMCall. walk. Qed.

Lemma frame_llm {A} (m : M A) : llm_frame m → preserves I m.
Proof. intros Hm. apply preserves_llm; [done|]. intros. by apply Hspend. Qed.
#[local] Hint Resolve frame_auditCapOnce frame_auditLLMCall frame_llm : triage.

Lemma frame_classifyAttachment id e cl a : preserves I (classifyAttachment svc id e cl a).
Proof. unfold classifyAttachment, extractField. walk. Qed.
#[local] Hint Resolve frame_classifyAttachment : triage.

Lemma frame_classifyAttachments id e cl atts : preserves I (classifyAttachments svc id e cl atts).
Proof. induction atts; cbn [classifyAttachments]; walk. Qed.

Lemma frame_GetByID id : preserves I (GetByID id).
Proof. unfold GetByID, loadEmails, loadDocuments, not_found. walk. Qed.
#[local] Hint Resolve frame_classifyAttachments frame_GetByID : triage.

Lemma frame_resolve req id : preserves I (resolveSubmission svc req id).
Proof.
  unfold resolveSubmission, FindByEmailReference, FindByDeterministicID, findSubmissionIDsByRefs,
    pickMostRecentlyUpdated, not_found, audit_duplicate, createSubmission. walk.
Qed.

Lemma frame_claimDispatch id : preserves I (claimDispatch id).
Proof. unfold claimDispatch. walk. Qed.

Lemma frame_releaseDispatch id : preserves I (releaseDispatch id).
Proof. unfold releaseDispatch. walk. Qed.

Lemma frame_enqueueReply job : preserves I (enqueueReply svc job).
Proof. unfold enqueueReply. walk. Qed.

(** The email is attached; a bounce is forgotten unless this is one. *)
Lemma frame_attach_inbound sub req id inbound :
  yields I (attach_inbound sub req id inbound)
    (λ s, s.(sub_ID) = sub.(sub_ID) ∧ s.(sub_Emails) = sub.(sub_Emails) ++ [inbound] ∧
          s.(sub_OnHold) = sub.(sub_OnHold) ∧ s.(sub_LastReplyHash) = sub.(sub_LastReplyHash)).
Proof.
  unfold attach_inbound.
  set (Q := λ s : Submission, s.(sub_ID) = sub.(sub_ID) ∧ s.(sub_Emails) = sub.(sub_Emails) ++ [inbound] ∧
          s.(sub_OnHold) = sub.(sub_OnHold) ∧ s.(sub_LastReplyHash) = sub.(sub_LastReplyHash)).
  eapply yields_bind with (R := Q).
  { destruct (_ && _); [|by apply yields_ret]. apply yields_seq; [auto with triage|].
    intros now. by apply yields_ret. }
  intros s Hs. eapply yields_bind with (R := Q).
  { destruct (_ && _); [|by apply yields_ret]. apply yields_seq; [auto with triage|].
    intros []. by apply yields_ret. }
  intros s' Hs'. apply yields_seq; [auto with triage|]. intros []. by apply yields_ret.
Qed.

Lemma frame_extractIdentity sub : yields I (extractIdentity svc sub) (same_case sub).
Proof.
  unfold extractIdentity. case_bool_decide; cbn [negb]; [|by apply yields_ret].
  destruct (applicationDoc _) as [doc|]; [|by apply yields_ret].
  apply yields_seq; [walk|]. intros [named effective].
  apply yields_seq; [walk|]. intros named'. case_bool_decide; [by apply yields_ret|].
  apply yields_seq; [auto with triage|]. intros []. apply yields_ret.
  by destruct (parseEffectiveDate effective).
Qed.

Lemma same_case_attach docs sub : same_case sub (foldl (λ s d, AttachDocument d s) sub docs).
Proof.
  revert sub. induction docs as [|d docs IH]; intros sub; cbn; [done|].
  eapply same_case_trans; [|apply IH]. done.
Qed.

(** The new submission, with its items as returned. *)
Definition evaluated (sub : Submission) (r : Submission * list MissingItem * bool) : Prop :=
  same_case sub r.1.1 ∧ r.1.1.(sub_MissingItems) = r.1.2.

Lemma frame_evaluate sub inbound : yields I (evaluate svc sub inbound) (evaluated sub).
Proof.
  unfold evaluate. eapply yields_bind with (R := same_case sub).
  { unfold resolvePolicyType. destruct (store_Get _ _); [by apply yields_ret|].
    destruct (bool_decide (_ = PolicyTypeUnknown)); [by apply yields_ret|].
    apply yields_seq; [auto with triage|]. intros []. by apply yields_ret. }
  intros s Hs. eapply yields_bind with (R := λ r, same_case sub r.1.1).
  { destruct (store_Get _ _) as [cl|].
    - apply yields_seq; [auto with triage|]. intros docs. apply yields_ret. cbn.
      by eapply same_case_trans, same_case_attach.
    - apply yields_seq; [auto with triage|]. intros []. apply yields_ret. by destruct Hs. }
  intros [[s' missing] pu] Hs'. apply yields_seq; [auto with triage|]. intros [].
  apply yields_ret. by destruct Hs'.
Qed.

Lemma frame_settle sub missing : yields I (settle svc sub missing) (same_case sub).
Proof.
  unfold settle. apply yields_seq; [walk|]. intros []. unfold transitionState.
  apply yields_seq; [auto with triage|]. intros now.
  destruct (TransitionTo _ _ _) as [s'|] eqn:Et; [|apply yields_throw].
  apply yields_seq; [walk|]. intros []. apply yields_ret.
  by apply same_case_TransitionTo in Et as [].
Qed.

(** The recorded email is on whatever submission the ingest ends up with. *)
Definition carries (emailID : string) (s : Submission) : Prop :=
  emailID ∈ map em_DeterministicID s.(sub_Emails).

Lemma carries_merge existing newSub inbound :
  carries inbound.(em_DeterministicID) (merge_into existing newSub inbound).
Proof.
  unfold merge_into, carries.
  assert (∀ docs s, sub_Emails (foldl (λ s d, AttachDocument (doc_with_SubmissionID (sub_ID s) d) s) s docs)
                    = sub_Emails s) as Hf.
  { induction docs as [|d docs IH]; intros s; cbn; [done|]. by rewrite IH. }
  case_bool_decide; cbn; rewrite Hf; cbn; rewrite map_app, elem_of_app; right; by left.
Qed.

(** *** The hold flag and the fingerprint of the stored row *)

Section hold.
Context (subs0 : list submission_row) (Hsubs : ∀ d, P d → db_submissions d = subs0)
  (Hfresh : ∀ n, env_uuid n ∉ map sr_id subs0).

(** The submission's hold flag and last fingerprint are those of its row. *)
Definition linked (s : Submission) : Prop :=
  ∀ row, find_key sr_id s.(sub_ID) subs0 = Some row →
    row.(sr_data).(sub_OnHold) = s.(sub_OnHold) ∧ row.(sr_data).(sub_LastReplyHash) = s.(sub_LastReplyHash).

Lemma linked_ext s s' :
  s'.(sub_ID) = s.(sub_ID) → s'.(sub_OnHold) = s.(sub_OnHold) → s'.(sub_LastReplyHash) = s.(sub_LastReplyHash) →
  linked s → linked s'.
Proof. unfold linked. by intros -> -> ->. Qed.

Lemma GetByID_linked id : yields I (GetByID id) linked.
Proof.
  unfold GetByID. eapply yields_bind.
  { apply yields_wrap_err, (yields_query P _ (λ o, ∀ r, o = Some r → find_key sr_id id subs0 = Some r)).
    intros d Hd r Hr. by rewrite <- (Hsubs _ Hd). }
  intros [r|] Hr; [|apply yields_throw]. specialize (Hr r eq_refl).
  apply yields_seq; [unfold loadEmails; walk|]. intros emails.
  apply yields_seq; [unfold loadDocuments; walk|]. intros docs.
  apply yields_ret. intros row Hrow. cbn in *.
  assert (id = sub_ID (sr_data r)) as Hid by (by apply find_key_Some in Hr as [_ <-]).
  rewrite <- Hid, Hr in Hrow. by injection Hrow as <-.
Qed.

Lemma FindByEmailReference_linked refs : yields I (FindByEmailReference refs) (λ p, linked p.1).
Proof.
  unfold FindByEmailReference. case_bool_decide; [apply yields_throw|].
  apply yields_seq; [unfold findSubmissionIDsByRefs; walk|].
  intros [|best [|second rest]]; [apply yields_throw|..].
  - eapply yields_bind; [apply GetByID_linked|]. intros s Hs. by apply yields_ret.
  - apply yields_seq; [unfold pickMostRecentlyUpdated; walk|]. intros id.
    eapply yields_bind; [apply GetByID_linked|]. intros s Hs. by apply yields_ret.
Qed.

Lemma resolve_linked req id :
  yields I (resolveSubmission svc req id) (λ r, match r with inl s => linked s | inr d => d.(ir_IsDuplicate) = true ∧ d.(ir_ReplyQueued) = false end).
Proof.
  unfold resolveSubmission. eapply yields_bind; [apply yields_attempt, FindByEmailReference_linked|].
  intros [[found amb]|e] Hr; cbn in Hr.
  - case_bool_decide.
    + apply yields_seq; [unfold audit_duplicate; auto with triage|]. intros []. by apply yields_ret.
    + apply yields_seq; [walk|]. intros []. apply yields_seq; [auto with triage|]. intros [].
      by apply yields_ret.
  - destruct (errors_Is e _); [|apply yields_throw].
    apply yields_seq; [unfold FindByDeterministicID, not_found; walk|]. intros [s|de].
    + apply yields_seq; [unfold audit_duplicate; auto with triage|]. intros []. by apply yields_ret.
    + destruct (errors_Is de _); cbn [negb]; [|apply yields_throw].
      eapply yields_bind with (R := linked); [|intros s Hs; by apply yields_ret].
      apply yields_wrap_err. unfold createSubmission.
      eapply yields_bind with (R := λ i, i ∉ map sr_id subs0).
      { intros w Hw. split; [done|]. intros i [= <-]. apply Hfresh. }
      intros i Hi. apply yields_seq; [auto with triage|]. intros now.
      apply yields_seq; [auto with triage|]. intros []. apply yields_ret.
      intros row Hrow. cbn in Hrow. by rewrite (proj2 (find_key_None sr_id _ _)) in Hrow.
Qed.

Lemma merge_keeps existing newSub inbound :
  sub_ID (merge_into existing newSub inbound) = sub_ID existing ∧
  sub_OnHold (merge_into existing newSub inbound) = sub_OnHold existing ∧
  sub_LastReplyHash (merge_into existing newSub inbound) = sub_LastReplyHash existing.
Proof.
  unfold merge_into.
  assert (∀ docs s, let s' := foldl (λ s d, AttachDocument (doc_with_SubmissionID (sub_ID s) d) s) s docs in
            sub_ID s' = sub_ID s ∧ sub_OnHold s' = sub_OnHold s ∧ sub_LastReplyHash s' = sub_LastReplyHash s) as Hf.
  { induction docs as [|d docs IH]; intros s; cbn; [done|].
    by destruct (IH (AttachDocument (doc_with_SubmissionID (sub_ID s) d) s)) as (-> & -> & ->). }
  specialize (Hf (sub_Documents newSub) (AttachEmail (em_with_SubmissionID (sub_ID existing) inbound) existing)).
  by case_bool_decide.
Qed.

Lemma contentMatch_linked sub inbound :
  yields I (contentMatch svc sub inbound)
    (λ r, match r with
          | Some m => carries inbound.(em_DeterministicID) m ∧ linked m
          | None => True
          end).
Proof.
  unfold contentMatch. case_bool_decide; [by apply yields_ret|].
  apply yields_seq; [auto with triage|]. intros now.
  eapply yields_bind with (R := λ r, match r with Ok s => linked s | Err _ => True end).
  { apply yields_attempt. unfold FindContentMatch, not_found. destruct (_ || _); [apply yields_throw|].
    apply yields_seq; [walk|]. intros [|r rows]; [apply yields_throw|apply GetByID_linked]. }
  intros [existing|e] He; [|by apply yields_ret].
  apply yields_seq; [unfold reparentAudits; walk|]. intros [].
  apply yields_seq; [auto with triage|]. intros now'.
  apply yields_seq; [auto with triage|]. intros []. apply yields_ret.
  pose proof (carries_merge existing sub inbound) as Hm.
  destruct (merge_keeps existing sub inbound) as (Hid & Hhold & Hhash). unfold reevaluate.
  destruct (store_Get _ _); (split; [exact Hm|]); by eapply linked_ext.
Qed.

Lemma evaluate_and_thread_linked sub inbound new :
  carries inbound.(em_DeterministicID) sub → linked sub →
  yields I (evaluate_and_thread svc sub inbound new)
    (λ r, carries inbound.(em_DeterministicID) r.1.1 ∧ linked r.1.1).
Proof.
  intros Hc Hl. unfold evaluate_and_thread. eapply yields_bind; [apply frame_evaluate|].
  intros [[s missing] pu] [Hs _]. eapply yields_bind with (R := same_case sub).
  { destruct pu; [by apply yields_ret|]. eapply yields_weaken; [apply frame_extractIdentity|].
    intros. by eapply same_case_trans. }
  intros s2 Hs2. eapply yields_bind.
  { destruct new; [apply contentMatch_linked|by apply (yields_ret _ None)]. }
  intros [m|] Hm; apply yields_ret; [done|]. unfold carries. cbn. destruct Hs2 as [H1 -> H3 H4 _].
  split; [done|]. by eapply linked_ext.
Qed.
End hold.

Lemma frame_replySuppressed sub :
  yields I (replySuppressed svc sub)
    (λ b, b = false → repliesDisabled svc = false ∧ sub.(sub_DeliveryFailed) = false ∧
                      sub.(sub_OnHold) = false).
Proof.
  unfold replySuppressed. destruct (repliesDisabled svc) eqn:E1.
  { apply yields_seq; [auto with triage|]. intros []. by apply yields_ret. }
  destruct (sub_DeliveryFailed sub) eqn:E2.
  { apply yields_seq; [auto with triage|]. intros []. by apply yields_ret. }
  destruct (sub_OnHold sub) eqn:E3; [|by apply yields_ret].
  apply yields_seq; [auto with triage|]. intros []. by apply yields_ret.
Qed.
End frame.

(** ** The commit *)

Definition core (d : DB) : list submission_row * list Email * list Document * list outbox_row :=
  (d.(db_submissions), d.(db_emails), d.(db_documents), d.(db_outbox)).

Definition recorded (emailID : string) (d : DB) : Prop :=
  emailID ∈ map em_DeterministicID d.(db_emails).

Section commit.
Context {L : GoLib} {E : Env} (svc : Service).

(** Properties of the tables an audit append does not touch. *)
Lemma append_frame (P : DB → Prop) e :
  (∀ d d', core d' = core d → (db_wf d → db_wf d') → P d → P d') → preserves (P ∘ w_db) (Append e).
Proof.
  intros HP w Hw. pose proof (wf_Append e w) as Hwf. revert Hwf. unfold compose in *.
  assert (core (w_db (Append e w).2) = core (w_db w)) as Hcore; [|by eauto].
  apply (preserves_bind ((λ d, core d = core (w_db w)) ∘ w_db)); [walk| |done].
  intros id. apply preserves_bind; [walk|]. intros t. destruct (negb _); [walk|].
  apply preserves_wrap_err, preserves_stmt. intros d u d' Hd.
  destruct (has_key _ _ _); [done|]. by intros [= _ <-].
Qed.

Lemma recorded_email k e : preserves (recorded k ∘ w_db) (upsertEmailRow e).
Proof.
  unfold upsertEmailRow. walk. apply preserves_stmt. unfold insert_email, recorded. intros d n d' Hd.
  destruct (has_key _ _ _); [by intros [= _ <-]|]. destruct (has_submission _ _); [|done].
  intros [= _ <-]. cbn. rewrite map_app. apply elem_of_app. by left.
Qed.

Lemma recorded_document k x : preserves (recorded k ∘ w_db) (upsertDocumentRow x).
Proof.
  unfold upsertDocumentRow. walk. apply preserves_stmt. unfold insert_document. intros d n d' Hd.
  destruct (IsNaN _); [done|]. destruct (_ || _); [|done]. by intros [= _ <-].
Qed.
#[local] Hint Resolve recorded_email recorded_document : triage.

Lemma upsertEmailRow_records e w w' :
  unless_duplicate (upsertEmailRow e) w = (Ok (), w') → recorded e.(em_DeterministicID) (w_db w').
Proof.
  unfold unless_duplicate, upsertEmailRow, attempt, wrap_err, mbind, M_bind, stmt, recorded, insert_email.
  destruct (env_fault (w_tick w)); [done|].
  destruct (has_key _ _ _) eqn:Ek; cbn.
  { intros [= <-]. by apply has_key_true in Ek. }
  destruct (has_submission _ _); cbn; [|done]. intros [= <-]. cbn.
  rewrite map_app. apply elem_of_app. right. by left.
Qed.

Lemma upsert_rows_records s w w' :
  upsert_rows s w = (Ok (), w') → ∀ e, e ∈ s.(sub_Emails) → recorded e.(em_DeterministicID) (w_db w').
Proof.
  unfold upsert_rows. unfold mbind at 1, M_bind at 1.
  destruct (upsertSubmissionRow s w) as [[[]|] w1]; [|done].
  unfold mbind, M_bind. destruct (for_each _ (sub_Emails s) w1) as [[[]|] w2] eqn:Ee; [|done].
  intros Hd e He.
  assert (preserves (recorded (em_DeterministicID e) ∘ w_db)
            (for_each upsertDocumentRow (sub_Documents s))) as Hdocs by walk.
  specialize (Hdocs w2). rewrite Hd in Hdocs. apply Hdocs.
  eapply (for_each_all _ (λ e, recorded (em_DeterministicID e) ∘ w_db)); [| |exact Ee|done].
  - intros x w0 w0' Hx. exact (upsertEmailRow_records _ _ _ Hx).
  - intros. unfold unless_duplicate. walk.
Qed.

Lemma upsert_rows_outbox s o : preserves ((λ d, db_outbox d = o) ∘ w_db) (upsert_rows s).
Proof.
  unfold upsert_rows, upsertSubmissionRow, nanoOrNow, unless_duplicate, upsertEmailRow, upsertDocumentRow.
  walk.
  - by apply preserves_exec.
  - apply preserves_stmt. unfold insert_email. intros d n d' Hd.
    destruct (has_key _ _ _); [by intros [= _ <-]|]. destruct (has_submission _ _); [|done].
    by intros [= _ <-].
  - apply preserves_stmt. unfold insert_document. intros d n d' Hd.
    destruct (IsNaN _); [done|]. destruct (_ || _); [|done]. by intros [= _ <-].
Qed.

(** What a commit without a reply leaves. *)
Lemma UpsertSubmission_commits sub w :
  wp (UpsertSubmission sub) (λ r w',
    match r with
    | Err _ => core (w_db w') = core (w_db w)
    | Ok _ => (∀ e, e ∈ sub.(sub_Emails) → recorded e.(em_DeterministicID) (w_db w')) ∧
              db_outbox (w_db w') = db_outbox (w_db w)
    end) w.
Proof.
  unfold wp, UpsertSubmission. case_bool_decide; [done|].
  pose proof (transaction_atomic false (upsert_rows sub) w) as Hat.
  destruct (transaction _ _ w) as [[[]|e] w']; cbn; [|by rewrite Hat].
  destruct Hat as (w1 & w2 & Hw1 & Hrun & ->). split; [by eapply upsert_rows_records|].
  pose proof (upsert_rows_outbox sub (db_outbox (w_db w)) w1) as Ho. unfold compose in Ho.
  rewrite Hw1, Hrun in Ho. by apply Ho.
Qed.

Lemma insertOutboxRow_subs e x : preserves ((λ d, db_submissions d = x) ∘ w_db) (insertOutboxRow e).
Proof.
  unfold insertOutboxRow. walk. apply preserves_stmt. unfold upsert_outbox. intros d id d' Hd.
  destruct (if is_pending _ then _ else _); [by intros [= _ <-]|].
  destruct (has_key _ _ _); [done|]. destruct (has_submission _ _); [by intros [= _ <-]|done].
Qed.

(** What a commit with a reply leaves. *)
Lemma UpsertSubmissionWithReply_commits sub entry w :
  db_wf (w_db w) → entry.(oe_Status) = OutboxPending →
  wp (UpsertSubmissionWithReply sub entry) (λ r w',
    match r with
    | Err _ => core (w_db w') = core (w_db w)
    | Ok e' => (∀ e, e ∈ sub.(sub_Emails) → recorded e.(em_DeterministicID) (w_db w')) ∧
               (∃ saved, find_key sr_id sub.(sub_ID) (db_submissions (w_db w')) = Some saved ∧
                         written_columns sub saved.(sr_data)) ∧
               ∃ row, the_pending entry.(oe_SubmissionID) (w_db w') = Some row ∧
                      row.(or_reply) = Some (json_reply entry.(oe_Reply))
    end) w.
Proof.
  intros Hwf Hst. unfold wp, UpsertSubmissionWithReply. case_bool_decide; [done|].
  pose proof (transaction_atomic false (upsert_rows sub ≫= λ _, insertOutboxRow entry) w) as Hat.
  destruct (transaction _ _ w) as [[e'|e] w']; cbn; [|by rewrite Hat].
  destruct Hat as (w1 & w2 & Hw1 & Hrun & ->). unfold mbind, M_bind in Hrun.
  destruct (upsert_rows sub w1) as [[[]|] wr] eqn:Er; [|done].
  assert (db_wf (w_db wr)) as Hwfr.
  { pose proof (wf_upsert_rows sub w1) as H'. rewrite Er in H'. apply H'. unfold compose. by rewrite Hw1. }
  pose proof (insertOutboxRow_row entry wr Hwfr Hst) as Hins. rewrite Hrun in Hins.
  destruct Hins as (Hmail & row & Hrow & _ & Hrep & _). split_and!; [| |eauto].
  - intros e He. unfold recorded. rewrite Hmail. by apply (upsert_rows_records sub w1 wr Er).
  - pose proof (insertOutboxRow_subs entry (db_submissions (w_db wr)) wr eq_refl) as Hs. unfold compose in Hs.
    rewrite Hrun in Hs. cbn in Hs |- *. rewrite Hs. pose proof (upsert_rows_subs sub w1) as Hsub. unfold wp in Hsub.
    rewrite Er in Hsub. destruct Hsub as (c & u & l & Hsub). cbn in Hsub. rewrite Hsub.
    destruct (find_upserted sub c u l (db_submissions (w_db w1))) as (saved & Hf & Hw & _). eauto.
Qed.
End commit.

Lemma Append_calm {E : Env} e : calm (Append e).
Proof.
  unfold Append. apply calm_bind; [by case_bool_decide|]. intros id.
  apply calm_bind; [by destruct (IsZero _)|]. intros t. destruct (negb _); [done|].
  apply calm_wrap_err, calm_stmt. intros d p. by destruct (has_key _ _ _).
Qed.

Lemma audit_safe {E : Env} id evt payload : safe (audit id evt payload).
Proof.
  unfold audit. apply safe_bind; [intros w; by eexists _, _|]. intros w.
  destruct (w_collector w); [intros w'; by eexists _, _|]. apply log_err_safe, Append_calm.
Qed.

(** ** All or nothing *)

Section outcome.
Context {L : GoLib} {E : Env} (svc : Service) (req : IngestRequest) (emailID : string) (d0 : DB)
  (Hwf0 : db_wf d0) (Hfresh : ∀ n, env_uuid n ∉ map sr_id d0.(db_submissions)).

(** There is something to ask or to tell: the cap on questions about the policy is not
    exceeded, or the case is complete, or items the broker can act on are missing. *)
Definition worth_a_reply (res : IngestResult) (saved : Submission) : Prop :=
  if res.(ir_PolicyUnknown)
  then svc.(sv_cfg).(cfg_Reply).(rpl_PolicyClarifyMaxAsks) ≤ 0 ∨
       saved.(sub_PolicyClarifyAsks) ≤ svc.(sv_cfg).(cfg_Reply).(rpl_PolicyClarifyMaxAsks)
  else res.(ir_MissingItems) = [] ∨ BrokerActionable res.(ir_MissingItems) ≠ [].

(** The reply that was queued: [buildReply]'s for this message, for a submission saved with
    its fingerprint, which was not the last one. *)
Record new_reply (res : IngestResult) (d : DB) (saved : Submission) (row : outbox_row) : Prop := {
  nr_saved : sr_data <$> find_key sr_id res.(ir_SubmissionID) d.(db_submissions) = Some saved;
  nr_pending : the_pending res.(ir_SubmissionID) d = Some row;
  nr_built : ∃ sub inbound reply,
    sub.(sub_ID) = res.(ir_SubmissionID) ∧
    buildReply svc sub res.(ir_MissingItems) inbound res.(ir_PolicyUnknown) = Some (reply, saved.(sub_LastReplyHash)) ∧
    row.(or_reply) = Some (json_reply reply);
  nr_changed : ∀ row0, find_key sr_id res.(ir_SubmissionID) d0.(db_submissions) = Some row0 →
    row0.(sr_data).(sub_LastReplyHash) ≠ saved.(sub_LastReplyHash) }.

(** A reply was queued: every gate was open. *)
Definition reply_gates (res : IngestResult) (d : DB) : Prop :=
  req.(rq_AutoSubmitted) = false ∧ req.(rq_Bounce) = false ∧ repliesDisabled svc = false ∧
  (∀ row, find_key sr_id res.(ir_SubmissionID) d0.(db_submissions) = Some row →
          row.(sr_data).(sub_OnHold) = false) ∧
  ∃ saved row, new_reply res d saved row ∧ saved.(sub_DeliveryFailed) = false ∧ worth_a_reply res saved.

(** The database after an ingest that returned [r]. *)
Definition outcome (r : result IngestResult) (d : DB) : Prop :=
  match r with
  | Err _ => core d = core d0
  | Ok res =>
      if res.(ir_IsDuplicate) then core d = core d0 ∧ res.(ir_ReplyQueued) = false
      else recorded emailID d ∧
           if res.(ir_ReplyQueued) then reply_gates res d else db_outbox d = db_outbox d0
  end.

Definition before (d : DB) : Prop := core d = core d0 ∧ db_wf d.

Lemma before_append e : preserves (before ∘ w_db) (Append e).
Proof. apply append_frame. intros d d' Hc Hwf [H1 H2]. split; [congruence|auto]. Qed.

Lemma new_reply_core d d' res saved row : core d' = core d → new_reply res d saved row → new_reply res d' saved row.
Proof.
  intros Hc [H1 H2 H3 H4].
  assert (db_submissions d' = db_submissions d ∧ db_outbox d' = db_outbox d) as [Hs Ho] by (by injection Hc).
  split; [by rewrite Hs|unfold the_pending; by rewrite Ho|done|done].
Qed.

Lemma outcome_of_core d d' r : core d' = core d → outcome r d → outcome r d'.
Proof.
  unfold outcome, reply_gates, recorded. intros Hc.
  assert (db_emails d' = db_emails d ∧ db_outbox d' = db_outbox d) as [-> ->]
    by (by injection Hc).
  rewrite Hc. destruct r as [res|e]; [|done]. destruct (ir_IsDuplicate res); [done|].
  destruct (ir_ReplyQueued res); [|done]. intros (H1 & H2 & H3 & H4 & H5 & saved & row & Hnew & Hrest).
  split_and!; [done..|]. exists saved, row. split; [by eapply new_reply_core|done].
Qed.

Lemma outcome_append r e : preserves (outcome r ∘ w_db) (Append e).
Proof.
  apply append_frame. intros d d' Hc _. by apply outcome_of_core.
Qed.

Lemma before_spend spend d : before d → before (db_with_spend spend d).
Proof. intros [Hc []]. by split. Qed.

Lemma before_core d : before d → core d = core d0.
Proof. by intros []. Qed.

Lemma before_subs d : before d → db_submissions d = db_submissions d0.
Proof. intros [Hc _]. by injection Hc. Qed.

Lemma releaseDispatch_safe id : safe (releaseDispatch id).
Proof. intros w. by eexists _, _. Qed.

Lemma claimDispatch_safe id : safe (claimDispatch id).
Proof.
  intros w. unfold claimDispatch, get, mbind, M_bind. cbn. case_bool_decide; by eexists _, _.
Qed.

Lemma enqueueReply_safe job : safe (enqueueReply svc job).
Proof.
  intros w. unfold enqueueReply, get, mbind, M_bind. cbn. destruct (w_closed w); [by eexists _, _|].
  destruct (_ <? _); by eexists _, _.
Qed.

(** The three ways of committing. *)
Lemma wp_commit sub res m w :
  carries emailID sub → before (w_db w) → res.(ir_IsDuplicate) = false → res.(ir_ReplyQueued) = false →
  (∀ w, outcome (Ok res) (w_db w) → wp (m ()) (λ r w', outcome r (w_db w')) w) →
  ∀ msg, wp (wrap_err msg (UpsertSubmission sub) ≫= m) (λ r w', outcome r (w_db w')) w.
Proof.
  intros Hc [Hcore Hwf] Hdup Hq Hm msg. apply wp_bind. unfold wp at 1, wrap_err.
  pose proof (UpsertSubmission_commits sub w) as Hup. unfold wp in Hup.
  destruct (UpsertSubmission sub w) as [[[]|e] w']; cbn in *.
  - destruct Hup as [Hrec Ho]. apply Hm. unfold outcome. rewrite Hdup, Hq.
    unfold carries in Hc. apply list_elem_of_fmap in Hc as (e & -> & He).
    split; [by apply Hrec|]. rewrite Ho. by injection Hcore.
  - destruct e; cbn; congruence.
Qed.

Lemma wp_persistNoReply sub res w :
  carries emailID sub → before (w_db w) → res.(ir_IsDuplicate) = false → res.(ir_ReplyQueued) = false →
  wp (persistNoReply sub res) (λ r w', outcome r (w_db w')) w.
Proof. intros. unfold persistNoReply. apply wp_commit with (res := res); auto. Qed.

Lemma wp_persistSuppressed sub h res w :
  carries emailID sub → before (w_db w) → res.(ir_IsDuplicate) = false → res.(ir_ReplyQueued) = false →
  wp (persistSuppressed sub h res) (λ r w', outcome r (w_db w')) w.
Proof.
  intros. unfold persistSuppressed. apply wp_commit with (res := res); auto. intros w' Hw'.
  apply (wp_seq_safe (outcome (Ok res))); auto using audit_safe, frame_audit, outcome_append.
Qed.

Lemma wp_persistBounce sub w :
  carries emailID sub → before (w_db w) →
  wp (persistBounce sub req) (λ r w', outcome r (w_db w')) w.
Proof.
  intros Hc Hb. unfold persistBounce. set (sub' := if rq_BouncePermanent req then _ else sub).
  assert (carries emailID sub') as Hc' by (unfold sub'; by destruct (rq_BouncePermanent req)).
  apply (wp_seq_safe before); auto using audit_safe, frame_audit, before_append.
  intros [] w' Hw'.
  by apply wp_commit with (res := mkIngestResult (sub_ID sub') (sub_State sub') false false
                                    (sub_NeedsReview sub') [] false).
Qed.

Lemma buildReply_worth sub inbound res saved x :
  buildReply svc sub res.(ir_MissingItems) inbound res.(ir_PolicyUnknown) = Some x →
  saved.(sub_PolicyClarifyAsks) = sub.(sub_PolicyClarifyAsks) → worth_a_reply res saved.
Proof.
  unfold buildReply, worth_a_reply, policyClarifyExhausted. intros Hb ->. destruct (ir_PolicyUnknown res).
  - destruct (Z.ltb_spec 0 (rpl_PolicyClarifyMaxAsks (cfg_Reply (sv_cfg svc)))); [|left; lia].
    cbn in Hb. destruct (Z.ltb_spec (rpl_PolicyClarifyMaxAsks (cfg_Reply (sv_cfg svc))) (sub_PolicyClarifyAsks sub)); [done|].
    right. lia.
  - destruct (ir_MissingItems res) as [|i l]; [by left|right]. by destruct (BrokerActionable (i :: l)).
Qed.

Lemma wp_queue_reply sub inbound reply fp res w :
  carries emailID sub → linked d0.(db_submissions) sub → before (w_db w) →
  res.(ir_SubmissionID) = sub.(sub_ID) → res.(ir_IsDuplicate) = false → sub.(sub_OnHold) = false →
  req.(rq_AutoSubmitted) = false → req.(rq_Bounce) = false → repliesDisabled svc = false →
  buildReply svc sub res.(ir_MissingItems) inbound res.(ir_PolicyUnknown) = Some (reply, fp) →
  sub.(sub_DeliveryFailed) = false → fp ≠ sub.(sub_LastReplyHash) →
  wp (queue_reply svc sub reply fp res) (λ r w', outcome r (w_db w')) w.
Proof.
  intros Hc Hl Hb Hid Hdup Hhold Ha Hbn Hdis Hbuild Hfail Hnew. unfold queue_reply.
  apply (wp_seq_safe before); [intros ?; by eexists _, _|auto with triage|done|]. intros now w1 Hw1.
  apply (wp_seq_safe before); [intros ?; by eexists _, _|auto with triage|done|]. intros id w2 Hw2.
  apply (wp_seq_safe before); auto using claimDispatch_safe, frame_claimDispatch.
  intros claimed w3 [Hcore3 Hwf3]. apply wp_bind, wp_attempt. set (sub' := sub_with_LastReplyHash fp sub).
  set (entry := mkOutboxEntry _ _ _ _ _ _ _ _ _).
  eapply wp_mono; [by apply UpsertSubmissionWithReply_commits|].
  assert (∀ (c : bool) id w', outcome (Ok (with_reply_queued res)) (w_db w') →
    wp ((if c then releaseDispatch id else mret ()) ≫= λ _, mret (with_reply_queued res))
       (λ r w', outcome r (w_db w')) w') as Htail.
  { intros c i w' Hw'. apply (wp_seq_safe (outcome (Ok (with_reply_queued res)))); try done.
    - destruct c; [apply releaseDispatch_safe|apply safe_ret].
    - destruct c; auto using frame_releaseDispatch with triage. }
  intros [entry'|e] w4.
  - intros (Hrec & (saved & Hsaved & Hwr) & row & Hrow & Hrep).
    destruct Hwr as (_ & _ & _ & Hwf' & Hwh & Hwa & _).
    assert (outcome (Ok (with_reply_queued res)) (w_db w4)) as Hout.
    { unfold outcome. cbn. rewrite Hdup. unfold carries in Hc.
      apply list_elem_of_fmap in Hc as (e & -> & He). split; [by apply Hrec|].
      split_and!; try done.
      - intros row'. cbn. rewrite Hid. intros Hrow'. destruct (Hl _ Hrow'). congruence.
      - exists (sr_data saved), row. split_and!; [|by rewrite Hwf'|by eapply buildReply_worth].
        split; cbn; rewrite ?Hid.
        + cbn in Hsaved. by rewrite Hsaved.
        + done.
        + exists sub, inbound, reply. rewrite Hwh. done.
        + rewrite Hwh. intros row0 Hrow0. destruct (Hl _ Hrow0). cbn. congruence. }
    apply (wp_seq_safe (outcome (Ok (with_reply_queued res)))); [| |done|].
    + destruct (_ && _); [apply enqueueReply_safe|apply safe_ret].
    + destruct (_ && _); auto using frame_enqueueReply with triage.
    + intros [] w5 Hw5; [done|by apply Htail].
  - intros Herr. cbn in Herr.
    assert (outcome (Err (ErrWrap "persist submission with reply" e)) (w_db w4)) as Hout by (cbn; congruence).
    destruct e; try (cbn; congruence).
    all: apply (wp_seq_safe (λ d, core d = core d0)); cbn in *; try congruence; try done.
    all: destruct claimed; auto using releaseDispatch_safe, safe_ret, frame_releaseDispatch with triage.
Qed.

Lemma wp_reply_or_persist sub missing inbound pu res w :
  carries emailID sub → linked d0.(db_submissions) sub → before (w_db w) →
  res.(ir_SubmissionID) = sub.(sub_ID) → res.(ir_IsDuplicate) = false → res.(ir_ReplyQueued) = false →
  res.(ir_MissingItems) = missing → res.(ir_PolicyUnknown) = pu →
  req.(rq_AutoSubmitted) = false → req.(rq_Bounce) = false →
  wp (reply_or_persist svc sub missing inbound pu res) (λ r w', outcome r (w_db w')) w.
Proof.
  intros Hc Hl Hb Hid Hdup Hq <- <- Ha Hbn. unfold reply_or_persist.
  destruct (buildReply _ _ _ _ _) as [[reply fp]|] eqn:Hbuild; [|by apply wp_persistNoReply].
  apply (wp_yields before _ _ _ _ _ (frame_replySuppressed svc before before_append sub)); [done|..].
  { intros e w' Hw'. by apply before_core. }
  intros [] w1 Hw1 Hgate; [by apply wp_persistNoReply|].
  destruct (Hgate eq_refl) as (Hdis & Hfail & Hhold). case_bool_decide.
  - apply (wp_seq_safe before); auto using audit_safe, frame_audit, before_append.
    intros [] w2 Hw2. by apply wp_persistNoReply.
  - by eapply wp_queue_reply.
Qed.

Lemma wp_ingest_body w :
  before (w_db w) → wp (ingest_body svc req emailID) (λ r w', outcome r (w_db w')) w.
Proof.
  intros Hb. unfold ingest_body.
  assert (∀ e w', before (w_db w') → outcome (Err e) (w_db w')) as Herr
    by (intros; by apply before_core).
  apply (wp_yields before _ _ _ _ _ (resolve_linked svc before before_append (db_submissions d0)
    before_subs Hfresh req emailID)); [done|done|].
  intros [sub|dup] w1 Hw1 Hsub.
  2:{ apply wp_ret. unfold outcome. destruct Hsub as [-> ->]. split; [by apply before_core|done]. }
  apply (wp_yields before _ _ _ _ _ (frame_attach_inbound before before_append sub req emailID
    (inboundEmail req emailID (sub_ID sub)))); [done|done|].
  intros sub1 w2 Hw2 (Hid1 & Hem1 & Hho1 & Hha1).
  assert (carries emailID sub1) as Hc1.
  { unfold carries. rewrite Hem1, map_app, elem_of_app. right. by left. }
  assert (linked (db_submissions d0) sub1) as Hl1 by (by eapply linked_ext).
  destruct (rq_Bounce req) eqn:Ebounce; [by apply wp_persistBounce|].
  apply (wp_yields before _ _ _ _ _ (evaluate_and_thread_linked svc before before_append before_spend
    (db_submissions d0) before_subs sub1 (inboundEmail req emailID (sub_ID sub))
    (bool_decide (sub_Emails sub = [])) Hc1 Hl1)); [done|done|].
  intros [[sub2 missing] pu] w3 Hw3 [Hc2 Hl2]. cbn in Hc2, Hl2.
  apply (wp_yields before _ _ _ _ _ (frame_settle svc before before_append sub2 missing)); [done|done|].
  intros sub3 w4 Hw4 [Hid3 Hem3 Hho3 Hha3 _].
  assert (carries emailID sub3) as Hc3 by (unfold carries in *; by rewrite Hem3).
  assert (linked (db_submissions d0) sub3) as Hl3 by (by eapply linked_ext).
  destruct (rq_AutoSubmitted req) eqn:Eauto; [by apply wp_persistSuppressed|].
  by apply wp_reply_or_persist.
Qed.
End outcome.

Lemma IngestEmail_outcome (L : GoLib) (E : Env) svc req w :
  db_wf (w_db w) → (∀ n, env_uuid n ∉ map sr_id (w_db w).(db_submissions)) →
  outcome svc req (computeEmailID req.(rq_MessageID) req.(rq_BodyText) req.(rq_Attachments))
    (w_db w) (IngestEmail svc req w).1 (w_db (IngestEmail svc req w).2).
Proof.
  intros Hwf Hfresh. unfold IngestEmail.
  assert (∀ req' w1, w_db w1 = w_db w →
    computeEmailID (rq_MessageID req') (rq_BodyText req') (rq_Attachments req') =
    computeEmailID (rq_MessageID req) (rq_BodyText req) (rq_Attachments req) →
    rq_AutoSubmitted req' = rq_AutoSubmitted req → rq_Bounce req' = rq_Bounce req →
    wp (ingestEmailInner svc req' (computeEmailID (rq_MessageID req') (rq_BodyText req') (rq_Attachments req')))
       (λ r w', outcome svc req (computeEmailID (rq_MessageID req) (rq_BodyText req) (rq_Attachments req))
                  (w_db w) r (w_db w')) w1) as Hinner.
  { intros req' w1 Hw1 Hid Hauto Hbounce. rewrite Hid. unfold wp, ingestEmailInner.
    set (id := computeEmailID _ _ _).
    assert (before (w_db w) (w_db (w_with_collector (Some []) w1))) as Hb.
    { cbn. rewrite Hw1. done. }
    pose proof (wp_ingest_body svc req' id (w_db w) Hfresh (w_with_collector (Some []) w1) Hb) as Hout.
    unfold wp in Hout. destruct (ingest_body _ _ _ _) as [r w2]. cbn in Hout |- *.
    assert (outcome svc req id (w_db w) r (w_db w2)) as Hout'.
    { revert Hout. unfold outcome, reply_gates. by rewrite Hauto, Hbounce. }
    pose proof (frame_flushAudit _ (outcome_append svc req id (w_db w) r) w2 Hout') as Hf.
    by destruct (flushAudit w2). }
  unfold mbind, M_bind. destruct (IsZero _).
  - by apply (Hinner (rq_with_ReceivedAt (env_now (w_tick w)) req) (w_next w)).
  - by apply (Hinner req w).
Qed.

(** C4: an ingest is all or nothing, and replies only past every gate.  If it returns
    an error, no submission, email, document or reply changed, so the message can be
    retried; a duplicate changes nothing either.  Otherwise the message is recorded
    under its deterministic id.  A reply is queued only when the mail is neither
    automated nor a bounce, replies are enabled, the submission was not on hold and its
    delivery had not failed, [buildReply] has something to send (the policy question is
    within its cap, or the case is complete, or the broker can act on a missing item),
    and the reply's fingerprint differs from the last one; then that reply is the
    submission's pending one and its fingerprint is saved.  In every other case the
    outbox is untouched. *)
Theorem ingest_all_or_nothing (L : GoLib) (E : Env) svc req w :
  db_wf (w_db w) → (∀ n, env_uuid n ∉ map sr_id (w_db w).(db_submissions)) →
  outcome svc req (computeEmailID req.(rq_MessageID) req.(rq_BodyText) req.(rq_Attachments))
    (w_db w) (IngestEmail svc req w).1 (w_db (IngestEmail svc req w).2).
Proof. apply IngestEmail_outcome. Qed.

Lemma ingest_all_or_nothing_witness :
  let out := IngestEmail (L := demo_lib) (E := demo_env) demo_service first_mail empty_world in
  ∃ res row, out.1 = Ok res ∧ res.(ir_ReplyQueued) = true ∧
             the_pending res.(ir_SubmissionID) (w_db out.2) = Some row.
Proof.
  pose proof (ingest_all_or_nothing demo_lib demo_env demo_service first_mail empty_world
    empty_db_wf (λ n Hn, not_elem_of_nil _ Hn)) as H.
  cbv zeta. destruct (IngestEmail demo_service first_mail empty_world) as [[res|e] w'] eqn:Ei;
    [|by vm_compute in Ei].
  assert (ir_ReplyQueued res = true ∧ ir_IsDuplicate res = false) as [Hq Hd].
  { vm_compute in Ei. by injection Ei as <- _. }
  unfold outcome in H. cbn in H. rewrite Hd, Hq in H. destruct H as (_ & _ & _ & _ & _ & saved & row & Hrow & _).
  clear Ei. exists res, row. split; [reflexivity|]. split; [exact Hq|apply Hrow].
Defined.

(** ** Redelivery *)

Section redelivery.
Context {L : GoLib} {E : Env} (Hff : fault_free E) (svc : Service).

Lemma elem_of_of_submission {A} (f : A → string) id l x :
  x ∈ of_submission f id l ↔ x ∈ l ∧ f x = id.
Proof.
  unfold of_submission. rewrite list_elem_of_In, List.filter_In, <- list_elem_of_In.
  by rewrite bool_decide_eq_true.
Qed.

(** A stored submission is found with all its emails. *)
Lemma wp_GetByID id w :
  id ∈ map sr_id (w_db w).(db_submissions) →
  wp (GetByID id) (ok (λ s w', w_db w' = w_db w ∧ s.(sub_ID) = id ∧
    ∀ e, e ∈ (w_db w).(db_emails) → e.(em_SubmissionID) = id → e ∈ s.(sub_Emails))) w.
Proof.
  intros Hid. unfold GetByID.
  destruct (find_key sr_id id (db_submissions (w_db w))) as [r|] eqn:Er;
    [|by apply find_key_None in Er].
  eapply wp_bind_ok with (R := λ o w', o = Some r ∧ w_db w' = w_db w).
  { by apply wp_wrap_err, wp_query. }
  intros ? w1 [-> Hw1].
  eapply wp_bind_ok with (R := λ l w', w_db w' = w_db w ∧
    ∀ e, e ∈ (w_db w).(db_emails) → e.(em_SubmissionID) = id → e ∈ l).
  { apply wp_wrap_err, wp_query; [done|]. split; [done|]. intros e He Hs. rewrite Hw1.
    by apply sort_by_in, elem_of_of_submission. }
  intros emails w2 [Hw2 Hem].
  eapply wp_bind_ok with (R := λ _ w', w_db w' = w_db w).
  { by apply wp_wrap_err, wp_query. }
  intros docs w3 Hw3. apply wp_ret. split_and!; [done| |done].
  by apply find_key_Some in Er as [_ Hr].
Qed.

Definition matches_refs (refs : list string) (e : Email) : Prop :=
  e.(em_MessageID) ∈ refs ∨ e.(em_InReplyTo) ∈ refs.

(** Every email in the thread belongs to one submission. *)
Lemma wp_FindByEmailReference refs sid w :
  db_wf (w_db w) →
  (∀ e, e ∈ (w_db w).(db_emails) → matches_refs (nonEmpty refs) e → e.(em_SubmissionID) = sid) →
  wp (FindByEmailReference refs) (λ r w', w_db w' = w_db w ∧
    match r with
    | Ok (s, _) => s.(sub_ID) = sid ∧
        ∀ e, e ∈ (w_db w).(db_emails) → e.(em_SubmissionID) = sid → e ∈ s.(sub_Emails)
    | Err e => e = ErrSentinel ErrSubmissionNotFound
    end) w.
Proof.
  intros Hwf Huniq. unfold FindByEmailReference. case_bool_decide; [done|].
  eapply wp_bind_ok with (R := λ l w', w_db w' = w_db w ∧ NoDup l ∧
    (∀ x, x ∈ l → x = sid ∧ sid ∈ map sr_id (w_db w).(db_submissions))).
  { apply wp_wrap_err, wp_query; [done|]. split_and!; [done|apply distinct_NoDup|].
    intros x (e & -> & He)%elem_of_distinct%list_elem_of_fmap.
    apply list_elem_of_In, List.filter_In in He as [He Hm]. apply list_elem_of_In in He.
    rewrite orb_true_iff, !bool_decide_eq_true in Hm.
    rewrite (Huniq e He Hm). split; [done|]. rewrite <- (Huniq e He Hm). by apply (wf_email_parent _ Hwf). }
  intros [|x [|y l]] w1 (Hw1 & Hnd & Hl).
  - by apply wp_throw.
  - destruct (Hl x) as [-> Hin]; [by left|]. rewrite <- Hw1 in Hin.
    eapply wp_mono; [apply wp_bind_ok with (1 := wp_GetByID sid w1 Hin)|].
    + intros s w2 Hs. apply wp_ret. instantiate (1 := λ r w', match r with Ok (s, _) =>
        w_db w' = w_db w1 ∧ s.(sub_ID) = sid ∧
        ∀ e, e ∈ (w_db w1).(db_emails) → e.(em_SubmissionID) = sid → e ∈ s.(sub_Emails) | Err _ => False end).
      exact Hs.
    + intros [[s b]|] w2; [|done]. rewrite Hw1. done.
  - destruct (Hl x) as [-> _]; [by left|]. destruct (Hl y) as [-> _]; [by right; left|].
    apply NoDup_cons in Hnd as [[] _]. by left.
Qed.

Lemma wp_audit {P : DB → Prop} id evt payload w (Q : result unit → World → Prop) :
  (∀ e, preserves (P ∘ w_db) (Append e)) → P (w_db w) → (∀ w', P (w_db w') → Q (Ok ()) w') →
  wp (audit id evt payload) Q w.
Proof.
  intros Hap Hw HQ. pose proof (frame_audit P Hap id evt payload w Hw) as Hp.
  destruct (audit_safe id evt payload w) as ([] & w' & Ha). unfold wp. rewrite Ha in *. by apply HQ.
Qed.
Lemma core_append c e : preserves ((λ d, core d = c) ∘ w_db) (Append e).
Proof. apply append_frame. congruence. Qed.

(** Reporting the duplicate. *)
Lemma wp_report s emailID source w c :
  core (w_db w) = c →
  wp (audit_duplicate s.(sub_ID) emailID source ≫= λ _, mret (inr (duplicate_result s)))
    (ok (λ r w', r = inr (A := Submission) (duplicate_result s) ∧ core (w_db w') = c)) w.
Proof.
  intros Hw. apply wp_bind. apply (wp_audit (P := λ d, core d = c)); [apply core_append|done|].
  intros w' Hw'. by apply wp_ret.
Qed.

Lemma wp_resolve_duplicate req emailID e w :
  db_wf (w_db w) → emailID ≠ "" → e ∈ (w_db w).(db_emails) → e.(em_DeterministicID) = emailID →
  (∀ e', e' ∈ (w_db w).(db_emails) →
     matches_refs (nonEmpty (cleanThreadRefs req.(rq_MessageID) req.(rq_InReplyTo) req.(rq_References))) e' →
     e'.(em_SubmissionID) = e.(em_SubmissionID)) →
  wp (resolveSubmission svc req emailID)
    (ok (λ r w', ∃ s, r = inr (duplicate_result s) ∧ s.(sub_ID) = e.(em_SubmissionID) ∧
                      core (w_db w') = core (w_db w))) w.
Proof.
  intros Hwf Hne He Hdet Huniq. unfold resolveSubmission. apply wp_bind, wp_attempt.
  eapply wp_mono; [by apply wp_FindByEmailReference|].
  assert (∀ s w1, w_db w1 = w_db w → sub_ID s = em_SubmissionID e →
    wp (audit_duplicate s.(sub_ID) emailID (rq_Source req) ≫= λ _,
        mret (inr (A := Submission) (duplicate_result s)))
      (ok (λ r w', ∃ s, r = inr (duplicate_result s) ∧ s.(sub_ID) = e.(em_SubmissionID) ∧
                        core (w_db w') = core (w_db w))) w1) as Hreport.
  { intros s w1 Hw1 Hs. eapply wp_mono; [apply (wp_report _ _ _ _ (core (w_db w))); by rewrite Hw1|].
    intros [r|] w2; [|done]. intros [-> Hc]. by exists s. }
  intros [[s amb]|err] w1 [Hw1 Hs].
  - destruct Hs as [Hid Hall]. rewrite bool_decide_true; [by apply Hreport|].
    rewrite <- Hdet. by apply list_elem_of_fmap_2, Hall.
  - subst err. cbn [errors_Is]. rewrite bool_decide_true by done. apply wp_bind, wp_attempt.
    eapply wp_mono with (Q := ok (λ s w', w_db w' = w_db w ∧ s.(sub_ID) = e.(em_SubmissionID)));
      [|intros [s|] w2; [|done]; intros [Hw2 Hid]; by apply Hreport].
    unfold FindByDeterministicID. rewrite bool_decide_false by done.
    eapply wp_bind_ok with (R := λ o w', o = Some e ∧ w_db w' = w_db w).
    { apply wp_wrap_err, wp_query; [done|]. split; [|done]. rewrite Hw1.
      apply find_key_unique; [apply Hwf|done|done]. }
    intros ? w2 [-> Hw2]. eapply wp_mono; [apply wp_GetByID|].
    + rewrite Hw2. by apply (wf_email_parent _ Hwf).
    + intros [s|] w3; [|done]. intros (Hw3 & Hid & _). split; [congruence|done].
Qed.
End redelivery.

(** C5: redelivery is recognised: when no statement fails, a message whose
    deterministic id is already stored, and whose references lead to no other
    submission, is reported as a duplicate of the submission that has it, and neither
    submissions, emails, documents nor replies change. *)
Theorem ingest_redelivery (L : GoLib) (E : Env) svc req w e :
  let id := computeEmailID req.(rq_MessageID) req.(rq_BodyText) req.(rq_Attachments) in
  let refs := cleanThreadRefs req.(rq_MessageID) req.(rq_InReplyTo) req.(rq_References) in
  fault_free E → db_wf (w_db w) → id ≠ "" →
  e ∈ (w_db w).(db_emails) → e.(em_DeterministicID) = id →
  (∀ e', e' ∈ (w_db w).(db_emails) → matches_refs (nonEmpty refs) e' →
         e'.(em_SubmissionID) = e.(em_SubmissionID)) →
  ∃ res w', IngestEmail svc req w = (Ok res, w') ∧ res.(ir_IsDuplicate) = true ∧
    res.(ir_SubmissionID) = e.(em_SubmissionID) ∧ core (w_db w') = core (w_db w).
Proof.
  intros id refs Hff Hwf Hne He Hdet Huniq.
  assert (∀ req' w1, w_db w1 = w_db w →
    rq_MessageID req' = rq_MessageID req → rq_InReplyTo req' = rq_InReplyTo req →
    rq_References req' = rq_References req →
    wp (ingestEmailInner svc req' id) (ok (λ res w', res.(ir_IsDuplicate) = true ∧
      res.(ir_SubmissionID) = e.(em_SubmissionID) ∧ core (w_db w') = core (w_db w))) w1) as Hinner.
  { intros req' w1 Hw1 Hm Hr Hrefs.
    assert (wp (ingest_body svc req' id) (ok (λ res w', res.(ir_IsDuplicate) = true ∧
      res.(ir_SubmissionID) = e.(em_SubmissionID) ∧ core (w_db w') = core (w_db w)))
      (w_with_collector (Some []) w1)) as Hbody.
    { unfold ingest_body. eapply wp_bind_ok.
      - apply (wp_resolve_duplicate Hff svc req' id e); cbn; rewrite ?Hw1, ?Hm, ?Hr, ?Hrefs; done.
      - intros r w2 (s & -> & Hs & Hc). apply wp_ret. cbn in *. by rewrite Hc, Hw1. }
    unfold wp, ingestEmailInner in *. destruct (ingest_body _ _ _ _) as [[res|] w2]; [|done].
    destruct Hbody as (Hd & Hs & Hc). cbn.
    pose proof (frame_flushAudit _ (core_append (core (w_db w))) w2 Hc) as Hf.
    destruct (flushAudit w2). by split_and!. }
  assert (wp (IngestEmail svc req)
    (ok (λ res w', res.(ir_IsDuplicate) = true ∧
      res.(ir_SubmissionID) = e.(em_SubmissionID) ∧ core (w_db w') = core (w_db w))) w) as Hall.
  { unfold IngestEmail, mbind, M_bind. destruct (IsZero _).
    - by apply (Hinner (rq_with_ReceivedAt (env_now (w_tick w)) req) (w_next w)).
    - by apply (Hinner req w). }
  unfold wp in Hall. destruct (IngestEmail svc req w) as [[res|] w']; [|done].
  by exists res, w'.
Qed.

Lemma ingest_redelivery_witness :
  let w := (IngestEmail (L := demo_lib) (E := demo_env) demo_service first_mail empty_world).2 in
  ∃ res w', IngestEmail (L := demo_lib) (E := demo_env) demo_service first_mail w = (Ok res, w') ∧
    res.(ir_IsDuplicate) = true ∧ core (w_db w') = core (w_db w).
Proof.
  intros w. pose (e := default (outboundEmail (L := demo_lib) emptyReply "" 0) (head (db_emails (w_db w)))).
  destruct (ingest_redelivery demo_lib demo_env demo_service first_mail w e) as (res & w' & H1 & H2 & _ & H3).
  - done.
  - exact (proj1 (inv_IngestEmail demo_service first_mail empty_world empty_db_inv)).
  - vm_compute. discriminate.
  - vm_compute. apply list_elem_of_In. left. reflexivity.
  - vm_compute. reflexivity.
  - intros e'. vm_compute. intros [= ->]%list_elem_of_singleton _. reflexivity.
  - exists res, w'. split; [exact H1|]. split; [exact H2|exact H3].
Defined.
