(* ===== verification/DeliveryProps.v ===== *)
(** What delivering replies does: the sweep sends each due reply once, only to
    submissions nobody else is sending to and that are neither held nor bounced, and
    settles what it sent. *)
From Stdlib Require Import ZArith.
From stdpp Require Import base list strings gmap.
From S2P Require Import Prelude GoStrings GoValues Submission Checklist Classifier ChecklistStore Tables World Repository OutboxRepo Persistence RepositoryProps Config Service Ingest Delivery Sweeps ServiceInv Demo IngestProps.

Open Scope Z_scope.

(** ** One delivery *)

(** What delivering a reply leaves alone: the outbox, which submissions are held or
    bounced, and the process's memory. *)
Definition block_view (d : DB) : list (string * bool) :=
  map (λ r, (sr_id r, reply_blocked r)) d.(db_submissions).
Definition outbox_view (d : DB) : list outbox_row * list (string * bool) :=
  (d.(db_outbox), block_view d).

Section frame.
Context {L : GoLib} {E : Env} (svc : Service).
Notation View v := ((λ d, outbox_view d = v) ∘ w_db).

Lemma view_update_submissions v what p f :
  (∀ s, (f s).(sub_ID) = s.(sub_ID)) → (∀ s, (f s).(sub_OnHold) = s.(sub_OnHold)) →
  (∀ s, (f s).(sub_DeliveryFailed) = s.(sub_DeliveryFailed)) →
  preserves (View v) (update_submissions what p f).
Proof.
  intros Hid Hh Hf. unfold update_submissions. apply preserves_wrap_err, preserves_exec.
  intros d <-. unfold outbox_view, block_view. cbn. f_equal. apply update_where_map.
  intros r. unfold sr_id, reply_blocked. cbn. by rewrite Hid, Hh, Hf.
Qed.

Lemma view_SetLastReplyAt v id t : preserves (View v) (SetLastReplyAt id t).
Proof. by apply view_update_submissions. Qed.

Lemma view_ClearReplyHash v id : preserves (View v) (ClearReplyHash id).
Proof. by apply view_update_submissions. Qed.

Lemma view_UpsertEmail v e : preserves (View v) (UpsertEmail e).
Proof.
  unfold UpsertEmail, upsertEmailRow. apply preserves_transaction. apply preserves_bind; [|walk].
  apply preserves_wrap_err, preserves_stmt. unfold insert_email. intros d a d' <-.
  destruct (has_key _ _ _); [by intros [= _ <-]|]. destruct (has_submission _ _); [|done].
  by intros [= _ <-].
Qed.

Lemma view_Append v e : preserves (View v) (Append e).
Proof.
  unfold Append. apply preserves_bind; [walk|]. intros id. apply preserves_bind; [walk|].
  intros t. destruct (negb _); [walk|]. apply preserves_wrap_err, preserves_stmt.
  intros d a d' <-. destruct (has_key _ _ _); [done|]. by intros [= _ <-].
Qed.

Lemma mem_Append x e : preserves (Mem x) (Append e).
Proof. unfold Append. walk. Qed.
#[local] Hint Resolve view_Append mem_Append : triage.

Lemma mem_audit x id evt p : preserves (Mem x) (audit id evt p).
Proof. unfold audit. walk. Qed.

Lemma view_audit v id evt p : preserves (View v) (audit id evt p).
Proof. apply frame_audit. auto with triage. Qed.

Lemma mem_UpsertEmail x e : preserves (Mem x) (UpsertEmail e).
Proof. unfold UpsertEmail, upsertEmailRow. apply mem_transaction. walk. Qed.

Lemma mem_update_submissions x what p f : preserves (Mem x) (update_submissions what p f).
Proof. unfold update_submissions. walk. Qed.

Lemma mem_Outbox_Update x id st n err : preserves (Mem x) (Outbox_Update id st n err).
Proof. unfold Outbox_Update. walk. Qed.

Lemma mem_MarkSent x id v : preserves (Mem x) (MarkSent id v).
Proof. unfold MarkSent. walk. Qed.

Lemma mem_ListPending x now cutoff limit : preserves (Mem x) (ListPending now cutoff limit).
Proof. unfold ListPending. pose proof (mem_Outbox_Update x). walk. Qed.
End frame.

(** [m] neither fails nor touches what deliveries depend on. *)
Record quiet {E : Env} {A} (m : M A) : Prop := {
  quiet_safe : safe m;
  quiet_mem : ∀ x, preserves (Mem x) m;
  quiet_view : ∀ v, preserves ((λ d, outbox_view d = v) ∘ w_db) m }.

Section deliver.
Context {L : GoLib} {E : Env} (svc : Service).

Lemma quiet_bind {A B} (m : M A) (f : A → M B) :
  quiet m → (∀ a, quiet (f a)) → quiet (m ≫= f).
Proof.
  intros [] Hf. split; [apply safe_bind|intros; apply preserves_bind..]; intros; try apply Hf; auto.
Qed.

Lemma quiet_log_err {A} (m : M A) :
  calm m → (∀ x, preserves (Mem x) m) →
  (∀ v, preserves ((λ d, outbox_view d = v) ∘ w_db) m) → quiet (log_err m).
Proof. intros. split; [by apply log_err_safe|intros; by apply preserves_log_err..]. Qed.

Lemma quiet_now : quiet time_Now.
Proof. split; [intros w; by eexists _, _|intros; auto with triage..]. Qed.

Lemma quiet_audit id evt p : quiet (audit id evt p).
Proof. split; [apply audit_safe|intros; apply mem_audit|intros; apply view_audit]. Qed.

Lemma calm_UpsertEmail e : calm (UpsertEmail e).
Proof.
  apply calm_transaction, calm_bind.
  - apply calm_wrap_err, calm_stmt. intros d p. unfold insert_email.
    destruct (has_key _ _ _); [done|]. by destruct (has_submission _ _).
  - intros n. by destruct (_ =? _).
Qed.

Lemma calm_update_submissions what p f : calm (update_submissions what p f).
Proof. by apply calm_wrap_err, calm_stmt. Qed.

(** The reply went out exactly when [deliver] succeeds. *)
Lemma deliver_cases reply sid w :
  match env_send (w_tick w) reply with
  | Ok id => ∃ w', deliver svc reply sid w = (Ok (), w') ∧
      mem w' = mem (w_with_sent (w_sent w ++ [(reply, id)]) w) ∧
      outbox_view (w_db w') = outbox_view (w_db w)
  | Err e => deliver svc reply sid w = (Err e, w_next w)
  end.
Proof.
  destruct (env_send (w_tick w) reply) as [id|e] eqn:Es;
    [|unfold deliver, mbind, M_bind, SendThreadedReply; by rewrite Es].
  set (w1' := w_with_sent (w_sent w ++ [(reply, id)]) (w_next w)).
  assert (SendThreadedReply reply w = (Ok id, w1')) as Hsend.
  { unfold SendThreadedReply. by rewrite Es. }
  unfold deliver. rewrite (bind_ok _ _ _ _ _ Hsend).
  match goal with |- ∃ w', ?k w1' = _ ∧ _ => assert (quiet k) as [Hs Hm Hv] end.
  { apply quiet_bind; [apply quiet_now|]. intros t.
    apply quiet_bind.
    { apply quiet_log_err; [apply calm_UpsertEmail|intros; apply mem_UpsertEmail|intros; apply view_UpsertEmail]. }
    intros _. apply quiet_bind; [apply quiet_now|]. intros t'.
    apply quiet_bind; [|intros; apply quiet_audit].
    apply quiet_log_err; [apply calm_update_submissions|intros; apply mem_update_submissions|
      intros; apply view_SetLastReplyAt]. }
  destruct (Hs w1') as ([] & w' & Hw'). exists w'. specialize (Hm _ w1' eq_refl).
  specialize (Hv _ w1' eq_refl). rewrite Hw' in *. done.
Qed.
End deliver.

(** ** Settling rows *)

(** A row and what updates of its status, attempts and schedule make of it. *)
Record settled_from (r r' : outbox_row) : Prop := {
  sf_id : r'.(or_id) = r.(or_id);
  sf_sub : r'.(or_submission_id) = r.(or_submission_id);
  sf_reply : r'.(or_reply) = r.(or_reply);
  sf_pending : is_pending r' = true → is_pending r = true }.

Definition settles : list outbox_row → list outbox_row → Prop := Forall2 settled_from.

Lemma settled_refl r : settled_from r r.
Proof. done. Qed.

#[export] Instance settles_preorder : PreOrder settles.
Proof.
  split.
  - intros l. by apply Forall_Forall2_diag, Forall_true.
  - intros l1 l2 l3 H12. revert l3.
    induction H12 as [|r1 r2 l1 l2 [] H12 IH]; intros l3 H23; inversion H23 as [|? ? ? ? []]; subst;
      constructor; [split; try congruence; auto|by apply IH].
Qed.

Lemma settles_update p f l :
  (∀ r, p r = true → settled_from r (f r)) → settles l (update_where p f l).
Proof.
  intros Hf. unfold settles, update_where. apply Forall2_fmap_r, Forall_Forall2_diag.
  apply Forall_true. intros r. cbn. destruct (p r) eqn:E; [by apply Hf|done].
Qed.

Lemma settles_find l l' r' :
  settles l l' → r' ∈ l' → ∃ r, r ∈ l ∧ settled_from r r'.
Proof.
  intros Hl [i Hi]%list_elem_of_lookup.
  destruct (Forall2_lookup_r _ _ _ _ _ Hl Hi) as (r & Hr & Hs).
  exists r. split; [by eapply list_elem_of_lookup_2|done].
Qed.

Section settle.
Context {L : GoLib} {E : Env} (svc : Service).

(** The rows are settled from [l], the blocked submissions are [b]. *)
Definition Settling (l : list outbox_row) (b : list (string * bool)) (d : DB) : Prop :=
  settles l d.(db_outbox) ∧ block_view d = b.

Lemma view_settling {A} (m : M A) l b :
  (∀ v, preserves ((λ d, outbox_view d = v) ∘ w_db) m) → preserves (Settling l b ∘ w_db) m.
Proof.
  intros Hm w [Hs Hb]. specialize (Hm _ w eq_refl). unfold compose in Hm. injection Hm as Ho Hv.
  split; congruence.
Qed.

(** A failed row may be set back to pending only if it was. *)
Lemma settling_Outbox_Update l b id st n err w :
  (st = OutboxPending → ∀ r, r ∈ (w_db w).(db_outbox) → r.(or_id) = id → is_pending r = true) →
  Settling l b (w_db w) → Settling l b (w_db (Outbox_Update id st n err w).2).
Proof.
  intros Hst [Hs Hb]. unfold Outbox_Update. rewrite (bind_ok time_Now _ _ _ _ eq_refl).
  unfold wrap_err, stmt, update_outbox. destruct (env_fault _); [done|].
  case_bool_decide; [|done]. cbn. split; [|done]. cbn. etransitivity; [exact Hs|].
  unfold settles, update_where. apply Forall2_fmap_r, Forall_Forall2_diag, Forall_forall.
  intros r Hr. cbn. case_bool_decide as Hid; [|done]. split; [done..|]. cbn. intros Hp.
  apply Hst; [|done..]. by apply bool_decide_eq_true in Hp.
Qed.

Lemma settling_fail l b id n err :
  preserves (Settling l b ∘ w_db) (Outbox_Update id OutboxFailed n err).
Proof. intros w. by apply settling_Outbox_Update. Qed.

Lemma settling_MarkSent l b id v : preserves (Settling l b ∘ w_db) (MarkSent id v).
Proof.
  unfold MarkSent. apply preserves_bind; [walk|]. intros now.
  apply preserves_wrap_err, preserves_exec. intros d [Hs Hb]. split; [|done].
  etransitivity; [exact Hs|]. by apply settles_update.
Qed.

Lemma settling_ListPending l b now cutoff limit :
  preserves (Settling l b ∘ w_db) (ListPending now cutoff limit).
Proof. unfold ListPending. pose proof (settling_fail l b). walk. Qed.

Lemma settling_audit l b id evt p : preserves (Settling l b ∘ w_db) (audit id evt p).
Proof. apply view_settling. intros. apply view_audit. Qed.

Lemma mem_settle_failure x row err : preserves (Mem x) (settle_failure svc row err).
Proof.
  unfold settle_failure, ClearReplyHash. pose proof (mem_Outbox_Update x).
  pose proof (mem_update_submissions x). pose proof (mem_audit x). walk.
Qed.

(** Only the row itself is touched, and it was pending. *)
Lemma settle_failure_settling l b row err w :
  (∀ r, r ∈ (w_db w).(db_outbox) → r.(or_id) = row.(oe_ID) → is_pending r = true) →
  Settling l b (w_db w) → Settling l b (w_db (settle_failure svc row err w).2).
Proof.
  intros Hp Hw. unfold settle_failure. destruct (_ <? _).
  - unfold log_err, mbind, M_bind, attempt.
    pose proof (settling_Outbox_Update l b (oe_ID row) OutboxPending (oe_Attempts row + 1)
                  (error_text err) w (λ _, Hp) Hw).
    by destruct (Outbox_Update _ _ _ _ _) as [[|[]] w'].
  - pose proof (settling_fail l b). pose proof (settling_audit l b).
    assert (∀ id, preserves (Settling l b ∘ w_db) (ClearReplyHash id)).
    { intros id. apply view_settling. intros. apply view_ClearReplyHash. }
    refine (preserves_bind (Settling l b ∘ w_db) _ _ _ _ w Hw); walk.
Qed.
End settle.

(** ** The sweep *)

Section sweep.
Context {L : GoLib} {E : Env} (svc : Service).

Lemma GetPending_cases id w :
  ∃ r, attempt (GetPending id) w = (Ok r, w_next w) ∧
    ∀ e, r = Ok (Some e) → ∃ row reply, row ∈ (w_db w).(db_outbox) ∧ is_pending row = true ∧
      row.(or_id) = id ∧ row.(or_reply) = Some reply ∧ e = entry_of_row row reply.
Proof.
  unfold GetPending, attempt, mbind, M_bind, wrap_err, query, stmt.
  destruct (env_fault _); [by eexists|]. cbn.
  replace (w_with_db (w_db w) (w_next w)) with (w_next w) by (by destruct w).
  destruct (List.find _ _) as [row|] eqn:Ef; [|by eexists].
  apply List.find_some in Ef as [Hin Hp]. apply list_elem_of_In in Hin.
  apply andb_true_iff in Hp as [Hid%bool_decide_eq_true Hp].
  destruct (or_reply row) as [reply|] eqn:Er; cbn; [|by eexists].
  eexists. split; [done|]. intros e [= <-]. by exists row, reply.
Qed.

(** A row of [l] behind what the sweep sent, pending and not yet settled. *)
Definition sent_from (l : list outbox_row) (id : string) (s : Reply * string) : Prop :=
  ∃ r, r ∈ l ∧ is_pending r = true ∧ r.(or_id) = id ∧ r.(or_reply) = Some s.1.

Lemma pending_by_id l l' row :
  settles l l' → NoDup (map or_id l) → row ∈ l' → is_pending row = true →
  ∀ r, r ∈ l' → r.(or_id) = or_id row → is_pending r = true.
Proof.
  intros Hs Hnd Hrow Hp r Hr Heq. replace r with row; [done|].
  assert (map or_id l' = map or_id l) as Hids.
  { clear -Hs. induction Hs as [|?? ?? []]; cbn; congruence. }
  rewrite <- Hids in Hnd. pose proof (find_key_unique or_id (or_id row) _ _ Hnd Hrow eq_refl).
  pose proof (find_key_unique or_id (or_id row) _ _ Hnd Hr Heq). congruence.
Qed.

Lemma redeliverOne_effect l b listed w :
  NoDup (map or_id l) → Settling l b (w_db w) →
  let w' := (redeliverOne svc listed w).2 in
  Settling l b (w_db w') ∧ w_dispatching w' = w_dispatching w ∖ {[oe_SubmissionID listed]} ∧
  (w_sent w' = w_sent w ∨ ∃ s, sent_from l (oe_ID listed) s ∧ w_sent w' = w_sent w ++ [s]).
Proof.
  intros Hnd Hw. unfold redeliverOne, deferred.
  destruct (GetPending_cases (oe_ID listed) w) as (r & Hg & Hr). rewrite (bind_ok _ _ _ _ _ Hg).
  destruct r as [[e|]|err]; [|by eauto..].
  destruct (Hr e eq_refl) as (row & reply & Hrow & Hp & Hid & Hreply & ->). clear Hr Hg.
  assert (sent_from l (oe_ID listed) (reply, "")) as (r0 & Hr0 & Hp0 & Hid0 & Hrep0).
  { destruct Hw as [Hs _]. destruct (settles_find _ _ _ Hs Hrow) as (r0 & Hr0 & []).
    exists r0. cbn. split_and!; try congruence; auto. }
  pose proof (pending_by_id l _ row (proj1 Hw) Hnd Hrow Hp) as Hall.
  pose proof (deliver_cases svc reply (or_submission_id row) (w_next w)) as Hd.
  change (oe_Reply (entry_of_row row reply)) with reply.
  change (oe_SubmissionID (entry_of_row row reply)) with (or_submission_id row).
  destruct (env_send _ reply) as [mid|err].
  - destruct Hd as (w1 & Hd & Hm & Hv). injection Hm as Hdis _ _ Hsent. injection Hv as Ho Hb.
    assert (attempt (deliver svc reply (or_submission_id row)) (w_next w) = (Ok (Ok ()), w1)) as Ha
      by (unfold attempt; by rewrite Hd).
    rewrite (bind_ok _ _ _ _ _ Ha).
    set (m := log_err _).
    assert (preserves (Settling l b ∘ w_db) m) as Hs1.
    { pose proof (settling_MarkSent l b). unfold m. walk. }
    assert (preserves (Mem (mem w1)) m) as Hs2 by (pose proof (mem_MarkSent (mem w1)); unfold m; walk).
    specialize (Hs1 w1). specialize (Hs2 w1 eq_refl). destruct (m w1) as [res w2].
    injection Hs2 as Hdis2 _ _ Hsent2. cbn. split; [|split].
    + apply Hs1. split; cbn in *; [rewrite Ho|rewrite Hb]; apply Hw.
    + cbn in *. congruence.
    + right. exists (reply, mid). split; [by exists r0|]. cbn in *. congruence.
  - pose proof (settle_failure_settling svc l b (entry_of_row row reply) err
      (w_next (w_next w)) Hall Hw) as Hs.
    pose proof (mem_settle_failure svc (mem w) (entry_of_row row reply) err (w_next (w_next w)) eq_refl) as Hm.
    assert (attempt (deliver svc reply (or_submission_id row)) (w_next w) =
            (match err with ErrPanic p => Err (ErrPanic p) | _ => Ok (Err err) end, w_next (w_next w))) as Ha
      by (unfold attempt; rewrite Hd; by destruct err).
    destruct err; try (rewrite (bind_ok _ _ _ _ _ Ha); destruct (settle_failure _ _ _ _) as [res w2];
      injection Hm as Hdis _ _ Hsent; cbn in *; rewrite Hdis, Hsent; by eauto).
    rewrite (bind_err _ _ _ _ _ Ha). cbn. by eauto.
Qed.
(** The listed entries that were sent, and what was sent for each. *)
Definition sendable (l : list outbox_row) (blocked : list string) (held : gset string)
    (e : OutboxEntry) (s : Reply * string) : Prop :=
  e.(oe_SubmissionID) ∉ blocked ∧ e.(oe_SubmissionID) ∉ held ∧ sent_from l e.(oe_ID) s.

Definition sweep_effect l b blocked (rows : list OutboxEntry) (w w' : World) : Prop :=
  Settling l b (w_db w') ∧ w_dispatching w' = w_dispatching w ∧
  ∃ sent rows', w_sent w' = w_sent w ++ sent ∧ sublist rows' rows ∧
    Forall2 (sendable l blocked (w_dispatching w)) rows' sent.

Lemma sweep_effect_skip l b blocked rows w w' :
  Settling l b (w_db w) → w_db w' = w_db w → mem w' = mem w → sweep_effect l b blocked rows w w'.
Proof.
  intros Hw Hdb Hm. injection Hm as Hd _ _ Hs. split; [congruence|]. split; [done|].
  exists [], []. rewrite app_nil_r. split_and!; [done|apply sublist_nil_l|constructor].
Qed.

Lemma sweep_row_effect l b blocked row w :
  NoDup (map or_id l) → Settling l b (w_db w) →
  sweep_effect l b blocked [row] w (sweep_row svc blocked row w).2.
Proof.
  intros Hnd Hw. unfold sweep_row, check_ctx, mbind, M_bind.
  destruct (env_cancelled _); [by apply sweep_effect_skip|].
  case_bool_decide as Hb; [by apply sweep_effect_skip|]. unfold claimDispatch, mbind, M_bind, get.
  case_bool_decide as Hd; [by apply sweep_effect_skip|]. cbn [modify mret M_ret].
  set (w1 := w_with_dispatching _ w).
  destruct (redeliverOne_effect l b row w1 Hnd Hw) as (Hs & Hdis & Hsent). split; [done|].
  split; [rewrite Hdis; unfold w1; cbn; set_solver|].
  destruct Hsent as [Hsent|(s & Hs' & Hsent)]; rewrite Hsent.
  - exists [], []. rewrite app_nil_r. split_and!; [done|apply sublist_nil_l|constructor].
  - exists [s], [row]. split_and!; [done..|]. by repeat constructor.
Qed.

Lemma sweep_loop l b blocked rows w :
  NoDup (map or_id l) → Settling l b (w_db w) →
  sweep_effect l b blocked rows w (for_each (sweep_row svc blocked) rows w).2.
Proof.
  intros Hnd. revert w. induction rows as [|row rows IH]; intros w Hw; cbn [for_each].
  { by apply sweep_effect_skip. }
  pose proof (sweep_row_effect l b blocked row w Hnd Hw) as (Hs & Hd & sent & rs & Hsent & Hsub & Hall).
  unfold mbind, M_bind. destruct (sweep_row svc blocked row w) as [[[]|e] w1]; cbn in *.
  - destruct (IH w1 Hs) as (Hs' & Hd' & sent' & rs' & Hsent' & Hsub' & Hall').
    split; [done|]. split; [congruence|]. exists (sent ++ sent'), (rs ++ rs').
    rewrite Hsent', Hsent, app_assoc. split_and!; [done|by apply (sublist_app _ [row])|].
    rewrite Hd in Hall'. by apply Forall2_app.
  - split; [done|]. split; [done|]. exists sent, rs. split_and!; [done| |done].
    etransitivity; [exact Hsub|]. apply (sublist_app [row] [row] [] rows); [done|apply sublist_nil_l].
Qed.
(** What [ListPending] returns was due, whatever it then does to undecodable rows. *)
Lemma ListPending_rows now cutoff limit w rows w' :
  ListPending now cutoff limit w = (Ok rows, w') →
  rows = decoded (select (is_due (UnixNano now) (UnixNano cutoff))
    (λ a b, a.(or_not_before) <? b.(or_not_before)) (limit_or limit 100) (w_db w).(db_outbox)).
Proof.
  unfold ListPending, mbind, M_bind, wrap_err, query, stmt. destruct (env_fault _); [done|]. cbn.
  destruct (for_each _ _ _) as [[[]|e] w1]; [|done]. by intros [= <- _].
Qed.

Lemma blockedSubmissions_effect rows w r w' :
  blockedSubmissions rows w = (r, w') → w_db w' = w_db w ∧ mem w' = mem w.
Proof.
  unfold blockedSubmissions, ReplyBlockedIDs. case_bool_decide; [by intros [= _ <-]|].
  case_bool_decide; [by intros [= _ <-]|]. unfold wrap_err, query, stmt.
  destruct (env_fault _); by intros [= _ <-].
Qed.

(** Ids the repository's trimming of its arguments does not change. *)
Definition clean_id (id : string) : Prop := TrimSpace id = id ∧ id ≠ "".

Lemma elem_of_nonEmpty id l : clean_id id → id ∈ l → id ∈ nonEmpty l.
Proof.
  intros [Ht Hne] Hin. unfold nonEmpty. apply list_elem_of_In, List.filter_In. split.
  - rewrite <- Ht. by apply in_map, list_elem_of_In.
  - by rewrite bool_decide_false.
Qed.

(** A listed row whose submission is held or bounced is in the set. *)
Lemma blockedSubmissions_sound rows w blocked w' e q :
  blockedSubmissions rows w = (Ok blocked, w') → e ∈ rows → clean_id e.(oe_SubmissionID) →
  q ∈ (w_db w).(db_submissions) → sr_id q = e.(oe_SubmissionID) → reply_blocked q = true →
  e.(oe_SubmissionID) ∈ blocked.
Proof.
  intros Hrun He Hc Hq Hid Hb. unfold blockedSubmissions, ReplyBlockedIDs in Hrun.
  assert (e.(oe_SubmissionID) ∈ nonEmpty (distinct (map oe_SubmissionID rows))) as Hin.
  { apply elem_of_nonEmpty; [done|]. apply elem_of_distinct. by apply list_elem_of_fmap_2. }
  revert Hrun. case_bool_decide as Hnil.
  { destruct rows; [by apply elem_of_nil in He|done]. }
  case_bool_decide as Hnil'; [rewrite Hnil' in Hin; by apply elem_of_nil in Hin|].
  unfold wrap_err, query, stmt. destruct (env_fault _); [done|]. intros [= <- _].
  rewrite <- Hid. apply list_elem_of_fmap_2, list_elem_of_In, List.filter_In.
  split; [by apply list_elem_of_In|]. rewrite Hb, Hid. by rewrite bool_decide_true.
Qed.
End sweep.

Lemma elem_of_decoded rows e :
  e ∈ decoded rows → ∃ r reply, r ∈ rows ∧ r.(or_reply) = Some reply ∧ e = entry_of_row r reply.
Proof.
  unfold decoded. intros (r & Hr & He)%list_elem_of_omap.
  apply fmap_Some in He as (reply & Hrep & ->). eauto.
Qed.

Lemma decoded_submissions rows : sublist (map oe_SubmissionID (decoded rows)) (map or_submission_id rows).
Proof.
  induction rows as [|r rows IH]; [done|]. unfold decoded in *. cbn.
  destruct (or_reply r); cbn; by constructor.
Qed.

Lemma select_NoDup {A B} (f : A → B) where_ less limit l :
  NoDup (map f (List.filter where_ l)) → NoDup (map f (select where_ less limit l)).
Proof.
  intros Hnd. unfold select. eapply sublist_NoDup; [|apply fmap_sublist, sublist_take].
  by rewrite sort_by_perm.
Qed.

Lemma due_submissions_NoDup now cutoff less limit l :
  NoDup (pending_subs l) →
  NoDup (map or_submission_id (select (is_due now cutoff) less limit l)).
Proof.
  intros Hnd. apply select_NoDup.
  replace (List.filter (is_due now cutoff) l)
    with (List.filter (is_due now cutoff) (List.filter is_pending l)).
  - by apply NoDup_map_filter.
  - clear Hnd. induction l as [|r l IH]; cbn [List.filter]; [done|]. unfold is_due at 2.
    destruct (is_pending r) eqn:Ep; cbn [List.filter andb]; [|done]. rewrite IH.
    unfold is_due at 1. by rewrite Ep.
Qed.

(** The rows behind the entries sent: due, unclaimed, deliverable, one per submission. *)
Definition sent_row (svc : Service) (w : World) (now cutoff : time) (r : outbox_row)
    (s : Reply * string) : Prop :=
  r ∈ (w_db w).(db_outbox) ∧ is_due (UnixNano now) (UnixNano cutoff) r = true ∧
  r.(or_reply) = Some s.1 ∧ repliesDisabled svc = false ∧
  r.(or_submission_id) ∉ w_dispatching w ∧
  ∀ q, q ∈ (w_db w).(db_submissions) → sr_id q = r.(or_submission_id) → reply_blocked q = false.

Lemma sent_rows svc w now cutoff less limit blocked rows sent :
  db_wf (w_db w) → repliesDisabled svc = false →
  let listed := decoded (select (is_due (UnixNano now) (UnixNano cutoff)) less limit (w_db w).(db_outbox)) in
  (∀ e q, e ∈ listed → q ∈ (w_db w).(db_submissions) → sr_id q = e.(oe_SubmissionID) →
     e.(oe_SubmissionID) ∉ blocked → reply_blocked q = false) →
  (∀ e, e ∈ rows → e ∈ listed) →
  Forall2 (sendable (w_db w).(db_outbox) blocked (w_dispatching w)) rows sent →
  ∃ rs, map or_submission_id rs = map oe_SubmissionID rows ∧ Forall2 (sent_row svc w now cutoff) rs sent.
Proof.
  intros Hwf Hon listed Hblk Hsub Hall.
  induction Hall as [|e s rows sent (Hb & Hh & r & Hr & Hp & Hid & Hrep) Hall IH]; [by exists []|].
  destruct IH as (rs & Hrs & Hsent); [intros; apply Hsub; by right|].
  pose proof (Hsub e ltac:(left)) as He.
  destruct (elem_of_decoded _ _ He) as (r' & reply & Hr' & Hrep' & ->).
  apply elem_of_select in Hr' as [Hr' Hdue].
  pose proof (find_key_unique or_id (or_id r') _ _ (wf_outbox_ids _ Hwf) Hr' eq_refl) as Hf'.
  rewrite (find_key_unique or_id (or_id r') _ _ (wf_outbox_ids _ Hwf) Hr Hid) in Hf'.
  injection Hf' as ->. exists (r' :: rs). cbn. split; [by rewrite Hrs|]. constructor; [|done].
  split_and!; try done. intros q Hq Heq. by apply (Hblk _ q He).
Qed.

Lemma wrap_err_run {A} msg (m : M A) w :
  wrap_err msg m w = (match (m w).1 with
                      | Ok a => Ok a
                      | Err (ErrPanic p) => Err (ErrPanic p)
                      | Err e => Err (ErrWrap msg e)
                      end, (m w).2).
Proof. unfold wrap_err. by destruct (m w) as [[|[]]]. Qed.

(** Either the sweep stops before its loop, or it runs the loop on what was due. *)
Lemma RedeliverOutbox_cases {L : GoLib} {E : Env} svc w :
  let now := env_now (w_tick w) in
  let cutoff := Add now (dur_neg svc.(sv_outboxRetryAfter)) in
  let rows := decoded (select (is_due (UnixNano now) (UnixNano cutoff))
    (λ a b, a.(or_not_before) <? b.(or_not_before)) (limit_or (sv_outboxBatch svc) 100)
    (w_db w).(db_outbox)) in
  mem (RedeliverOutbox svc w).2 = mem w ∨
  repliesDisabled svc = false ∧ ∃ blocked w1 w2,
    Settling (w_db w).(db_outbox) (block_view (w_db w)) (w_db w1) ∧ mem w1 = mem w ∧
    blockedSubmissions rows w1 = (Ok blocked, w2) ∧
    RedeliverOutbox svc w = for_each (sweep_row svc blocked) rows w2.
Proof.
  intros now cutoff rows. unfold RedeliverOutbox. destruct (repliesDisabled svc); [by left|].
  rewrite (bind_ok time_Now _ _ _ _ eq_refl). fold now. fold cutoff.
  assert (Settling (w_db w).(db_outbox) (block_view (w_db w)) (w_db (w_next w))) as Hs0 by done.
  pose proof (settling_ListPending _ _ now cutoff (sv_outboxBatch svc) _ Hs0) as Hs.
  pose proof (mem_ListPending (mem w) now cutoff (sv_outboxBatch svc) (w_next w) eq_refl) as Hm.
  pose proof (ListPending_rows now cutoff (sv_outboxBatch svc) (w_next w)) as Hrows.
  unfold mbind, M_bind. rewrite wrap_err_run.
  destruct (ListPending _ _ _ _) as [[l|e] w1]; [|left; by destruct e].
  rewrite (Hrows _ _ eq_refl). fold rows. cbn [fst snd] in *.
  destruct (blockedSubmissions _ w1) as [[blocked|e] w2] eqn:Hbl.
  - right. split; [done|]. by exists blocked, w1, w2.
  - left. apply blockedSubmissions_effect in Hbl as [_ Hm']. cbn. etransitivity; [exact Hm'|exact Hm].
Qed.

Lemma block_view_blocked d d' q :
  block_view d' = block_view d → q ∈ d.(db_submissions) →
  ∃ q', q' ∈ d'.(db_submissions) ∧ sr_id q' = sr_id q ∧ reply_blocked q' = reply_blocked q.
Proof.
  intros Hb Hq. assert ((sr_id q, reply_blocked q) ∈ block_view d') as Hin.
  { rewrite Hb. by apply (list_elem_of_fmap_2 (λ r, (sr_id r, reply_blocked r))). }
  apply list_elem_of_fmap in Hin as (q' & [= -> ->] & Hq'). eauto.
Qed.

(** C6: a sweep of the outbox sends each due reply at most once, and only where it may.
    Whatever fails along the way, every message it hands to the mail server is the text
    of a row that was pending and due when the sweep began, of a submission that was
    neither held nor bounced and that no other sender had claimed, with replies enabled;
    no submission gets two; and every claim it took is released. *)
Theorem sweep_sends_due_once (L : GoLib) (E : Env) svc w :
  db_wf (w_db w) → (∀ q, q ∈ (w_db w).(db_submissions) → clean_id (sr_id q)) →
  let now := env_now (w_tick w) in
  let cutoff := Add now (dur_neg svc.(sv_outboxRetryAfter)) in
  let w' := (RedeliverOutbox svc w).2 in
  w_dispatching w' = w_dispatching w ∧
  ∃ sent rows, w_sent w' = w_sent w ++ sent ∧ NoDup (map or_submission_id rows) ∧
    Forall2 (sent_row svc w now cutoff) rows sent.
Proof.
  intros Hwf Hclean now cutoff.
  destruct (RedeliverOutbox_cases svc w) as [[= Hd _ _ Hs]|(Hon & blocked & w1 & w2 & Hs & Hm & Hbl & ->)].
  { split; [done|]. exists [], []. rewrite app_nil_r. split_and!; [done|constructor..]. }
  destruct (blockedSubmissions_effect _ _ _ _ Hbl) as [Hdb2 Hm2].
  rewrite Hm in Hm2. injection Hm2 as Hd2 _ _ Hsent2. rewrite <- Hdb2 in Hs.
  set (listed := decoded _) in *.
  destruct (sweep_loop svc _ _ blocked listed w2 (wf_outbox_ids _ Hwf) Hs)
    as (_ & Hd & sent & rows & Hsent & Hsub & Hall).
  split; [congruence|]. rewrite Hd2 in Hall.
  eapply sent_rows in Hall as (rs & Hrs & Hfinal); [|exact Hwf|exact Hon| |].
  - exists sent, rs. split_and!; [congruence| |exact Hfinal]. rewrite Hrs.
    eapply sublist_NoDup; [|apply fmap_sublist, Hsub].
    eapply sublist_NoDup; [|apply decoded_submissions]. apply due_submissions_NoDup, Hwf.
  - intros e q He Hq Heq Hnb. destruct (reply_blocked q) eqn:Hqb; [|done]. destruct Hnb.
    destruct Hs as [_ Hb].
    destruct (block_view_blocked _ _ q Hb Hq) as (q' & Hq' & Hid & Hbq).
    eapply (blockedSubmissions_sound _ w1 blocked w2 e q'); rewrite ?Hdb2; try done; [|congruence..].
    rewrite <- Heq. by apply Hclean.
  - intros e He. eapply elem_of_sublist; [exact He|exact Hsub].
Qed.

(** A world in which the first mail was ingested while the worker pool was closed, so
    its reply waits for the sweep. *)
Definition swept_world : World :=
  (IngestEmail (L := demo_lib) (E := demo_env) demo_service first_mail (w_with_closed true empty_world)).2.

Lemma swept_world_wf : db_wf (w_db swept_world).
Proof.
  exact (proj1 (inv_IngestEmail demo_service first_mail (w_with_closed true empty_world) empty_db_inv)).
Qed.

Lemma clean_ids (l : list submission_row) ids q :
  map sr_id l = ids → Forall clean_id ids → q ∈ l → clean_id (sr_id q).
Proof.
  intros <- Hall Hq. rewrite Forall_forall in Hall. apply Hall. by apply list_elem_of_fmap_2.
Qed.

Lemma swept_world_ids : map sr_id (w_db swept_world).(db_submissions) = ["id-2"].
Proof. vm_compute. reflexivity. Qed.

Lemma swept_world_clean q : q ∈ (w_db swept_world).(db_submissions) → clean_id (sr_id q).
Proof. apply (clean_ids _ _ _ swept_world_ids). by repeat constructor. Qed.

Lemma swept_world_sent : w_sent swept_world = [].
Proof. vm_compute. reflexivity. Qed.

Lemma sweep_sends_due_once_witness :
  let w' := (RedeliverOutbox (L := demo_lib) (E := demo_env) demo_service swept_world).2 in
  length (w_sent w') = 1%nat ∧ w_dispatching w' = w_dispatching swept_world ∧
  ∃ s r, s ∈ w_sent w' ∧ r ∈ (w_db swept_world).(db_outbox) ∧ r.(or_reply) = Some s.1.
Proof.
  destruct (sweep_sends_due_once demo_lib demo_env demo_service swept_world swept_world_wf
    swept_world_clean) as (Hd & sent & rows & Hs & _ & Hall).
  set (w' := (RedeliverOutbox demo_service swept_world).2) in *. cbv zeta.
  assert (length (w_sent w') = 1%nat) as Hl by (vm_compute; reflexivity).
  split; [exact Hl|]. split; [exact Hd|].
  rewrite swept_world_sent in Hs. cbn in Hs. rewrite Hs in Hl |- *.
  destruct Hall as [|r s rows sent (Hr & _ & Hrep & _)]; [discriminate Hl|].
  exists s, r. split; [left|]. split; [exact Hr|exact Hrep].
Defined.

(** ** Settling without failures *)

Section settled.
Context {L : GoLib} {E : Env} (Hff : fault_free E) (svc : Service).

Definition row_of (id : string) (w : World) : option outbox_row :=
  find_key or_id id (w_db w).(db_outbox).

Lemma pending_subs_kept p f l :
  (∀ r, r ∈ l → p r = true → is_pending (f r) = is_pending r) →
  (∀ r, or_submission_id (f r) = or_submission_id r) →
  pending_subs (update_where p f l) = pending_subs l.
Proof.
  intros Hp Hs. unfold pending_subs, update_where.
  induction l as [|r l IH]; [done|]. cbn [map List.filter].
  assert (is_pending (if p r then f r else r) = is_pending r) as ->.
  { destruct (p r) eqn:Er; [|done]. apply Hp; [left|done]. }
  assert (∀ r, r ∈ l → p r = true → is_pending (f r) = is_pending r) as Hl.
  { intros r' Hr'. apply Hp. by right. }
  destruct (is_pending r); [|by apply IH]. cbn [map]. f_equal; [by destruct (p r)|by apply IH].
Qed.

(** An update of a pending row by id goes through and settles exactly that row. *)
Lemma Outbox_Update_run id st n err w row :
  db_wf (w_db w) → row_of id w = Some row → is_pending row = true →
  ∃ t d, Outbox_Update id st n err w = (Ok (), w_with_db d (w_next (w_next w))) ∧
    d = db_with_outbox (update_where (λ r, bool_decide (or_id r = id))
          (or_settle st n err t) (w_db w).(db_outbox)) (w_db w).
Proof.
  intros Hwf Hrow Hp. exists (UnixNano (env_now (w_tick w))). eexists. split; [|reflexivity].
  unfold Outbox_Update. rewrite (bind_ok time_Now _ _ _ _ eq_refl).
  rewrite wrap_err_run. unfold stmt, update_outbox. rewrite Hff. cbn [w_db w_next].
  rewrite bool_decide_true; [done|]. destruct (decide (st = OutboxPending)) as [->|Hst].
  - rewrite pending_subs_kept; [apply Hwf| |done]. intros r Hr Hid%bool_decide_eq_true.
    pose proof (find_key_unique or_id id _ _ (wf_outbox_ids _ Hwf) Hr Hid) as Hf.
    unfold row_of in Hrow. assert (r = row) as -> by congruence. by rewrite Hp.
  - rewrite pending_subs_settle; [apply pending_subs_filter_NoDup, Hwf|].
    intros r. by apply bool_decide_eq_false.
Qed.

Lemma log_err_run {A} (m : M A) a w w' : m w = (Ok a, w') → log_err m w = (Ok (), w').
Proof. intros Hm. unfold log_err, attempt, mbind, M_bind. by rewrite Hm. Qed.

Lemma MarkSent_run id row w :
  row_of id w = Some row → is_pending row = true → fits64 row.(or_updated_at) →
  ∃ w' row', MarkSent id row.(or_updated_at) w = (Ok (), w') ∧ row_of id w' = Some row' ∧
    row'.(or_status) = OutboxSent ∧ row'.(or_attempts) = row.(or_attempts).
Proof.
  intros Hrow Hp Hfit. unfold MarkSent. rewrite (bind_ok time_Now _ _ _ _ eq_refl), wrap_err_run.
  unfold exec, stmt. rewrite Hff. eexists _, _. split; [reflexivity|]. unfold row_of in *.
  cbn [snd w_db w_with_db db_outbox db_with_outbox w_next]. unfold mark_sent.
  rewrite find_update_where by done. rewrite Hrow. apply find_key_Some in Hrow as [_ Hid].
  rewrite Hp. unfold UnixNano. rewrite wrap64_id by done.
  rewrite Z.eqb_refl, bool_decide_true by done. by cbn.
Qed.

(** What a failed delivery makes of the row and of the submission. *)
Definition after_failure (sid : string) (row : outbox_row) (err : error) (d : DB) : Prop :=
  let attempts := row.(or_attempts) + 1 in
  ∃ row', find_key or_id row.(or_id) d.(db_outbox) = Some row' ∧ row'.(or_attempts) = attempts ∧
    row'.(or_last_error) = error_text err ∧ row'.(or_reply) = row.(or_reply) ∧
    if attempts <? svc.(sv_outboxMaxAttempts) then row'.(or_status) = OutboxPending
    else row'.(or_status) = OutboxFailed ∧
         ∀ q, q ∈ d.(db_submissions) → sr_id q = sid → q.(sr_data).(sub_LastReplyHash) = "".

Lemma after_failure_core sid row err d d' :
  core d' = core d → after_failure sid row err d → after_failure sid row err d'.
Proof. unfold core, after_failure. intros [= Hs _ _ Ho]. by rewrite Hs, Ho. Qed.

Lemma audit_run id evt p w :
  ∃ w', audit id evt p w = (Ok (), w') ∧ core (w_db w') = core (w_db w).
Proof.
  destruct (audit_safe id evt p w) as ([] & w' & Ha). exists w'. split; [done|].
  pose proof (frame_audit _ (core_append (core (w_db w))) id evt p w eq_refl) as Hc.
  by rewrite Ha in Hc.
Qed.

Lemma ClearReplyHash_run sid w :
  ∃ w', ClearReplyHash sid w = (Ok (), w') ∧ (w_db w').(db_outbox) = (w_db w).(db_outbox) ∧
    ∀ q, q ∈ (w_db w').(db_submissions) → sr_id q = sid → q.(sr_data).(sub_LastReplyHash) = "".
Proof.
  unfold ClearReplyHash, update_submissions. rewrite wrap_err_run. unfold exec, stmt. rewrite Hff.
  eexists. split; [reflexivity|]. split; [done|]. intros q Hq Hid.
  apply list_elem_of_fmap in Hq as (q0 & -> & Hq0). revert Hid. cbn.
  case_bool_decide; [done|]. intros Hid. by destruct H.
Qed.

Lemma settle_failure_run row reply err w :
  db_wf (w_db w) → row_of row.(or_id) w = Some row → is_pending row = true →
  ∃ w', settle_failure svc (entry_of_row row reply) err w = (Ok (), w') ∧
        after_failure row.(or_submission_id) row err (w_db w').
Proof.
  intros Hwf Hrow Hp.
  assert (∀ st t, find_key or_id (or_id row)
    (update_where (λ r, bool_decide (or_id r = or_id row)) (or_settle st (or_attempts row + 1) (error_text err) t)
       (db_outbox (w_db w))) = Some (or_settle st (or_attempts row + 1) (error_text err) t row)) as Hfind.
  { intros st t. rewrite find_update_where by done. unfold row_of in Hrow. rewrite Hrow.
    by rewrite bool_decide_true. }
  unfold settle_failure, after_failure. cbn [oe_Attempts oe_ID oe_SubmissionID entry_of_row].
  destruct (_ <? _) eqn:Hlt;
    [destruct (Outbox_Update_run (or_id row) OutboxPending (or_attempts row + 1) (error_text err) w row)
       as (t & d & Hu & Hd); [done..|]
    |destruct (Outbox_Update_run (or_id row) OutboxFailed (or_attempts row + 1) (error_text err) w row)
       as (t & d & Hu & Hd); [done..|]].
  - eexists. split; [by apply (log_err_run _ () w)|]. rewrite Hd. eexists. split; [apply Hfind|]. done.
  - set (w1 := w_with_db d _) in *. rewrite (bind_ok _ _ _ _ _ (log_err_run _ _ _ _ Hu)).
    destruct (ClearReplyHash_run (or_submission_id row) w1) as (w2 & Hc & Ho & Hh).
    rewrite (bind_ok _ _ _ _ _ (log_err_run _ _ _ _ Hc)).
    match goal with |- ∃ w', audit ?id ?evt ?p w2 = _ ∧ _ =>
      destruct (audit_run id evt p w2) as (w3 & Ha & Hcore) end.
    injection Hcore as Hs _ _ Ho3.
    exists w3. split; [exact Ha|]. rewrite Ho3, Hs, Ho. unfold w1. cbn [w_db w_with_db].
    rewrite Hd. eexists. split; [apply Hfind|]. done.
Qed.

Lemma GetPending_run row reply w :
  db_wf (w_db w) → row_of row.(or_id) w = Some row → is_pending row = true →
  row.(or_reply) = Some reply →
  attempt (GetPending row.(or_id)) w = (Ok (Ok (Some (entry_of_row row reply))), w_next w).
Proof.
  intros Hwf Hrow Hp Hrep. unfold attempt, GetPending, mbind, M_bind, wrap_err, query, stmt.
  rewrite Hff. cbn [id w_db w_with_db w_next].
  replace (w_with_db (w_db w) (w_next w)) with (w_next w) by (by destruct w).
  destruct (List.find _ _) as [r|] eqn:Ef.
  - apply List.find_some in Ef as [Hin%list_elem_of_In Hb].
    apply andb_true_iff in Hb as [Hid%bool_decide_eq_true _].
    pose proof (find_key_unique or_id _ _ _ (wf_outbox_ids _ Hwf) Hin Hid) as Hf.
    unfold row_of in Hrow. assert (r = row) as -> by congruence. by rewrite Hrep.
  - apply find_key_Some in Hrow as [Hin _]. apply list_elem_of_In in Hin.
    pose proof (List.find_none _ _ Ef _ Hin) as Hn. cbn in Hn. by rewrite bool_decide_true, Hp in Hn.
Qed.
Definition is_panic (e : error) : bool := match e with ErrPanic _ => true | _ => false end.

(** A refused delivery. *)
Lemma redeliverOne_refused listed w row reply err :
  db_wf (w_db w) → row_of listed.(oe_ID) w = Some row → is_pending row = true →
  row.(or_reply) = Some reply → env_send (S (w_tick w)) reply = Err err → is_panic err = false →
  let w' := (redeliverOne svc listed w).2 in
  w_sent w' = w_sent w ∧ after_failure row.(or_submission_id) row err (w_db w').
Proof.
  intros Hwf Hrow Hp Hrep Hsend Hnp. pose proof Hrow as [_ Hid]%find_key_Some.
  unfold redeliverOne, deferred. rewrite <- Hid in Hrow |- *.
  rewrite (bind_ok _ _ _ _ _ (GetPending_run row reply w Hwf Hrow Hp Hrep)).
  pose proof (deliver_cases svc reply (or_submission_id row) (w_next w)) as Hd.
  cbn [oe_Reply oe_SubmissionID oe_ID oe_UpdatedAt entry_of_row]. cbn [w_tick w_next] in Hd.
  rewrite Hsend in Hd.
  assert (attempt (deliver svc reply (or_submission_id row)) (w_next w) = (Ok (Err err), w_next (w_next w)))
    as Ha by (unfold attempt; rewrite Hd; by destruct err).
  pose proof (mem_settle_failure svc (mem w) (entry_of_row row reply) err (w_next (w_next w)) eq_refl) as Hm.
  destruct (settle_failure_run row reply err (w_next (w_next w)) Hwf Hrow Hp) as (w2 & Hs & Haf).
  rewrite Hs in Hm. injection Hm as _ _ _ Hsent. rewrite (bind_ok _ _ _ _ _ Ha), Hs. done.
Qed.
End settled.

(** C7: what the sweep makes of one due row when no statement fails.  If the server
    takes the reply, it is sent once and the row is settled as sent.  If it refuses, the
    attempt is counted and its error recorded; the row stays pending until the last
    allowed attempt, and is then failed and the submission's reply hash cleared, so that
    the same ask can be made again. *)
Theorem redeliverOne_settles (L : GoLib) (E : Env) svc listed w row reply :
  fault_free E → db_wf (w_db w) → row_of listed.(oe_ID) w = Some row → is_pending row = true →
  row.(or_reply) = Some reply → fits64 row.(or_updated_at) →
  let w' := (redeliverOne svc listed w).2 in
  match env_send (S (w_tick w)) reply with
  | Ok id => w_sent w' = w_sent w ++ [(reply, id)] ∧
      ∃ row', row_of listed.(oe_ID) w' = Some row' ∧ row'.(or_status) = OutboxSent
  | Err (ErrPanic _) => w_db w' = w_db w
  | Err e => w_sent w' = w_sent w ∧ after_failure svc row.(or_submission_id) row e (w_db w')
  end.
Proof.
  intros Hff Hwf Hrow Hp Hrep Hfit w'. destruct (env_send (S (w_tick w)) reply) as [mid|err] eqn:Hsend;
    [|destruct err; try (apply (redeliverOne_refused Hff svc listed w row reply); done)];
    pose proof Hrow as [_ Hid]%find_key_Some; unfold w', redeliverOne, deferred;
    rewrite <- Hid in Hrow |- *;
    rewrite (bind_ok _ _ _ _ _ (GetPending_run Hff row reply w Hwf Hrow Hp Hrep));
    pose proof (deliver_cases svc reply (or_submission_id row) (w_next w)) as Hd;
    cbn [oe_Reply oe_SubmissionID oe_ID oe_UpdatedAt entry_of_row]; cbn [w_tick w_next] in Hd;
    rewrite Hsend in Hd.
  - destruct Hd as (w1 & Hd & [= _ _ _ Hsent] & [= Ho _]).
    assert (attempt (deliver svc reply (or_submission_id row)) (w_next w) = (Ok (Ok ()), w1)) as Ha
      by (unfold attempt; by rewrite Hd).
    rewrite (bind_ok _ _ _ _ _ Ha).
    assert (row_of (or_id row) w1 = Some row) as Hrow1 by (unfold row_of; rewrite Ho; exact Hrow).
    destruct (MarkSent_run Hff (or_id row) row w1 Hrow1 Hp Hfit) as (w2 & row' & Hm & Hrow2 & Hst & _).
    rewrite (log_err_run _ _ _ _ Hm). cbn.
    pose proof (mem_MarkSent (mem w1) (or_id row) (or_updated_at row) w1 eq_refl) as Hmem.
    rewrite Hm in Hmem. injection Hmem as _ _ _ Hs2. cbn in *. split; [congruence|].
    exists row'. split; [exact Hrow2|exact Hst].
  - assert (attempt (deliver svc reply (or_submission_id row)) (w_next w) =
            (Err (ErrPanic msg), w_next (w_next w))) as Ha by (unfold attempt; by rewrite Hd).
    by rewrite (bind_err _ _ _ _ _ Ha).
Qed.

(** A mail server that refuses everything. *)
Definition refusing_env : Env :=
  {| env_now n := 10 * (1 + Z.of_nat n); env_uuid n := "id-" +:+ fmt_d (Z.of_nat n);
     env_fault _ := None; env_send _ _ := Err (ErrNew "550 no"); env_requestID _ := "";
     env_cancelled _ := None |}.

Definition swept_row : outbox_row :=
  default (outbox_values (mkOutboxEntry "" "" emptyReply OutboxPending 0 "" 0 0 0))
    (head (w_db swept_world).(db_outbox)).
Definition swept_entry : OutboxEntry := entry_of_row swept_row (default emptyReply swept_row.(or_reply)).

Lemma swept_row_found : row_of swept_entry.(oe_ID) swept_world = Some swept_row.
Proof. vm_compute. reflexivity. Qed.

Lemma swept_row_attempts : or_attempts swept_row = 0.
Proof. vm_compute. reflexivity. Qed.

Lemma swept_row_reply : swept_row.(or_reply) = Some (default emptyReply swept_row.(or_reply)).
Proof. vm_compute. reflexivity. Qed.

Lemma redeliverOne_settles_witness :
  let w' := (redeliverOne (L := demo_lib) (E := refusing_env) demo_service swept_entry swept_world).2 in
  w_sent w' = w_sent swept_world ∧ after_failure demo_service swept_row.(or_submission_id) swept_row (ErrNew "550 no") (w_db w').
Proof.
  apply (redeliverOne_settles demo_lib refusing_env demo_service swept_entry swept_world swept_row
           (default emptyReply swept_row.(or_reply))).
  - intros n. reflexivity.
  - exact swept_world_wf.
  - exact swept_row_found.
  - vm_compute. reflexivity.
  - exact swept_row_reply.
  - vm_compute. split; discriminate.
Defined.

(** ** Retries end *)

Section retries.
Context {L : GoLib} {E : Env} (Hff : fault_free E) (svc : Service).
Context (Hrefuse : ∀ n r, ∃ e, env_send n r = Err e ∧ is_panic e = false).

(** [k] rounds of the sweep on one row. *)
Fixpoint retries (k : nat) (listed : OutboxEntry) (w : World) : World :=
  match k with
  | O => w
  | S k => (redeliverOne svc listed (retries k listed w)).2
  end.

Lemma retries_inv k listed w : db_inv (w_db w) → db_inv (w_db (retries k listed w)).
Proof. intros Hw. induction k; cbn; [done|]. by apply inv_redeliverOne. Qed.

(** A row no longer pending is left alone. *)
Lemma redeliverOne_not_pending listed w row :
  db_wf (w_db w) → row_of listed.(oe_ID) w = Some row → is_pending row = false →
  w_db (redeliverOne svc listed w).2 = w_db w ∧ w_sent (redeliverOne svc listed w).2 = w_sent w.
Proof.
  intros Hwf Hrow Hp. unfold redeliverOne, deferred.
  destruct (GetPending_cases (oe_ID listed) w) as (r & Hg & Hr). rewrite (bind_ok _ _ _ _ _ Hg).
  destruct r as [[e|]|err]; [|by split..].
  destruct (Hr e eq_refl) as (row' & reply & Hin & Hp' & Hid & _).
  unfold row_of in Hrow. rewrite (find_key_unique or_id _ _ _ (wf_outbox_ids _ Hwf) Hin Hid) in Hrow.
  injection Hrow as ->. congruence.
Qed.

Definition retried (a0 : Z) (k : nat) (row : outbox_row) : Prop :=
  if a0 + Z.of_nat k <? sv_outboxMaxAttempts svc
  then is_pending row = true ∧ row.(or_attempts) = a0 + Z.of_nat k
  else row.(or_status) = OutboxFailed ∧ row.(or_attempts) = sv_outboxMaxAttempts svc.
End retries.

(** C22: retries end.  When the server refuses a reply for good, the row stays pending
    with its attempts counted up to the allowed number, and is then failed for good:
    nothing more is tried for it, whatever the number of sweeps. *)
Theorem retries_end (L : GoLib) (E : Env) svc listed w row reply k :
  fault_free E → (∀ n r, ∃ e, env_send n r = Err e ∧ is_panic e = false) →
  db_inv (w_db w) → row_of listed.(oe_ID) w = Some row → is_pending row = true →
  row.(or_reply) = Some reply → row.(or_attempts) < sv_outboxMaxAttempts svc →
  w_sent (retries svc k listed w) = w_sent w ∧
  ∃ row', row_of listed.(oe_ID) (retries svc k listed w) = Some row' ∧ row'.(or_reply) = Some reply ∧
          retried svc row.(or_attempts) k row'.
Proof.
  intros Hff Hrefuse Hinv Hrow Hp Hrep Hlt. set (a0 := or_attempts row) in *.
  induction k as [|k (Hsent & r & Hr & Hrr & Hret)]; cbn [retries].
  { split; [done|]. exists row. split_and!; [done..|]. unfold retried.
    replace (a0 + Z.of_nat 0) with a0 by lia. rewrite (proj2 (Z.ltb_lt _ _) Hlt). done. }
  set (wk := retries svc k listed w) in *.
  pose proof (proj1 (retries_inv svc k listed w Hinv)) as Hwf. fold wk in Hwf.
  unfold retried in Hret. destruct (_ <? _) eqn:Hk.
  - destruct Hret as [Hpr Ha]. destruct (Hrefuse (S (w_tick wk)) reply) as (e & He & Hnp).
    destruct (redeliverOne_refused Hff svc listed wk r reply e Hwf Hr Hpr Hrr He Hnp)
      as (Hs & r' & Hr' & Ha' & _ & Hrr' & Hst).
    split; [congruence|]. exists r'. apply find_key_Some in Hr as [_ Hid].
    unfold row_of. rewrite <- Hid. split_and!; [done|congruence|]. unfold retried.
    replace (a0 + Z.of_nat (S k)) with (or_attempts r + 1) by lia. destruct (or_attempts r + 1 <? sv_outboxMaxAttempts svc) eqn:Hm.
    + split; [|lia]. unfold is_pending. by rewrite Hst, bool_decide_true.
    + destruct Hst as [Hst _]. split; [done|]. apply Z.ltb_ge in Hm. lia.
  - destruct Hret as [Hst Ha].
    destruct (redeliverOne_not_pending svc listed wk r Hwf Hr) as [Hdb Hs].
    { unfold is_pending. by rewrite Hst. }
    split; [congruence|]. exists r. unfold row_of. rewrite Hdb. split_and!; [done..|].
    unfold retried. rewrite (proj2 (Z.ltb_ge _ _)); [done|]. lia.
Qed.

Lemma retries_end_witness :
  let w' := retries (L := demo_lib) (E := refusing_env) demo_service 10 swept_entry swept_world in
  w_sent w' = [] ∧ ∃ row', row_of swept_entry.(oe_ID) w' = Some row' ∧ row'.(or_status) = OutboxFailed.
Proof.
  destruct (retries_end demo_lib refusing_env demo_service swept_entry swept_world swept_row
    (default emptyReply swept_row.(or_reply)) 10) as (Hs & row' & Hrow & _ & Hret).
  - intros n. reflexivity.
  - intros n r. exists (ErrNew "550 no"). split; reflexivity.
  - exact (inv_IngestEmail demo_service first_mail (w_with_closed true empty_world) empty_db_inv).
  - exact swept_row_found.
  - vm_compute. reflexivity.
  - exact swept_row_reply.
  - rewrite swept_row_attempts. reflexivity.
  - rewrite swept_world_sent in Hs. split; [exact Hs|]. exists row'. split; [exact Hrow|].
    rewrite swept_row_attempts in Hret. exact (proj1 Hret).
Defined.
