(* ===== verification/Claims.v ===== *)
(** Who may send a submission's replies, in the running service.

    A goroutine claims a submission ([claimDispatch]) before it sends for it and releases
    it afterwards; an ingest that queued a reply hands its claim over with the job.  Here
    every task of [Interleave] is given the claim it owns at each of its steps: [holds]
    says that its steps only move claims the way an owner may.  Over every interleaving
    the claims the process has recorded are then exactly those of the goroutines and of
    the queued jobs, none held twice and none forgotten. *)
From Stdlib Require Import ZArith.
From stdpp Require Import base list strings gmap.
From S2P Require Import Prelude GoStrings GoValues Submission Checklist Reply Classifier ChecklistStore Tables World Repository OutboxRepo Persistence RepositoryProps Config Service Ingest Delivery Sweeps ServiceInv Still Tasks Interleave Ghost Demo IngestProps DeliveryProps.

Open Scope Z_scope.

(** ** Moving claims *)

(** The submission a goroutine has claimed. *)
Definition owner : Type := option string.

Definition is_digest (p : Reply * string) : Prop := rep_SubmissionID p.1 = "".

(** What a step of an owner may do to the claims, the queue and the mail sent. *)
Inductive claim_move : owner → owner → World → World → Prop :=
| cm_stay o w w' : mem w' = mem w → claim_move o o w w'
| cm_digest o w w' sent :
    w_dispatching w' = w_dispatching w → w_jobs w' = w_jobs w →
    w_sent w' = w_sent w ++ sent → Forall is_digest sent → claim_move o o w w'
| cm_send sid w w' r id :
    w_dispatching w' = w_dispatching w → w_jobs w' = w_jobs w → w_sent w' = w_sent w ++ [(r, id)] →
    claim_move (Some sid) (Some sid) w w'
| cm_claim sid w w' :
    sid ∉ w_dispatching w → w_dispatching w' = {[sid]} ∪ w_dispatching w →
    w_jobs w' = w_jobs w → w_sent w' = w_sent w → claim_move None (Some sid) w w'
| cm_release sid w w' :
    w_dispatching w' = w_dispatching w ∖ {[sid]} → w_jobs w' = w_jobs w → w_sent w' = w_sent w →
    claim_move (Some sid) None w w'
| cm_enqueue job w w' :
    w_dispatching w' = w_dispatching w → w_jobs w' = w_jobs w ++ [job] → w_sent w' = w_sent w →
    claim_move (Some job.(job_submissionID)) None w w'
| cm_take job w w' :
    w_dispatching w' = w_dispatching w → w_jobs w = job :: w_jobs w' → w_sent w' = w_sent w →
    claim_move None (Some job.(job_submissionID)) w w'.

(** Only the memory matters. *)
Lemma claim_move_ext o o' w w' u u' :
  mem u = mem w → mem u' = mem w' → claim_move o o' w w' → claim_move o o' u u'.
Proof.
  unfold mem. intros [= Hd Hj Hc Hs] [= Hd' Hj' Hc' Hs'].
  destruct 1; [apply cm_stay|eapply cm_digest|eapply cm_send|apply cm_claim|apply cm_release|
    eapply cm_enqueue|eapply cm_take]; unfold mem in *; rewrite ?Hd, ?Hj, ?Hs, ?Hd', ?Hj', ?Hs'; try done; congruence.
Qed.

#[export] Instance claim_move_resting : Resting claim_move.
Proof.
  split; [intros; by apply cm_stay|]. intros o o' c c' w w' Hm. by eapply claim_move_ext; [..|exact Hm].
Qed.

Notation claiming := (follows claim_move).
Notation holds o o' t := (ends claim_move o o' t).

(** ** Calls that move claims *)

Section calls.
Context {E : Env} (svc : Service).

(** What [claimDispatch] returns says who owns the submission, also with an id drawn. *)
Definition claimed_by (sid : string) (claimed : bool) : owner := if claimed then Some sid else None.

Lemma claim_step sid :
  claiming (λ r o, match r with Ok c => o = claimed_by sid c | Err _ => False end) None (atomic (claimDispatch sid)).
Proof.
  apply follows_call. intros w. unfold claimDispatch, mbind, M_bind. cbn. case_bool_decide; cbn;
    eexists; (split; [|done]); [by apply cm_stay|by apply cm_claim].
Qed.

Lemma draw_step sid :
  claiming (λ r o, match r with Ok (_, c) => o = claimed_by sid c | Err _ => False end) None (atomic (draw_claim sid)).
Proof.
  apply follows_call. intros w. unfold draw_claim, claimDispatch, mbind, M_bind. cbn. case_bool_decide; cbn;
    eexists; (split; [|done]); [by apply cm_stay|by apply cm_claim].
Qed.

Lemma release_step sid : claiming (λ r o, o = None ∧ is_ok r = true) (Some sid) (atomic (releaseDispatch sid)).
Proof. apply follows_call. intros w. exists None. split; [by apply cm_release|done]. Qed.

Lemma enqueue_step job :
  claiming (λ r o, match r with Ok queued => o = claimed_by job.(job_submissionID) (negb queued) | Err _ => False end)
    (Some job.(job_submissionID)) (atomic (enqueueReply svc job)).
Proof.
  apply follows_call. intros w. unfold enqueueReply, mbind, M_bind. cbn. destruct (w_closed w); cbn;
    [eexists; split; [by apply cm_stay|done]|]. destruct (_ <? _); cbn; eexists; (split; [|done]);
    [by eapply cm_enqueue|by apply cm_stay].
Qed.

Lemma take_step :
  claiming (λ r o, match r with Ok job => o = job_submissionID <$> job | Err _ => False end) None (atomic take_job).
Proof.
  apply follows_call. intros w. unfold take_job, mbind, M_bind. cbn. destruct (w_jobs w) as [|job rest] eqn:Ew; cbn;
    eexists; (split; [|done]); [by apply cm_stay|by apply cm_take].
Qed.

Lemma send_step sid r : holds (Some sid) (Some sid) (atomic (SendThreadedReply r)).
Proof.
  apply follows_call. intros w. unfold SendThreadedReply. exists (Some sid). split; [|done].
  destruct (env_send _ _) as [id|e]; [by eapply cm_send|by apply cm_stay].
Qed.
End calls.

(** A call that leaves the memory alone. *)
Lemma holds_mem {A} o (m : M A) : (∀ x, preserves (Mem x) m) → holds o o (atomic m).
Proof.
  intros Hm. apply follows_call. intros w. exists o. split; [|done]. apply cm_stay. by apply (Hm (mem w) w).
Qed.

Lemma mem_UpsertSubmissionWithReply {L : GoLib} {E : Env} x s e :
  preserves (Mem x) (UpsertSubmissionWithReply s e).
Proof.
  unfold UpsertSubmissionWithReply, insertOutboxRow. case_bool_decide; [walk|]. apply mem_transaction.
  apply preserves_bind; [by apply still_mem, still_upsert_rows|]. intros []. walk.
Qed.

#[export] Hint Resolve still_mem mem_Outbox_Update mem_MarkSent mem_ListPending mem_settle_failure
  mem_UpsertSubmissionWithReply : triage.

(** ** The service's tasks *)

(** A call whose failure is not a panic, attempted. *)
Lemma attempt_calm {A} o (m : M A) :
  (∀ x, preserves (Mem x) m) → calm m →
  claiming (λ r p, p = o ∧ is_ok r = true) o (tattempt (atomic m)).
Proof.
  intros Hm Hc. eapply (follows_ton _ (λ r p, p = o ∧ ∀ msg, r ≠ Err (ErrPanic msg))).
  - apply follows_call. intros w. exists o. split; [|done]. apply cm_stay. by apply (Hm (mem w) w).
  - intros [a|e] o' [-> Hp]; [done|]. destruct e; try done. by destruct (Hp msg).
Qed.

Section tasks.
Context {L : GoLib} {E : Env} (svc : Service).

#[local] Hint Resolve holds_mem : ghost.
Ltac hold := gwalk; try (apply holds_mem; walk).

(** What is left of the claim is given back before the ingest returns. *)
Lemma unclaim_then {A} sid (b : bool) (r : result A) :
  holds (claimed_by sid b) None ((if b then atomic (releaseDispatch sid) else mret ()) ≫= λ _, TRet r).
Proof. destruct b; [|done]. eapply follows_bind; [apply release_step|by intros [] ? [-> _]|by intros ? ? [_ ?]]. Qed.

(** The ingest's claim goes to the job it queues, or back. *)
Lemma queue_task_holds sub reply fp res : holds None None (queue_task svc sub reply fp res).
Proof.
  unfold queue_task. set (sub' := sub_with_LastReplyHash fp sub). apply ends_bind; [gwalk|]. intros now.
  eapply follows_bind; [apply (draw_step (sub_ID sub'))| |by intros].
  intros [id b] o' ->. eapply follows_bind.
  { apply attempt_calm; [auto with triage|apply calm_UpsertSubmissionWithReply]. }
  2: by intros e o' [_ ?].
  intros [entry|e] o' [-> _]; [|apply unclaim_then].
  destruct (b && _) eqn:Eb; [|apply unclaim_then]. apply andb_true_iff in Eb as [-> _].
  eapply follows_bind.
  - apply (enqueue_step svc (mkReplyJob reply (sub_ID sub') (oe_ID entry) (oe_UpdatedAt entry))).
  - intros [] o' ->; [done|apply (unclaim_then _ true)].
  - by intros.
Qed.

Lemma release_holds sid : holds (Some sid) None (atomic (releaseDispatch sid)).
Proof. eapply follows_weaken; [apply release_step|]. by intros r o []. Qed.

(** A delivery, under the claim of whoever delivers. *)
Lemma deliver_task_holds o sid reply id : o = Some sid → holds o o (deliver_task svc reply id).
Proof. intros ->. unfold deliver_task. apply ends_bind; [by apply send_step|]. gwalk. Qed.

Lemma dispatch_task_holds job : holds (Some (job_submissionID job)) None (dispatch_task svc job).
Proof.
  unfold dispatch_task. apply ends_deferred; [|apply release_holds].
  apply ends_bind; [by eapply ends_attempt, deliver_task_holds|]. hold.
Qed.

Lemma worker_task_holds : holds None None (worker_task svc).
Proof.
  unfold worker_task. eapply follows_bind; [apply take_step| |by intros].
  intros [job|] o' ->; [apply dispatch_task_holds|done].
Qed.

Lemma redeliver_task_holds row : holds (Some (oe_SubmissionID row)) None (redeliver_task svc row).
Proof.
  unfold redeliver_task. apply ends_deferred; [|apply release_holds].
  apply ends_bind; [gwalk|]. intros [[fresh|]|e]; [|done..].
  apply ends_bind; [by eapply ends_attempt, deliver_task_holds|]. hold.
Qed.

Lemma sweep_row_task_holds blocked row : holds None None (sweep_row_task svc blocked row).
Proof.
  unfold sweep_row_task. apply ends_bind; [gwalk|]. intros _.
  case_bool_decide; [done|]. eapply follows_bind; [apply claim_step| |by intros].
  intros [] o' ->; [apply redeliver_task_holds|done].
Qed.
#[local] Hint Resolve sweep_row_task_holds : ghost.

Lemma outbox_task_holds : holds None None (outbox_task svc).
Proof. unfold outbox_task, redeliver_outbox_task, blockedSubmissions, ReplyBlockedIDs. hold. Qed.

Lemma hold_task_holds o ids : holds o o (hold_task ids).
Proof. unfold hold_task, SubmissionIDsByMessageIDs, ListHeldIDs, ExpirePendingForSubmissions. hold. Qed.

Lemma retention_task_holds o : holds o o (retention_task svc).
Proof. unfold retention_task, prune_task, ExpirePending, Outbox_Prune. hold. Qed.

(** The digest is the one mail sent without a claim. *)
Definition Digested (w0 w : World) : Prop :=
  w_dispatching w = w_dispatching w0 ∧ w_jobs w = w_jobs w0 ∧ db_outbox (w_db w) = db_outbox (w_db w0) ∧
  (w_tick w0 ≤ w_tick w)%nat ∧ ∃ sent, w_sent w = w_sent w0 ++ sent ∧ Forall is_digest sent.

Lemma digested_still {A} w0 (m : M A) : still m → preserves (Digested w0) m.
Proof.
  intros Hm w (Hd & Hj & Ho & Ht & Hs).
  destruct (Hm (mem w) _ (w_tick w) w (conj eq_refl (conj eq_refl (le_n _)))) as (Hx & Ho' & Hn).
  unfold mem in Hx. injection Hx as Hd' Hj' _ Hs'. unfold Digested. rewrite Hd', Hj', Ho', Hs'.
  split_and!; [done..|lia|done].
Qed.

Lemma digested_send w0 r : is_digest (r, "") → preserves (Digested w0) (SendThreadedReply r).
Proof.
  intros Hr w (Hd & Hj & Ho & Ht & sent & Hs & Hf). unfold SendThreadedReply.
  destruct (env_send _ _) as [id|e]; cbn; (split_and!; [done..|cbn; lia|]).
  - exists (sent ++ [(r, id)]). rewrite Hs, app_assoc. split; [done|]. apply Forall_app. auto.
  - by exists sent.
Qed.

Lemma digest_digested w : Digested w (digest_tick svc w).2.
Proof.
  assert (preserves (Digested w) (digest_tick svc)) as Hd.
  { unfold digest_tick, recoverCheck, SendDigest, ListOpen, list_submissions, CountOpen, FilenameOnlyItems,
      replyWithheld, ListSubmissionIDsByEvent.
    assert (∀ A (f : DB → A), still (query f)) by (intros ? ? ? ? ?; apply still_query).
    assert (still time_Now) by (intros ? ? ?; apply still_now).
    pose proof @digested_still. walk. by apply digested_send. }
  apply Hd. split_and!; [done..|]. exists []. by rewrite app_nil_r.
Qed.

Lemma digest_task_holds o : holds o o (atomic (digest_tick svc)).
Proof.
  apply follows_call. intros w. exists o. split; [|done].
  destruct (digest_digested w) as (? & ? & _ & _ & sent & ? & ?). by eapply cm_digest.
Qed.

Lemma task_of_holds e : holds None None (task_of svc e).
Proof.
  destruct e; cbn [task_of].
  - apply ends_log_err, (ingest_task_ends svc claim_move), queue_task_holds.
  - apply worker_task_holds.
  - apply outbox_task_holds.
  - apply (checks_task_rests svc claim_move).
  - apply digest_task_holds.
  - apply ends_log_err, hold_task_holds.
  - apply retention_task_holds.
  - apply (file_failed_rests claim_move).
Qed.
End tasks.

(** ** The process *)

(** The claims recorded are those of the list, each once. *)
Definition exactly (d : gset string) (l : list string) : Prop := NoDup l ∧ ∀ sid, sid ∈ d ↔ sid ∈ l.

#[export] Instance exactly_proper d : Proper ((≡ₚ) ==> iff) (exactly d).
Proof. intros l l' Hl. unfold exactly. by setoid_rewrite Hl. Qed.

Lemma exactly_claim d l sid : sid ∉ d → exactly d l → exactly ({[sid]} ∪ d) (sid :: l).
Proof.
  intros Hn [Hd He]. split; [constructor; [by rewrite <-He|done]|].
  intros s. rewrite elem_of_cons, <-He. set_solver.
Qed.

Lemma exactly_release d l sid : exactly d (sid :: l) → exactly (d ∖ {[sid]}) l.
Proof.
  intros [[Hn Hd]%NoDup_cons He]. split; [done|]. intros s.
  specialize (He s). rewrite elem_of_cons in He. set_solver.
Qed.

(** The submissions claimed by goroutines and by queued jobs. *)
Definition claims (owners : list owner) (w : World) : list string :=
  omap id owners ++ map job_submissionID (w_jobs w).

Definition accounted (owners : list owner) (w : World) : Prop :=
  exactly (w_dispatching w) (claims owners w).

Lemma claims_at l1 o l2 w :
  claims (l1 ++ o :: l2) w ≡ₚ option_list o ++ (omap id l1 ++ omap id l2) ++ map job_submissionID (w_jobs w).
Proof.
  unfold claims. rewrite omap_app. cbn [omap list_omap id]. destruct o as [sid|]; cbn; [|done].
  rewrite <-!app_assoc. cbn. by rewrite <-Permutation_middle.
Qed.

Lemma claim_move_accounted l1 o o' l2 w w' :
  claim_move o o' w w' → accounted (l1 ++ o :: l2) w → accounted (l1 ++ o' :: l2) w'.
Proof.
  unfold accounted. rewrite !claims_at. generalize (omap id l1 ++ omap id l2). intros l.
  destruct 1 as [o w w' Hm|o w w' sent Hd Hj|sid w w' r id Hd Hj|sid w w' Hn Hd Hj|sid w w' Hd Hj|
    job w w' Hd Hj|job w w' Hd Hj].
  - unfold mem in Hm. injection Hm as Hd Hj _ _. by rewrite Hd, Hj.
  - by rewrite Hd, Hj.
  - by rewrite Hd, Hj.
  - rewrite Hd, Hj. by apply exactly_claim.
  - rewrite Hd, Hj. by apply exactly_release.
  - rewrite Hd, Hj, map_app. cbn. by rewrite app_assoc, <-Permutation_cons_append.
  - rewrite Hd, Hj. cbn. by rewrite <-Permutation_middle.
Qed.

Section process.
Context {L : GoLib} {E : Env} (svc : Service).
Notation step := (step (task_of svc)).

(** [owners] says who has claimed what: each goroutine one submission at most, each
    queued job its own, no submission twice, and what is recorded is what is owned. *)
Definition owned (owners : list owner) (p : system) : Prop :=
  Forall2 (λ o t, holds o None t) owners (sy_tasks p) ∧ accounted owners (sy_world p).

(** The mail a step sends: digests, or a reply of the goroutine that moved, which owns a claim. *)
Definition sent_under (owners : list owner) (p p' : system) : Prop :=
  ∃ sent, w_sent (sy_world p') = w_sent (sy_world p) ++ sent ∧
    (Forall is_digest sent ∨
     ∃ i t sid, sy_tasks p' = <[ i := t ]> (sy_tasks p) ∧ owners !! i = Some (Some sid)).

Lemma claim_move_sent o o' w w' :
  claim_move o o' w w' →
  ∃ sent, w_sent w' = w_sent w ++ sent ∧ (Forall is_digest sent ∨ ∃ sid, o = Some sid).
Proof.
  destruct 1 as [o w w' Hm|o w w' sent Hd Hj Hs|sid w w' r id Hd Hj Hs|sid w w' Hn Hd Hj Hs|sid w w' Hd Hj Hs|
    job w w' Hd Hj Hs|job w w' Hd Hj Hs]; eauto;
    try (exists []; rewrite app_nil_r; by auto).
  unfold mem in Hm. injection Hm as _ _ _ Hs. exists []. rewrite app_nil_r. auto.
Qed.

Lemma owned_step owners p p' :
  owned owners p → step p p' → sent_under owners p p' ∧ ∃ owners', owned owners' p'.
Proof.
  intros [Ht Ha] Hs. destruct Hs as [ts w e|ts w i m t w' Hi Hm|ts w]; cbn in *.
  - split; [exists []; rewrite app_nil_r; by auto|]. exists (owners ++ [None]). split.
    + apply Forall2_app; [done|]. constructor; [apply task_of_holds|constructor].
    + unfold accounted, claims. by rewrite omap_app, app_nil_r.
  - destruct (Forall2_lookup_r _ _ _ _ _ Ht Hi) as (o & Ho & Hend).
    destruct (follows_step_inv _ _ _ _ _ _ _ Hend Hm) as (o1 & Hmove & Hend1). split.
    + destruct (claim_move_sent _ _ _ _ Hmove) as (sent & Hs & [Hd|[sid ->]]); exists sent; split; eauto 6.
    + exists (<[ i := o1 ]> owners). split; [by apply Forall2_insert|].
      rewrite (insert_take_drop owners i o1) by (by eapply lookup_lt_Some).
      eapply claim_move_accounted; [done|]. by rewrite take_drop_middle.
  - split; [exists []; rewrite app_nil_r; by auto|]. exists []. split; [constructor|].
    split; [constructor|]. set_solver.
Qed.

Lemma owned_reachable p : rtc step (mkSystem [] empty_world) p → ∃ owners, owned owners p.
Proof.
  assert (owned [] (mkSystem [] empty_world)) as H0.
  { split; [constructor|]. split; [constructor|]. set_solver. }
  revert H0. generalize (mkSystem [] empty_world) ([] : list owner). intros p0 owners0 H0 Hp. revert owners0 H0.
  induction Hp as [|p1 p2 p3 Hs _ IH]; intros owners Ho; [eauto|].
  destruct (owned_step _ _ _ Ho Hs) as (_ & owners' & Ho'). by eapply IH.
Qed.

Definition finished (t : task unit) : bool := match t with TRet _ => true | TStep _ => false end.

(** A goroutine that has returned owns nothing. *)
Lemma owned_finished owners ts :
  Forall2 (λ o t, holds o None t) owners ts → forallb finished ts = true → omap id owners = [].
Proof.
  induction 1 as [|o t owners ts Ht _ IH]; [done|]. cbn. intros [Hf Hts]%andb_prop.
  destruct t as [r|]; [|done]. cbn in Ht. subst o. by apply IH.
Qed.
End process.

(** C9: under every interleaving of the service's goroutines, with any failures and
    crashes: no two queued jobs are of one submission, and each is recorded as being
    dispatched; when every goroutine has returned and the queue is empty no claim is left;
    and at any time there is an assignment of claims to the goroutines such that the
    submissions recorded are exactly those claimed by a goroutine or a queued job, none
    twice, and a step that sends anything but digests is a step of a goroutine that owns
    a claim. *)
Theorem claims_exclusive (L : GoLib) (E : Env) (svc : Service) (p : system) :
  rtc (step (task_of svc)) (mkSystem [] empty_world) p →
  NoDup (map job_submissionID (w_jobs (sy_world p))) ∧
  (∀ sid, sid ∈ map job_submissionID (w_jobs (sy_world p)) → sid ∈ w_dispatching (sy_world p)) ∧
  (forallb finished (sy_tasks p) = true → w_jobs (sy_world p) = [] → w_dispatching (sy_world p) = ∅) ∧
  ∃ owners, owned owners p ∧ ∀ p', step (task_of svc) p p' → sent_under owners p p'.
Proof.
  intros Hp. destruct (owned_reachable svc p Hp) as (owners & Ho). pose proof Ho as [Ht [Hd He]].
  split_and!.
  - by apply NoDup_app in Hd as (_ & _ & ?).
  - intros sid Hj. apply He, elem_of_app. by right.
  - intros Hf Hj. apply set_eq. intros sid. rewrite He. unfold claims.
    rewrite (owned_finished _ _ Ht Hf), Hj. set_solver.
  - exists owners. split; [done|]. intros p' Hs. by eapply owned_step.
Qed.

(** The first submission's reply is queued, a sweep finds it claimed, a worker takes it. *)
Definition claims_schedule : list (choice (Ev := event)) :=
  CStart (EvIngest first_mail) :: replicate 40 (CTask 0) ++ [CStart EvOutboxSweep; CTask 1; CTask 1].
Definition claims_system : system :=
  play (task_of (L := demo_lib) (E := demo_env) demo_service) claims_schedule (mkSystem [] empty_world).

Lemma claims_system_jobs : map job_submissionID (w_jobs (sy_world claims_system)) = ["id-2"].
Proof. vm_compute. reflexivity. Qed.

Lemma claims_exclusive_witness :
  map job_submissionID (w_jobs (sy_world claims_system)) = ["id-2"] ∧
  "id-2" ∈ w_dispatching (sy_world claims_system).
Proof.
  split; [apply claims_system_jobs|].
  destruct (claims_exclusive demo_lib demo_env demo_service claims_system) as (_ & Hj & _).
  - apply play_steps.
  - apply Hj. rewrite claims_system_jobs. by left.
Defined.
