(* ===== verification/Dispatch.v ===== *)
(** Concurrent dispatch of replies: the dispatch claims and the outbox under every
    interleaving of ingests, online workers and sweeps.

    [World] runs one call at a time.  Here each goroutine of
    [internal/service/submissions.go] that handles a reply is a program counter ([pc])
    and the statements between which another goroutine may run are the steps
    ([pc_step]): the claim of [dispatching], the statements on the outbox, the
    exchange with the mail server.  A row listed by a sweep is a goroutine of its own,
    which allows more interleavings than the sweep's loop does.  [arrive] starts an
    ingest or lists a row, [background] is what else writes, [step_crash] ends the
    process and starts it again on the same database.

    Nothing is assumed of the clock: a write of the outbox may see any time, the same one
    twice or an earlier one.  An id is issued once ([sh_owner]).  [sh_sent] records what
    the mail server took, also when its answer was lost (to an attempt after which the
    sender retried, or to its last one); [sh_unmarked] the texts it took
    whose answer was lost or whose [MarkSent] failed or was cut off by a crash.  The
    texts are told apart by their position in [hi_texts], since the row's id and
    [updated_at], which is all the program has, need not be unique. *)
From Stdlib Require Import ZArith.
From stdpp Require Import base list strings gmap relations.
From S2P Require Import Prelude GoStrings GoValues Submission Checklist Tables World Repository OutboxRepo.

Open Scope Z_scope.

(** A version of an outbox row: its id and [updated_at]. *)
Notation version := (string * Z)%type.

(** What was written to the outbox.  The program keeps none of this. *)
Record History : Type := mkHistory {
  hi_texts : list (string * Reply);     (** every text queued, with its row *)
  hi_current : gmap string nat;         (** the text each row holds *)
  hi_stamps : list (version * nat);     (** the versions given to a pending row, with the text it held *)
  hi_carried : gmap string nat }.       (** the text the owner of each claim is handling *)

Record Shared : Type := mkShared {
  sh_db : DB;
  sh_held : gset string;
  sh_sent : list (nat * Reply);
  sh_owner : gmap string string;
  sh_unmarked : list nat;
  sh_history : History }.

Notation sh_outbox sh := (db_outbox (sh_db sh)).
Notation sh_texts sh := (hi_texts (sh_history sh)).
Notation sh_current sh := (hi_current (sh_history sh)).
Notation sh_stamps sh := (hi_stamps (sh_history sh)).
Notation sh_carried sh := (hi_carried (sh_history sh)).

(** A text is queued in row [id] with stamp [at_], by the owner of [sid]'s claim or not. *)
Definition hi_queue (owns : bool) (sid id : string) (at_ : Z) (reply : Reply) (h : History) : History :=
  let n := length h.(hi_texts) in
  mkHistory (h.(hi_texts) ++ [(id, reply)]) (<[id:=n]> h.(hi_current)) (h.(hi_stamps) ++ [((id, at_), n)])
    (if owns then <[sid:=n]> h.(hi_carried) else h.(hi_carried)).
(** Row [id] is given a stamp with the text it holds. *)
Definition hi_restamp (id : string) (at_ : Z) (h : History) : History :=
  mkHistory h.(hi_texts) h.(hi_current)
    (h.(hi_stamps) ++ ((λ n, ((id, at_), n)) <$> option_list (h.(hi_current) !! id))) h.(hi_carried).
(** The owner of [sid]'s claim takes up the text of row [id]. *)
Definition hi_take (sid id : string) (h : History) : History :=
  mkHistory h.(hi_texts) h.(hi_current) h.(hi_stamps)
    (match h.(hi_current) !! id with Some n => <[sid:=n]> h.(hi_carried) | None => h.(hi_carried) end).

Definition sh_write (d : DB) (sh : Shared) : Shared :=
  mkShared d sh.(sh_held) sh.(sh_sent) sh.(sh_owner) sh.(sh_unmarked) sh.(sh_history).
Definition sh_note (f : History → History) (sh : Shared) : Shared :=
  mkShared sh.(sh_db) sh.(sh_held) sh.(sh_sent) sh.(sh_owner) sh.(sh_unmarked) (f sh.(sh_history)).
Definition sh_claim (sid : string) (sh : Shared) : Shared :=
  mkShared sh.(sh_db) ({[sid]} ∪ sh.(sh_held)) sh.(sh_sent) sh.(sh_owner) sh.(sh_unmarked) sh.(sh_history).
Definition sh_release (sid : string) (sh : Shared) : Shared :=
  mkShared sh.(sh_db) (sh.(sh_held) ∖ {[sid]}) sh.(sh_sent) sh.(sh_owner) sh.(sh_unmarked) sh.(sh_history).
(** The server takes the text [sid]'s owner is handling. *)
Definition sh_accept (sid : string) (reply : Reply) (sh : Shared) : Shared :=
  mkShared sh.(sh_db) sh.(sh_held) (sh.(sh_sent) ++ [(sh_carried sh !!! sid, reply)]) sh.(sh_owner)
    sh.(sh_unmarked) sh.(sh_history).
Definition sh_issue (id sid : string) (sh : Shared) : Shared :=
  mkShared sh.(sh_db) sh.(sh_held) sh.(sh_sent) (<[id:=sid]> sh.(sh_owner)) sh.(sh_unmarked) sh.(sh_history).
(** The texts these owners are handling will not be marked. *)
Definition sh_forget (sids : list string) (sh : Shared) : Shared :=
  mkShared sh.(sh_db) sh.(sh_held) sh.(sh_sent) sh.(sh_owner)
    (map (λ sid, sh_carried sh !!! sid) sids ++ sh.(sh_unmarked)) sh.(sh_history).

(** Where a goroutine that handles a reply is. *)
Inductive pc : Type :=
| Committing (claimed : bool) (e : OutboxEntry)   (** before [UpsertSubmissionWithReply] *)
| Committed (job : replyJob)                      (** before [enqueueReply] *)
| Queued (job : replyJob)                         (** in [replyJobs], or with a worker *)
| OnlineSent (job : replyJob)                     (** accepted, before [MarkSent] *)
| Listed (row : OutboxEntry)                      (** a row of [ListPending] *)
| Claimed (row : OutboxEntry)                     (** before [GetPending] *)
| Fresh (sid : string) (row : OutboxEntry)        (** re-read, before [deliver] *)
| SweptSent (sid : string) (row : OutboxEntry)    (** accepted, before [MarkSent] *)
| Refused (sid : string) (row : OutboxEntry) (err : error)  (** before [Outbox.Update] *)
| Releasing (sid : string)                        (** before [releaseDispatch] *)
| Done.

(** The claim a goroutine owns. *)
Definition claim_of (p : pc) : option string :=
  match p with
  | Committing true e => Some e.(oe_SubmissionID)
  | Committed job | Queued job | OnlineSent job => Some job.(job_submissionID)
  | Claimed row => Some row.(oe_SubmissionID)
  | Fresh sid _ | SweptSent sid _ | Refused sid _ _ | Releasing sid => Some sid
  | Committing false _ | Listed _ | Done => None
  end.

Definition job_key (job : replyJob) : version := (job.(job_outboxID), UnixNano job.(job_version)).
Definition entry_key (row : OutboxEntry) : version := (row.(oe_ID), UnixNano row.(oe_UpdatedAt)).
Definition row_key (r : outbox_row) : version := (r.(or_id), r.(or_updated_at)).

(** Whose text was accepted by the server and is not marked yet. *)
Definition unsettled (p : pc) : option string :=
  match p with
  | OnlineSent job => Some job.(job_submissionID)
  | SweptSent sid _ => Some sid
  | _ => None
  end.

Section steps.
Context (maxAttempts : Z).

Definition committed_entry (now : time) (e : OutboxEntry) : OutboxEntry :=
  oe_with_row e.(oe_ID) (if IsZero e.(oe_CreatedAt) then now else e.(oe_CreatedAt)) now e.

Definition mark_db (k : version) (now : time) (d : DB) : DB :=
  db_with_outbox (mark_sent k.1 k.2 (UnixNano now) d.(db_outbox)) d.

(** [IngestEmail] after its claim.  The transaction's other tables are those of [d1]. *)
Inductive ingest_step (sh : Shared) : pc → Shared → pc → Prop :=
| commit_ok claimed e now d1 id d2 :
    d1.(db_outbox) = sh_outbox sh →
    upsert_outbox (outbox_values (committed_entry now e)) d1 = Ok (id, d2) →
    ingest_step sh (Committing claimed e)
      (sh_note (hi_queue claimed e.(oe_SubmissionID) id (UnixNano now) e.(oe_Reply)) (sh_write d2 sh))
      (if claimed then Committed (mkReplyJob e.(oe_Reply) e.(oe_SubmissionID) id now) else Done)
| commit_fails claimed e :
    ingest_step sh (Committing claimed e) sh (if claimed then Releasing e.(oe_SubmissionID) else Done)
| enqueue_ok job : ingest_step sh (Committed job) sh (Queued job)
(** not due yet, shutting down, or the queue is full *)
| enqueue_not job : ingest_step sh (Committed job) sh (Releasing job.(job_submissionID)).

(** [dispatchOnline]. *)
Inductive online_step (sh : Shared) : pc → Shared → pc → Prop :=
| online_accepted job :
    online_step sh (Queued job) (sh_accept job.(job_submissionID) job.(job_reply) sh) (OnlineSent job)
| online_refused job : online_step sh (Queued job) sh (Releasing job.(job_submissionID))
(** the server took the reply and its answer was lost: the sender tries again, or fails *)
| online_lost job :
    online_step sh (Queued job)
      (sh_forget [job.(job_submissionID)] (sh_accept job.(job_submissionID) job.(job_reply) sh)) (Queued job)
| online_marks job now :
    online_step sh (OnlineSent job) (sh_write (mark_db (job_key job) now sh.(sh_db)) sh)
      (Releasing job.(job_submissionID))
| online_mark_fails job :
    online_step sh (OnlineSent job) (sh_forget [job.(job_submissionID)] sh) (Releasing job.(job_submissionID)).

(** A row in the loop of [RedeliverOutbox], then [redeliverOne]. *)
Inductive sweep_step (sh : Shared) : pc → Shared → pc → Prop :=
| sweep_skips row : sweep_step sh (Listed row) sh Done
| sweep_claims row :
    row.(oe_SubmissionID) ∉ sh.(sh_held) →
    sweep_step sh (Listed row) (sh_claim row.(oe_SubmissionID) sh) (Claimed row)
| sweep_rereads row r reply :
    List.find (λ r, bool_decide (r.(or_id) = row.(oe_ID)) && is_pending r) (sh_outbox sh) = Some r →
    r.(or_reply) = Some reply →
    sweep_step sh (Claimed row) (sh_note (hi_take row.(oe_SubmissionID) r.(or_id)) sh)
      (Fresh row.(oe_SubmissionID) (entry_of_row r reply))
(** settled since, undecodable, or the query failed *)
| sweep_gives_up row : sweep_step sh (Claimed row) sh (Releasing row.(oe_SubmissionID))
| sweep_accepted sid row :
    sweep_step sh (Fresh sid row) (sh_accept sid row.(oe_Reply) sh) (SweptSent sid row)
| sweep_refused sid row err : sweep_step sh (Fresh sid row) sh (Refused sid row err)
(** taken, with the answer lost *)
| sweep_lost sid row :
    sweep_step sh (Fresh sid row) (sh_forget [sid] (sh_accept sid row.(oe_Reply) sh)) (Fresh sid row)
| sweep_marks sid row now :
    sweep_step sh (SweptSent sid row) (sh_write (mark_db (entry_key row) now sh.(sh_db)) sh)
      (Releasing sid)
| sweep_mark_fails sid row :
    sweep_step sh (SweptSent sid row) (sh_forget [sid] sh) (Releasing sid)
| sweep_counts sid row err now d2 :
    let attempts := row.(oe_Attempts) + 1 in
    let again := attempts <? maxAttempts in
    update_outbox (λ r, bool_decide (r.(or_id) = row.(oe_ID)))
      (or_settle (if again then OutboxPending else OutboxFailed) attempts
         (error_text err) (UnixNano now)) sh.(sh_db) = Ok (tt, d2) →
    sweep_step sh (Refused sid row err)
      (sh_note (if again then hi_restamp row.(oe_ID) (UnixNano now) else id) (sh_write d2 sh)) (Releasing sid)
| sweep_count_fails sid row err : sweep_step sh (Refused sid row err) sh (Releasing sid).

Inductive pc_step (sh : Shared) : pc → Shared → pc → Prop :=
| by_ingest p sh' p' : ingest_step sh p sh' p' → pc_step sh p sh' p'
| by_online p sh' p' : online_step sh p sh' p' → pc_step sh p sh' p'
| by_sweep p sh' p' : sweep_step sh p sh' p' → pc_step sh p sh' p'
(** the deferred [releaseDispatch] *)
| releases sid : pc_step sh (Releasing sid) (sh_release sid sh) Done.

(** A goroutine that starts handling a reply. *)
Inductive arrive (sh : Shared) : Shared → pc → Prop :=
| ingest_claims e :
    e.(oe_Status) = OutboxPending → sh.(sh_owner) !! e.(oe_ID) = None →
    e.(oe_SubmissionID) ∉ sh.(sh_held) →
    arrive sh (sh_claim e.(oe_SubmissionID) (sh_issue e.(oe_ID) e.(oe_SubmissionID) sh)) (Committing true e)
| ingest_finds_claim e :
    e.(oe_Status) = OutboxPending → sh.(sh_owner) !! e.(oe_ID) = None →
    e.(oe_SubmissionID) ∈ sh.(sh_held) →
    arrive sh (sh_issue e.(oe_ID) e.(oe_SubmissionID) sh) (Committing false e)
| sweep_lists now cutoff r reply :
    r ∈ sh_outbox sh → is_due now cutoff r = true → r.(or_reply) = Some reply →
    arrive sh sh (Listed (entry_of_row r reply)).

(** The other statements that touch the database. *)
Inductive background (sh : Shared) : Shared → Prop :=
| other_tables d : d.(db_outbox) = sh_outbox sh → background sh (sh_write d sh)
(** [ExpirePending], [ExpirePendingForSubmissions] *)
| expires p reason now n d :
    (∀ r, p r = true → is_pending r = true) →
    fail_where p reason now sh.(sh_db) = Ok (n, d) → background sh (sh_write d sh)
(** [ListPending] on an undecodable row *)
| poisons id attempts reason now d :
    update_outbox (λ r, bool_decide (r.(or_id) = id)) (or_settle OutboxFailed attempts reason (UnixNano now))
      sh.(sh_db) = Ok (tt, d) → background sh (sh_write d sh)
| prunes olderThan :
    background sh (sh_write
      (db_with_outbox (delete_where (settled_before olderThan) (sh_outbox sh)) sh.(sh_db)) sh).

Definition config : Type := Shared * list pc.

Inductive thread_step : config → config → Prop :=
| thread_runs sh sh' p p' l1 l2 :
    pc_step sh p sh' p' → thread_step (sh, l1 ++ p :: l2) (sh', l1 ++ p' :: l2).

Inductive step : config → config → Prop :=
| step_thread c c' : thread_step c c' → step c c'
| step_arrive sh sh' p l : arrive sh sh' p → step (sh, l) (sh', p :: l)
| step_background sh sh' l : background sh sh' → step (sh, l) (sh', l)
| step_crash sh l :
    step (sh, l) (sh_forget (omap unsettled l)
      (mkShared sh.(sh_db) ∅ sh.(sh_sent) sh.(sh_owner) sh.(sh_unmarked) sh.(sh_history)), []).

Definition no_history : History := mkHistory [] ∅ [] ∅.

(** A process started on an empty outbox. *)
Definition initial (c : config) : Prop :=
  ∃ d, d.(db_outbox) = [] ∧ c = (mkShared d ∅ [] ∅ [] no_history, []).

Definition reachable (c : config) : Prop := ∃ c0, initial c0 ∧ rtc step c0 c.
End steps.
