(* ===== verification/DispatchProps.v ===== *)
(** What holds under every interleaving of [Dispatch]: one goroutine at a time owns the
    reply of a submission, no queued text is sent twice, no text is marked as sent that
    was not, and every claim is released.

    [evolves] is the interface between goroutines: what a step may do to the shared
    state while another goroutine stands still.  A goroutine relies on it ([pc_ok_frame])
    and every step guarantees it ([pc_step_sound]). *)
From Stdlib Require Import ZArith.
From stdpp Require Import base list strings gmap relations.
From S2P Require Import Prelude GoStrings GoValues Submission Checklist Tables World Repository OutboxRepo Persistence RepositoryProps Dispatch.

Open Scope Z_scope.

(** The text a row holds after the round trip through [reply_json]. *)
Definition stored_as (reply : Reply) (stored : option Reply) : Prop :=
  stored = Some reply ∨ stored = Some (json_reply reply).

(** What is sent of a text: as it was queued, or as it was read back. *)
Definition sent_as (text reply : Reply) : Prop := reply = text ∨ reply = json_reply text.

Lemma sent_as_stored text reply : sent_as text reply → stored_as reply (Some (json_reply text)).
Proof. intros [->| ->]; [by right|by left]. Qed.

Definition is_sent (r : outbox_row) : bool := bool_decide (r.(or_status) = OutboxSent).

(** Row [id] was given one [updated_at] with each of two texts. *)
Definition tied (sh : Shared) (id : string) (m n : nat) : Prop :=
  ∃ v, ((id, v), m) ∈ sh_stamps sh ∧ ((id, v), n) ∈ sh_stamps sh.

(** ** What a goroutine knows of the shared state *)

(** The owner of [sid]'s claim handles text [n] with version [k], which is [reply]. *)
Record carries (sh : Shared) (sid : string) (k : version) (reply : Reply) (n : nat) : Prop := {
  ca_owner : sh.(sh_owner) !! k.1 = Some sid;
  ca_carried : sh_carried sh !! sid = Some n;
  ca_text : ∃ text, sh_texts sh !! n = Some (k.1, text) ∧ sent_as text reply;
  ca_stamp : (k, n) ∈ sh_stamps sh;
  ca_row : ∀ r, r ∈ sh_outbox sh → is_pending r = true → r.(or_id) = k.1 →
             sh_current sh !! k.1 = Some n → row_key r = k }.

Definition unsent (sh : Shared) (n : nat) : Prop := n ∉ sh.(sh_unmarked) → n ∉ sh.(sh_sent).*1.
(** The text row [id] holds is not sent, or its [MarkSent] was lost. *)
Definition fresh_row (sh : Shared) (id : string) : Prop := ∀ n, sh_current sh !! id = Some n → unsent sh n.
Definition undelivered (sh : Shared) (id : string) : Prop :=
  ∀ r, r ∈ sh_outbox sh → r.(or_id) = id → is_sent r = false.

Definition pc_ok (sh : Shared) (p : pc) : Prop :=
  match p with
  | Committing _ e => sh.(sh_owner) !! e.(oe_ID) = Some e.(oe_SubmissionID) ∧ e.(oe_Status) = OutboxPending
  | Committed job | Queued job =>
      ∃ n, carries sh job.(job_submissionID) (job_key job) job.(job_reply) n ∧ unsent sh n
  | OnlineSent job =>
      ∃ n, carries sh job.(job_submissionID) (job_key job) job.(job_reply) n ∧ n ∈ sh.(sh_sent).*1
  | Listed row | Claimed row => sh.(sh_owner) !! row.(oe_ID) = Some row.(oe_SubmissionID)
  | Fresh sid row =>
      ∃ n, carries sh sid (entry_key row) row.(oe_Reply) n ∧ unsent sh n ∧
           fresh_row sh row.(oe_ID) ∧ undelivered sh row.(oe_ID)
  | SweptSent sid row =>
      ∃ n, carries sh sid (entry_key row) row.(oe_Reply) n ∧ n ∈ sh.(sh_sent).*1
  | Refused sid row _ =>
      sh.(sh_owner) !! row.(oe_ID) = Some sid ∧ fresh_row sh row.(oe_ID) ∧ undelivered sh row.(oe_ID)
  | Releasing _ | Done => True
  end.

(** Row [r] holds text [n]. *)
Record holds (sh : Shared) (r : outbox_row) (n : nat) : Prop := {
  ho_current : sh_current sh !! r.(or_id) = Some n;
  ho_text : ∃ text, sh_texts sh !! n = Some (r.(or_id), text) ∧ r.(or_reply) = Some (json_reply text);
  ho_stamp : is_pending r = true → (row_key r, n) ∈ sh_stamps sh;
  ho_sent : is_sent r = true → ∃ m, m ∈ sh.(sh_sent).*1 ∧ tied sh r.(or_id) m n }.

Record row_ok (sh : Shared) (r : outbox_row) : Prop := {
  ro_owner : sh.(sh_owner) !! r.(or_id) = Some r.(or_submission_id);
  ro_fits : fits64 r.(or_updated_at);
  ro_holds : ∃ n, holds sh r n }.

Record rows_ok (sh : Shared) : Prop := {
  rk_ids : NoDup (map or_id (sh_outbox sh));
  rk_pending : NoDup (pending_subs (sh_outbox sh));
  rk_rows : ∀ r, r ∈ sh_outbox sh → row_ok sh r;
  rk_current : ∀ id n, sh_current sh !! id = Some n → ∃ text, sh_texts sh !! n = Some (id, text);
  rk_stamps : ∀ id v n, ((id, v), n) ∈ sh_stamps sh → ∃ text, sh_texts sh !! n = Some (id, text);
  rk_sent : ∀ n reply, (n, reply) ∈ sh.(sh_sent) → ∃ id text, sh_texts sh !! n = Some (id, text) ∧ sent_as text reply }.

Lemma sent_text sh n : rows_ok sh → n ∈ sh.(sh_sent).*1 → (n < length (sh_texts sh))%nat.
Proof.
  intros Hrows ([n' reply] & -> & Hin)%list_elem_of_fmap. destruct (rk_sent _ Hrows _ _ Hin) as (id & text & Ht & _).
  by eapply lookup_lt_Some.
Qed.

(** ** What a step may do, as seen by the goroutines that do not own [who] *)
Record evolves (who : option string) (sh sh' : Shared) : Prop := {
  ev_owner : sh.(sh_owner) ⊆ sh'.(sh_owner);
  ev_texts : sh_texts sh `prefix_of` sh_texts sh';
  ev_stamps : sh_stamps sh ⊆ sh_stamps sh';
  ev_unmarked : sh.(sh_unmarked) ⊆ sh'.(sh_unmarked);
  ev_kept : sh.(sh_sent) ⊆ sh'.(sh_sent);
  ev_carried : ∀ s, who ≠ Some s → sh_carried sh' !! s = sh_carried sh !! s;
  ev_current : ∀ id n, sh_current sh' !! id = Some n →
    sh_current sh !! id = Some n ∨ (length (sh_texts sh) ≤ n)%nat;
  ev_sent : ∀ n, n ∈ sh'.(sh_sent).*1 → n ∈ sh.(sh_sent).*1 ∨
    ∃ s id text, who = Some s ∧ sh_texts sh' !! n = Some (id, text) ∧ sh'.(sh_owner) !! id = Some s;
  ev_pending : ∀ r, r ∈ sh_outbox sh' → is_pending r = true →
    r ∈ sh_outbox sh ∨ (∃ n, sh_current sh' !! r.(or_id) = Some n ∧ (length (sh_texts sh) ≤ n)%nat) ∨
    fresh_row sh r.(or_id) ∧ ∃ s, who = Some s ∧ sh'.(sh_owner) !! r.(or_id) = Some s;
  ev_settled : ∀ r, r ∈ sh_outbox sh' → is_sent r = true →
    (∃ r0, r0 ∈ sh_outbox sh ∧ r0.(or_id) = r.(or_id) ∧ is_sent r0 = true) ∨
    ∃ s, who = Some s ∧ sh'.(sh_owner) !! r.(or_id) = Some s }.

Definition guarantee (who : option string) (sh sh' : Shared) : Prop := evolves who sh sh' ∧ rows_ok sh'.

Section frame.
Context (who : option string) (sh sh' : Shared).
Hypothesis Hev : evolves who sh sh'.
Hypothesis Hrows : rows_ok sh.
Hypothesis Hrows' : rows_ok sh'.

Lemma owner_frame id s : sh.(sh_owner) !! id = Some s → sh'.(sh_owner) !! id = Some s.
Proof. intros Ho. by eapply lookup_weaken, Hev. Qed.

Lemma carries_frame sid k reply n :
  who ≠ Some sid → carries sh sid k reply n → carries sh' sid k reply n.
Proof.
  intros Hne [Ho Hc (text & Ht & Has) Hs Hr]. split.
  - by apply owner_frame.
  - by rewrite (ev_carried _ _ _ Hev).
  - exists text. split; [|done]. by eapply prefix_lookup_Some, Hev.
  - by apply (ev_stamps _ _ _ Hev).
  - intros r Hin Hp Hid Hcur. apply lookup_lt_Some in Ht.
    destruct (ev_current _ _ _ Hev _ _ Hcur) as [Hcur0|?]; [|lia].
    destruct (ev_pending _ _ _ Hev r Hin Hp) as [Hold|[(n' & Hn' & ?)|(_ & s & Hw & Hs')]].
    + by apply Hr.
    + rewrite Hid in Hn'. assert (n' = n) by congruence. lia.
    + apply owner_frame in Ho. congruence.
Qed.

Lemma unsent_frame sid id text n :
  sh_texts sh' !! n = Some (id, text) → sh'.(sh_owner) !! id = Some sid → who ≠ Some sid →
  unsent sh n → unsent sh' n.
Proof.
  intros Ht Ho Hne Hun Hk Hin.
  destruct (ev_sent _ _ _ Hev n Hin) as [Hold|(s & id' & text' & Hw & Ht' & Hs)]; [|congruence].
  apply Hun; [|done]. intros Hm. by apply Hk, (ev_unmarked _ _ _ Hev).
Qed.

Lemma carried_unsent_frame sid k reply n :
  who ≠ Some sid → carries sh sid k reply n → unsent sh n → unsent sh' n.
Proof.
  intros Hne Hc. destruct (carries_frame _ _ _ _ Hne Hc) as [Ho _ (text & Ht & _) _ _]. by eapply unsent_frame.
Qed.

Lemma fresh_row_frame sid id :
  sh.(sh_owner) !! id = Some sid → who ≠ Some sid → fresh_row sh id → fresh_row sh' id.
Proof.
  intros Ho%owner_frame Hne Hf n Hcur. destruct (rk_current _ Hrows' _ _ Hcur) as (text & Ht).
  eapply unsent_frame; [done..|]. destruct (ev_current _ _ _ Hev _ _ Hcur) as [Hcur0|Hn]; [by apply Hf|].
  intros _ Hin%sent_text; [lia|done].
Qed.

Lemma undelivered_frame sid id :
  sh.(sh_owner) !! id = Some sid → who ≠ Some sid → undelivered sh id → undelivered sh' id.
Proof.
  intros Ho%owner_frame Hne Hun r Hr Hid. destruct (is_sent r) eqn:Hs; [|done].
  destruct (ev_settled _ _ _ Hev r Hr Hs) as [(r0 & Hr0 & Hid0 & Hs0)|(s & Hw & Hs')]; [|congruence].
  rewrite <- Hs0. apply Hun; congruence.
Qed.

Lemma sent_frame n : n ∈ sh.(sh_sent).*1 → n ∈ sh'.(sh_sent).*1.
Proof. intros (x & -> & Hx)%list_elem_of_fmap. by apply list_elem_of_fmap_2, (ev_kept _ _ _ Hev). Qed.

#[local] Hint Resolve owner_frame carries_frame carried_unsent_frame sent_frame : dispatch.

(** A goroutine's knowledge survives the steps of the others. *)
Lemma pc_ok_frame p :
  (∀ s, claim_of p = Some s → who ≠ Some s) → pc_ok sh p → pc_ok sh' p.
Proof.
  intros Hwho. destruct p; cbn in *; try (intros [n H]; exists n); try intros H;
    destruct_and?; split_and?; eauto with dispatch.
  all: first [eapply fresh_row_frame|eapply undelivered_frame]; [|by apply Hwho|done];
    first [done|by eapply (ca_owner sh _ (entry_key _))].
Qed.
End frame.

(** ** The guarantee of each write *)

Lemma tied_mono sh sh' id m n : sh_stamps sh ⊆ sh_stamps sh' → tied sh id m n → tied sh' id m n.
Proof. intros Hs (v & H1 & H2). exists v. eauto. Qed.

Lemma row_ok_mono who sh sh' r :
  evolves who sh sh' → sh_current sh' !! r.(or_id) = sh_current sh !! r.(or_id) → row_ok sh r → row_ok sh' r.
Proof.
  intros Hev Hcur [H1 H2 [n [Hc (text & Ht & Hrep) Hst Hse]]]. split; [by eapply owner_frame|done|].
  exists n. split; [by rewrite Hcur| |by intros Hp%Hst; apply (ev_stamps _ _ _ Hev)|].
  - exists text. split; [|done]. by eapply prefix_lookup_Some, Hev.
  - intros (m & Hin & Htie)%Hse. exists m.
    split; [by eapply sent_frame|by eapply tied_mono, Htie; apply Hev].
Qed.

(** Steps that leave the outbox and what was written to it alone. *)
Lemma same_outbox_guarantee who sh sh' :
  sh_outbox sh' = sh_outbox sh → sh_texts sh' = sh_texts sh → sh_current sh' = sh_current sh →
  sh_stamps sh' = sh_stamps sh → rows_ok sh →
  sh.(sh_owner) ⊆ sh'.(sh_owner) → sh.(sh_unmarked) ⊆ sh'.(sh_unmarked) →
  (∀ s, who ≠ Some s → sh_carried sh' !! s = sh_carried sh !! s) →
  (sh'.(sh_sent) = sh.(sh_sent) ∨
   ∃ s id text n reply, who = Some s ∧ sh'.(sh_sent) = sh.(sh_sent) ++ [(n, reply)] ∧
     sh_texts sh !! n = Some (id, text) ∧ sh.(sh_owner) !! id = Some s ∧ sent_as text reply) →
  guarantee who sh sh'.
Proof.
  intros Hout Ht Hcu Hst Hrows Ho Hu Hca Hs.
  assert (evolves who sh sh') as Hev.
  { split; rewrite ?Hout, ?Ht, ?Hcu, ?Hst; eauto 6.
    - destruct Hs as [->|(s & id & text & n & reply & _ & -> & _)]; set_solver.
    - destruct Hs as [->|(s & id & text & n & reply & -> & -> & Hn & Hid & _)]; [by left|].
      intros n'. rewrite fmap_app. intros [?| ->%list_elem_of_singleton]%elem_of_app; [by left|].
      right. exists s, id, text. split_and!; [done..|]. by eapply lookup_weaken. }
  split; [done|]. destruct Hrows as [H1 H2 H3 H4 H5 H6]. split; rewrite ?Hout, ?Ht, ?Hcu, ?Hst; try done.
  - intros r Hr. eapply row_ok_mono; [done|by rewrite Hcu|by apply H3].
  - destruct Hs as [->|(s & id & text & n & reply & _ & -> & Hn & _ & Has)]; [done|].
    intros n' reply' [?|[= -> ->]%list_elem_of_singleton]%elem_of_app; [by apply H6|eauto].
Qed.

Lemma same_state_guarantee who sh : rows_ok sh → guarantee who sh sh.
Proof. intros ?. apply same_outbox_guarantee; eauto. Qed.

(** Steps that change neither the outbox nor the mail sent. *)
Lemma local_guarantee who sh sh' :
  rows_ok sh → sh'.(sh_db) = sh.(sh_db) → sh'.(sh_history) = sh.(sh_history) → sh'.(sh_sent) = sh.(sh_sent) →
  sh.(sh_owner) ⊆ sh'.(sh_owner) → sh.(sh_unmarked) ⊆ sh'.(sh_unmarked) → guarantee who sh sh'.
Proof. intros ? Hd Hh Hs ??. apply same_outbox_guarantee; rewrite ?Hd, ?Hh, ?Hs; auto. Qed.

Lemma carried_total sh sid k reply n : carries sh sid k reply n → sh_carried sh !!! sid = n.
Proof. intros Hc. by apply lookup_total_correct, (ca_carried _ _ _ _ _ Hc). Qed.

(** The server takes the text, its answer arriving or not. *)
Lemma accept_guarantee sid k reply n sids sh :
  rows_ok sh → carries sh sid k reply n →
  guarantee (Some sid) sh (sh_forget sids (sh_accept sid reply sh)).
Proof.
  intros Hrows Hc. pose proof (carried_total _ _ _ _ _ Hc) as Hn. pose proof Hc as [Ho _ (text & Ht & Has) _ _].
  apply same_outbox_guarantee; try done; cbn; [apply list_subseteq_app_r|]; [done|].
  right. exists sid, k.1, text, n, reply. by rewrite Hn.
Qed.

(** An [UPDATE] that gives the rows it touches one status. *)
Lemma update_guarantee who sh d h p f st :
  let sh' := sh_note h (sh_write d sh) in
  rows_ok sh → d.(db_outbox) = update_where p f (sh_outbox sh) → NoDup (pending_subs d.(db_outbox)) →
  sh_texts sh' = sh_texts sh → sh_current sh' = sh_current sh → sh_carried sh' = sh_carried sh →
  sh_stamps sh ⊆ sh_stamps sh' →
  (∀ id v n, ((id, v), n) ∈ sh_stamps sh' → ((id, v), n) ∈ sh_stamps sh ∨ sh_current sh !! id = Some n) →
  (∀ r, or_id (f r) = or_id r ∧ or_submission_id (f r) = or_submission_id r ∧
        or_reply (f r) = or_reply r ∧ fits64 (or_updated_at (f r)) ∧ or_status (f r) = st) →
  (st = OutboxPending → ∀ r, r ∈ sh_outbox sh → p r = true →
     who = Some (or_submission_id r) ∧ fresh_row sh r.(or_id) ∧
     ∀ n, sh_current sh !! r.(or_id) = Some n → (row_key (f r), n) ∈ sh_stamps sh') →
  (st = OutboxSent → ∀ r, r ∈ sh_outbox sh → p r = true →
     who = Some (or_submission_id r) ∧
     ∀ n, sh_current sh !! r.(or_id) = Some n → ∃ m, m ∈ sh.(sh_sent).*1 ∧ tied sh r.(or_id) m n) →
  guarantee who sh sh'.
Proof.
  intros sh' Hrows Hd Hpend Ht Hcu Hca Hst Hst' Hf Hagain Hsent. subst sh'.
  assert (evolves who sh (sh_note h (sh_write d sh))) as Hev.
  { split; rewrite ?Ht, ?Hcu, ?Hca; cbn; rewrite ?Hd; eauto.
    - intros r [?|(r0 & Hr0 & Hp & ->)]%elem_of_update_where Hpe; [by left|right; right].
      destruct (Hf r0) as (-> & _ & _ & _ & Hs). apply bool_decide_eq_true in Hpe. rewrite Hs in Hpe.
      destruct (Hagain Hpe r0 Hr0 Hp) as (-> & Hfr & _). split; [done|]. eexists. split; [done|]. by apply Hrows.
    - intros r [?|(r0 & Hr0 & Hp & ->)]%elem_of_update_where Hse; [by eauto|right].
      destruct (Hf r0) as (-> & _ & _ & _ & Hs). apply bool_decide_eq_true in Hse. rewrite Hs in Hse.
      destruct (Hsent Hse r0 Hr0 Hp) as [-> _]. eexists. split; [done|]. by apply Hrows. }
  split; [done|]. destruct Hrows as [H1 H2 H3 H4 H5 H6]. split; rewrite ?Ht, ?Hcu; try done.
  - cbn. rewrite Hd, update_where_map; [done|]. apply Hf.
  - cbn [sh_db sh_note sh_write]. rewrite Hd. intros r [Hr|(r0 & Hr0 & Hp & ->)]%elem_of_update_where.
    { eapply row_ok_mono; [done|by rewrite Hcu|by apply H3]. }
    destruct (Hf r0) as (Hid & Hsub & Hrep & Hupd & Hs). destruct (H3 r0 Hr0) as [Ho _ [n [Hc Htx _ _]]].
    split; [by rewrite Hid, Hsub|done|]. exists n. split; rewrite ?Hid, ?Hrep, ?Hcu, ?Ht; [done..| |].
    + intros Hpe%bool_decide_eq_true. rewrite Hs in Hpe. by apply (Hagain Hpe r0 Hr0 Hp).
    + intros Hse%bool_decide_eq_true. rewrite Hs in Hse. destruct (Hsent Hse r0 Hr0 Hp) as [_ Hm].
      destruct (Hm n Hc) as (m & Hin & Htie). exists m. split; [done|by eapply tied_mono].
  - intros id v n [Hin|Hin]%Hst'; [by eapply H5|by apply H4].
Qed.

(** Settling rows as sent or failed. *)
Lemma settle_guarantee who sh d p f st :
  rows_ok sh → d.(db_outbox) = update_where p f (sh_outbox sh) → st ≠ OutboxPending →
  (∀ r, or_id (f r) = or_id r ∧ or_submission_id (f r) = or_submission_id r ∧
        or_reply (f r) = or_reply r ∧ fits64 (or_updated_at (f r)) ∧ or_status (f r) = st) →
  (st = OutboxSent → ∀ r, r ∈ sh_outbox sh → p r = true →
     who = Some (or_submission_id r) ∧
     ∀ n, sh_current sh !! r.(or_id) = Some n → ∃ m, m ∈ sh.(sh_sent).*1 ∧ tied sh r.(or_id) m n) →
  guarantee who sh (sh_write d sh).
Proof.
  intros Hrows Hd Hst Hf Hsent. change (sh_write d sh) with (sh_note (λ h, h) (sh_write d sh)).
  eapply (update_guarantee _ _ _ _ p f st); try done; cbn; auto.
  rewrite Hd, pending_subs_settle; [apply pending_subs_filter_NoDup, Hrows|].
  intros r. destruct (Hf r) as (_ & _ & _ & _ & Hs). apply bool_decide_eq_false. congruence.
Qed.

Lemma fits_now now : fits64 (UnixNano now).
Proof. apply wrap64_fits. Qed.

Lemma fail_guarantee who sh id attempts reason now d :
  rows_ok sh →
  update_outbox (λ r, bool_decide (r.(or_id) = id)) (or_settle OutboxFailed attempts reason (UnixNano now)) sh.(sh_db) = Ok (tt, d) →
  guarantee who sh (sh_write d sh).
Proof.
  unfold update_outbox. intros Hrows. case_bool_decide; [|done]. intros [= <-].
  eapply (settle_guarantee _ _ _ _ _ OutboxFailed); try done. intros r. split_and!; try done. apply fits_now.
Qed.

Lemma restamp_guarantee sid sh id attempts reason now d :
  rows_ok sh → sh.(sh_owner) !! id = Some sid → fresh_row sh id →
  update_outbox (λ r, bool_decide (r.(or_id) = id)) (or_settle OutboxPending attempts reason (UnixNano now)) sh.(sh_db) = Ok (tt, d) →
  guarantee (Some sid) sh (sh_note (hi_restamp id (UnixNano now)) (sh_write d sh)).
Proof.
  unfold update_outbox. intros Hrows Ho Hfr. case_bool_decide as Hnd; [|done]. intros [= <-].
  eapply (update_guarantee _ _ _ _ _ _ OutboxPending); try done.
  - cbn. by apply list_subseteq_app_l.
  - cbn. intros id' v n [?|Hin]%elem_of_app; [by left|right]. destruct (sh_current sh !! id) as [m|] eqn:Em; cbn in Hin.
    + apply list_elem_of_singleton in Hin. congruence.
    + by apply elem_of_nil in Hin.
  - intros r. split_and!; try done. apply fits_now.
  - intros _ r Hr Hid%bool_decide_eq_true. cbn. rewrite Hid. split_and!; [|done|].
    + pose proof (ro_owner _ _ (rk_rows _ Hrows r Hr)). congruence.
    + intros n Hn. apply elem_of_app. right. rewrite Hn. unfold row_key. cbn. rewrite Hid. by left.
Qed.

Lemma delete_guarantee who sh p :
  rows_ok sh →
  guarantee who sh (sh_write (db_with_outbox (delete_where p (sh_outbox sh)) sh.(sh_db)) sh).
Proof.
  intros Hrows.
  assert (evolves who sh (sh_write (db_with_outbox (delete_where p (sh_outbox sh)) sh.(sh_db)) sh)) as Hev.
  { split; cbn; eauto 6 using elem_of_delete_where. }
  split; [done|]. destruct Hrows as [H1 H2 H3 H4 H5 H6]. split; try done; cbn.
  - by apply NoDup_map_filter.
  - by apply pending_subs_filter_NoDup.
  - intros r Hr%elem_of_delete_where. eapply row_ok_mono; [done|done|by apply H3].
Qed.

Lemma same_row sh r r' :
  rows_ok sh → r ∈ sh_outbox sh → r' ∈ sh_outbox sh → r'.(or_id) = r.(or_id) → r' = r.
Proof.
  intros Hrows Hr Hr' Hid. pose proof (rk_ids _ Hrows) as Hnd.
  pose proof (find_key_unique or_id _ _ _ Hnd Hr' Hid).
  pose proof (find_key_unique or_id _ _ _ Hnd Hr eq_refl). congruence.
Qed.

(** The statement of [insertOutboxRow]: the rows afterwards and the id returned. *)
Lemma upsert_outbox_rows new d id d' :
  NoDup (map or_id d.(db_outbox)) → NoDup (pending_subs d.(db_outbox)) →
  is_pending new = true → upsert_outbox new d = Ok (id, d') →
  (id = new.(or_id) ∨ ∃ r0, r0 ∈ d.(db_outbox) ∧ r0.(or_id) = id ∧ r0.(or_submission_id) = new.(or_submission_id)) ∧
  ∀ r, r ∈ d'.(db_outbox) → r ∈ d.(db_outbox) ∧ r.(or_id) ≠ id ∨
    is_pending r = true ∧ r.(or_id) = id ∧ r.(or_updated_at) = new.(or_updated_at) ∧
    r.(or_reply) = new.(or_reply) ∧ r.(or_submission_id) = new.(or_submission_id).
Proof.
  unfold upsert_outbox. intros Hids Hnd Hp. rewrite Hp. destruct (List.find _ _) as [old|] eqn:Ef.
  - intros [= <- <-]. apply List.find_some in Ef as Hin. destruct Hin as [Hin%list_elem_of_In Hold].
    pose proof Hold as [Hpo Hso%bool_decide_eq_true]%andb_true_iff. split; [by eauto|]. cbn.
    intros r (r0 & -> & Hr0)%list_elem_of_fmap. destruct (pending_of (or_submission_id new) r0) eqn:Er0.
    + right. assert (r0 = old) as -> by (pose proof (find_pending_unique _ _ _ Hnd Hr0 Er0); congruence).
      cbn. done.
    + left. split; [done|]. intros Hid. pose proof (find_key_unique or_id _ _ _ Hids Hr0 Hid).
      pose proof (find_key_unique or_id _ _ _ Hids Hin eq_refl). congruence.
  - destruct (has_key _ _ _) eqn:Ek; [done|]. destruct (has_submission _ _); [|done]. intros [= <- <-].
    apply has_key_false in Ek. split; [by left|].
    intros r [Hr| ->%list_elem_of_singleton]%elem_of_app; [left|by right].
    split; [done|]. intros Hid. apply Ek. rewrite <-Hid. by apply list_elem_of_fmap_2.
Qed.

Lemma upsert_outbox_keys new d id d' :
  upsert_outbox new d = Ok (id, d') → NoDup (map or_id d.(db_outbox)) → NoDup (pending_subs d.(db_outbox)) →
  NoDup (map or_id d'.(db_outbox)) ∧ NoDup (pending_subs d'.(db_outbox)).
Proof.
  unfold upsert_outbox. destruct (if is_pending new then _ else _) eqn:Ef; intros Hup Hnd Hpe.
  - injection Hup as <- <-. cbn [db_outbox db_with_outbox]. rewrite update_where_map by done.
    split; [done|]. by rewrite pending_subs_update.
  - destruct (has_key _ _ _) eqn:Ek; [done|]. destruct (has_submission _ _); [|done].
    injection Hup as <- <-. cbn. rewrite map_app. apply has_key_false in Ek. split; [by apply NoDup_snoc|].
    unfold pending_subs in *. rewrite List.filter_app, map_app. cbn.
    destruct (is_pending new); cbn; [|by rewrite app_nil_r].
    apply NoDup_snoc; [done|]. by apply find_pending_None.
Qed.

Section commit.
Context (claimed : bool) (e : OutboxEntry) (now : time) (d1 : DB) (id : string) (d2 : DB) (sh : Shared).
Hypothesis Hrows : rows_ok sh.
Hypothesis Hpc : pc_ok sh (Committing claimed e).
Hypothesis Hd : d1.(db_outbox) = sh_outbox sh.
Hypothesis Hup : upsert_outbox (outbox_values (committed_entry now e)) d1 = Ok (id, d2).

Let sid := e.(oe_SubmissionID).
Let n := length (sh_texts sh).
Let sh' := sh_note (hi_queue claimed sid id (UnixNano now) e.(oe_Reply)) (sh_write d2 sh).

Lemma commit_rows :
  sh.(sh_owner) !! id = Some sid ∧
  ∀ r, r ∈ sh_outbox sh' → r ∈ sh_outbox sh ∧ r.(or_id) ≠ id ∨
    is_pending r = true ∧ row_key r = (id, UnixNano now) ∧
    r.(or_reply) = Some (json_reply e.(oe_Reply)) ∧ r.(or_submission_id) = sid.
Proof.
  destruct Hpc as [Ho Hp]. apply upsert_outbox_rows in Hup as Haft;
    [|rewrite Hd; apply Hrows..|by apply bool_decide_eq_true]. destruct Haft as [Hid Haft].
  rewrite Hd in Hid, Haft. split.
  - destruct Hid as [->|(r0 & Hr0 & <- & Hs)]; [done|]. rewrite (ro_owner _ _ (rk_rows _ Hrows r0 Hr0)). by rewrite Hs.
  - intros r Hr. destruct (Haft r Hr) as [?|(H1 & H2 & H3 & H4 & H5)]; [by left|right].
    split_and!; [done| |done..]. unfold row_key. by rewrite H2, H3.
Qed.

Lemma queued_text : sh_texts sh' !! n = Some (id, e.(oe_Reply)).
Proof. apply list_lookup_middle. done. Qed.

Lemma commit_evolves : evolves (claim_of (Committing claimed e)) sh sh'.
Proof.
  destruct commit_rows as [Ho Hr]. split; cbn [sh_owner sh_unmarked sh_sent sh' sh_note sh_write]; auto.
  - by apply prefix_app_r.
  - cbn. by apply list_subseteq_app_l.
  - intros s Hs. cbn. destruct claimed; [|done]. rewrite lookup_insert_ne; [done|]. intros Heq. apply Hs. cbn. by rewrite <-Heq.
  - intros i m. cbn. destruct (decide (i = id)) as [->|Hne]; [|rewrite lookup_insert_ne by done; by left].
    rewrite lookup_insert_eq. intros [= <-]. right. done.
  - intros r Hin Hp. destruct (Hr r Hin) as [[? _]|(_ & [= Hi _] & _)]; [by left|right; left].
    exists n. rewrite Hi. cbn. by rewrite lookup_insert_eq.
  - intros r Hin Hs. destruct (Hr r Hin) as [[? _]|(Hpend & _)]; [by eauto|].
    apply bool_decide_eq_true in Hs, Hpend. congruence.
Qed.

Lemma commit_guarantee : guarantee (claim_of (Committing claimed e)) sh sh'.
Proof.
  split; [exact commit_evolves|]. destruct commit_rows as [Ho Hr].
  assert (∀ m x, sh_texts sh !! m = Some x → sh_texts sh' !! m = Some x) as Hmono.
  { intros m x Hm. by eapply prefix_lookup_Some, commit_evolves. }
  pose proof Hrows as [H1 H2 H3 H4 H5 H6].
  destruct (upsert_outbox_keys _ _ _ _ Hup) as [Hk Hp]; [by rewrite Hd..|]. split; [done|done|..].
  - intros r Hin. destruct (Hr r Hin) as [[Hold Hne]|(Hpend & [= Hi Hu] & Hrep & Hs)].
    + eapply row_ok_mono; [exact commit_evolves| |by apply H3]. cbn. by rewrite lookup_insert_ne.
    + split; [rewrite Hi, Hs; exact Ho|rewrite Hu; apply fits_now|]. exists n. split; rewrite ?Hi.
      * cbn. by rewrite lookup_insert_eq.
      * eexists. split; [exact queued_text|done].
      * intros _. cbn. apply elem_of_app. right. unfold row_key. rewrite Hi, Hu. by left.
      * intros Hsent%bool_decide_eq_true. apply bool_decide_eq_true in Hpend. congruence.
  - intros i m. cbn. destruct (decide (i = id)) as [->|Hne].
    + rewrite lookup_insert_eq. intros [= <-]. eexists. exact queued_text.
    + rewrite lookup_insert_ne by done. intros [text Ht]%H4. eauto.
  - intros i v m [[text Ht]%H5|[= -> -> ->]%list_elem_of_singleton]%elem_of_app; [eauto|].
    eexists. exact queued_text.
  - intros m reply (i & text & Ht & Has)%H6. eauto.
Qed.

Lemma commit_carries : claimed = true →
  carries sh' sid (id, UnixNano now) e.(oe_Reply) n ∧ unsent sh' n.
Proof.
  intros Hcl. destruct commit_rows as [Ho Hr]. split.
  - split; cbn [fst]; [exact Ho|..].
    + cbn. rewrite Hcl. apply lookup_insert_eq.
    + eexists. split; [exact queued_text|by left].
    + cbn. apply elem_of_app. right. by left.
    + intros r Hin Hp Hid _. destruct (Hr r Hin) as [[_ []]|(_ & ? & _)]; done.
  - intros _ Hin. pose proof (sent_text sh n Hrows Hin). unfold n in *. lia.
Qed.
End commit.

Lemma mark_guarantee sid k reply n now sh :
  rows_ok sh → carries sh sid k reply n → n ∈ sh.(sh_sent).*1 →
  guarantee (Some sid) sh (sh_write (mark_db k now sh.(sh_db)) sh) ∧
  ∀ r, r ∈ mark_sent k.1 k.2 (UnixNano now) (sh_outbox sh) → is_pending r = true →
       sh_current sh !! r.(or_id) ≠ Some n.
Proof.
  intros Hrows Hc Hin. pose proof Hc as [Ho _ (text & Ht & _) Hst Hrow]. split.
  - eapply (settle_guarantee _ _ _ _ _ OutboxSent); [done|reflexivity|done| |].
    { intros r. split_and!; try done. apply fits_now. }
    intros _ r Hr. intros [[Hid%bool_decide_eq_true Hp]%andb_true_iff Hv%Z.eqb_eq]%andb_true_iff.
    assert (row_key r = k) as Hk by (destruct k; cbn in *; by subst).
    destruct (rk_rows _ Hrows r Hr) as [Hr' _ [n' [Hcur _ Hstamp _]]]. split; [congruence|].
    intros n'' Hn''. exists n. split; [done|]. exists k.2. rewrite Hid, <-surjective_pairing. split; [done|].
    assert (n'' = n') as -> by congruence. rewrite <-Hk. by apply Hstamp.
  - intros r (r0 & -> & Hr0)%list_elem_of_fmap. destruct (_ && _) eqn:E; [done|]. intros Hp Hcur.
    destruct (rk_current _ Hrows _ _ Hcur) as (text' & Ht'). assert (or_id r0 = k.1) as Hid by congruence.
    rewrite Hid in Hcur. assert (row_key r0 = k) as <- by by apply Hrow.
    cbn in E. by rewrite Hp, bool_decide_true, Z.eqb_refl in E.
Qed.

(** ** Every step of a goroutine keeps its guarantee and its own knowledge *)

(** No other goroutine is about to settle a row of the claimed submission. *)
Definition quiet (sh : Shared) (p : pc) : Prop :=
  unsettled p = None → ∀ r, r ∈ sh_outbox sh → is_pending r = true → claim_of p = Some r.(or_submission_id) →
    fresh_row sh r.(or_id).

Lemma take_guarantee sid id sh : rows_ok sh → guarantee (Some sid) sh (sh_note (hi_take sid id) sh).
Proof.
  intros Hrows. apply same_outbox_guarantee; auto. intros s Hs. cbn. destruct (sh_current sh !! id); [|done].
  rewrite lookup_insert_ne; [done|]. congruence.
Qed.

Lemma rereads_ok sh row r reply :
  rows_ok sh → quiet sh (Claimed row) → pc_ok sh (Claimed row) →
  List.find (λ r, bool_decide (r.(or_id) = row.(oe_ID)) && is_pending r) (sh_outbox sh) = Some r →
  r.(or_reply) = Some reply →
  pc_ok (sh_note (hi_take row.(oe_SubmissionID) r.(or_id)) sh) (Fresh row.(oe_SubmissionID) (entry_of_row r reply)).
Proof.
  intros Hrows Hq Ho [Hr%list_elem_of_In [Hid%bool_decide_eq_true Hp]%andb_true_iff]%List.find_some Hrep.
  destruct (rk_rows _ Hrows r Hr) as [Hro Hrf [n [Hcur (text & Ht & Hrt) Hstamp _]]].
  cbn in Ho. rewrite Hid, Ho in Hro. injection Hro as Hsub.
  assert (entry_key (entry_of_row r reply) = row_key r) as Hk by (unfold entry_key, row_key; f_equal; by apply wrap64_id).
  assert (fresh_row sh (or_id r)) as Hf by (apply (Hq eq_refl r Hr Hp); cbn; congruence).
  exists n. rewrite Hk. split_and!; [split|..]; cbn.
  - by rewrite Hid.
  - rewrite Hcur. apply lookup_insert_eq.
  - exists text. split; [done|]. rewrite Hrep in Hrt. injection Hrt as ->. by right.
  - by apply Hstamp.
  - intros r' Hr' _ Hid' _. by rewrite (same_row sh r r').
  - by apply Hf.
  - done.
  - intros r' Hr' Hid'. rewrite (same_row sh r r') by done. apply bool_decide_eq_false.
    apply bool_decide_eq_true in Hp. congruence.
Qed.

(** The cases of a step. *)
Ltac cases H := destruct H as [? ? ? []|? ? ? []|? ? ? []|]; try lazymatch goal with b : bool |- _ => destruct b end.

Section sound.
Context (maxAttempts : Z).

(** An accepted text is the carrier's still. *)
Lemma accepted_carries sh sid k reply n sids :
  carries sh sid k reply n →
  let sh' := sh_forget sids (sh_accept sid reply sh) in carries sh' sid k reply n ∧ n ∈ sh'.(sh_sent).*1.
Proof.
  intros Hc. split; [by destruct Hc|]. cbn. rewrite fmap_app, elem_of_app, (carried_total _ _ _ _ _ Hc). right. by left.
Qed.

(** A row stays fresh when the answer to its text is lost. *)
Lemma lost_fresh sh sid k reply n id :
  carries sh sid k reply n → fresh_row sh id → fresh_row (sh_forget [sid] (sh_accept sid reply sh)) id.
Proof.
  intros Hc Hf m Hm Hun Hin. cbn in *. rewrite (carried_total _ _ _ _ _ Hc) in *.
  apply not_elem_of_cons in Hun as [Hne Hun]. rewrite fmap_app in Hin.
  apply elem_of_app in Hin as [Hin|Hin%list_elem_of_singleton]; [by apply (Hf m Hm)|done].
Qed.

(** It may be sent once more, being on record as unmarked. *)
Lemma lost_carries sh sid k reply n :
  carries sh sid k reply n →
  let sh' := sh_forget [sid] (sh_accept sid reply sh) in carries sh' sid k reply n ∧ unsent sh' n.
Proof.
  intros Hc. split; [by apply (accepted_carries sh sid k reply n [sid])|]. intros Hun. destruct Hun. cbn.
  rewrite (carried_total _ _ _ _ _ Hc). by left.
Qed.

Lemma pc_step_sound sh p sh' p' :
  rows_ok sh → quiet sh p → pc_ok sh p → pc_step maxAttempts sh p sh' p' →
  guarantee (claim_of p) sh sh' ∧ pc_ok sh' p'.
Proof.
  intros Hrows Hq Hp Hst. cases Hst.
  all: try (split; [apply local_guarantee; first [done|by intros ??; apply elem_of_app; right]|]; cbn in *; tauto).
  - split; [by eapply commit_guarantee|]. cbn. unfold job_key. cbn. eexists. by eapply (commit_carries true).
  - split; [by eapply commit_guarantee|done].
  - destruct Hp as (n & Hc & _). split; [by eapply (accept_guarantee _ _ _ _ [])|].
    exists n. by apply (accepted_carries sh _ _ _ _ []).
  - destruct Hp as (n & Hc & _). split; [by eapply accept_guarantee|]. exists n. by apply lost_carries.
  - destruct Hp as (n & Hc & Hin). split; [|done]. by eapply mark_guarantee.
  - split; [by apply take_guarantee|]. by apply rereads_ok.
  - destruct Hp as (n & Hc & _). split; [by eapply (accept_guarantee _ _ _ _ [])|].
    exists n. by apply (accepted_carries sh _ _ _ _ []).
  - destruct Hp as (n & Hc & _ & Hf & Hu). split; [by apply same_state_guarantee|]. split_and!; [|done..].
    by apply (ca_owner _ _ _ _ _ Hc).
  - destruct Hp as (n & Hc & _ & Hf & Hu). split; [by eapply accept_guarantee|].
    destruct (lost_carries _ _ _ _ _ Hc) as [Hc' Hun]. exists n. split_and!; [exact Hc'|exact Hun| |exact Hu].
    by eapply lost_fresh.
  - destruct Hp as (n & Hc & Hin). split; [|done]. by eapply mark_guarantee.
  - destruct Hp as (Ho & Hf & Hu). split; [|done]. by eapply restamp_guarantee.
  - destruct Hp as (Ho & Hf & Hu). split; [|done]. change (sh_note id (sh_write d2 sh)) with (sh_write d2 sh).
    by eapply fail_guarantee.
Qed.

(** ** What a step of a goroutine does to the claims and to the mail sent *)

Lemma pc_step_claims sh p sh' p' :
  pc_step maxAttempts sh p sh' p' →
  (claim_of p' = claim_of p ∧ sh'.(sh_held) = sh.(sh_held)) ∨
  (∃ s, claim_of p = None ∧ claim_of p' = Some s ∧ s ∉ sh.(sh_held) ∧ sh'.(sh_held) = {[s]} ∪ sh.(sh_held)) ∨
  (∃ s, claim_of p = Some s ∧ claim_of p' = None ∧ sh'.(sh_held) = sh.(sh_held) ∖ {[s]}).
Proof. intros Hst. cases Hst; cbn; eauto 8. Qed.

(** The goroutine's accepted text. *)
Definition settles (sh : Shared) (p : pc) (n : nat) : Prop := ∃ s, unsettled p = Some s ∧ sh_carried sh !! s = Some n.

Lemma pc_step_sends sh p sh' p' :
  pc_ok sh p → pc_step maxAttempts sh p sh' p' →
  sh'.(sh_sent) = sh.(sh_sent) ∨
  ∃ n reply, sh'.(sh_sent) = sh.(sh_sent) ++ [(n, reply)] ∧ unsent sh n ∧
    (settles sh' p' n ∨ n ∈ sh'.(sh_unmarked)).
Proof.
  intros Hp Hst. cases Hst; cbn in *; try (by left); right; destruct Hp as (n & Hc & Hun);
    pose proof (carried_total _ _ _ _ _ Hc) as ->; exists n; eexists; (split; [done|]); (split; [first [exact Hun|exact (proj1 Hun)]|]).
  1, 3: left; eexists; split; [done|exact (ca_carried _ _ _ _ _ Hc)].
  all: right; by left.
Qed.

(** An accepted text is marked, superseded, or on record as unmarked. *)
Lemma pc_step_settles sh p sh' p' n :
  rows_ok sh → pc_ok sh p → pc_step maxAttempts sh p sh' p' → settles sh p n →
  n ∈ sh'.(sh_unmarked) ∨ ∀ r, r ∈ sh_outbox sh' → is_pending r = true → sh_current sh' !! r.(or_id) ≠ Some n.
Proof.
  intros Hrows Hp Hst (s & Hs & Hn). cases Hst; cbn in *; try done; injection Hs as <-; destruct Hp as (m & Hc & Hin);
    assert (m = n) as -> by (pose proof (ca_carried _ _ _ _ _ Hc); congruence).
  1, 3: right; by apply (mark_guarantee _ _ _ _ now _ Hrows Hc Hin).
  all: left; apply elem_of_cons; left; symmetry; by apply lookup_total_correct.
Qed.
End sound.

(** ** The invariant *)

Definition once (sent un : list nat) : Prop := ∀ i j n, sent !! i = Some n → sent !! j = Some n → n ∉ un → i = j.

Record inv (c : config) : Prop := {
  in_claims : NoDup (omap claim_of c.2);
  in_held : ∀ s, s ∈ c.1.(sh_held) ↔ s ∈ omap claim_of c.2;
  in_rows : rows_ok c.1;
  in_pcs : ∀ p, p ∈ c.2 → pc_ok c.1 p;
  in_once : once c.1.(sh_sent).*1 c.1.(sh_unmarked);
  in_settling : ∀ r n, r ∈ sh_outbox c.1 → is_pending r = true → sh_current c.1 !! r.(or_id) = Some n →
              n ∈ c.1.(sh_sent).*1 → n ∉ c.1.(sh_unmarked) → ∃ p, p ∈ c.2 ∧ settles c.1 p n }.

Lemma elem_of_claims s (l : list pc) : s ∈ omap claim_of l ↔ ∃ p, p ∈ l ∧ claim_of p = Some s.
Proof. apply list_elem_of_omap. Qed.

Lemma claims_middle l1 p l2 :
  omap claim_of (l1 ++ p :: l2) ≡ₚ option_list (claim_of p) ++ omap claim_of (l1 ++ l2).
Proof.
  rewrite <- Permutation_middle. cbn. by destruct (claim_of p).
Qed.

(** Two goroutines never own one claim. *)
Lemma claim_unique l1 p l2 q s :
  NoDup (omap claim_of (l1 ++ p :: l2)) → claim_of p = Some s → q ∈ l1 ++ l2 → claim_of q ≠ Some s.
Proof.
  rewrite claims_middle. intros Hnd Hp Hq Hs. rewrite Hp in Hnd. cbn in Hnd.
  apply NoDup_cons in Hnd as [Hn _]. apply Hn, elem_of_claims. eauto.
Qed.

Lemma elem_of_middle {A} (l1 l2 : list A) p q : q ∈ l1 ++ p :: l2 ↔ q = p ∨ q ∈ l1 ++ l2.
Proof. rewrite !elem_of_app, elem_of_cons. tauto. Qed.

Lemma unsettled_claim p s : unsettled p = Some s → claim_of p = Some s.
Proof. by destruct p. Qed.

(** The owner of the claim is who settles the text. *)
Lemma settles_owner sh p n id text :
  pc_ok sh p → settles sh p n → sh_texts sh !! n = Some (id, text) →
  ∃ s, claim_of p = Some s ∧ sh.(sh_owner) !! id = Some s.
Proof.
  intros Hp (s & Hs & Hn) Ht. exists s. split; [by apply unsettled_claim|].
  destruct p; cbn in Hp, Hs; try done; injection Hs as <-; destruct Hp as (m & [Ho Hm (text' & Ht' & _) _ _] & _);
    rewrite Hm in Hn; injection Hn as ->; rewrite Ht' in Ht; injection Ht as <- _; exact Ho.
Qed.

Lemma inv_quiet sh l1 p l2 : inv (sh, l1 ++ p :: l2) → quiet sh p.
Proof.
  intros [Hcl _ Hrows Hpcs _ Hset] Hun r Hr Hp Hs n Hcur Hk Hin. cbn in *.
  destruct (Hset r n Hr Hp Hcur Hin Hk) as (q & Hq & Hu). destruct (rk_current _ Hrows _ _ Hcur) as (text & Ht).
  destruct (settles_owner sh q n _ _ (Hpcs q Hq) Hu Ht) as (s & Hcq & Ho).
  rewrite (ro_owner _ _ (rk_rows _ Hrows r Hr)) in Ho. apply elem_of_middle in Hq as [->|Hq].
  - destruct Hu as (s' & Hs' & _). congruence.
  - eapply claim_unique; [exact Hcl|exact Hs|exact Hq|]. congruence.
Qed.

(** ** Every step keeps it *)

Lemma once_mono sent un un' : un ⊆ un' → once sent un → once sent un'.
Proof. intros Hun H i j n Hi Hj Hk. eapply H; [done|done|]. intros ?. by apply Hk, Hun. Qed.

Lemma once_snoc sent un m : (m ∉ un → m ∉ sent) → once sent un → once (sent ++ [m]) un.
Proof.
  intros Hm H i j n Hi Hj Hk. apply lookup_snoc_Some in Hi, Hj.
  destruct Hi as [[Hi Hi']|[-> <-]], Hj as [[Hj Hj']|[-> Heq]]; try done.
  - by eapply H.
  - subst m. apply list_elem_of_lookup_2 in Hi'. by apply Hm in Hk.
  - apply list_elem_of_lookup_2 in Hj'. by apply Hm in Hk.
Qed.

(** A pending row whose text was sent before the step was pending before it. *)
Lemma settling_frame who sh sh' r n :
  rows_ok sh → evolves who sh sh' → r ∈ sh_outbox sh' → is_pending r = true → sh_current sh' !! r.(or_id) = Some n →
  n ∈ sh.(sh_sent).*1 → n ∉ sh'.(sh_unmarked) →
  r ∈ sh_outbox sh ∧ sh_current sh !! r.(or_id) = Some n ∧ n ∉ sh.(sh_unmarked).
Proof.
  intros Hrows Hev Hr Hp Hcur Hin Hk. pose proof (sent_text sh n Hrows Hin) as Hlt.
  assert (n ∉ sh_unmarked sh) as Hk0 by (intros ?; by apply Hk, (ev_unmarked _ _ _ Hev)).
  destruct (ev_current _ _ _ Hev _ _ Hcur) as [Hcur0|?]; [|lia].
  destruct (ev_pending _ _ _ Hev r Hr Hp) as [|[(m & Hm & ?)|(Hf & _)]]; [done| |].
  - assert (m = n) by congruence. lia.
  - by destruct (Hf n Hcur0 Hk0).
Qed.

Lemma settles_frame who sh sh' p n :
  evolves who sh sh' → (∀ s, claim_of p = Some s → who ≠ Some s) → settles sh p n → settles sh' p n.
Proof.
  intros Hev Hwho (s & Hs & Hn). exists s. split; [done|]. rewrite (ev_carried _ _ _ Hev); [done|].
  by apply Hwho, unsettled_claim.
Qed.

Section preservation.
Context (maxAttempts : Z).

Lemma thread_claims sh sh' l1 p p' l2 :
  pc_step maxAttempts sh p sh' p' → inv (sh, l1 ++ p :: l2) →
  NoDup (omap claim_of (l1 ++ p' :: l2)) ∧
  ∀ s, s ∈ sh'.(sh_held) ↔ s ∈ omap claim_of (l1 ++ p' :: l2).
Proof.
  intros Hst [Hcl Hheld _ _ _ _]. cbn in *. apply pc_step_claims in Hst.
  revert Hcl. setoid_rewrite claims_middle in Hheld. setoid_rewrite claims_middle.
  destruct Hst as [[-> ->]|[(s & Hp & -> & Hs & ->)|(s & Hp & -> & ->)]]; [done|..];
    rewrite Hp in *; cbn in *.
  - intros Hcl. split; [apply NoDup_cons; split; [by rewrite <- Hheld|done]|]. set_solver.
  - intros [Hs Hcl]%NoDup_cons. split; [done|]. set_solver.
Qed.

Lemma thread_step_inv c c' : thread_step maxAttempts c c' → inv c → inv c'.
Proof.
  intros [sh sh' p p' l1 l2 Hst] Hinv. destruct (thread_claims _ _ _ _ _ _ Hst Hinv) as [Hcl' Hheld'].
  pose proof (inv_quiet _ _ _ _ Hinv) as Hq. destruct Hinv as [Hcl Hheld Hrows Hpcs Honce Hset]. cbn in *.
  assert (Hp : pc_ok sh p) by (apply Hpcs, elem_of_middle; by left).
  destruct (pc_step_sound _ _ _ _ _ Hrows Hq Hp Hst) as [[Hev Hrows'] Hp'].
  assert (∀ q, q ∈ l1 ++ l2 → ∀ s, claim_of q = Some s → claim_of p ≠ Some s) as Hother.
  { intros q Hq' s Hs Hps. by apply (claim_unique l1 p l2 q s). }
  pose proof (pc_step_sends _ _ _ _ _ Hp Hst) as Hsends. split; cbn; try done.
  - intros q [->|Hq']%elem_of_middle; [done|]. eapply pc_ok_frame; [done..|by apply Hother|].
    apply Hpcs, elem_of_middle. by right.
  - eapply once_mono; [apply Hev|]. destruct Hsends as [->|(n & reply & -> & Hun & _)]; [done|].
    rewrite fmap_app. by apply once_snoc.
  - intros r n Hr Hpend Hcur Hin Hk.
    assert (n ∈ (sh_sent sh).*1 ∨ settles sh' p' n) as [Hold|Hnew].
    { destruct Hsends as [<-|(m & reply & Hs & _ & Hu)]; [by left|].
      rewrite Hs, fmap_app in Hin. apply elem_of_app in Hin as [?| ->%list_elem_of_singleton]; [by left|right].
      by destruct Hu. }
    + destruct (settling_frame _ _ _ _ _ Hrows Hev Hr Hpend Hcur Hold Hk) as (Hr0 & Hcur0 & Hk0).
      destruct (Hset r n Hr0 Hpend Hcur0 Hold Hk0) as (q & Hq' & Hu). apply elem_of_middle in Hq' as [->|Hq'].
      * destruct (pc_step_settles _ _ _ _ _ _ Hrows Hp Hst Hu) as [?|Hno]; [done|by destruct (Hno r Hr Hpend)].
      * exists q. split; [apply elem_of_middle; by right|]. eapply settles_frame; [done|by apply Hother|done].
    + exists p'. split; [apply elem_of_middle; by left|done].
Qed.

(** What is nobody's step keeps what concerns the goroutines and the mail sent. *)
Lemma bystander_inv sh sh' l :
  guarantee None sh sh' → sh_sent sh' = sh_sent sh → inv (sh, l) →
  rows_ok sh' ∧ (∀ p, p ∈ l → pc_ok sh' p) ∧ once sh'.(sh_sent).*1 sh'.(sh_unmarked) ∧
  ∀ r n, r ∈ sh_outbox sh' → is_pending r = true → sh_current sh' !! r.(or_id) = Some n →
    n ∈ sh'.(sh_sent).*1 → n ∉ sh'.(sh_unmarked) → ∃ p, p ∈ l ∧ settles sh' p n.
Proof.
  intros [Hev Hrows'] Hs [_ _ Hrows Hpcs Honce Hset]. cbn in *. rewrite Hs. split_and!; [done|..].
  - intros q Hq. eapply pc_ok_frame; [done..|by intros|by apply Hpcs].
  - eapply once_mono; [apply Hev|done].
  - intros r n Hr Hp Hcur Hin Hk.
    destruct (settling_frame _ _ _ _ _ Hrows Hev Hr Hp Hcur Hin Hk) as (Hr0 & Hcur0 & Hk0).
    destruct (Hset r n Hr0 Hp Hcur0 Hin Hk0) as (q & Hq & Hu). exists q. split; [done|].
    eapply settles_frame; [done|by intros|done].
Qed.

Lemma arrive_inv sh sh' p l : arrive sh sh' p → inv (sh, l) → inv (sh', p :: l).
Proof.
  intros Ha Hinv. pose proof Hinv as [Hcl Hheld Hrows Hpcs Honce Hset]. cbn in *.
  assert (guarantee None sh sh' ∧ pc_ok sh' p ∧ sh_sent sh' = sh_sent sh) as (Hg & Hp & Hs).
  { destruct Ha as [e He Hid Hc|e He Hid Hc|now cutoff r reply Hr Hdue Hrep].
    1, 2: split; [apply local_guarantee; try done; by apply insert_subseteq|];
      split_and!; try done; cbn; by rewrite lookup_insert_eq.
    split_and!; try done; [by apply same_state_guarantee|]. by apply Hrows. }
  destruct (bystander_inv sh sh' l Hg Hs Hinv) as (Hrows' & Hpcs' & Honce' & Hset').
  split; cbn; try done.
  - destruct Ha; cbn; [|done..]. apply NoDup_cons. by rewrite <- Hheld.
  - destruct Ha; cbn; [|done..]. set_solver.
  - intros q [->|Hq]%elem_of_cons; [done|]. by apply Hpcs'.
  - intros r n Hr Hpend Hcur Hin Hk. destruct (Hset' r n Hr Hpend Hcur Hin Hk) as (q & ? & ?).
    exists q. by split; [right|].
Qed.

Lemma background_guarantee sh sh' :
  background sh sh' → rows_ok sh → guarantee None sh sh' ∧ sh_held sh' = sh_held sh ∧ sh_sent sh' = sh_sent sh.
Proof.
  intros Hb Hrows. destruct Hb as [d Hd|p reason now n d Hp Hf|id at_ reason now d Hu|olderThan];
    (split; [|done]).
  - apply same_outbox_guarantee; auto.
  - injection Hf as _ <-. eapply (settle_guarantee _ _ _ _ _ OutboxFailed); try done.
    intros r. split_and!; try done. apply fits_now.
  - by eapply (fail_guarantee _ _ id).
  - by apply delete_guarantee.
Qed.

Lemma crash_inv sh l : inv (sh, l) →
  inv (sh_forget (omap unsettled l)
    (mkShared sh.(sh_db) ∅ sh.(sh_sent) sh.(sh_owner) sh.(sh_unmarked) sh.(sh_history)), []).
Proof.
  set (sh' := sh_forget _ _). intros Hinv.
  assert (guarantee None sh sh') as Hg
    by (apply local_guarantee; [apply Hinv|done..|by intros ??; apply elem_of_app; right]).
  destruct (bystander_inv sh sh' l Hg eq_refl Hinv) as (Hrows' & _ & Honce' & Hset').
  split; cbn; [constructor|set_solver|done|by intros p ?%elem_of_nil|done|].
  intros r n Hr Hp Hcur Hin Hk. exfalso. destruct (Hset' r n Hr Hp Hcur Hin Hk) as (q & Hq & s & Hs & Hn).
  apply Hk, elem_of_app. left. apply list_elem_of_fmap. exists s.
  split; [symmetry; by apply lookup_total_correct|]. apply list_elem_of_omap. eauto.
Qed.

Lemma step_inv c c' : step maxAttempts c c' → inv c → inv c'.
Proof.
  intros Hst. destruct Hst as [c c' Ht|sh sh' p l Ha|sh sh' l Hb|sh l].
  - by apply thread_step_inv.
  - by apply arrive_inv.
  - intros Hinv. destruct (background_guarantee _ _ Hb (in_rows _ Hinv)) as (Hg & Hh & Hs).
    destruct (bystander_inv sh sh' l Hg Hs Hinv) as (Hrows' & Hpcs' & Honce' & Hset').
    split; cbn; rewrite ?Hh; try done; apply Hinv.
  - apply crash_inv.
Qed.

Lemma initial_inv c : initial c → inv c.
Proof.
  intros (d & Hd & ->). split; cbn; rewrite ?Hd; try done; try (by constructor).
  - set_solver.
  - split; cbn; rewrite ?Hd; [constructor|constructor| |done| |]; intros *; by rewrite elem_of_nil.
  - by intros p ?%elem_of_nil.
Qed.

Lemma reachable_inv c : reachable maxAttempts c → inv c.
Proof. intros (c0 & H0%initial_inv & Hrun). induction Hrun; eauto using step_inv. Qed.
End preservation.

(** ** No delivered reply is queued again *)

Definition no_revival (sh sh' : Shared) : Prop :=
  ∀ r r', r ∈ sh_outbox sh → is_sent r = true → r' ∈ sh_outbox sh' → r'.(or_id) = r.(or_id) →
          is_pending r' = false.

Lemma sent_not_pending r : is_sent r = true → is_pending r = false.
Proof. intros Hs%bool_decide_eq_true. apply bool_decide_eq_false. congruence. Qed.

Lemma subset_no_revival sh sh' : rows_ok sh → sh_outbox sh' ⊆ sh_outbox sh → no_revival sh sh'.
Proof. intros Hrows Hsub r r' Hr Hs Hr'%Hsub Hid. rewrite (same_row sh r r') by done. by apply sent_not_pending. Qed.

Lemma update_no_revival sh sh' p f :
  rows_ok sh → sh_outbox sh' = update_where p f (sh_outbox sh) → (∀ r, or_id (f r) = or_id r) →
  (∀ r, r ∈ sh_outbox sh → is_sent r = true → p r = true → is_pending (f r) = false) → no_revival sh sh'.
Proof.
  intros Hrows Hd Hid Hf r r' Hr Hs. rewrite Hd.
  intros [Hr'|(r0 & Hr0 & Hp & ->)]%elem_of_update_where Heq.
  - rewrite (same_row sh r r') by done. by apply sent_not_pending.
  - rewrite Hid in Heq. assert (r0 = r) as -> by by eapply same_row. by apply Hf.
Qed.

Lemma commit_no_revival sh new d1 id d2 h :
  rows_ok sh → is_pending new = true → d1.(db_outbox) = sh_outbox sh →
  upsert_outbox new d1 = Ok (id, d2) → no_revival sh (sh_note h (sh_write d2 sh)).
Proof.
  unfold upsert_outbox. intros Hrows Hp Hd. rewrite Hp. destruct (List.find _ _).
  - intros [= <- <-]. eapply update_no_revival; [done|cbn; by rewrite Hd|done|].
    intros r Hr Hs%sent_not_pending [Hq _]%andb_true_iff. congruence.
  - destruct (has_key _ _ _) eqn:Ek; [done|]. destruct (has_submission _ _); [|done]. intros [= <- <-].
    apply has_key_false in Ek. intros r r' Hr Hs [Hr'|Hr']%elem_of_app Hid; rewrite Hd in *.
    + rewrite (same_row sh r r') by done. by apply sent_not_pending.
    + apply list_elem_of_singleton in Hr' as ->. destruct Ek. rewrite Hid. by apply list_elem_of_fmap_2.
Qed.

Lemma count_no_revival sh id st attempts reason now d h :
  rows_ok sh → st ≠ OutboxPending ∨ undelivered sh id →
  update_outbox (λ r, bool_decide (r.(or_id) = id)) (or_settle st attempts reason (UnixNano now)) sh.(sh_db) = Ok (tt, d) →
  no_revival sh (sh_note h (sh_write d sh)).
Proof.
  unfold update_outbox. intros Hrows Hst. case_bool_decide; [|done]. intros [= <-].
  eapply update_no_revival; [done|reflexivity|done|]. intros r Hr Hs Hid%bool_decide_eq_true.
  destruct Hst as [Hst|Hu]; [by apply bool_decide_eq_false|]. rewrite (Hu r Hr Hid) in Hs. done.
Qed.

Section revival.
Context (maxAttempts : Z).

Lemma step_no_revival c c' : step maxAttempts c c' → inv c → no_revival c.1 c'.1.
Proof.
  intros Hst [_ _ Hrows Hpcs _ _]. destruct Hst as [c c' [sh sh' p p' l1 l2 Ht]|sh sh' p l Ha|sh sh' l Hb|sh l]; cbn in *.
  - assert (Hp : pc_ok sh p) by (apply Hpcs, elem_of_middle; by left).
    cases Ht; try (by apply subset_no_revival).
    1, 2: eapply commit_no_revival; [done| |done|done]; by apply bool_decide_eq_true, Hp.
    + by eapply update_no_revival.
    + by eapply update_no_revival.
    + eapply count_no_revival; [done|right; apply Hp|done].
    + eapply count_no_revival; [done|right; apply Hp|done].
  - destruct Ha; by apply subset_no_revival.
  - destruct Hb as [d Hd|p reason now n d Hp Hf|id at_ reason now d Hu|olderThan].
    + apply subset_no_revival; [done|]. cbn. by rewrite Hd.
    + injection Hf as _ <-. by eapply update_no_revival.
    + eapply (count_no_revival _ id OutboxFailed _ _ _ _ (λ h, h)); [done|by left|done].
    + apply subset_no_revival; [done|]. intros r. apply elem_of_delete_where.
  - by apply subset_no_revival.
Qed.
End revival.

(** ** Progress *)

(** The steps a goroutine still has to take, the attempts of a send taken as one. *)
Definition work (p : pc) : nat :=
  match p with
  | Committing _ _ => 6
  | Committed _ => 5
  | Queued _ => 4
  | Listed _ => 6
  | Claimed _ => 5
  | Fresh _ _ => 4
  | OnlineSent _ | SweptSent _ _ | Refused _ _ _ => 3
  | Releasing _ => 1
  | Done => 0
  end.

Definition total_work (c : config) : nat := sum_list_with work c.2.

(** In a send, which makes a bounded number of attempts ([Retry]). *)
Definition sending (p : pc) : bool := match p with Queued _ | Fresh _ _ => true | _ => false end.

Lemma thread_step_works maxAttempts c c' :
  thread_step maxAttempts c c' →
  (total_work c' < total_work c)%nat ∨ c'.2 = c.2 ∧ existsb sending c.2 = true.
Proof.
  intros [sh sh' p p' l1 l2 Hst]. unfold total_work. cbn. rewrite !sum_list_with_app, existsb_app. cbn.
  enough ((work p' < work p)%nat ∨ p' = p ∧ sending p = true) as [?|[-> Hp]].
  { left. lia. }
  { right. rewrite Hp. cbn. by rewrite orb_true_r. }
  cases Hst; cbn; first [left; lia|by right].
Qed.

(** A goroutine that owns a claim is never stuck. *)
Lemma pc_progress maxAttempts sh p s : claim_of p = Some s → ∃ sh' p', pc_step maxAttempts sh p sh' p'.
Proof.
  destruct p as [[]| | | | | | | | | |]; cbn; try done; intros _; eexists _, _.
  - apply by_ingest, commit_fails.
  - apply by_ingest, enqueue_not.
  - apply by_online, online_refused.
  - apply by_online, online_mark_fails.
  - apply by_sweep, sweep_gives_up.
  - by apply by_sweep, (sweep_refused _ _ _ _ (ErrNew "")).
  - apply by_sweep, sweep_mark_fails.
  - apply by_sweep, sweep_count_fails.
  - apply releases.
Qed.

(** ** The theorems *)

Lemma NoDup_filter_once {A} (P : A → Prop) `{∀ x, Decision (P x)} (l : list A) :
  (∀ i j x, l !! i = Some x → l !! j = Some x → P x → i = j) → NoDup (filter P l).
Proof.
  induction l as [|x l IH]; intros H1; [constructor|]. rewrite filter_cons.
  assert (NoDup (filter P l)) by (apply IH; intros i j y Hi Hj Hy; specialize (H1 (S i) (S j) y Hi Hj Hy); lia).
  case_decide as Hx; [|done]. apply NoDup_cons. split; [|done].
  intros [_ [i Hi]%list_elem_of_lookup]%list_elem_of_filter. by specialize (H1 0%nat (S i) x eq_refl Hi Hx).
Qed.

Section theorems.
Context (maxAttempts : Z).

(** C8: under every interleaving of ingests, online workers and sweeps, on any clock, with
    any statement or send failing and the process crashing anywhere, one goroutine at most
    owns the reply of a submission, and no text queued in the outbox is taken by the mail
    server twice, unless the server's answer was lost or the [MarkSent] after it failed or
    was cut off by a crash. *)
Theorem version_sent_once c :
  reachable maxAttempts c →
  NoDup (omap claim_of c.2) ∧ NoDup (filter (λ n, n ∉ c.1.(sh_unmarked)) c.1.(sh_sent).*1).
Proof. intros Hr%reachable_inv. split; [apply Hr|]. apply NoDup_filter_once, Hr. Qed.

(** A row that stands as sent. *)
Lemma sent_row_text sh r :
  rows_ok sh → r ∈ sh_outbox sh → is_sent r = true →
  ∃ m reply, (m, reply) ∈ sh.(sh_sent) ∧ (∃ text, sh_texts sh !! m = Some (r.(or_id), text)) ∧
    (stored_as reply r.(or_reply) ∨
     ∃ n text, n ≠ m ∧ sh_texts sh !! n = Some (r.(or_id), text) ∧ stored_as text r.(or_reply) ∧
       tied sh r.(or_id) m n).
Proof.
  intros Hrows Hr Hs. destruct (rk_rows _ Hrows r Hr) as [_ _ [n [_ (text & Ht & Hrep) _ Hse]]].
  destruct (Hse Hs) as (m & ([m' reply] & -> & Hin)%list_elem_of_fmap & Htie). cbn in Htie. exists m', reply.
  destruct Htie as (v & Hm & Hn). destruct (rk_stamps _ Hrows _ _ _ Hm) as (text' & Ht').
  split_and!; [done|by exists text'|]. rewrite Hrep. destruct (decide (n = m')) as [->|Hne].
  - left. destruct (rk_sent _ Hrows _ _ Hin) as (id & text0 & Ht0 & Has). rewrite Ht in Ht0.
    injection Ht0 as _ ->. by apply sent_as_stored.
  - right. exists n, text. split_and!; [done|done|by right|]. by exists v.
Qed.

(** C13: under every interleaving a row stands as sent only if the mail server took the
    text it holds (a follow-up that coalesced into a row being sent is not marked with
    it), or took another text of that row to which the clock had given the very same
    [updated_at]; and a row that was sent is never queued again by any later step. *)
Theorem sent_rows_were_sent c c' r :
  reachable maxAttempts c → r ∈ sh_outbox c.1 → r.(or_status) = OutboxSent →
  (∃ m reply, (m, reply) ∈ c.1.(sh_sent) ∧ (∃ text, sh_texts c.1 !! m = Some (r.(or_id), text)) ∧
    (stored_as reply r.(or_reply) ∨
     ∃ n text, n ≠ m ∧ sh_texts c.1 !! n = Some (r.(or_id), text) ∧ stored_as text r.(or_reply) ∧
       tied c.1 r.(or_id) m n)) ∧
  (step maxAttempts c c' → ∀ r', r' ∈ sh_outbox c'.1 → r'.(or_id) = r.(or_id) → r'.(or_status) ≠ OutboxPending).
Proof.
  intros Hinv%reachable_inv Hr Hst'.
  assert (Hs : is_sent r = true) by by apply bool_decide_eq_true. split.
  - apply sent_row_text; [apply Hinv|done|done].
  - intros Hst r' Hr' Hid Hp.
    pose proof (step_no_revival _ _ _ Hst Hinv r r' Hr Hs Hr' Hid) as Hn. by apply bool_decide_eq_false in Hn.
Qed.

(** No claim is leaked: every step of a goroutine brings it closer to its end, but for an
    attempt of a send whose answer is lost, after which the sender may try again; and
    while a claim is held some goroutine can take a step, so a process that gets no
    further work releases every claim. *)
Theorem claims_released c :
  reachable maxAttempts c →
  (∀ c', thread_step maxAttempts c c' →
     (total_work c' < total_work c)%nat ∨ c'.2 = c.2 ∧ existsb sending c.2 = true) ∧
  ((∀ c', ¬ thread_step maxAttempts c c') → c.1.(sh_held) = ∅).
Proof.
  intros Hinv%reachable_inv. split; [apply thread_step_works|]. intros Hstuck.
  apply set_eq. intros s. split; [|set_solver]. intros (p & Hp & Hc)%(in_held _ Hinv)%elem_of_claims.
  exfalso. destruct c as [sh l]. cbn in Hp. apply list_elem_of_split in Hp as (l1 & l2 & ->).
  destruct (pc_progress maxAttempts sh p s Hc) as (sh' & p' & Hst). by eapply Hstuck, thread_runs.
Qed.
End theorems.

(** ** A run: a follow-up coalesces into a reply that is being sent *)

Definition coalesced_reply (body : string) : Reply :=
  mkReply "sub-1" "b@x.com" "Re: Acme" body "<m1>" ["<m1>"].
Definition coalesced_entry (id body : string) : OutboxEntry :=
  mkOutboxEntry id "sub-1" (coalesced_reply body) OutboxPending 0 "" zeroTime zeroTime zeroTime.
Definition coalesced_db : DB :=
  db_with_submissions [mkSubmissionRow demo_stored (MissingCurrent [])] empty_db.
Definition coalesced_history : History :=
  mkHistory [("r1", coalesced_reply "one"); ("r1", coalesced_reply "two")] {["r1":=1%nat]}
    [(("r1", 1), 0%nat); (("r1", 2), 1%nat)] {["sub-1":=1%nat]}.
Definition coalesced_end : config :=
  (mkShared (db_with_outbox [mkOutboxRow "r1" "sub-1" (Some (coalesced_reply "two")) OutboxSent 0 "" 1 4 0] coalesced_db)
     ∅ [(0%nat, coalesced_reply "one"); (1%nat, coalesced_reply "two")]
     (<["r2":="sub-1"]> (<["r1":="sub-1"]> ∅)) [] coalesced_history, [Done; Done; Done]).

Ltac run_step tac := eapply rtc_l; [tac|].
(** The goroutine behind [l1] takes a step. *)
Ltac run_thread l1 tac :=
  run_step ltac:(apply step_thread; eapply (thread_runs _ _ _ _ _ l1); tac).

Lemma coalesced_reachable : reachable 5 coalesced_end.
Proof.
  exists (mkShared coalesced_db ∅ [] ∅ [] no_history, []). split; [by exists coalesced_db|].
  run_step ltac:(apply step_arrive, (ingest_claims _ (coalesced_entry "r1" "one")); [done|done|set_solver]).
  run_thread (@nil pc) ltac:(eapply by_ingest, (commit_ok _ _ _ 1); [done|by vm_compute]).
  run_thread (@nil pc) ltac:(apply by_ingest, enqueue_ok).
  run_step ltac:(apply step_arrive, (ingest_finds_claim _ (coalesced_entry "r2" "two")); [done|done|set_solver]).
  run_thread (@nil pc) ltac:(eapply by_ingest, (commit_ok _ _ _ 2); [done|by vm_compute]).
  run_thread [Done] ltac:(apply by_online, online_accepted).
  run_thread [Done] ltac:(apply by_online, (online_marks _ _ 3)).
  run_thread [Done] ltac:(apply releases).
  run_step ltac:(eapply step_arrive, (sweep_lists _ 3 0); [by left|done|done]).
  run_thread (@nil pc) ltac:(apply by_sweep, sweep_claims; vm_compute; set_solver).
  run_thread (@nil pc) ltac:(by eapply by_sweep, sweep_rereads).
  run_thread (@nil pc) ltac:(apply by_sweep, sweep_accepted).
  run_thread (@nil pc) ltac:(apply by_sweep, (sweep_marks _ _ _ _ 4)).
  run_thread (@nil pc) ltac:(apply releases).
  lazymatch goal with |- rtc _ ?c _ => assert (c = coalesced_end) as -> by (vm_compute; reflexivity) end.
  apply rtc_refl.
Qed.

Lemma version_sent_once_witness :
  NoDup (omap claim_of coalesced_end.2) ∧
  NoDup (filter (λ n, n ∉ coalesced_end.1.(sh_unmarked)) [0%nat; 1%nat]).
Proof. exact (version_sent_once 5 coalesced_end coalesced_reachable). Defined.

Lemma sent_rows_were_sent_witness :
  ∃ m reply, (m, reply) ∈ coalesced_end.1.(sh_sent) ∧ (∃ text, sh_texts coalesced_end.1 !! m = Some ("r1", text)) ∧
    (stored_as reply (Some (coalesced_reply "two")) ∨
     ∃ n text, n ≠ m ∧ sh_texts coalesced_end.1 !! n = Some ("r1", text) ∧
       stored_as text (Some (coalesced_reply "two")) ∧ tied coalesced_end.1 "r1" m n).
Proof.
  refine (proj1 (sent_rows_were_sent 5 coalesced_end coalesced_end
    (mkOutboxRow "r1" "sub-1" (Some (coalesced_reply "two")) OutboxSent 0 "" 1 4 0) coalesced_reachable _ _)).
  - by left.
  - reflexivity.
Defined.

Lemma claims_released_witness : coalesced_end.1.(sh_held) = ∅.
Proof.
  apply (claims_released 5 coalesced_end coalesced_reachable). intros c' Hst.
  apply (claims_released 5 coalesced_end coalesced_reachable) in Hst as [Hst|[_ Hst]]; cbn in Hst; [lia|done].
Defined.

(** ** The exception is real: with one [updated_at] twice the follow-up is marked unsent *)

Definition tied_end : config :=
  (mkShared (db_with_outbox [mkOutboxRow "r1" "sub-1" (Some (coalesced_reply "two")) OutboxSent 0 "" 1 3 0] coalesced_db)
     ∅ [(0%nat, coalesced_reply "one")] (<["r2":="sub-1"]> (<["r1":="sub-1"]> ∅)) []
     (mkHistory [("r1", coalesced_reply "one"); ("r1", coalesced_reply "two")] {["r1":=1%nat]}
        [(("r1", 1), 0%nat); (("r1", 1), 1%nat)] {["sub-1":=0%nat]}), [Done; Done]).

Lemma tied_reachable : reachable 5 tied_end.
Proof.
  exists (mkShared coalesced_db ∅ [] ∅ [] no_history, []). split; [by exists coalesced_db|].
  run_step ltac:(apply step_arrive, (ingest_claims _ (coalesced_entry "r1" "one")); [done|done|set_solver]).
  run_thread (@nil pc) ltac:(eapply by_ingest, (commit_ok _ _ _ 1); [done|by vm_compute]).
  run_thread (@nil pc) ltac:(apply by_ingest, enqueue_ok).
  run_step ltac:(apply step_arrive, (ingest_finds_claim _ (coalesced_entry "r2" "two")); [done|done|set_solver]).
  run_thread (@nil pc) ltac:(eapply by_ingest, (commit_ok _ _ _ 1); [done|by vm_compute]).
  run_thread [Done] ltac:(apply by_online, online_accepted).
  run_thread [Done] ltac:(apply by_online, (online_marks _ _ 3)).
  run_thread [Done] ltac:(apply releases).
  lazymatch goal with |- rtc _ ?c _ => assert (c = tied_end) as -> by (vm_compute; reflexivity) end.
  apply rtc_refl.
Qed.
