(* ===== verification/Simulation.v ===== *)
(** One state seen in both models: the world of [World], in which the calls of the program
    run, and the shared state of [Dispatch].  What a single call does to the outbox in the
    one is given here as a step of the other; [Refines] puts the steps together. *)
From Stdlib Require Import ZArith.
From stdpp Require Import base list strings gmap relations.
From S2P Require Import Prelude GoStrings GoValues Submission Checklist Classifier ChecklistStore Tables World Repository OutboxRepo Persistence RepositoryProps Config Service Ingest Delivery Sweeps ServiceInv Demo IngestProps DeliveryProps Dispatch SchemaProps.

Open Scope Z_scope.

(** ** Time only goes on *)

Definition Tick (n : nat) (w : World) : Prop := (n ≤ w.(w_tick))%nat.

Section tick.
Context {L : GoLib} {E : Env} (svc : Service) (n : nat).

Lemma tick_now : preserves (Tick n) time_Now.
Proof. intros w. unfold Tick. cbn. lia. Qed.

Lemma tick_uuid : preserves (Tick n) NewString.
Proof. intros w. unfold Tick. cbn. lia. Qed.

Lemma tick_stmt {A} (f : DB → result (A * DB)) : preserves (Tick n) (stmt f).
Proof.
  intros w. unfold Tick, stmt. destruct (env_fault _); cbn; [lia|]. destruct (f _) as [[]|]; cbn; lia.
Qed.

Lemma tick_exec f : preserves (Tick n) (exec f).
Proof. apply tick_stmt. Qed.

Lemma tick_query {A} (f : DB → A) : preserves (Tick n) (query f).
Proof. apply tick_stmt. Qed.

Lemma tick_transaction {A} bare (m : M A) : preserves (Tick n) m → preserves (Tick n) (transaction bare m).
Proof.
  intros Hm w Hw. unfold transaction.
  assert (preserves (Tick n) (tx_body bare m)) as Hp.
  { repeat (apply preserves_bind; [|intros]); try apply preserves_wrap_err, tick_query;
      [done|destruct bare; try apply preserves_wrap_err; apply tick_query|apply preserves_ret]. }
  specialize (Hp w Hw). by destruct (tx_body bare m w) as [[a|e] w'].
Qed.

#[local] Hint Resolve tick_now tick_uuid tick_stmt tick_exec tick_query tick_transaction : triage.

Lemma tick_audit id evt p : preserves (Tick n) (audit id evt p).
Proof.
  unfold audit. apply preserves_bind; [apply preserves_get|]. intros w.
  destruct (w_collector w); [by apply preserves_modify|]. unfold Append. walk.
Qed.

Lemma tick_Outbox_Update id st a err : preserves (Tick n) (Outbox_Update id st a err).
Proof. unfold Outbox_Update. walk. Qed.

Lemma tick_ClearReplyHash id : preserves (Tick n) (ClearReplyHash id).
Proof. unfold ClearReplyHash, update_submissions. walk. Qed.

Lemma tick_deliver reply sid : preserves (Tick n) (deliver svc reply sid).
Proof.
  unfold deliver. apply preserves_bind.
  { intros w Hw. unfold SendThreadedReply. destruct (env_send _ _); unfold Tick in *; cbn; lia. }
  intros id. pose proof tick_audit. unfold UpsertEmail, upsertEmailRow, SetLastReplyAt, update_submissions. walk.
  apply tick_transaction. walk.
Qed.
End tick.

Lemma calm_Outbox_Update {E : Env} id st a err : calm (Outbox_Update id st a err).
Proof.
  unfold Outbox_Update. apply calm_bind; [done|]. intros now. apply calm_wrap_err, calm_stmt.
  intros d p. unfold update_outbox. by destruct (bool_decide _).
Qed.

Lemma log_err_Ok {A} (m : M A) : calm m → ∀ w, ∃ w', log_err m w = (Ok (), w').
Proof. intros Hm w. destruct (log_err_safe m Hm w) as ([] & w' & Hw). by exists w'. Qed.

(** ** The relation *)

(** All that was sent, and the replies among it: the rest are digests. *)
Inductive delivered : list Reply → list Reply → Prop :=
| delivered_none : delivered [] []
| delivered_reply replies all r : delivered replies all → delivered (replies ++ [r]) (all ++ [r])
| delivered_digest replies all r :
    rep_SubmissionID r = "" → delivered replies all → delivered replies (all ++ [r]).

Section simulation.
Context {L : GoLib} {E : Env}.

(** The same database, claims and replies acknowledged by the mail server, with the ids
    given out drawn before. *)
Record related (w : World) (sh : Shared) : Prop := {
  rel_db : sh.(sh_db) = w.(w_db);
  rel_held : sh.(sh_held) = w.(w_dispatching);
  rel_sent : delivered (map snd sh.(sh_sent)) (map fst w.(w_sent));
  rel_ids : ∀ id, sh.(sh_owner) !! id ≠ None → ∃ n, (n < w.(w_tick))%nat ∧ env_uuid n = id }.

(** Time goes on, and no id is given out. *)
Lemma related_later w sh w' sh' :
  related w sh → sh_db sh' = w_db w' → sh_held sh' = w_dispatching w' →
  delivered (map snd (sh_sent sh')) (map fst (w_sent w')) →
  sh_owner sh' = sh_owner sh → (w_tick w ≤ w_tick w')%nat → related w' sh'.
Proof.
  intros [_ _ _ Hids] Hd Hh Hs Ho Ht. split; [done..|]. rewrite Ho. intros id Hid.
  destruct (Hids id Hid) as (n & Hn & Hu). exists n. split; [lia|done].
Qed.

(** The same state, later. *)
Lemma related_next w sh : related w sh → related (w_next w) sh.
Proof. intros Hr. pose proof Hr as [Hd Hh Hs _]. eapply related_later; cbn; try done. lia. Qed.

(** What leaves the outbox and the memory alone is the background's. *)
Lemma quiet_background w w' sh :
  mem w' = mem w → (w_db w').(db_outbox) = (w_db w).(db_outbox) → (w_tick w ≤ w_tick w')%nat →
  related w sh → ∃ sh', background sh sh' ∧ related w' sh'.
Proof.
  intros Hm Ho Ht Hr. pose proof Hr as [Hd Hh Hs _]. exists (sh_write (w_db w') sh). split.
  - apply other_tables. by rewrite Hd.
  - unfold mem in Hm. injection Hm as Hdis _ _ Hsent.
    eapply related_later; cbn; try done; [congruence|by rewrite Hsent].
Qed.

(** [MarkSent], whose failure is only logged. *)
Lemma mark_simulated id v w sh :
  related w sh →
  let w' := (log_err (MarkSent id v) w).2 in
  (∀ sids, related w' (sh_forget sids sh)) ∨
  ∃ now, related w' (sh_write (mark_db (id, UnixNano v) now sh.(sh_db)) sh).
Proof.
  intros Hr. pose proof Hr as [Hd Hh Hs _].
  unfold log_err, attempt, MarkSent, mbind, M_bind, time_Now, wrap_err, exec, stmt. cbv zeta. cbn.
  destruct (env_fault (S (w_tick w))) as [msg|]; cbn.
  - left. intros sids. eapply related_later; cbn; try done. lia.
  - right. exists (env_now (w_tick w)). eapply related_later; cbn; try done; [by rewrite Hd|lia].
Qed.

(** [Outbox.Update], whose failure is only logged. *)
Lemma update_simulated id st attempts err w sh :
  related w sh →
  let w' := (log_err (Outbox_Update id st attempts err) w).2 in
  related w' sh ∨
  ∃ now d2,
    update_outbox (λ r, bool_decide (r.(or_id) = id)) (or_settle st attempts err (UnixNano now)) sh.(sh_db) = Ok (tt, d2) ∧
    ∀ h, related w' (sh_note h (sh_write d2 sh)).
Proof.
  intros Hr. pose proof Hr as [Hd Hh Hs _].
  unfold log_err, attempt, Outbox_Update, mbind, M_bind, time_Now, wrap_err, stmt. cbv zeta.
  rewrite Hd. cbn [w_db w_next w_tick].
  destruct (env_fault (S (w_tick w))) as [msg|].
  { left. by do 2 apply related_next in Hr. }
  destruct (update_outbox _ _ (w_db w)) as [[[] d2]|e] eqn:Hu.
  - cbn. right. exists (env_now (w_tick w)), d2. split; [done|]. intros h.
    eapply related_later; cbn; try done. lia.
  - left. do 2 apply related_next in Hr. by destruct e.
Qed.

(** The second look at the row. *)
Lemma GetPending_found id w :
  (∃ row reply, List.find (λ r, bool_decide (r.(or_id) = id) && is_pending r) (w_db w).(db_outbox) = Some row ∧
     row.(or_reply) = Some reply ∧
     attempt (GetPending id) w = (Ok (Ok (Some (entry_of_row row reply))), w_next w)) ∨
  (∃ r, attempt (GetPending id) w = (Ok r, w_next w) ∧ ∀ e, r ≠ Ok (Some e)).
Proof.
  unfold GetPending, attempt, mbind, M_bind, wrap_err, query, stmt.
  destruct (env_fault _); [right; by eexists|]. cbn.
  replace (w_with_db (w_db w) (w_next w)) with (w_next w) by (by destruct w).
  destruct (List.find _ _) as [row|] eqn:Ef; [|right; by eexists].
  destruct (or_reply row) as [reply|] eqn:Er; cbn; [left; by exists row, reply|right; by eexists].
Qed.

End simulation.
