(* ===== verification/Refines.v ===== *)
(** The running service is a run of [Dispatch].

    [Dispatch] describes the goroutines that handle replies by program counters; here each
    task of [Interleave] is given the program counters it stands at, and every step of a
    task is shown to be steps of these counters, beside those of every other goroutine.
    What is proved of the reachable states of [Dispatch] is thereby proved of the service
    at the calls of its code. *)
From Stdlib Require Import ZArith.
From stdpp Require Import base list strings gmap relations pretty.
From S2P Require Import Prelude GoStrings GoValues Submission Checklist Reply Classifier ChecklistStore Tables World Repository OutboxRepo Persistence RepositoryProps Config Service Ingest Delivery Sweeps ServiceInv Still Tasks Interleave Ghost Demo IngestProps DeliveryProps Claims Dispatch DispatchProps SchemaProps Simulation.

Open Scope Z_scope.

(** ** Steps of some of the goroutines *)

Section runs.
Context (maxAttempts : Z).
Notation dstep := (Dispatch.step maxAttempts).

(** Done, or a row of a sweep that was given up. *)
Definition idle (p : pc) : Prop := match p with Done | Listed _ => True | _ => False end.

(** Up to order and to goroutines that do nothing more. *)
Definition upto (l ps : list pc) : Prop := ∃ junk, Forall idle junk ∧ l ≡ₚ junk ++ ps.

(** [ps] become [ps'], whoever else runs. *)
Definition runs_to (sh : Shared) (ps : list pc) (sh' : Shared) (ps' : list pc) : Prop :=
  ∀ others l, upto l (ps ++ others) → ∃ l', rtc dstep (sh, l) (sh', l') ∧ upto l' (ps' ++ others).

#[export] Instance upto_proper l : Proper ((≡ₚ) ==> iff) (upto l).
Proof. intros ps ps' Hp. unfold upto. by setoid_rewrite Hp. Qed.

Lemma upto_idle l p ps : idle p → upto l (p :: ps) → upto l ps.
Proof. intros Hp (junk & Hj & Hl). exists (p :: junk). split; [by constructor|]. by rewrite Hl, <-Permutation_middle. Qed.

Lemma runs_refl sh ps : runs_to sh ps sh ps.
Proof. intros others l Hl. by exists l. Qed.

Lemma runs_trans sh1 ps1 sh2 ps2 sh3 ps3 :
  runs_to sh1 ps1 sh2 ps2 → runs_to sh2 ps2 sh3 ps3 → runs_to sh1 ps1 sh3 ps3.
Proof.
  intros H1 H2 others l Hl. destruct (H1 others l Hl) as (l1 & Hs1 & Hl1).
  destruct (H2 others l1 Hl1) as (l2 & Hs2 & Hl2). exists l2. split; [by etrans|done].
Qed.

Lemma runs_perm sh ps qs sh' ps' qs' :
  ps ≡ₚ qs → ps' ≡ₚ qs' → runs_to sh ps sh' ps' → runs_to sh qs sh' qs'.
Proof.
  intros Hp Hp' H others l Hl. rewrite <-Hp in Hl. destruct (H others l Hl) as (l' & Hs & Hl').
  exists l'. split; [done|]. by rewrite <-Hp'.
Qed.

Lemma runs_frame sh ps sh' ps' qs : runs_to sh ps sh' ps' → runs_to sh (ps ++ qs) sh' (ps' ++ qs).
Proof. intros H others l. rewrite <-!app_assoc. apply H. Qed.

Lemma runs_pc sh p sh' p' : pc_step maxAttempts sh p sh' p' → runs_to sh [p] sh' [p'].
Proof.
  intros Hp others l (junk & Hj & Hl). cbn in *. rewrite <-Permutation_middle in Hl.
  assert (p ∈ l) as (l1 & l2 & ->)%list_elem_of_split by (rewrite Hl; by left).
  exists (l1 ++ p' :: l2). split; [by apply rtc_once, step_thread, thread_runs|].
  exists junk. split; [done|]. rewrite <-!Permutation_middle in *. f_equiv. by apply (Permutation_cons_inv (a := p)).
Qed.

Lemma runs_done sh p sh' : pc_step maxAttempts sh p sh' Done → runs_to sh [p] sh' [].
Proof.
  intros Hp others l Hl. destruct (runs_pc _ _ _ _ Hp others l Hl) as (l' & Hs & Hl').
  exists l'. split; [done|]. by eapply upto_idle; [|exact Hl'].
Qed.

Lemma runs_idle sh p : idle p → runs_to sh [p] sh [].
Proof. intros Hp others l Hl. exists l. split; [done|]. by eapply upto_idle; [|exact Hl]. Qed.

Lemma runs_arrive sh sh' p : arrive sh sh' p → runs_to sh [] sh' [p].
Proof.
  intros Hp others l (junk & Hj & Hl). exists (p :: l). split; [by apply rtc_once, step_arrive|].
  exists junk. split; [done|]. rewrite Hl. apply Permutation_middle.
Qed.

Lemma runs_background sh sh' ps : background sh sh' → runs_to sh ps sh' ps.
Proof. intros Hb others l Hl. exists l. split; [by apply rtc_once, step_background|done]. Qed.
End runs.

(** ** Steps of a task *)

(** No id of [uuid.NewString] is empty or comes twice. *)
Definition ids_are_fresh (E : Env) : Prop := ∀ n, env_uuid n ≠ "" ∧ ∀ m, (n < m)%nat → env_uuid n ≠ env_uuid m.

Section refines.
Context {L : GoLib} {E : Env} (svc : Service).
Hypothesis ids : ids_are_fresh E.

Notation maxAttempts := svc.(sv_outboxMaxAttempts).
Notation runs_to := (runs_to maxAttempts).
Notation queued w := (map Queued (w_jobs w)).

(** A step that takes a goroutine from [ps] to [ps'], the queue being everybody's. *)
Definition tracks (ps ps' : list pc) (w w' : World) : Prop :=
  (w_tick w ≤ w_tick w')%nat ∧
  ∀ sh, related w sh →
    ∃ sh', runs_to sh (ps ++ queued w) sh' (ps' ++ queued w') ∧ related w' sh'.

(** The queue stays as it is. *)
Lemma tracks_own ps ps' w w' :
  w_jobs w' = w_jobs w → (w_tick w ≤ w_tick w')%nat →
  (∀ sh, related w sh → ∃ sh', runs_to sh ps sh' ps' ∧ related w' sh') →
  tracks ps ps' w w'.
Proof.
  intros Hj Ht H. split; [done|]. intros sh Hr. destruct (H sh Hr) as (sh' & Hs & Hr').
  exists sh'. split; [|done]. rewrite Hj. by apply runs_frame.
Qed.

Lemma tracks_trans ps1 ps2 ps3 w1 w2 w3 : tracks ps1 ps2 w1 w2 → tracks ps2 ps3 w2 w3 → tracks ps1 ps3 w1 w3.
Proof.
  intros [Ht1 H1] [Ht2 H2]. split; [lia|]. intros sh Hr.
  destruct (H1 sh Hr) as (sh1 & Hs1 & Hr1). destruct (H2 sh1 Hr1) as (sh2 & Hs2 & Hr2).
  exists sh2. split; [by eapply runs_trans|done].
Qed.

Lemma tracks_frame qs ps ps' w w' : tracks ps ps' w w' → tracks (ps ++ qs) (ps' ++ qs) w w'.
Proof.
  intros [Ht H]. split; [done|]. intros sh Hr. destruct (H sh Hr) as (sh' & Hs & Hr').
  exists sh'. split; [|done]. eapply runs_perm; [| |exact (runs_frame _ _ _ _ _ qs Hs)];
    rewrite <-!app_assoc; f_equiv; apply Permutation_app_comm.
Qed.

(** What else the goroutine has to do can wait. *)
Lemma follows_frame {A} (Q : result A → list pc → Prop) ps qs t :
  follows tracks Q ps t → follows tracks (λ r ps', ∃ ps1, ps' = ps1 ++ qs ∧ Q r ps1) (ps ++ qs) t.
Proof.
  revert ps. induction t as [r|m IH] using task_steps; intros ps Ht; cbn in *; [by exists ps|].
  intros w. specialize (Ht w). specialize (IH w). destruct (m w) as [t' w'].
  destruct Ht as (ps' & Hs & Ht'). exists (ps' ++ qs). split; [by apply tracks_frame|by apply IH].
Qed.

Lemma related_collector c w sh : related w sh → related (w_with_collector c w) sh.
Proof. intros [Hd Hh Hs Hi]. by split. Qed.

#[local] Instance tracks_resting : Resting tracks.
Proof.
  split.
  - intros ps w w' Hm Ho Ht. apply tracks_own; [by injection Hm|done|]. intros sh Hr.
    destruct (quiet_background w w' sh Hm Ho Ht Hr) as (sh' & Hb & Hr').
    exists sh'. split; [by apply runs_background|done].
  - intros ps ps' c c' w w' [Ht H]. split; [done|]. intros sh Hr.
    destruct (H sh (related_collector c w sh Hr)) as (sh' & Hs & Hr'). exists sh'.
    split; [done|by apply related_collector].
Qed.

Lemma tracks_next ps w : tracks ps ps w (w_next w).
Proof. apply resting_still; [done..|]. cbn. lia. Qed.

(** ** Claims *)

(** From [p] a goroutine can get to the deferred release of [sid]. *)
Definition lets_go (sid : string) (p : pc) : Prop :=
  ∀ w sh, related w sh → ∃ sh', runs_to sh [p] sh' [Releasing sid] ∧ related w sh'.

Lemma lets_go_step sid p :
  (∀ sh, pc_step maxAttempts sh p sh (Releasing sid)) → lets_go sid p.
Proof. intros Hp w sh Hr. exists sh. split; [by apply runs_pc|done]. Qed.

(** Giving up on marking what was sent. *)
Lemma lets_go_forget sid p s :
  (∀ sh, pc_step maxAttempts sh p (sh_forget [s] sh) (Releasing sid)) → lets_go sid p.
Proof.
  intros Hp w sh Hr. exists (sh_forget [s] sh). split; [by apply runs_pc|].
  pose proof Hr as [Hd Hh Hs _]. by eapply related_later.
Qed.

Lemma lets_go_releasing sid : lets_go sid (Releasing sid).
Proof. intros w sh Hr. exists sh. split; [apply runs_refl|done]. Qed.

Lemma lets_go_fresh sid row : lets_go sid (Fresh sid row).
Proof.
  intros w sh Hr. exists sh. split; [|done].
  eapply runs_trans; apply runs_pc, by_sweep; [apply (sweep_refused _ _ _ _ (ErrNew ""))|apply sweep_count_fails].
Qed.

Lemma release_tracks sid p w : lets_go sid p → tracks [p] [] w (releaseDispatch sid w).2.
Proof.
  intros Hp. apply tracks_own; [done..|]. intros sh Hr.
  destruct (Hp w sh Hr) as (sh1 & Hs1 & Hr1). exists (sh_release sid sh1). split.
  - eapply runs_trans; [exact Hs1|]. apply runs_done, releases.
  - pose proof Hr1 as [Hd Hh Hs _]. eapply related_later; cbn; try done. by rewrite Hh.
Qed.

Lemma deferred_release {A} sid ps (t : task A) :
  follows tracks (λ _ ps', ∃ p, ps' = [p] ∧ lets_go sid p) ps t →
  ends tracks ps [] (tdeferred t (atomic (releaseDispatch sid))).
Proof.
  intros Ht. eapply follows_ton; [exact Ht|]. intros r ps' (p & -> & Hp).
  eapply (ends_on _ _ []); [|done]. apply follows_call. intros w. exists []. split; [by apply release_tracks|done].
Qed.

(** ** Deliveries *)

(** A call that does not fail. *)
Lemma follows_safe {A} (Q : result A → list pc → Prop) ps (m : M A) :
  still m → safe m → (∀ a, Q (Ok a) ps) → follows tracks Q ps (atomic m).
Proof.
  intros Hm Hs HQ. apply (follows_still tracks); [done|]. intros w. destruct (Hs w) as (a & w' & ->). apply HQ.
Qed.

Definition sent_or (p p' : pc) (r : result unit) (ps : list pc) : Prop :=
  ps = [match r with Ok _ => p' | Err _ => p end].

(** The reply is accepted exactly when [deliver] succeeds. *)
Lemma deliver_follows p p' s reply sid :
  (∀ sh, pc_step maxAttempts sh p (sh_accept s reply sh) p') →
  follows tracks (sent_or p p') [p] (deliver_task svc reply sid).
Proof.
  intros Hp. unfold deliver_task.
  eapply (follows_bind _ (λ r ps, ps = [match r with Ok _ => p' | Err _ => p end])).
  - apply follows_call. intros w. eexists. split; [|done]. unfold SendThreadedReply.
    destruct (env_send (w_tick w) reply) as [id|e]; cbn; [|apply tracks_next].
    apply tracks_own; [done|cbn; lia|]. intros sh Hr. exists (sh_accept s reply sh). split; [by apply runs_pc|].
    pose proof Hr as [Hd Hh Hs _]. eapply related_later; cbn; try done; [|lia].
    rewrite !map_app. by constructor.
  - intros mid ? ->.
    repeat (eapply (follows_bind _ (λ r ps, is_ok r = true ∧ ps = [p'])); [|intros ? ? [_ ->]|by intros ? ? []]);
      try (apply follows_safe; [intros ? ? ?; walk| |done]).
    all: try (intros w; by eexists _, _).
    + apply log_err_safe, calm_UpsertEmail.
    + apply log_err_safe, calm_update_submissions.
    + apply audit_safe.
  - by intros e ? ->.
Qed.

(** An attempt hands on what the call left, a panic with it. *)
Lemma attempt_follows {A} (Q : result A → list pc → Prop) ps (t : task A) :
  follows tracks Q ps t →
  follows tracks (λ r ps', match r with Ok r => Q r ps' | Err e => Q (Err e) ps' end) ps (tattempt t).
Proof. intros Ht. eapply follows_ton; [exact Ht|]. intros [a|e] ps' HQ; [done|]. by destruct e. Qed.

Lemma log_err_world {A} (m : M A) w : (log_err m w).2 = (m w).2.
Proof. unfold log_err, attempt, mbind, M_bind. by destruct (m w) as [[a|[]] w']. Qed.

Lemma wrap_err_world {A} msg (m : M A) w : (wrap_err msg m w).2 = (m w).2.
Proof. unfold wrap_err. by destruct (m w) as [[a|[]] w']. Qed.

Lemma mark_tick id v w : (w_tick w ≤ w_tick (log_err (MarkSent id v) w).2)%nat.
Proof.
  rewrite log_err_world. unfold MarkSent, mbind, M_bind, time_Now. rewrite wrap_err_world.
  pose proof (tick_exec (w_tick w)
    (λ d, db_with_outbox (mark_sent id (UnixNano v) (UnixNano (env_now (w_tick w))) (db_outbox d)) d)
    (w_next w)) as Ht. unfold Tick in Ht. cbn [w_tick w_next] in Ht. lia.
Qed.

(** [MarkSent] after an accepted reply. *)
Lemma mark_tracks p sid id v w :
  (∀ sh now, pc_step maxAttempts sh p (sh_write (mark_db (id, UnixNano v) now sh.(sh_db)) sh) (Releasing sid)) →
  (∀ sh, pc_step maxAttempts sh p (sh_forget [sid] sh) (Releasing sid)) →
  tracks [p] [Releasing sid] w (log_err (MarkSent id v) w).2.
Proof.
  intros Hmark Hforget. apply tracks_own; [|apply mark_tick|].
  - pose proof (preserves_log_err _ (MarkSent id v) (mem_MarkSent (mem w) id v) w eq_refl) as Hm. by injection Hm.
  - intros sh Hr. destruct (mark_simulated id v w sh Hr) as [Hf|(now & Hm)].
    + exists (sh_forget [sid] sh). split; [by apply runs_pc|done].
    + eexists. split; [|exact Hm]. by apply runs_pc.
Qed.

(** A worker's job. *)
Lemma dispatch_task_tracks job : ends tracks [Queued job] [] (dispatch_task svc job).
Proof.
  unfold dispatch_task. set (sid := job_submissionID job). apply deferred_release.
  eapply follows_bind.
  - apply attempt_follows, (deliver_follows (Queued job) (OnlineSent job) sid).
    intros sh. apply by_online, online_accepted.
  - intros [[]|e] ? ->.
    + apply follows_call. intros w. eexists. split.
      * apply (mark_tracks _ sid); intros; apply by_online; [apply online_marks|apply online_mark_fails].
      * eexists. split; [done|apply lets_go_releasing].
    + apply (follows_still tracks); [auto with triage|]. intros w. eexists. split; [done|].
      apply lets_go_step. intros sh. apply by_online, online_refused.
  - intros e ? ->. eexists. split; [done|]. apply lets_go_step. intros sh. apply by_online, online_refused.
Qed.

Lemma worker_task_tracks : ends tracks [] [] (worker_task svc).
Proof.
  unfold worker_task.
  eapply (follows_bind _ (λ r ps, match r with Ok job => ps = Queued <$> option_list job | Err _ => False end)).
  - apply follows_call. intros w. unfold take_job, mbind, M_bind. cbn.
    destruct (w_jobs w) as [|job rest] eqn:Ew; cbn; eexists; (split; [|done]).
    + by apply resting_still.
    + split; [done|]. intros sh Hr. exists sh. split; [rewrite Ew; apply runs_refl|].
      destruct Hr. by split.
  - intros [job|] ? ->; [apply dispatch_task_tracks|done].
  - by intros.
Qed.

(** ** The sweep *)

Lemma update_world id st a err w :
  w_jobs (log_err (Outbox_Update id st a err) w).2 = w_jobs w ∧
  (w_tick w ≤ w_tick (log_err (Outbox_Update id st a err) w).2)%nat.
Proof.
  pose proof (preserves_log_err _ _ (mem_Outbox_Update (mem w) id st a err) w eq_refl) as Hm.
  pose proof (preserves_log_err _ _ (tick_Outbox_Update (w_tick w) id st a err) w (le_n _)) as Ht.
  split; [by injection Hm|exact Ht].
Qed.

(** The attempt is counted, and a dead letter leaves its traces. *)
Lemma count_tracks sid row e st w :
  st = (if oe_Attempts row + 1 <? maxAttempts then OutboxPending else OutboxFailed) →
  tracks [Fresh sid row] [Releasing sid] w
    (log_err (Outbox_Update (oe_ID row) st (oe_Attempts row + 1) (error_text e)) w).2.
Proof.
  intros Hst. destruct (update_world (oe_ID row) st (oe_Attempts row + 1) (error_text e) w) as [Hj Ht].
  apply tracks_own; [done..|]. intros sh Hr.
  assert (runs_to sh [Fresh sid row] sh [Refused sid row e]) as Href by apply runs_pc, by_sweep, sweep_refused.
  destruct (update_simulated (oe_ID row) st (oe_Attempts row + 1) (error_text e) w sh Hr) as [Hf|(now & d2 & Hu & Hrel)].
  - exists sh. split; [|done]. eapply runs_trans; [exact Href|]. apply runs_pc, by_sweep, sweep_count_fails.
  - eexists. split; [|apply Hrel]. eapply runs_trans; [exact Href|]. apply runs_pc, by_sweep, sweep_counts.
    by rewrite <-Hst.
Qed.

Lemma settle_tracks sid row e w : tracks [Fresh sid row] [Releasing sid] w (settle_failure svc row e w).2.
Proof.
  unfold settle_failure. cbv zeta. destruct (oe_Attempts row + 1 <? maxAttempts) eqn:Hlt.
  - apply count_tracks. by rewrite Hlt.
  - destruct (log_err_Ok (Outbox_Update (oe_ID row) OutboxFailed (oe_Attempts row + 1) (error_text e))
      (calm_Outbox_Update _ _ _ _) w) as (w1 & Hw1). rewrite (bind_ok _ _ _ _ _ Hw1).
    pose proof (count_tracks sid row e OutboxFailed w) as Hc. rewrite Hlt, Hw1 in Hc.
    eapply tracks_trans; [by apply Hc|]. apply (still_move tracks). intros ? ? ?. walk.
Qed.

(** The second look at the row. *)
Lemma reread_follows row :
  follows tracks (λ r ps, match r with
      | Ok (Ok (Some fresh)) => ps = [Fresh (oe_SubmissionID row) fresh]
      | _ => ps = [Claimed row]
      end) [Claimed row] (tattempt (atomic (GetPending (oe_ID row)))).
Proof.
  eapply (follows_ton _ (λ r ps, match r with
      | Ok (Some fresh) => ps = [Fresh (oe_SubmissionID row) fresh] | _ => ps = [Claimed row] end)).
  - apply follows_call. intros w. pose proof (GetPending_found (oe_ID row) w) as Hg. unfold attempt in Hg.
    destruct Hg as [(r & reply & Hf & Hrep & Hg)|(r & Hg & Hno)];
      destruct (GetPending (oe_ID row) w) as [r' w'] eqn:Eg; cbn [fst snd].
    + assert (r' = Ok (Some (entry_of_row r reply)) ∧ w' = w_next w) as [-> ->]
        by (destruct r' as [a|[]]; by simplify_eq).
      eexists. split; [|done]. apply tracks_own; [done|cbn; lia|]. intros sh Hr. pose proof Hr as [Hd Hh Hs _].
      exists (sh_note (hi_take (oe_SubmissionID row) (or_id r)) sh). split.
      * apply runs_pc, by_sweep, sweep_rereads; [by rewrite Hd|done].
      * eapply related_later; cbn; try done. lia.
    + assert (w' = w_next w ∧ ∀ e, r' ≠ Ok (Some e)) as [-> Hn].
      { destruct r' as [a|[]]; simplify_eq; (split; [done|]); intros x Hx; by simplify_eq; try (by apply (Hno x)). }
      exists [Claimed row]. split; [apply tracks_next|]. destruct r' as [[e|]|e]; [by destruct (Hn e)|done..].
  - intros [[fresh|]|e] ps' ->; [done..|]. by destruct e.
Qed.

Lemma redeliver_task_tracks row : ends tracks [Claimed row] [] (redeliver_task svc row).
Proof.
  unfold redeliver_task. set (sid := oe_SubmissionID row). apply deferred_release.
  assert (∃ p, [Claimed row] = [p] ∧ lets_go sid p) as Hgive.
  { eexists. split; [done|]. apply lets_go_step. intros sh. apply by_sweep, sweep_gives_up. }
  eapply follows_bind; [apply reread_follows| |by intros e ? ->].
  intros [[fresh|]|e] ? ->; [|exact Hgive..]. fold sid.
  eapply follows_bind.
  - apply attempt_follows, (deliver_follows (Fresh sid fresh) (SweptSent sid fresh) sid).
    intros sh. apply by_sweep, sweep_accepted.
  - intros [[]|e] ? ->; apply follows_call; intros w; eexists (_ :: []).
    + split; [|eexists; split; [done|apply lets_go_releasing]].
      apply (mark_tracks _ sid); intros; apply by_sweep; [apply sweep_marks|apply sweep_mark_fails].
    + split; [|eexists; split; [done|apply lets_go_releasing]]. apply settle_tracks.
  - intros e ? ->. eexists. split; [done|apply lets_go_fresh].
Qed.

(** A row of the loop; a sweep that is cancelled leaves the rest where it is. *)
Lemma sweep_row_follows blocked row :
  follows tracks (λ r ps, match r with Ok _ => ps = [] | Err _ => Forall idle ps end)
    [Listed row] (sweep_row_task svc blocked row).
Proof.
  set (b := bool_decide (oe_SubmissionID row ∈ blocked)).
  assert (∀ w, tracks [Listed row] [] w w) as Hdrop.
  { intros w. apply tracks_own; [done..|]. intros sh Hr. exists sh. split; [by apply runs_idle|done]. }
  unfold sweep_row_task. fold b.
  eapply (follows_bind _ (λ r ps, ps = match r with Ok _ => if b then [] else [Listed row] | Err _ => [] end)).
  - apply follows_call. intros w. eexists. split; [|done]. unfold check_ctx.
    destruct (env_cancelled (w_tick w)), b; cbn; [apply Hdrop..|by apply resting_still].
  - intros [] ? ->. destruct b; [done|].
    eapply (follows_bind _ (λ r ps, match r with Ok c => ps = if (c : bool) then [Claimed row] else [] | Err _ => False end)).
    + apply follows_call. intros w. unfold claimDispatch, mbind, M_bind. cbn.
      case_bool_decide as Hin; cbn; eexists; (split; [|done]); [apply Hdrop|].
      apply tracks_own; [done..|]. intros sh Hr. exists (sh_claim (oe_SubmissionID row) sh). split.
      * apply runs_pc, by_sweep, sweep_claims. by rewrite (rel_held _ _ Hr).
      * pose proof Hr as [Hd Hh Hs _]. eapply related_later; cbn; try done. by rewrite Hh.
    + intros [] ? ->; [|done]. eapply follows_weaken; [apply redeliver_task_tracks|]. by intros [] ? ->.
    + by intros.
  - by intros e ? ->.
Qed.

Lemma idle_listed rows : Forall idle (map Listed rows).
Proof. induction rows; by constructor. Qed.

Lemma sweep_rows_follow blocked rows :
  follows tracks (λ _, Forall idle) (map Listed rows) (tfor_each (sweep_row_task svc blocked) rows).
Proof.
  induction rows as [|row rows IH]; cbn [tfor_each]; [by constructor|].
  eapply follows_bind; [exact (follows_frame _ _ (map Listed rows) _ (sweep_row_follows blocked row))|..].
  - intros [] ? (ps1 & -> & ->). exact IH.
  - intros e ? (ps1 & -> & Hps1). apply Forall_app. split; [done|apply idle_listed].
Qed.

(** Listing: undecodable rows are failed, the others are the sweep's. *)
Lemma poison_tracks ps id a reason w :
  tracks ps ps w (log_err (Outbox_Update id OutboxFailed a reason) w).2.
Proof.
  destruct (update_world id OutboxFailed a reason w) as [Hj Ht]. apply tracks_own; [done..|]. intros sh Hr.
  destruct (update_simulated id OutboxFailed a reason w sh Hr) as [Hf|(now & d2 & Hu & Hrel)].
  - exists sh. split; [apply runs_refl|done].
  - exists (sh_write d2 sh). split; [|exact (Hrel (λ h, h))]. apply runs_background. by eapply poisons.
Qed.

Lemma poison_rows_track ps rows w :
  ∃ w', for_each (λ r, log_err (Outbox_Update r.(or_id) OutboxFailed (r.(or_attempts) + 1) "undecodable reply_json")) rows w =
    (Ok (), w') ∧ tracks ps ps w w'.
Proof.
  revert w. induction rows as [|r rows IH]; intros w; cbn [for_each]; [exists w; split; [done|by apply resting_still]|].
  destruct (log_err_Ok (Outbox_Update r.(or_id) OutboxFailed (r.(or_attempts) + 1) "undecodable reply_json")
    (calm_Outbox_Update _ _ _ _) w) as (w1 & Hw1).
  destruct (IH w1) as (w2 & Hw2 & Ht2). exists w2. split; [by rewrite (bind_ok _ _ _ _ _ Hw1)|].
  eapply tracks_trans; [|exact Ht2].
  pose proof (poison_tracks ps r.(or_id) (r.(or_attempts) + 1) "undecodable reply_json" w) as Ht. by rewrite Hw1 in Ht.
Qed.

Lemma runs_listed sh now cutoff rows :
  (∀ r, r ∈ rows → r ∈ sh_outbox sh ∧ is_due now cutoff r = true) →
  runs_to sh [] sh (map Listed (decoded rows)).
Proof.
  induction rows as [|r rows IH]; intros Hrows; [apply runs_refl|].
  assert (runs_to sh [] sh (map Listed (decoded rows))) as Hrest.
  { apply IH. intros r' Hr'. apply Hrows. by right. }
  unfold decoded in *. cbn. destruct (or_reply r) as [reply|] eqn:Er; [|exact Hrest]. cbn.
  destruct (Hrows r ltac:(by left)) as [Hin Hdue].
  eapply runs_trans; [exact Hrest|]. apply (runs_frame _ _ [] _ [_]), runs_arrive. by eapply sweep_lists.
Qed.

Lemma query_cases {A} (f : DB → A) w :
  (∃ msg, query f w = (Err (ErrNew msg), w_next w)) ∨ query f w = (Ok (f (w_db w)), w_next w).
Proof. unfold query, stmt. destruct (env_fault _) as [msg|]; [left; by exists msg|right; by destruct w]. Qed.

Lemma list_follows what now cutoff limit :
  follows tracks (λ r ps, ps = match r with Ok rows => map Listed rows | Err _ => [] end) []
    (atomic (wrap_err what (ListPending now cutoff limit))).
Proof.
  apply follows_call. intros w. rewrite wrap_err_world.
  set (sel := λ d, select (is_due (UnixNano now) (UnixNano cutoff)) (λ a b, a.(or_not_before) <? b.(or_not_before))
    (limit_or limit 100) d.(db_outbox)).
  destruct (query_cases sel w) as [(msg & Hq)|Hq].
  - assert (ListPending now cutoff limit w = (Err (ErrWrap "outbox: query pending" (ErrNew msg)), w_next w)) as HL.
    { unfold ListPending, mbind, M_bind, wrap_err. fold sel. by rewrite Hq. }
    exists []. split; [rewrite HL; apply tracks_next|]. unfold wrap_err. by rewrite HL.
  - set (rows := sel (w_db w)) in *.
    destruct (poison_rows_track (map Listed (decoded rows)) (poison rows) (w_next w)) as (w' & Hp & Ht).
    assert (ListPending now cutoff limit w = (Ok (decoded rows), w')) as HL.
    { unfold ListPending. fold sel. erewrite bind_ok; [|unfold wrap_err; by rewrite Hq].
      by erewrite bind_ok by exact Hp. }
    exists (map Listed (decoded rows)). split; [|unfold wrap_err; by rewrite HL].
    rewrite HL. eapply tracks_trans; [|exact Ht]. apply tracks_own; [done|cbn; lia|]. intros sh Hr.
    exists sh. split; [|by apply related_next]. eapply (runs_listed sh (UnixNano now) (UnixNano cutoff)).
    intros r Hin%elem_of_select. by rewrite (rel_db _ _ Hr).
Qed.

Lemma outbox_task_follows : follows tracks (λ _, Forall idle) [] (outbox_task svc).
Proof.
  unfold outbox_task. eapply (follows_ton _ (λ _, Forall idle)).
  - unfold tlog_err, tattempt. eapply (follows_bind _ (λ _, Forall idle)).
    + eapply (follows_ton _ (λ _, Forall idle)); [|by intros [|[]]].
      unfold redeliver_outbox_task. destruct (repliesDisabled svc); [constructor|].
      eapply (follows_bind _ (λ _ ps, ps = [])); [by apply (ends_still tracks); intros ? ? ?; walk| |by intros ? ? ->].
      intros now ? ->. eapply follows_bind; [apply list_follows| |by intros ? ? ->]. intros rows ? ->.
      eapply (follows_bind _ (λ _ ps, ps = map Listed rows)).
      * apply (ends_still tracks). unfold blockedSubmissions, ReplyBlockedIDs. intros ? ? ?. walk.
      * intros blocked ? ->. apply sweep_rows_follow.
      * intros e ? ->. apply idle_listed.
    + by intros.
    + by intros.
  - intros [a|e] ps Hps; [done|]. destruct e; try done.
    eapply follows_weaken; [apply (ends_still tracks); auto with triage|]. by intros r ? ->.
Qed.

(** ** Expiry and pruning *)

Lemma expire_tracks what p reason ps w :
  (∀ r, p r = true → is_pending r = true) →
  tracks ps ps w ((now ← time_Now; wrap_err what (stmt (fail_where p reason now))) w).2.
Proof.
  intros Hp. unfold mbind, M_bind, time_Now. rewrite wrap_err_world. unfold stmt. cbn [w_tick w_next w_db].
  destruct (env_fault (S (w_tick w))) as [msg|]; [eapply tracks_trans; apply tracks_next|].
  destruct (fail_where p reason (env_now (w_tick w)) (w_db w)) as [[n d]|e] eqn:Ef;
    [|eapply tracks_trans; apply tracks_next]. cbn [snd].
  apply tracks_own; [done|cbn; lia|]. cbn [w_tick w_with_db w_next]. intros sh Hr.
  pose proof Hr as [Hd Hh Hs _]. exists (sh_write d sh). split.
  - apply runs_background. eapply (expires sh p); [done|by rewrite Hd].
  - eapply related_later; cbn; try done. lia.
Qed.

Lemma prune_tracks ps t w : tracks ps ps w (Outbox_Prune t w).2.
Proof.
  unfold Outbox_Prune. rewrite wrap_err_world. unfold stmt.
  destruct (env_fault (w_tick w)) as [msg|]; [apply tracks_next|]. cbn [snd].
  apply tracks_own; [done|cbn; lia|]. intros sh Hr. pose proof Hr as [Hd Hh Hs _].
  eexists. split; [apply runs_background, (prunes sh t)|].
  eapply related_later; cbn; try done; [by rewrite Hd|lia].
Qed.

Lemma pending_and b c : (b && c = true) → b = true.
Proof. by destruct b. Qed.

Lemma ends_call_tracks {A} ps (m : M A) : (∀ w, tracks ps ps w (m w).2) → ends tracks ps ps (atomic m).
Proof. intros Hm. apply follows_call. intros w. by exists ps. Qed.

Lemma ExpirePending_tracks ps t : ends tracks ps ps (atomic (ExpirePending t)).
Proof. apply ends_call_tracks. intros w. apply expire_tracks. intros r. apply pending_and. Qed.

Lemma ExpireFor_tracks ps ids' reason : ends tracks ps ps (atomic (log_err (ExpirePendingForSubmissions ids' reason))).
Proof.
  apply ends_call_tracks. intros w. rewrite log_err_world. unfold ExpirePendingForSubmissions.
  case_bool_decide; [by apply resting_still|]. apply expire_tracks. intros r. apply pending_and.
Qed.

Lemma Outbox_Prune_tracks ps t : ends tracks ps ps (atomic (Outbox_Prune t)).
Proof. apply ends_call_tracks. intros w. apply prune_tracks. Qed.

#[local] Hint Resolve ExpirePending_tracks ExpireFor_tracks Outbox_Prune_tracks : ghost.

Lemma hold_task_tracks ps l : ends tracks ps ps (hold_task l).
Proof. unfold hold_task, SubmissionIDsByMessageIDs, ListHeldIDs. gwalk. Qed.

Lemma retention_task_tracks ps : ends tracks ps ps (retention_task svc).
Proof. unfold retention_task, prune_task. gwalk. Qed.

(** ** The digest *)

Lemma delivered_digests replies all sent :
  Forall is_digest sent → delivered replies all → delivered replies (all ++ map fst sent).
Proof.
  intros Hd. revert all. induction Hd as [|[r mid] sent Hr _ IH]; intros all Ha; cbn; [by rewrite app_nil_r|].
  rewrite (cons_middle r all (map fst sent)), app_assoc. apply IH. by apply delivered_digest.
Qed.

Lemma digest_tracks ps w : tracks ps ps w (digest_tick svc w).2.
Proof.
  destruct (digest_digested svc w) as (Hd & Hj & Ho & Ht & sent & Hs & Hf).
  apply tracks_own; [done..|]. intros sh Hr. pose proof Hr as [Hdb Hh Hse _].
  exists (sh_write (w_db (digest_tick svc w).2) sh). split.
  - apply runs_background, other_tables. by rewrite Ho, Hdb.
  - eapply related_later; cbn; try done; [by rewrite Hd|].
    rewrite Hs, map_app. by apply delivered_digests.
Qed.

(** ** The ingest's reply *)

Lemma transaction_ok {A} (m : M A) a w w' :
  transaction false m w = (Ok a, w') → ∃ w2, m (w_next w) = (Ok a, w2) ∧ w' = w_next w2.
Proof.
  unfold transaction, tx_body.
  destruct (query_cases id w) as [(msg & Hq)|Hq].
  { erewrite bind_err by (unfold wrap_err; by rewrite Hq). done. }
  erewrite bind_ok by (unfold wrap_err; by rewrite Hq). destruct (m (w_next w)) as [[b|e] w2] eqn:Em.
  - erewrite bind_ok by exact Em. destruct (query_cases id w2) as [(msg & Hq2)|Hq2].
    + erewrite bind_err by (unfold wrap_err; by rewrite Hq2). done.
    + erewrite bind_ok by (unfold wrap_err; by rewrite Hq2). intros [= <- <-]. by exists w2.
  - erewrite bind_err by exact Em. done.
Qed.

Lemma commit_ok_at s e e' w w' :
  oe_ID e ≠ "" → UpsertSubmissionWithReply s e w = (Ok e', w') →
  ∃ n d1, (w_tick w ≤ n < w_tick w')%nat ∧ db_outbox d1 = db_outbox (w_db w) ∧
    upsert_outbox (outbox_values (committed_entry (env_now n) e)) d1 = Ok (oe_ID e', w_db w') ∧
    oe_UpdatedAt e' = env_now n.
Proof.
  intros Hid. unfold UpsertSubmissionWithReply. case_bool_decide; [done|].
  intros (w2 & Hm & ->)%transaction_ok. destruct (upsert_rows s (w_next w)) as [[[]|err] w1] eqn:Er.
  2: by rewrite (bind_err _ _ _ _ _ Er) in Hm.
  rewrite (bind_ok _ _ _ _ _ Er) in Hm.
  destruct (still_upsert_rows s (mem (w_next w)) _ _ (w_next w) (conj eq_refl (conj eq_refl (le_n _)))) as (_ & Ho & Ht).
  rewrite Er in Ho, Ht. cbn [snd w_db w_next w_tick] in Ho, Ht.
  unfold insertOutboxRow, wrap_err, mbind, M_bind, time_Now in Hm. rewrite bool_decide_false in Hm by done. cbn in Hm.
  unfold stmt in Hm. cbn [w_tick w_next w_db] in Hm.
  destruct (env_fault (S (w_tick w1))) as [msg|]; [done|]. fold (committed_entry (env_now (w_tick w1)) e) in Hm.
  destruct (upsert_outbox _ (w_db w1)) as [[row d]|err] eqn:Eu; [|by destruct err].
  injection Hm as <- <-. exists (w_tick w1), (w_db w1). cbn. split_and!; [lia..|done|exact Eu|done].
Qed.

Lemma commit_frame s e w :
  mem (UpsertSubmissionWithReply s e w).2 = mem w ∧ (w_tick w ≤ w_tick (UpsertSubmissionWithReply s e w).2)%nat.
Proof.
  split; [by apply (mem_UpsertSubmissionWithReply (mem w) s e w)|].
  assert (preserves (Tick (w_tick w)) (UpsertSubmissionWithReply s e)) as Ht; [|exact (Ht w (le_n _))].
  unfold UpsertSubmissionWithReply. case_bool_decide; [by intros ? ?|]. apply tick_transaction.
  apply preserves_bind.
  - intros w1 Hw1. by destruct (still_upsert_rows s (mem w1) _ _ w1 (conj eq_refl (conj eq_refl Hw1))) as (_ & _ & ?).
  - intros []. unfold insertOutboxRow. pose proof (tick_uuid (w_tick w)). pose proof (tick_now (w_tick w)).
    pose proof (λ A f, @tick_stmt E (w_tick w) A f). walk.
Qed.

(** The entry an ingest queues. *)
Definition drafted (reply : Reply) (sid : string) (notBefore : time) (id : string) : OutboxEntry :=
  mkOutboxEntry id sid reply OutboxPending 0 "" zeroTime zeroTime notBefore.

Lemma draw_follows reply sid notBefore :
  follows tracks (λ r ps, match r with
      | Ok (id, claimed) => id ≠ "" ∧ ps = [Committing claimed (drafted reply sid notBefore id)]
      | Err _ => False
      end) [] (atomic (draw_claim sid)).
Proof.
  apply follows_call. intros w. set (id := env_uuid (w_tick w)). set (e := drafted reply sid notBefore id).
  assert (∀ sh, related w sh → sh_owner sh !! id = None) as Hnew.
  { intros sh Hr. destruct (sh_owner sh !! id) as [o|] eqn:Eo; [|done].
    destruct (rel_ids _ _ Hr id) as (n & Hn & Hu); [by rewrite Eo|]. by destruct (proj2 (ids n) (w_tick w)); [lia|]. }
  assert (∀ sh sh' w', related w sh → sh_db sh' = sh_db sh → sh_sent sh' = sh_sent sh →
    sh_owner sh' = <[ id := sid ]> (sh_owner sh) → w_db w' = w_db w → w_sent w' = w_sent w →
    w_tick w' = S (w_tick w) → sh_held sh' = w_dispatching w' → related w' sh') as Hrel.
  { intros sh sh' w' [Hd Hh Hs Hi] Hdb Hse Ho Hd' Hs' Ht Hh'. split; [congruence|done|by rewrite Hse, Hs'|..].
    rewrite Ho, Ht. intros i. destruct (decide (i = id)) as [->|Hne].
    - intros _. exists (w_tick w). split; [lia|done].
    - rewrite lookup_insert_ne by done. intros Hin. destruct (Hi i Hin) as (n & Hn & Hu). exists n. split; [lia|done]. }
  unfold draw_claim, claimDispatch, mbind, M_bind. cbn. case_bool_decide as Hin; cbn;
    eexists; (split; [|split; [apply ids|done]]); (apply tracks_own; [done|cbn; lia|]); cbn [w_tick w_next w_with_dispatching];
    intros sh Hr.
  - exists (sh_issue id sid sh). split.
    + apply runs_arrive, (ingest_finds_claim sh e); [done|by apply Hnew|]. by rewrite (rel_held _ _ Hr).
    + eapply Hrel; try done. exact (rel_held _ _ Hr).
  - exists (sh_claim sid (sh_issue id sid sh)). split.
    + apply runs_arrive, (ingest_claims sh e); [done|by apply Hnew|]. by rewrite (rel_held _ _ Hr).
    + eapply Hrel; try done. cbn. by rewrite (rel_held _ _ Hr).
Qed.

(** Where the commit leads. *)
Definition committed_as (e : OutboxEntry) (claimed : bool) (r : result OutboxEntry) : list pc :=
  if claimed then
    [match r with
     | Ok e' => Committed (mkReplyJob e.(oe_Reply) e.(oe_SubmissionID) e'.(oe_ID) e'.(oe_UpdatedAt))
     | Err _ => Releasing e.(oe_SubmissionID)
     end]
  else [].

Lemma commit_tracks s e claimed w :
  oe_ID e ≠ "" →
  tracks [Committing claimed e] (committed_as e claimed (UpsertSubmissionWithReply s e w).1) w
    (UpsertSubmissionWithReply s e w).2.
Proof.
  intros Hid. destruct (commit_frame s e w) as [Hm Ht].
  pose proof (λ e' w', commit_ok_at s e e' w w' Hid) as Hok.
  assert (∀ err w', UpsertSubmissionWithReply s e w = (Err err, w') → w_db w' = w_db w) as Herr.
  { intros err w'. unfold UpsertSubmissionWithReply. case_bool_decide; [by intros [= _ <-]|].
    pose proof (transaction_atomic false (upsert_rows s ≫= λ _, insertOutboxRow e) w) as Ha.
    intros Hw. by rewrite Hw in Ha. }
  destruct (UpsertSubmissionWithReply s e w) as [[e'|err] w'] eqn:Ew; cbn [fst snd] in *;
    unfold mem in Hm; injection Hm as Hdis Hj _ Hse; apply tracks_own; try done; intros sh Hr;
    pose proof Hr as [Hd Hh Hs _].
  - destruct (Hok e' w' eq_refl) as (n & d1 & Hn & Ho & Hu & Hup).
    eexists. split.
    + pose proof (commit_ok sh claimed e (env_now n) d1 _ _ ltac:(by rewrite Ho, Hd) Hu) as Hstep.
      unfold committed_as. rewrite Hup. destruct claimed; [apply runs_pc|apply runs_done]; by apply by_ingest.
    + eapply related_later; cbn; try done; [by rewrite Hh|by rewrite Hse].
  - exists sh. split.
    + unfold committed_as. destruct claimed; [apply runs_pc|apply runs_done]; apply by_ingest, commit_fails.
    + eapply related_later; try done; [by rewrite (Herr err w' eq_refl)|by rewrite Hh|by rewrite Hse].
Qed.

Lemma lets_go_committed job : lets_go (job_submissionID job) (Committed job).
Proof. apply lets_go_step. intros sh. apply by_ingest, enqueue_not. Qed.

Lemma unclaim_tracks {A} sid (claimed : bool) ps (r : result A) :
  (if claimed then ∃ p, ps = [p] ∧ lets_go sid p else ps = []) →
  ends tracks ps [] ((if claimed then atomic (releaseDispatch sid) else mret ()) ≫= λ _, TRet r).
Proof.
  destruct claimed; [intros (p & -> & Hp)|by intros ->].
  eapply (follows_bind _ (λ r ps, ps = [] ∧ is_ok r = true)); [|by intros [] ? [-> _]|by intros ? ? [_ ?]].
  apply follows_call. intros w. exists []. split; [by apply release_tracks|done].
Qed.

Lemma enqueue_follows job :
  follows tracks (λ r ps, match r with Ok queued => ps = if (queued : bool) then [] else [Committed job] | Err _ => False end)
    [Committed job] (atomic (enqueueReply svc job)).
Proof.
  apply follows_call. intros w. unfold enqueueReply, mbind, M_bind. cbn.
  destruct (w_closed w); cbn; [eexists; split; [by apply resting_still|done]|].
  destruct (_ <? _); cbn; eexists; (split; [|done]); [|by apply resting_still].
  split; [done|]. intros sh Hr. exists sh. split; [|destruct Hr; by split].
  cbn. rewrite map_app. eapply (runs_perm _ _ ([Committed job] ++ queued w) _ _ ([Queued job] ++ queued w)); [done|by rewrite Permutation_app_comm|].
  apply runs_frame, runs_pc, by_ingest, enqueue_ok.
Qed.

Lemma queue_task_tracks sub reply fp res : ends tracks [] [] (queue_task svc sub reply fp res).
Proof.
  unfold queue_task. set (sub' := sub_with_LastReplyHash fp sub). apply ends_bind; [gwalk|]. intros now.
  set (notBefore := replyNotBefore svc sub' now).
  eapply follows_bind; [apply (draw_follows reply (sub_ID sub') notBefore)| |by intros].
  intros [id claimed] ? [Hid ->]. fold (drafted reply (sub_ID sub') notBefore id). set (e := drafted _ _ _ id).
  eapply (follows_bind _ (λ r ps, match r with Ok r => ps = committed_as e claimed r | Err _ => False end)).
  - eapply (follows_ton _ (λ r ps, ps = committed_as e claimed r ∧ ∀ msg, r ≠ Err (ErrPanic msg))).
    + apply follows_call. intros w. eexists. split; [by apply commit_tracks|].
      split; [done|]. apply calm_UpsertSubmissionWithReply.
    + intros [a|err] ? [-> Hp]; [done|]. destruct err; try done. by destruct (Hp msg).
  - intros [e'|err] ? ->; cbn [committed_as].
    + set (job := mkReplyJob reply (sub_ID sub') (oe_ID e') (oe_UpdatedAt e')).
      destruct claimed; cbn [andb committed_as]; [|done].
      assert (∃ p, [Committed job] = [p] ∧ lets_go (sub_ID sub') p) as Hgo
        by (eexists; split; [done|apply (lets_go_committed job)]).
      destruct (negb _); [|by apply (unclaim_tracks (sub_ID sub') true)].
      eapply follows_bind; [apply (enqueue_follows job)| |by intros].
      intros [] ? ->; [done|by apply (unclaim_tracks (sub_ID sub') true)].
    + apply unclaim_tracks. destruct claimed; cbn; [|done]. eexists. split; [done|apply lets_go_releasing].
  - by intros.
Qed.

Lemma task_of_tracks e : follows tracks (λ _, Forall idle) [] (task_of svc e).
Proof.
  assert (∀ t, ends tracks [] [] t → follows tracks (λ (_ : result unit), Forall idle) [] t) as Hends.
  { intros t Ht. eapply follows_weaken; [exact Ht|]. by intros ? ? ->. }
  destruct e; cbn [task_of].
  - apply Hends, ends_log_err, (ingest_task_ends svc tracks), queue_task_tracks.
  - apply Hends, worker_task_tracks.
  - apply outbox_task_follows.
  - apply Hends, (checks_task_rests svc tracks).
  - apply Hends, ends_call_tracks, digest_tracks.
  - apply Hends, ends_log_err, hold_task_tracks.
  - apply Hends, retention_task_tracks.
  - apply Hends, (file_failed_rests tracks).
Qed.

(** ** The process *)

Notation process_step := (Tasks.step (task_of svc)).

(** Every goroutine is where its counters say, and the counters are those of a reachable
    state of [Dispatch]. *)
Definition simulated (p : system) : Prop :=
  ∃ pss, Forall2 (λ ps t, follows tracks (λ _, Forall idle) ps t) pss (sy_tasks p) ∧
    ∃ sh l, reachable maxAttempts (sh, l) ∧ upto l (concat pss ++ queued (sy_world p)) ∧ related (sy_world p) sh.

Lemma reachable_runs sh l sh' ps ps' others :
  reachable maxAttempts (sh, l) → runs_to sh ps sh' ps' → upto l (ps ++ others) →
  ∃ l', reachable maxAttempts (sh', l') ∧ upto l' (ps' ++ others).
Proof.
  intros (c0 & Hi & Hc) Hrun Hl. destruct (Hrun others l Hl) as (l' & Hs & Hl').
  exists l'. split; [|done]. exists c0. split; [done|by etrans].
Qed.

Lemma simulated_task ts w i m t w' :
  ts !! i = Some (TStep m) → m w = (t, w') →
  simulated (mkSystem ts w) → simulated (mkSystem (<[ i := t ]> ts) w').
Proof.
  intros Hi Hm (pss & Ht & Hsim). cbn in *. destruct (Forall2_lookup_r _ _ _ _ _ Ht Hi) as (ps & Hps & Hf).
  destruct (follows_step_inv _ _ _ _ _ _ _ Hf Hm) as (ps' & [Htick Htr] & Hf').
  exists (<[ i := ps' ]> pss). split; [by apply Forall2_insert|]. cbn.
  destruct Hsim as (sh & l & Hreach & Hl & Hr). destruct (Htr sh Hr) as (sh' & Hrun & Hr').
  set (rest := concat (take i pss) ++ concat (drop (S i) pss)).
  assert (∀ qs, concat (take i pss ++ qs :: drop (S i) pss) ≡ₚ qs ++ rest) as Hcat.
  { intros qs. rewrite concat_app. cbn. apply Permutation_app_swap_app. }
  rewrite <-(take_drop_middle _ _ _ Hps), Hcat in Hl.
  destruct (reachable_runs _ _ _ _ _ rest Hreach Hrun) as (l' & Hreach' & Hl').
  { by rewrite <-app_assoc, (Permutation_app_comm (queued w)), app_assoc. }
  exists sh', l'. split_and!; [done| |done].
  rewrite insert_take_drop by (by eapply lookup_lt_Some). rewrite Hcat.
  by rewrite <-app_assoc, (Permutation_app_comm rest), app_assoc.
Qed.

Lemma simulated_start ts w e : simulated (mkSystem ts w) → simulated (mkSystem (ts ++ [task_of svc e]) w).
Proof.
  intros (pss & Ht & Hsim). exists (pss ++ [[]]). split.
  - apply Forall2_app; [done|]. constructor; [apply task_of_tracks|constructor].
  - cbn in *. by rewrite concat_app, app_nil_r.
Qed.

Lemma simulated_crash ts w : simulated (mkSystem ts w) → simulated (mkSystem [] (reboot w)).
Proof.
  intros (pss & _ & Hsim). exists []. split; [constructor|]. cbn in *.
  destruct Hsim as (sh & l & (c0 & Hi & Hc) & _ & [Hd Hh Hs Hids]).
  eexists _, []. split_and!.
  - exists c0. split; [done|]. eapply rtc_r; [exact Hc|apply step_crash].
  - by exists [].
  - by split.
Qed.

Lemma simulated_empty : simulated (mkSystem [] empty_world).
Proof.
  exists []. split; [constructor|]. exists (mkShared empty_db ∅ [] ∅ [] no_history), []. split_and!.
  - eexists. split; [by exists empty_db|done].
  - by exists [].
  - split; try done. constructor.
Qed.

Lemma process_simulated p : rtc process_step (mkSystem [] empty_world) p → simulated p.
Proof.
  intros Hp. remember (mkSystem [] empty_world) as p0 eqn:Hp0.
  assert (simulated p0) as H0 by (subst p0; apply simulated_empty). clear Hp0.
  induction Hp as [|p1 p2 p3 Hs _ IH]; [done|]. apply IH.
  destruct Hs; eauto using simulated_start, simulated_task, simulated_crash.
Qed.
End refines.

(** What was sent as a reply was sent. *)
Lemma delivered_all replies all r : delivered replies all → r ∈ replies → r ∈ all.
Proof. induction 1 as [|replies all r' _ IH|replies all r' _ _ IH]; rewrite ?elem_of_app; naive_solver. Qed.

(** C10: when no id is drawn twice, every state the service's goroutines reach at the calls
    of their code, on any clock, under any interleaving, with any failures and crashes, is a
    reachable state of the concurrent dispatch model with the same database, claims and
    replies acknowledged by the mail server and with every queued job waiting in it.  So
    what holds of that model holds of the service; in particular a row marked as sent
    holds a text the mail server acknowledged, unless another text of the row that was
    acknowledged had been given the very same [updated_at]. *)
Theorem service_refines_dispatch (L : GoLib) (E : Env) (svc : Service) (p : system) :
  ids_are_fresh E → rtc (Tasks.step (task_of svc)) (mkSystem [] empty_world) p →
  ∃ sh l, reachable svc.(sv_outboxMaxAttempts) (sh, l) ∧ related (sy_world p) sh ∧
    (∀ job, job ∈ w_jobs (sy_world p) → Queued job ∈ l) ∧
    ∀ r, r ∈ db_outbox (w_db (sy_world p)) → or_status r = OutboxSent →
      ∃ m reply, reply ∈ map fst (w_sent (sy_world p)) ∧ (m, reply) ∈ sh.(sh_sent) ∧
        (stored_as reply r.(or_reply) ∨ ∃ n, n ≠ m ∧ tied sh r.(or_id) m n).
Proof.
  intros Hids Hp. destruct (process_simulated svc Hids p Hp) as (pss & _ & sh & l & Hreach & (junk & _ & Hl) & Hr).
  exists sh, l. split_and!; [done..| |].
  - intros job Hj. rewrite Hl, !elem_of_app. right. right. by apply list_elem_of_fmap_2.
  - intros r Hin Hst. apply reachable_inv in Hreach. rewrite <-(rel_db _ _ Hr) in Hin.
    destruct (sent_row_text _ _ (in_rows _ Hreach) Hin) as (m & reply & Hsent & _ & Htext).
    { by apply bool_decide_eq_true. }
    exists m, reply. split_and!; [|done|destruct Htext as [?|(n & text & Hne & _ & _ & Htie)]; [by left|right; by exists n]].
    eapply delivered_all; [apply (rel_sent _ _ Hr)|]. by apply (list_elem_of_fmap_2 snd _ (m, reply)).
Qed.

(** ** A run: an ingest queues a reply and a worker sends it *)

Definition sent_schedule : list (choice (Ev := event)) :=
  CStart (EvIngest first_mail) :: replicate 40 (CTask 0) ++ CStart EvWorker :: replicate 12 (CTask 1).
Definition sent_system : system :=
  play (task_of (L := demo_lib) (E := demo_env) demo_service) sent_schedule (mkSystem [] empty_world).

Lemma sent_system_rows : map or_status (db_outbox (w_db (sy_world sent_system))) = [OutboxSent].
Proof. vm_compute. reflexivity. Qed.

Lemma demo_fresh : ids_are_fresh demo_env.
Proof.
  intros n. split; [done|]. intros m Hm. cbn. intros Heq.
  injection Heq as Heq. change (pretty (Z.of_nat n) = pretty (Z.of_nat m)) in Heq. apply (inj pretty) in Heq. lia.
Qed.

Lemma service_refines_dispatch_witness :
  map or_status (db_outbox (w_db (sy_world sent_system))) = [OutboxSent] ∧
  ∃ sh l, reachable demo_service.(sv_outboxMaxAttempts) (sh, l) ∧ related (E := demo_env) (sy_world sent_system) sh ∧
    (∀ job, job ∈ w_jobs (sy_world sent_system) → Queued job ∈ l) ∧
    ∀ r, r ∈ db_outbox (w_db (sy_world sent_system)) → or_status r = OutboxSent →
      ∃ m reply, reply ∈ map fst (w_sent (sy_world sent_system)) ∧ (m, reply) ∈ sh.(sh_sent) ∧
        (stored_as reply r.(or_reply) ∨ ∃ n, n ≠ m ∧ tied sh r.(or_id) m n).
Proof.
  split; [apply sent_system_rows|].
  apply (service_refines_dispatch demo_lib demo_env demo_service sent_system demo_fresh).
  apply play_steps.
Defined.
