(* ===== verification/SweepProps.v ===== *)
(** What the periodic checks may change.

    Escalation and closure only touch the rows their rules select, and only the state
    of the case; the Hold folder is mirrored exactly; retention never drops a reply
    that is still to be sent. *)
From Stdlib Require Import ZArith.
From stdpp Require Import base list strings gmap.
From S2P Require Import Prelude GoStrings GoValues Submission Checklist Classifier ChecklistStore Tables World Repository OutboxRepo Persistence RepositoryProps Config Service Ingest Delivery Sweeps ServiceInv Demo IngestProps DeliveryProps.

Open Scope Z_scope.

(** ** Writing back a listed submission *)

(** Everything but the submissions and the audit log. *)
Definition rest (d : DB) : list Email * list Document * list outbox_row :=
  (d.(db_emails), d.(db_documents), d.(db_outbox)).

(** Each row is related to the one it was. *)
Definition rows_step (R : submission_row → submission_row → Prop) (d0 d : DB) : Prop :=
  Forall2 R d0.(db_submissions) d.(db_submissions) ∧ rest d = rest d0.

Lemma rows_step_refl R d : (∀ r, R r r) → rows_step R d d.
Proof. intros HR. split; [|done]. apply Forall_Forall2_diag, Forall_true, HR. Qed.

Lemma rows_step_member R d0 d r :
  rows_step R d0 d → r ∈ d.(db_submissions) → ∃ r0, r0 ∈ d0.(db_submissions) ∧ R r0 r.
Proof.
  intros [Hall _] [i Hi]%list_elem_of_lookup.
  destruct (Forall2_lookup_r _ _ _ _ _ Hall Hi) as (r0 & Hr0 & HR).
  exists r0. split; [by eapply list_elem_of_lookup_2|done].
Qed.

(** The column a time is stored in; for the zero time it is the time of the write. *)
Definition stamped (t : time) (stored : Z) : Prop := IsZero t = false → stored = UnixNano t.

(** The row of a case that a sweep moved to state [st]: the clocks are given, the items are
    in the current encoding, and every other column is the one it was (a time read from
    its column and stored again). *)
Definition moved_row (st : State) (updated lastAction : Z) (escalatedAt lastEscalatedAt : option Z)
    (r : submission_row) : submission_row :=
  let s := r.(sr_data) in
  mkSubmissionRow
    (mkSubmission s.(sub_ID) s.(sub_PolicyType) st s.(sub_SubjectLine) s.(sub_FromAddress) s.(sub_FromName)
       s.(sub_ThreadKey) s.(sub_CreatedAt) updated lastAction s.(sub_LastReplyAt) escalatedAt
       s.(sub_NeedsReview) s.(sub_OnHold) s.(sub_DeliveryFailed) s.(sub_NamedInsured)
       (UnixNano <$> s.(sub_EffectiveDate)) lastEscalatedAt (UnixNano <$> s.(sub_CompletedAt))
       s.(sub_LastReplyHash) s.(sub_PolicyClarifyAsks) [] [] [])
    (MissingCurrent (map json_item (decodeMissingItems r.(sr_missing)))).

Section upsert.
Context {L : GoLib} {E : Env}.

(** A submission read by a sweep has no emails or documents, so writing it back writes
    its row. *)
Lemma upsert_listed s w :
  s.(sub_Emails) = [] → s.(sub_Documents) = [] →
  match UpsertSubmission s w with
  | (Ok _, w') => ∃ c u l, stamped s.(sub_UpdatedAt) u ∧ stamped s.(sub_LastActionAt) l ∧ w_db w' =
      db_with_submissions (upsert_by sr_id submission_merge (submission_values s c u l)
                             (w_db w).(db_submissions)) (w_db w)
  | (Err _, w') => w_db w' = w_db w
  end.
Proof.
  intros He Hd. unfold UpsertSubmission. case_bool_decide; [done|].
  pose proof (transaction_atomic false (upsert_rows s) w) as Hat.
  destruct (transaction _ _ _) as [[[]|e] w']; [|done].
  destruct Hat as (w1 & w2 & Hw1 & Hrun & Hw'). cbn. rewrite Hw', <- Hw1.
  revert Hrun. unfold upsert_rows, upsertSubmissionRow. rewrite He, Hd. destruct (negb _); [done|].
  assert (∀ t w1, ∃ c w2, nanoOrNow t w1 = (Ok c, w2) ∧ w_db w2 = w_db w1 ∧ stamped t c) as Hnano.
  { intros t w3. unfold nanoOrNow, stamped. destruct (IsZero t); eexists _, _; split_and!; done. }
  unfold mbind, M_bind.
  destruct (Hnano (sub_CreatedAt s) w1) as (c & w3 & -> & H1 & _).
  destruct (Hnano (sub_UpdatedAt s) w3) as (u & w4 & -> & H2 & Hu).
  destruct (Hnano (sub_LastActionAt s) w4) as (l & w5 & -> & H3 & Hl).
  unfold wrap_err, exec, stmt. destruct (env_fault (w_tick w5)); [done|]. cbn.
  intros [= <-]. exists c, u, l. split_and!; [done..|]. unfold insert_submission. cbn. by rewrite H3, H2, H1.
Qed.

(** Writing back [s] keeps the relation when the row of [s] may become its new self. *)
Lemma upsert_step R d0 s w :
  s.(sub_Emails) = [] → s.(sub_Documents) = [] →
  s.(sub_ID) ∈ map sr_id d0.(db_submissions) →
  (∀ r0 r, R r0 r → sr_id r = sr_id r0) →
  (∀ r0 r c u l, r0 ∈ d0.(db_submissions) → R r0 r → sr_id r0 = s.(sub_ID) →
     stamped s.(sub_UpdatedAt) u → stamped s.(sub_LastActionAt) l →
     R r0 (submission_merge r (submission_values s c u l))) →
  rows_step R d0 (w_db w) → rows_step R d0 (w_db (UpsertSubmission s w).2).
Proof.
  intros He Hd Hin Hids HR Hw. pose proof (upsert_listed s w He Hd) as Hup.
  destruct (UpsertSubmission s w) as [[[]|e] w']; cbn [snd]; [|by rewrite Hup].
  destruct Hup as (c & u & l & Hu & Hl & ->).
  destruct Hw as [Hall Hrest]. split; [|done]. cbn. unfold upsert_by.
  assert (map sr_id (db_submissions (w_db w)) = map sr_id (db_submissions d0)) as Hkeys.
  { clear -Hall Hids. induction Hall as [|? ? ? ? HR Hall IH]; cbn; [done|].
    by rewrite (Hids _ _ HR), IH. }
  assert (has_key sr_id (sr_id (submission_values s c u l)) (db_submissions (w_db w)) = true) as ->.
  { apply has_key_true. by rewrite Hkeys. }
  unfold update_where. apply Forall2_fmap_r.
  apply Forall2_same_length_lookup_2; [by eapply Forall2_length|].
  intros i r0 r Hr0 Hr. pose proof (Forall2_lookup_lr _ _ _ _ _ _ Hall Hr0 Hr) as HRr.
  cbn. case_bool_decide as Hid; [|done]. apply HR; [by eapply list_elem_of_lookup_2|done| |done|done].
  rewrite <- (Hids _ _ HRr). exact Hid.
Qed.

Lemma rows_step_append R d0 e : preserves (rows_step R d0 ∘ w_db) (Append e).
Proof.
  apply append_frame. unfold rows_step, rest. intros d d' [= Hs He Hd Ho] _.
  by rewrite Hs, He, Hd, Ho.
Qed.

Lemma rows_step_audit R d0 id evt p : preserves (rows_step R d0 ∘ w_db) (audit id evt p).
Proof. apply frame_audit. intros. apply rows_step_append. Qed.
End upsert.

(** ** Escalation *)

Section escalation.
Context {L : GoLib} {E : Env} (svc : Service) (now : time).

(** Awaiting the broker, deliverable, and with something the broker can act on. *)
Definition can_escalate (r : submission_row) : Prop :=
  r.(sr_data).(sub_State) = StateAwaiting ∧ r.(sr_data).(sub_OnHold) = false ∧
  r.(sr_data).(sub_DeliveryFailed) = false ∧
  BrokerActionable (decodeMissingItems r.(sr_missing)) ≠ [].

(** Quiet for as long as its checklist, or else the configuration, allows. *)
Definition quiet_too_long (r : submission_row) : Prop :=
  threshold_for svc (Threshold svc.(sv_cfg).(cfg_Escalation)) r.(sr_data) ≤
  Sub now r.(sr_data).(sub_LastActionAt).

(** Binding within the window, and not nudged within the minimum gap. *)
Definition binds_soon_unnudged (r : submission_row) : Prop :=
  let cfg := svc.(sv_cfg).(cfg_Escalation) in
  0 < BindWindow cfg ∧
  (∃ t, r.(sr_data).(sub_EffectiveDate) = Some t ∧
     UnixNano (startOfUTCDay (Add now (dur_neg (BindGrace cfg)))) ≤ t ≤ UnixNano (Add now (BindWindow cfg))) ∧
  ∀ t, r.(sr_data).(sub_LastEscalatedAt) = Some t → MinGap cfg ≤ Sub now t.

(** The row of [r] escalated: the state, the four clocks of it, and nothing else. *)
Definition escalated_row (updated lastAction : Z) (r : submission_row) : submission_row :=
  moved_row StateEscalated updated lastAction (Some (UnixNano now)) (Some (UnixNano now)) r.

(** A row as it was, or one the rules let escalate, escalated now. *)
Definition escalation_step (r0 r : submission_row) : Prop :=
  r = r0 ∨
  can_escalate r0 ∧ (quiet_too_long r0 ∨ binds_soon_unnudged r0) ∧
  ∃ updated lastAction, stamped now updated ∧ stamped now lastAction ∧ r = escalated_row updated lastAction r0.

Lemma escalation_step_id r0 r : escalation_step r0 r → sr_id r = sr_id r0.
Proof. by intros [->|(_ & _ & u & l & _ & _ & ->)]. Qed.

(** A row still awaiting was not touched. *)
Lemma escalation_step_awaiting r0 r :
  escalation_step r0 r → r.(sr_data).(sub_State) = StateAwaiting → r = r0.
Proof. by intros [->|(_ & _ & u & l & _ & _ & ->)]. Qed.


Context (d0 : DB) (Hwf : db_wf d0).
Notation Step := (rows_step escalation_step d0 ∘ w_db).

Lemma row_unique r r' :
  r ∈ d0.(db_submissions) → r' ∈ d0.(db_submissions) → sr_id r = sr_id r' → r = r'.
Proof.
  intros Hr Hr' Hid. pose proof (find_key_unique sr_id _ _ _ (wf_submission_ids _ Hwf) Hr Hid) as H1.
  rewrite (find_key_unique sr_id _ _ _ (wf_submission_ids _ Hwf) Hr' eq_refl) in H1. congruence.
Qed.

Lemma escalate_step r reason :
  r ∈ d0.(db_submissions) → r.(sr_data).(sub_State) = StateAwaiting → r.(sr_data).(sub_OnHold) = false →
  r.(sr_data).(sub_DeliveryFailed) = false → quiet_too_long r ∨ binds_soon_unnudged r →
  preserves Step (escalate (scanSubmission r) now reason).
Proof.
  intros Hr Hst Hh Hf Hwhy. unfold escalate. case_bool_decide as Hb; [walk|].
  assert (can_escalate r) as Hcan.
  { split_and!; try done. intros Hnil. apply Hb.
    change (sub_MissingItems (scanSubmission r)) with (decodeMissingItems (sr_missing r)). by rewrite Hnil. }
  unfold TransitionTo. change (sub_State (scanSubmission r)) with (sub_State (sr_data r)).
  rewrite Hst. rewrite bool_decide_false by done. cbn [allowed]. rewrite bool_decide_true by set_solver.
  pose proof (rows_step_audit escalation_step d0) as Ha.
  apply preserves_bind; [|walk]. apply preserves_attempt. intros w Hw. apply upsert_step; cbn; try done.
  - by apply (list_elem_of_fmap_2 sr_id).
  - apply escalation_step_id.
  - intros r0 r1 c u l Hr0 HR Hid Hu Hl. right. pose proof (row_unique r0 r Hr0 Hr Hid) as ->.
    split_and!; [done..|]. exists u, l. split_and!; [done..|].
    by destruct HR as [->|(_ & _ & u1 & l1 & _ & _ & ->)].
Qed.

(** What a listing returns, in terms of the rows. *)
Lemma list_submissions_rows P what where_ less limit :
  yields (P ∘ w_db) (list_submissions what where_ less limit)
    (λ subs, ∃ d, P d ∧ ∀ s, s ∈ subs → ∃ r, s = scanSubmission r ∧ r ∈ d.(db_submissions) ∧ where_ r = true).
Proof.
  unfold list_submissions. apply yields_wrap_err, yields_query. intros d Hd. exists d. split; [done|].
  intros s (r & -> & [Hr Hw]%elem_of_select)%list_elem_of_fmap. eauto.
Qed.

Lemma quiet_pass_step subs :
  (∀ s, s ∈ subs → ∃ r, s = scanSubmission r ∧ r ∈ d0.(db_submissions) ∧
     r.(sr_data).(sub_State) = StateAwaiting ∧ r.(sr_data).(sub_OnHold) = false ∧
     r.(sr_data).(sub_DeliveryFailed) = false) →
  preserves Step (quiet_pass svc (Threshold svc.(sv_cfg).(cfg_Escalation)) now subs).
Proof.
  induction subs as [|s subs IH]; intros Hsubs; cbn [quiet_pass]; [walk|].
  destruct (Hsubs s ltac:(left)) as (r & -> & Hr & Hst & Hh & Hf).
  assert (preserves Step (quiet_pass svc (Threshold (cfg_Escalation (sv_cfg svc))) now subs)) as Hrest.
  { apply IH. intros s' Hs'. apply Hsubs. by right. }
  apply preserves_bind; [|intros; apply preserves_bind; walk].
  destruct (_ <? _) eqn:Hlt; [walk|]. apply escalate_step; try done. left.
  by apply Z.ltb_ge in Hlt.
Qed.

Lemma bind_nudge_step escalated r :
  let cfg := svc.(sv_cfg).(cfg_Escalation) in
  0 < BindWindow cfg → r ∈ d0.(db_submissions) →
  binds_soon (UnixNano (startOfUTCDay (Add now (dur_neg (BindGrace cfg)))))
    (UnixNano (Add now (BindWindow cfg))) r = true →
  preserves Step (bind_nudge (MinGap cfg) now escalated (scanSubmission r)).
Proof.
  intros cfg Hw Hr Hb. unfold binds_soon in Hb.
  apply andb_true_iff in Hb as [[[Hst%bool_decide_eq_true Heff]%andb_true_iff Hh]%andb_true_iff Hf].
  apply negb_true_iff in Hh, Hf.
  assert (∃ t, sub_EffectiveDate (sr_data r) = Some t ∧
    UnixNano (startOfUTCDay (Add now (dur_neg (BindGrace cfg)))) ≤ t ≤ UnixNano (Add now (BindWindow cfg))) as Hdate.
  { destruct (sub_EffectiveDate (sr_data r)) as [t|]; [|done]. exists t. split; [done|].
    apply andb_true_iff in Heff as [? ?]. lia. }
  unfold bind_nudge. case_bool_decide; [walk|].
  change (sub_LastEscalatedAt (scanSubmission r)) with (sub_LastEscalatedAt (sr_data r)).
  destruct (sub_LastEscalatedAt (sr_data r)) as [t|] eqn:El.
  - destruct (_ <? _) eqn:Hlt; [walk|]. apply preserves_bind; [|walk]. apply escalate_step; try done.
    right. split_and!; [done..|]. rewrite El. intros t' [= <-]. by apply Z.ltb_ge in Hlt.
  - apply preserves_bind; [|walk]. apply escalate_step; try done.
    right. split_and!; [done..|]. by rewrite El.
Qed.
End escalation.

(** C14: the escalation check escalates only what its rules allow, and changes nothing
    else.  Whatever fails along the way, every submission row afterwards is as before, or
    is one that was awaiting the broker, neither held nor bounced, with an item the broker
    can act on, and was quiet past its threshold or binds within the window without a
    nudge in the minimum gap; of that row the state is now escalated, the times of the
    escalation, of the last escalation, of the last action and of the update are the
    check's, and every other column is as it was.  Emails, documents and replies do not
    change. *)
Theorem CheckEscalations_safe (E : Env) svc w :
  db_wf (w_db w) →
  rows_step (escalation_step svc (env_now (w_tick w))) (w_db w) (w_db (CheckEscalations svc w).2).
Proof.
  intros Hwf. set (now := env_now (w_tick w)). set (d0 := w_db w).
  assert (rows_step (escalation_step svc now) d0 d0) as H0 by (apply rows_step_refl; by left).
  set (Q := λ (_ : result unit) w', rows_step (escalation_step svc now) d0 (w_db w')).
  change (wp (CheckEscalations svc) Q w). unfold CheckEscalations.
  apply wp_bind. unfold wp at 1. cbn [time_Now fst snd]. fold now.
  apply (wp_yields (λ d, d = d0) _ _ _ _ _ (yields_wrap_err _ _ _ _ (list_submissions_rows _ _ _ _ _)));
    [done|intros e w' Hw'; unfold Q; by rewrite Hw'|].
  intros stale w1 Hw1 (d & -> & Hstale).
  apply (wp_yields (rows_step (escalation_step svc now) d0) _ (λ _, True)).
  { apply yields_any, quiet_pass_step; [exact Hwf|]. intros s Hs.
    destruct (Hstale s Hs) as (r & -> & Hr & Hst). exists r. unfold is_stale in Hst.
    apply andb_true_iff in Hst as [[[Hst%bool_decide_eq_true _]%andb_true_iff Hh]%andb_true_iff Hf].
    apply negb_true_iff in Hh, Hf. done. }
  { by rewrite Hw1. }
  { done. }
  intros escalated w2 Hw2 _. destruct (_ <=? 0) eqn:Hwin; [by apply wp_ret|]. apply Z.leb_gt in Hwin.
  eapply (wp_yields (rows_step (escalation_step svc now) d0) _ _ _ _ _
    (yields_wrap_err _ _ _ _ (list_submissions_rows _ _ _ _ _))); [exact Hw2|done|].
  intros soon w3 Hw3 (d & Hd & Hsoon).
  unfold wp, Q. refine ((_ : preserves (rows_step (escalation_step svc now) d0 ∘ w_db) _) w3 Hw3).
  apply preserves_for_each. intros s Hs. destruct (Hsoon s Hs) as (r & -> & Hr & Hb).
  destruct (rows_step_member _ _ _ _ Hd Hr) as (r0 & Hr0 & HR).
  assert (r = r0) as ->; [|by apply bind_nudge_step].
  apply (escalation_step_awaiting svc now); [done|]. unfold binds_soon in Hb.
  by apply andb_true_iff in Hb as [[[Hst%bool_decide_eq_true _]%andb_true_iff _]%andb_true_iff _].
Qed.

(** The demo service, a thousand hours in. *)
Definition late_env : Env :=
  {| env_now n := 1000 * Hour + Z.of_nat n; env_uuid n := "late-" +:+ fmt_d (Z.of_nat n);
     env_fault _ := None; env_send _ _ := Ok "<sent@mail>"; env_requestID _ := "";
     env_cancelled _ := None |}.

Definition states (w : World) : list State := map (sub_State ∘ sr_data) (w_db w).(db_submissions).

Definition late_world : World := (CheckEscalations (E := late_env) demo_service swept_world).2.

Lemma swept_states : states swept_world = [StateAwaiting].
Proof. vm_compute. reflexivity. Qed.

Lemma late_states : states late_world = [StateEscalated].
Proof. vm_compute. reflexivity. Qed.

(** A changed row satisfies the right-hand side of the step. *)
Lemma stepped_row (P : submission_row → submission_row → Prop) w w' s s' :
  states w = [s] → states w' = [s'] → s ≠ s' →
  rows_step (λ r0 r, r = r0 ∨ P r0 r) (w_db w) (w_db w') →
  ∃ r0 r, r0 ∈ (w_db w).(db_submissions) ∧ P r0 r.
Proof.
  unfold states. intros H0 H1 Hne [Hall _].
  destruct Hall as [|r0 r l0 l [->|HP] Hall]; [done| |].
  - cbn in *. congruence.
  - exists r0, r. split; [left|done].
Qed.

Lemma CheckEscalations_safe_witness :
  states late_world = [StateEscalated] ∧
  ∃ r, r ∈ (w_db swept_world).(db_submissions) ∧ can_escalate r.
Proof.
  split; [exact late_states|].
  destruct (stepped_row _ swept_world late_world StateAwaiting StateEscalated
    swept_states late_states ltac:(discriminate)
    (CheckEscalations_safe late_env demo_service swept_world swept_world_wf)) as (r & r' & Hr & Hc & _).
  exists r. split; [exact Hr|exact Hc].
Defined.




(** ** Closure *)

Section closure.
Context {L : GoLib} {E : Env} (svc : Service) (now : time).
Notation cfg := svc.(sv_cfg).(cfg_Escalation).

(** Complete long enough, escalated without an answer for as long, or stalled. *)
Definition can_close (r : submission_row) : Prop :=
  let settled := Add now (dur_neg (AutoCloseAfter cfg)) in
  let stalled := UnixNano (Add now (dur_neg (AwaitingAutoCloseAfter cfg))) in
  r.(sr_data).(sub_OnHold) = false ∧
  ((0 < AutoCloseAfter cfg ∧ r.(sr_data).(sub_State) = StateComplete ∧
      ∃ t, r.(sr_data).(sub_CompletedAt) = Some t ∧ t < UnixNano settled) ∨
   (0 < AutoCloseAfter cfg ∧ r.(sr_data).(sub_State) = StateEscalated ∧
      r.(sr_data).(sub_LastActionAt) ≤ settled) ∨
   (0 < AwaitingAutoCloseAfter cfg ∧ r.(sr_data).(sub_State) ∈ [StateAwaiting; StateOpen] ∧
      r.(sr_data).(sub_LastActionAt) < stalled)).

Definition closed_row (updated lastAction : Z) (r : submission_row) : submission_row :=
  moved_row StateClosed updated lastAction (UnixNano <$> r.(sr_data).(sub_EscalatedAt))
    (UnixNano <$> r.(sr_data).(sub_LastEscalatedAt)) r.

Definition closure_step (r0 r : submission_row) : Prop :=
  r = r0 ∨
  can_close r0 ∧
  ∃ updated lastAction, stamped now updated ∧ stamped now lastAction ∧ r = closed_row updated lastAction r0.

Lemma closure_step_id r0 r : closure_step r0 r → sr_id r = sr_id r0.
Proof. by intros [->|(_ & u & l & _ & _ & ->)]. Qed.

Lemma closure_step_open r0 r :
  closure_step r0 r → r.(sr_data).(sub_State) ≠ StateClosed → r = r0.
Proof. by intros [->|(_ & u & l & _ & _ & ->)]. Qed.

Lemma can_close_open r : can_close r → r.(sr_data).(sub_State) ≠ StateClosed.
Proof. intros (_ & [(_ & -> & _)|[(_ & -> & _)|(_ & Hin & _)]]) Hst; [done..|]. rewrite Hst in Hin. set_solver. Qed.

Context (d0 : DB) (Hwf : db_wf d0).
Notation Step := (rows_step closure_step d0 ∘ w_db).

Lemma closeQuiet_step r reason :
  r ∈ d0.(db_submissions) → can_close r → preserves Step (closeQuiet (scanSubmission r) reason now).
Proof.
  intros Hr Hc. unfold closeQuiet. pose proof (can_close_open r Hc) as Hopen.
  unfold TransitionTo. change (sub_State (scanSubmission r)) with (sub_State (sr_data r)).
  rewrite bool_decide_false by done. destruct (allowed _) as [nexts|]; [|walk]. case_bool_decide; [|walk].
  pose proof (rows_step_audit closure_step d0) as Ha.
  apply preserves_bind; [|walk]. apply preserves_attempt. intros w Hw. apply upsert_step; cbn; try done.
  - by apply (list_elem_of_fmap_2 sr_id).
  - apply closure_step_id.
  - intros r0 r1 c u l Hr0 HR Hid Hu Hl. right. pose proof (row_unique d0 Hwf r0 r Hr0 Hr Hid) as ->.
    split; [done|]. exists u, l. split_and!; [done..|].
    by destruct HR as [->|(_ & u1 & l1 & _ & _ & ->)].
Qed.

(** A listing whose rows may close, closed one by one. *)
Lemma close_listed what where_ less limit (msg reason : string) (keep : Submission → bool) :
  (∀ r, where_ r = true → keep (scanSubmission r) = false →
     r.(sr_data).(sub_State) ≠ StateClosed ∧ can_close r) →
  preserves Step
    (subs ← wrap_err msg (list_submissions what where_ less limit);
     for_each (λ s, if keep s then mret () else closeQuiet s reason now) subs).
Proof.
  intros Hwhere w Hw. set (Q := λ (_ : result unit) w', rows_step closure_step d0 (w_db w')).
  match goal with |- Step (?m w).2 => change (wp m Q w) end.
  eapply (wp_yields (rows_step closure_step d0) _ _ _ _ _
    (yields_wrap_err _ _ _ _ (list_submissions_rows _ _ _ _ _))); [exact Hw|done|].
  intros subs w1 Hw1 (d & Hd & Hsubs). unfold wp, Q.
  refine ((_ : preserves Step _) w1 Hw1). apply preserves_for_each. intros s Hs.
  destruct (Hsubs s Hs) as (r & -> & Hr & Hb). destruct (keep _) eqn:Hk; [walk|].
  destruct (Hwhere r Hb Hk) as [Hopen Hc].
  destruct (rows_step_member _ _ _ _ Hd Hr) as (r0 & Hr0 & HR).
  pose proof (closure_step_open _ _ HR Hopen) as ->. by apply closeQuiet_step.
Qed.
End closure.

Section closures.
Context {E : Env} (svc : Service) (now : time) (d0 : DB) (Hwf : db_wf d0).
Notation Step := (rows_step (closure_step svc now) d0 ∘ w_db).
Notation cfg := svc.(sv_cfg).(cfg_Escalation).

Lemma closeSettled_step :
  0 < AutoCloseAfter cfg → preserves Step (closeSettled now (Add now (dur_neg (AutoCloseAfter cfg)))).
Proof.
  intros Hpos. unfold closeSettled. set (cutoff := Add now _).
  pose proof (close_listed svc now d0 Hwf "query completed-before"
    (λ r, in_state r StateComplete &&
          match r.(sr_data).(sub_CompletedAt) with Some t => t <? UnixNano cutoff | None => false end &&
          negb r.(sr_data).(sub_OnHold))
    (by_opt_col sub_CompletedAt) (limit_or sweepBatch 100) "list completed-before"
    "auto_close_after_complete" (λ _, false)) as H1.
  pose proof (close_listed svc now d0 Hwf "query escalated-since"
    (λ r, in_state r StateEscalated &&
          match r.(sr_data).(sub_EscalatedAt) with Some t => 0 <=? t | None => false end &&
          negb r.(sr_data).(sub_OnHold))
    (by_opt_col sub_EscalatedAt) (limit_or 500 100) "list escalated" "auto_close_after_escalation"
    (λ s, After s.(sub_LastActionAt) cutoff)) as H2.
  assert (∀ A B C (m : M A) (f : A → M B) (g : M C),
    preserves Step (m ≫= f) → preserves Step g → preserves Step (m ≫= λ a, f a ≫= λ _, g)) as Hseq.
  { intros A B C m f g Hmf Hg w Hw. specialize (Hmf w Hw). unfold mbind, M_bind in *.
    destruct (m w) as [[a|] w1]; [|done]. destruct (f a w1) as [[b|] w2]; [|done]. by apply Hg. }
  apply Hseq; [apply H1|apply H2].
  - intros r Hr _. apply andb_true_iff in Hr as [[Hst%bool_decide_eq_true Ht]%andb_true_iff Hh%negb_true_iff].
    split; [congruence|]. split; [done|]. left. split_and!; [done..|].
    destruct (sub_CompletedAt (sr_data r)) as [t|]; [|done]. exists t. split; [done|].
    by apply Z.ltb_lt in Ht.
  - intros r Hr Hk. apply andb_true_iff in Hr as [[Hst%bool_decide_eq_true _]%andb_true_iff Hh%negb_true_iff].
    split; [congruence|]. split; [done|]. right. left. split_and!; [done..|].
    unfold After in Hk. by apply Z.ltb_ge in Hk.
Qed.

Lemma closeStalled_step :
  0 < AwaitingAutoCloseAfter cfg →
  preserves Step
    (stalled ← wrap_err "list stalled-before"
       (ListStalledBefore (UnixNano (Add now (dur_neg (AwaitingAutoCloseAfter cfg)))) sweepBatch);
     for_each (λ sub, closeQuiet sub "auto_close_stalled" now) stalled).
Proof.
  intros Hpos.
  apply (close_listed svc now d0 Hwf _ _ _ _ "list stalled-before" "auto_close_stalled" (λ _, false)).
  intros r Hr _. apply andb_true_iff in Hr as [[Hst Ht]%andb_true_iff Hh%negb_true_iff].
  apply Z.ltb_lt in Ht.
  assert (sub_State (sr_data r) ∈ [StateAwaiting; StateOpen]) as Hin.
  { apply orb_true_iff in Hst as [Hst%bool_decide_eq_true|Hst%bool_decide_eq_true]; rewrite Hst; set_solver. }
  split; [intros Hc; rewrite Hc in Hin; set_solver|]. split; [done|]. by right; right.
Qed.
End closures.

(** C20: the closure check closes only what its rules allow, and changes nothing else.
    Whatever fails along the way, every submission row afterwards is as before, or was
    not held and had been complete, or escalated and quiet, for the configured time, or
    stalled while open or awaiting; of that row the state is now closed, the times of the
    last action and of the update are the check's, and every other column is as it was.
    Emails, documents and replies do not change. *)
Theorem CheckClosures_safe (E : Env) svc w :
  db_wf (w_db w) →
  rows_step (closure_step svc (env_now (w_tick w))) (w_db w) (w_db (CheckClosures svc w).2).
Proof.
  intros Hwf. set (now := env_now (w_tick w)).
  pose proof (closeSettled_step svc now (w_db w) Hwf) as H1.
  pose proof (closeStalled_step svc now (w_db w) Hwf) as H2.
  unfold CheckClosures. rewrite (bind_ok time_Now _ _ _ _ eq_refl). fold now.
  refine (preserves_bind (rows_step (closure_step svc now) (w_db w) ∘ w_db) _ _ _ _ (w_next w) _).
  - destruct (0 <? _) eqn:Hp; [apply H1; by apply Z.ltb_lt|walk].
  - intros []. destruct (_ <=? 0) eqn:Hp; [walk|]. apply H2. by apply Z.leb_gt.
  - apply rows_step_refl. by left.
Qed.

(** Much later, the escalated case is closed. *)
Definition closing_env : Env :=
  {| env_now n := 4000 * Hour + Z.of_nat n; env_uuid n := "close-" +:+ fmt_d (Z.of_nat n);
     env_fault _ := None; env_send _ _ := Ok "<sent@mail>"; env_requestID _ := "";
     env_cancelled _ := None |}.
Definition closed_world : World := (CheckClosures (E := closing_env) demo_service late_world).2.

Lemma closed_states : states closed_world = [StateClosed].
Proof. vm_compute. reflexivity. Qed.

Lemma late_world_wf : db_wf (w_db late_world).
Proof.
  refine (proj1 (inv_CheckEscalations demo_service swept_world _)).
  exact (inv_IngestEmail demo_service first_mail (w_with_closed true empty_world) empty_db_inv).
Qed.

Lemma CheckClosures_safe_witness :
  states closed_world = [StateClosed] ∧
  ∃ r, r ∈ (w_db late_world).(db_submissions) ∧
       can_close demo_service (env_now (Env := closing_env) (w_tick late_world)) r.
Proof.
  split; [exact closed_states|].
  destruct (stepped_row _ late_world closed_world StateEscalated StateClosed
    late_states closed_states ltac:(discriminate)
    (CheckClosures_safe closing_env demo_service late_world late_world_wf)) as (r & r' & Hr & Hc & _).
  exists r. split; [exact Hr|exact Hc].
Defined.

(** ** The Hold folder *)

Definition in_folder (messageIDs : list string) (d : DB) (sid : string) : bool :=
  existsb (λ e, bool_decide (e.(em_MessageID) ∈ nonEmpty messageIDs) && bool_decide (e.(em_SubmissionID) = sid))
    d.(db_emails).

Definition held_ids (d : DB) : list string :=
  map sr_id (List.filter (λ r, r.(sr_data).(sub_OnHold)) d.(db_submissions)).

Definition set_hold (b : bool) (r : submission_row) : submission_row :=
  mkSubmissionRow (sub_with_OnHold b r.(sr_data)) r.(sr_missing).

(** A reply still queued for a submission that was held and no longer is. *)
Definition dropped_on_release (messageIDs : list string) (d : DB) (r : outbox_row) : bool :=
  is_pending r && bool_decide (r.(or_submission_id) ∈ held_ids d) &&
  negb (in_folder messageIDs d r.(or_submission_id)).

Lemma set_hold_same r : set_hold r.(sr_data).(sub_OnHold) r = r.
Proof. by destruct r as [[] ?]. Qed.

Lemma elem_of_not_in set l id : id ∈ not_in set l ↔ id ∈ l ∧ id ∉ set.
Proof.
  unfold not_in. rewrite list_elem_of_In, List.filter_In, <- list_elem_of_In.
  by rewrite negb_true_iff, bool_decide_eq_false.
Qed.

Lemma held_ids_row d r :
  db_wf d → r ∈ d.(db_submissions) → sr_id r ∈ held_ids d ↔ r.(sr_data).(sub_OnHold) = true.
Proof.
  intros Hwf Hr. unfold held_ids. split.
  - intros (r' & Hid & Hin)%list_elem_of_fmap.
    apply list_elem_of_In, List.filter_In in Hin as [Hin Hh]. apply list_elem_of_In in Hin.
    by rewrite (row_unique d Hwf r r' Hr Hin Hid).
  - intros Hh. apply list_elem_of_fmap_2, list_elem_of_In, List.filter_In.
    split; [by apply list_elem_of_In|done].
Qed.

Section hold.
Context {E : Env} (Hff : fault_free E).

Lemma SubmissionIDsByMessageIDs_run messageIDs w :
  ∃ ids, SubmissionIDsByMessageIDs messageIDs w =
           (Ok ids, if bool_decide (nonEmpty messageIDs = []) then w else w_next w) ∧
         ∀ sid, sid ∈ ids ↔ in_folder messageIDs (w_db w) sid = true.
Proof.
  unfold SubmissionIDsByMessageIDs, in_folder. case_bool_decide as Hnil.
  - exists []. split; [done|]. intros sid. rewrite Hnil. split; [by intros ?%elem_of_nil|].
    intros (e & _ & Hb)%existsb_exists. apply andb_true_iff in Hb as [Hb%bool_decide_eq_true _].
    by apply elem_of_nil in Hb.
  - rewrite wrap_err_run. unfold query, stmt. rewrite Hff. cbn.
    replace (w_with_db (w_db w) (w_next w)) with (w_next w) by (by destruct w).
    eexists. split; [reflexivity|]. intros sid. rewrite elem_of_distinct, list_elem_of_fmap, existsb_exists.
    setoid_rewrite andb_true_iff. setoid_rewrite bool_decide_eq_true. split.
    + intros (e & -> & Hin). apply list_elem_of_In, List.filter_In in Hin as [Hin Hb].
      apply bool_decide_eq_true in Hb. by exists e.
    + intros (e & Hin & Hb & <-). exists e. split; [done|].
      apply list_elem_of_In, List.filter_In. by rewrite bool_decide_eq_true.
Qed.

Lemma SetOnHold_run ids b w :
  ∃ w', SetOnHold ids b w = (Ok (), w') ∧
    w_db w' = db_with_submissions (map (λ r, if bool_decide (sr_id r ∈ ids) then set_hold b r else r)
                (w_db w).(db_submissions)) (w_db w).
Proof.
  unfold SetOnHold. case_bool_decide as Hnil.
  - exists w. split; [done|]. subst ids. destruct w as [d]. cbn. destruct d. unfold db_with_submissions. cbn.
    f_equal. induction db_submissions as [|r l IH]; [done|]. cbn. by f_equal.
  - unfold update_submissions. rewrite wrap_err_run. unfold exec, stmt. rewrite Hff.
    eexists. split; reflexivity.
Qed.

Lemma ExpirePendingForSubmissions_run ids reason w :
  ∃ n t w', ExpirePendingForSubmissions ids reason w = (Ok n, w') ∧
    w_db w' = db_with_outbox (map (λ r,
      if is_pending r && bool_decide (r.(or_submission_id) ∈ ids)
      then or_settle OutboxFailed r.(or_attempts) reason t r else r) (w_db w).(db_outbox)) (w_db w).
Proof.
  unfold ExpirePendingForSubmissions. case_bool_decide as Hnil.
  - exists 0, 0, w. split; [done|]. subst ids. destruct w as [d]. cbn. destruct d. unfold db_with_outbox. cbn.
    f_equal. induction db_outbox as [|r l IH]; [done|]. cbn. rewrite andb_false_r. by f_equal.
  - rewrite (bind_ok time_Now _ _ _ _ eq_refl), wrap_err_run. unfold stmt, fail_where. rewrite Hff.
    eexists _, _, _. split; reflexivity.
Qed.

Lemma audits_run evt ids w :
  ∃ w', for_each (λ id, audit id evt []) ids w = (Ok (), w') ∧ core (w_db w') = core (w_db w).
Proof.
  revert w. induction ids as [|id ids IH]; intros w; cbn [for_each]; [by eexists|].
  destruct (audit_run id evt [] w) as (w1 & Ha & Hc). rewrite (bind_ok _ _ _ _ _ Ha).
  destruct (IH w1) as (w2 & Hr & Hc2). exists w2. split; [done|]. congruence.
Qed.
End hold.

(** Both hold updates together give every row the folder's flag. *)
Lemma hold_rows d messageIDs inFolder r :
  db_wf d → r ∈ d.(db_submissions) → (∀ sid, sid ∈ inFolder ↔ in_folder messageIDs d sid = true) →
  let r1 := if bool_decide (sr_id r ∈ not_in (held_ids d) inFolder) then set_hold true r else r in
  (if bool_decide (sr_id r1 ∈ not_in inFolder (held_ids d)) then set_hold false r1 else r1) =
  set_hold (in_folder messageIDs d (sr_id r)) r.
Proof.
  intros Hwf Hr Hin r1. assert (sr_id r1 = sr_id r) as Hid by (unfold r1; by case_bool_decide).
  rewrite Hid. unfold r1. clear r1 Hid.
  pose proof (held_ids_row d r Hwf Hr) as Hh. specialize (Hin (sr_id r)).
  destruct (in_folder messageIDs d (sr_id r)) eqn:Ef.
  - rewrite (bool_decide_false (sr_id r ∈ not_in inFolder _)) by (rewrite elem_of_not_in; tauto).
    case_bool_decide as Hn; [done|]. rewrite elem_of_not_in in Hn.
    destruct (sub_OnHold (sr_data r)) eqn:Eh; [rewrite <- Eh; by rewrite set_hold_same|].
    exfalso. apply Hn. rewrite Hh. split; [by apply Hin|done].
  - assert (sr_id r ∉ inFolder) as Hni by (rewrite Hin; done).
    rewrite (bool_decide_false (sr_id r ∈ not_in (held_ids d) _)) by (rewrite elem_of_not_in; tauto).
    case_bool_decide as Hn; [done|]. rewrite elem_of_not_in, Hh in Hn.
    destruct (sub_OnHold (sr_data r)) eqn:Eh; [tauto|]. rewrite <- Eh. by rewrite set_hold_same.
Qed.

Lemma ReconcileHold_run (E : Env) messageIDs w :
  fault_free E → db_wf (w_db w) →
  let d := w_db w in
  ∃ w' t, ReconcileHold messageIDs w = (Ok (), w') ∧
    (w_db w').(db_submissions) =
      map (λ r, set_hold (in_folder messageIDs d (sr_id r)) r) d.(db_submissions) ∧
    (w_db w').(db_outbox) =
      map (λ r, if dropped_on_release messageIDs d r
                then or_settle OutboxFailed r.(or_attempts) "stale: queued before hold" t r else r) d.(db_outbox) ∧
    (w_db w').(db_emails) = d.(db_emails) ∧ (w_db w').(db_documents) = d.(db_documents).
Proof.
  intros Hff Hwf d. unfold ReconcileHold.
  destruct (SubmissionIDsByMessageIDs_run Hff messageIDs w) as (inFolder & H1 & Hin). fold d in Hin.
  rewrite (bind_ok (wrap_err _ _) _ inFolder _ _ ltac:(rewrite wrap_err_run, H1; reflexivity)).
  set (w1 := if bool_decide _ then w else _). assert (w_db w1 = d) as Hd1 by (unfold w1; by case_bool_decide).
  assert (wrap_err "list held" ListHeldIDs w1 = (Ok (held_ids d), w_next w1)) as H2.
  { unfold ListHeldIDs. rewrite !wrap_err_run. unfold query, stmt. rewrite Hff, Hd1. cbn.
    rewrite <- Hd1. by destruct w1. }
  rewrite (bind_ok _ _ _ _ _ H2). clear H1 H2. cbv zeta.
  set (toHold := not_in (held_ids d) inFolder). set (toRelease := not_in inFolder (held_ids d)).
  destruct (SetOnHold_run Hff toHold true (w_next w1)) as (w2 & H3 & Hd2).
  rewrite (bind_ok (wrap_err _ _) _ () _ _ ltac:(rewrite wrap_err_run, H3; reflexivity)).
  destruct (SetOnHold_run Hff toRelease false w2) as (w3 & H4 & Hd3).
  rewrite (bind_ok (wrap_err _ _) _ () _ _ ltac:(rewrite wrap_err_run, H4; reflexivity)).
  destruct (ExpirePendingForSubmissions_run Hff toRelease "stale: queued before hold" w3) as (n & t & w4 & H5 & Hd4).
  rewrite (bind_ok _ _ _ _ _ (log_err_run _ _ _ _ H5)).
  destruct (audits_run EventHeld toHold w4) as (w5 & H6 & Hc5). rewrite (bind_ok _ _ _ _ _ H6).
  destruct (audits_run EventReleased toRelease w5) as (w6 & H7 & Hc6).
  exists w6, t. split; [exact H7|]. rewrite Hc5 in Hc6. injection Hc6 as -> -> -> ->.
  rewrite Hd4, Hd3, Hd2. cbn. rewrite Hd1. split_and!; try done.
  - rewrite map_map. apply map_ext_in. intros r Hr%list_elem_of_In. by apply hold_rows.
  - apply map_ext. intros r. unfold dropped_on_release, toRelease.
    replace (bool_decide (or_submission_id r ∈ not_in inFolder (held_ids d))) with
      (bool_decide (or_submission_id r ∈ held_ids d) && negb (in_folder messageIDs d (or_submission_id r))).
    { by rewrite andb_assoc. }
    specialize (Hin (or_submission_id r)). pose proof (elem_of_not_in inFolder (held_ids d) (or_submission_id r)).
    destruct (in_folder _ _ _); do 2 case_bool_decide; naive_solver.
Qed.

(** C15: the Hold folder is mirrored.  When no statement fails, every submission is on
    hold afterwards exactly when one of its messages is in the folder, and nothing else
    of it changes; the replies still queued for submissions just released are failed,
    every other reply, and every email and document, is as it was. *)
Theorem ReconcileHold_syncs (E : Env) messageIDs w :
  fault_free E → db_wf (w_db w) →
  let d := w_db w in
  ∃ w' t, ReconcileHold messageIDs w = (Ok (), w') ∧
    (w_db w').(db_submissions) =
      map (λ r, set_hold (in_folder messageIDs d (sr_id r)) r) d.(db_submissions) ∧
    (w_db w').(db_outbox) =
      map (λ r, if dropped_on_release messageIDs d r
                then or_settle OutboxFailed r.(or_attempts) "stale: queued before hold" t r else r) d.(db_outbox) ∧
    (w_db w').(db_emails) = d.(db_emails) ∧ (w_db w').(db_documents) = d.(db_documents).
Proof. apply ReconcileHold_run. Qed.

(** The first message is moved to the Hold folder, then taken out of it again. *)
Definition held_world : World := (ReconcileHold (E := demo_env) ["<m1@broker>"] swept_world).2.
Definition released_world : World := (ReconcileHold (E := demo_env) [] held_world).2.

Lemma held_world_wf : db_wf (w_db held_world).
Proof.
  refine (proj1 (inv_ReconcileHold ["<m1@broker>"] swept_world _)).
  exact (inv_IngestEmail demo_service first_mail (w_with_closed true empty_world) empty_db_inv).
Qed.

(** C23: a reply dropped on release is not asked again.  When a case leaves the Hold folder
    the reply still queued for it is failed but its fingerprint stays on the case; the next
    message that reaches the case therefore queues a reply only if that reply's
    fingerprint differs from the dropped one's, and otherwise leaves the case without a
    pending reply. *)
Theorem released_ask_not_repeated (L : GoLib) (E : Env) svc messageIDs req w r :
  fault_free E → db_inv (w_db w) → (∀ n, env_uuid n ∉ map sr_id (w_db w).(db_submissions)) →
  r ∈ (w_db w).(db_submissions) → r.(sr_data).(sub_OnHold) = true →
  in_folder messageIDs (w_db w) (sr_id r) = false →
  let w1 := (ReconcileHold messageIDs w).2 in
  the_pending (sr_id r) (w_db w1) = None ∧
  match IngestEmail svc req w1 with
  | (Ok res, w2) => ir_SubmissionID res = sr_id r →
      if ir_ReplyQueued res
      then ∃ saved, sr_data <$> find_key sr_id (sr_id r) (w_db w2).(db_submissions) = Some saved ∧
                    saved.(sub_LastReplyHash) ≠ r.(sr_data).(sub_LastReplyHash)
      else the_pending (sr_id r) (w_db w2) = None
  | (Err _, w2) => the_pending (sr_id r) (w_db w2) = None
  end.
Proof.
  intros Hff Hinv Hfresh Hr Hheld Hout. pose proof (proj1 (inv_ReconcileHold messageIDs w Hinv)) as Hwf1.
  destruct (ReconcileHold_run E messageIDs w Hff (proj1 Hinv)) as (w1 & t & Hrun & Hs & Ho & _).
  rewrite Hrun in *. cbn [snd] in *.
  assert (the_pending (sr_id r) (w_db w1) = None) as Hnone.
  { unfold the_pending. rewrite Ho. destruct (List.find _ _) as [row|] eqn:Ef; [|done].
    apply List.find_some in Ef as [(row0 & -> & Hin)%list_elem_of_In%list_elem_of_fmap Hp].
    destruct (dropped_on_release messageIDs (w_db w) row0) eqn:Hd; [done|].
    apply andb_true_iff in Hp as [Hp Hid%bool_decide_eq_true].
    unfold dropped_on_release in Hd. rewrite Hp, Hid, Hout in Hd. cbn in Hd. rewrite andb_true_r in Hd.
    apply bool_decide_eq_false in Hd. destruct Hd. by apply (held_ids_row _ r (proj1 Hinv) Hr). }
  split; [done|].
  assert (map sr_id (db_submissions (w_db w1)) = map sr_id (db_submissions (w_db w))) as Hids by (by rewrite Hs, map_map).
  assert (find_key sr_id (sr_id r) (db_submissions (w_db w1)) = Some (set_hold false r)) as Hstored.
  { apply find_key_unique; [apply Hwf1| |done]. rewrite Hs, <- Hout.
    by apply (list_elem_of_fmap_2 (λ r, set_hold (in_folder messageIDs (w_db w) (sr_id r)) r)). }
  pose proof (IngestEmail_outcome L E svc req w1 Hwf1 ltac:(by rewrite Hids)) as Hi.
  destruct (IngestEmail svc req w1) as [[res|e] w2]; unfold outcome in Hi; cbn [fst snd] in Hi.
  - intros Hid. destruct (ir_IsDuplicate res).
    { destruct Hi as [Hc ->]. unfold the_pending. by injection Hc as _ _ _ ->. }
    destruct Hi as [_ Hi]. destruct (ir_ReplyQueued res); [|unfold the_pending; by rewrite Hi].
    destruct Hi as (_ & _ & _ & _ & saved & row & [Hsaved _ _ Hne] & _). rewrite Hid in *.
    exists saved. split; [done|]. intros Heq. by apply (Hne _ Hstored).
  - unfold the_pending. by injection Hi as _ _ _ ->.
Qed.

(** The case held in the demo is released, and the broker writes again. *)
Definition held_row : submission_row :=
  default (mkSubmissionRow demo_stored MissingCorrupt) (head (w_db held_world).(db_submissions)).
Definition second_mail : IngestRequest :=
  demo_request "<m2@broker>" "<m1@broker>" "Re: New cyber submission" "Any news?" [].

Definition second_env : Env :=
  {| env_now n := 10 + Z.of_nat n; env_uuid n := "second-" +:+ fmt_d (Z.of_nat n);
     env_fault _ := None; env_send _ _ := Ok "<sent@mail>"; env_requestID _ := "";
     env_cancelled _ := None |}.

Lemma held_world_rows : (w_db held_world).(db_submissions) = [held_row] ∧ held_row.(sr_data).(sub_OnHold) = true ∧
  sr_id held_row = "id-2".
Proof. vm_compute. split_and!; reflexivity. Qed.

Lemma held_world_inv : db_inv (w_db held_world).
Proof.
  refine (inv_ReconcileHold ["<m1@broker>"] swept_world _).
  exact (inv_IngestEmail demo_service first_mail (w_with_closed true empty_world) empty_db_inv).
Qed.

Lemma second_fresh n : env_uuid (Env := second_env) n ∉ map sr_id (w_db held_world).(db_submissions).
Proof.
  destruct held_world_rows as (-> & _ & Hid). cbn [map]. rewrite Hid. intros Hn%list_elem_of_singleton. discriminate Hn.
Qed.

Lemma empty_folder d sid : in_folder [] d sid = false.
Proof. unfold in_folder. by induction (db_emails d). Qed.

Lemma second_fault_free : fault_free second_env.
Proof. by intros n. Qed.

Lemma held_row_in : held_row ∈ (w_db held_world).(db_submissions).
Proof. destruct held_world_rows as (-> & _ & _). by left. Qed.

Lemma released_ask_not_repeated_witness :
  the_pending (sr_id held_row) (w_db (ReconcileHold (E := second_env) [] held_world).2) = None.
Proof.
  destruct (released_ask_not_repeated demo_lib second_env demo_service [] second_mail held_world held_row
    second_fault_free held_world_inv second_fresh held_row_in (proj1 (proj2 held_world_rows)) (empty_folder _ _)) as [H _].
  exact H.
Defined.

Lemma ReconcileHold_syncs_witness :
  held_ids (w_db held_world) = ["id-2"] ∧ held_ids (w_db released_world) = [] ∧
  ∃ t, (w_db released_world).(db_outbox) =
    map (λ r, if dropped_on_release [] (w_db held_world) r
              then or_settle OutboxFailed r.(or_attempts) "stale: queued before hold" t r else r)
      (w_db held_world).(db_outbox).
Proof.
  split; [vm_compute; reflexivity|]. split; [vm_compute; reflexivity|].
  destruct (ReconcileHold_syncs demo_env [] held_world) as (w' & t & Hrun & _ & Ho & _).
  - intros n. reflexivity.
  - exact held_world_wf.
  - exists t. unfold released_world. rewrite Hrun. exact Ho.
Defined.
