(* ===== verification/Health.v ===== *)
(** The HTTP side: [internal/delivery/http] (middleware and router) and its health
    handler.

    A handler runs on an [exchange]: the response writer of [net/http] (the headers set,
    the status once it is committed, the body), the [responseRecorder] around it, and
    the service's world.  As in [net/http], the first [WriteHeader] or [Write] commits
    the response and later headers or codes are ignored.  A panic travels up as a value
    of [handler_outcome].  [uuid.Parse], [json.Encode] and chi's answer to requests the router
    does not know are parameters. *)
From Stdlib Require Import ZArith.
From stdpp Require Import base list strings gmap.
From S2P Require Import Prelude GoStrings GoValues Submission World Config.

Open Scope Z_scope.

Definition requestIDHeader : string := "X-Request-ID".
Definition StatusOK : Z := 200.
Definition StatusInternalServerError : Z := 500.
Definition StatusServiceUnavailable : Z := 503.

Record request : Type := mkRequest { rq_Method : string; rq_Path : string; rq_RequestID : string }.

(** [rec_status] and [rec_wroteHeader] are the [responseRecorder]'s. *)
Record exchange : Type := mkExchange {
  ex_header : gmap string string;
  ex_sent : option (Z * gmap string string);   (** the status line and headers, once committed *)
  ex_body : string;
  rec_status : Z;
  rec_wroteHeader : bool;
  ex_world : World }.

Definition ex_with_world (w : World) (x : exchange) : exchange :=
  mkExchange x.(ex_header) x.(ex_sent) x.(ex_body) x.(rec_status) x.(rec_wroteHeader) w.

Definition header_Set (k v : string) (x : exchange) : exchange :=
  mkExchange (<[k := v]> x.(ex_header)) x.(ex_sent) x.(ex_body) x.(rec_status) x.(rec_wroteHeader) x.(ex_world).

(** [ResponseWriter.WriteHeader]: only the first one counts. *)
Definition commit (code : Z) (x : exchange) : exchange :=
  match x.(ex_sent) with
  | Some _ => x
  | None => mkExchange x.(ex_header) (Some (code, x.(ex_header))) x.(ex_body) x.(rec_status)
              x.(rec_wroteHeader) x.(ex_world)
  end.

Definition note (status : Z) (x : exchange) : exchange :=
  mkExchange x.(ex_header) x.(ex_sent) x.(ex_body) status true x.(ex_world).

(** [responseRecorder.WriteHeader] *)
Definition rec_WriteHeader (code : Z) (x : exchange) : exchange := commit code (note code x).

(** [responseRecorder.Write], forwarded to [ResponseWriter.Write]. *)
Definition rec_Write (b : string) (x : exchange) : exchange :=
  let x := commit StatusOK (note x.(rec_status) x) in
  mkExchange x.(ex_header) x.(ex_sent) (x.(ex_body) +:+ b) x.(rec_status) x.(rec_wroteHeader) x.(ex_world).

(** How a handler ends: it returns, or panics, with [http.ErrAbortHandler] or not. *)
Inductive handler_outcome : Type := Returned | Panicked (abort : bool) (value : string).

Definition Handler : Type := request → exchange → handler_outcome * exchange.

Section middleware.
Context {E : Env} (uuid_Parse_ok : string → bool).

Definition withRecovery (next : Handler) : Handler := λ r x,
  match next r x with
  | (Panicked false v, x') => (Returned, if x'.(rec_wroteHeader) then x' else rec_WriteHeader StatusInternalServerError x')
  | res => res
  end.

(** The request id of the client when it is a UUID, else a new one. *)
Definition request_id (r : request) (x : exchange) : string * exchange :=
  if uuid_Parse_ok r.(rq_RequestID) then (r.(rq_RequestID), x)
  else (env_uuid x.(ex_world).(w_tick), ex_with_world (w_next x.(ex_world)) x).

(** A new recorder, status 200, around the writer. *)
Definition new_recorder (x : exchange) : exchange :=
  mkExchange x.(ex_header) x.(ex_sent) x.(ex_body) StatusOK false x.(ex_world).

(** The log line after the handler is left out, and with it the recorded status. *)
Definition withRequestID (next : Handler) : Handler := λ r x,
  let '(rid, x) := request_id r x in
  next r (new_recorder (header_Set requestIDHeader rid x)).
End middleware.

(** ** Health *)

(** [PollStatus]: the poller's state, read from the world; nil without IMAP. *)
Record PollStatus : Type := mkPollStatus { pst_Configured : bool; pst_Last : World → time }.

Definition LastSuccessfulPoll (w : World) : time := w.(w_poll).(ps_lastPoll).
Definition poller_status : PollStatus := mkPollStatus true LastSuccessfulPoll.

Record HealthHandler : Type := mkHealthHandler {
  hh_poll : option PollStatus;
  hh_staleAfter : duration }.

Section health.
Context {E : Env} (uuid_Parse_ok : string → bool) (rfc3339 : time → string)
  (json_Encode : gmap string string → result string) (chi_other : Handler).

(** The body and the status, with what [reportPoll] makes of the poller. *)
Definition reportPoll (h : HealthHandler) (body : gmap string string) (status : Z) (w : World)
  : gmap string string * Z * World :=
  match h.(hh_poll) with
  | Some p =>
    if p.(pst_Configured) then
      let last := p.(pst_Last) w in
      let body := <["last_poll_at" := rfc3339 last]> body in
      let now := env_now w.(w_tick) in
      if h.(hh_staleAfter) <? Sub now last
      then (<["imap" := "stale"]> body, StatusServiceUnavailable, w_next w)
      else (<["imap" := "ok"]> body, status, w_next w)
    else (<["imap" := "not_configured"]> body, status, w)
  | None => (<["imap" := "not_configured"]> body, status, w)
  end.

(** [writeJSON]; a failing encoder only logs, the header being out already. *)
Definition writeJSON (status : Z) (payload : gmap string string) (x : exchange) : exchange :=
  let x := rec_WriteHeader status (header_Set "Content-Type" "application/json; charset=utf-8" x) in
  match json_Encode payload with Ok b => rec_Write b x | Err _ => x end.

(** [db.PingContext]: an interaction like a statement. *)
Definition ping (w : World) : bool * World :=
  (match env_fault w.(w_tick) with None => true | Some _ => false end, w_next w).

Definition Handle (h : HealthHandler) : Handler := λ _ x,
  let body : gmap string string := <["db" := "ok"]> {["status" := "ok"]} in
  let '(up, w) := ping x.(ex_world) in
  let body := if up then body else <["db" := "down"]> body in
  let status := if up then StatusOK else StatusServiceUnavailable in
  let '(body, status, w) := reportPoll h body status w in
  let body := if status =? StatusOK then body else <["status" := "degraded"]> body in
  (Returned, writeJSON status body (ex_with_world w x)).

(** [NewRouter]: middleware first, then the only route. *)
Definition NewRouter (h : HealthHandler) : Handler :=
  withRequestID uuid_Parse_ok (withRecovery (λ r x,
    if bool_decide (r.(rq_Method) = "GET" ∧ r.(rq_Path) = "/health") then Handle h r x else chi_other r x)).
End health.

(** A writer nothing was written to, as the server passes it on. *)
Definition new_exchange (w : World) : exchange := mkExchange ∅ None "" 0 false w.

(** The status line the client sees: 200 when the handler never wrote. *)
Definition response_code (x : exchange) : Z := match x.(ex_sent) with Some (code, _) => code | None => StatusOK end.
