(* ===== verification/HealthProps.v ===== *)
(** Theorems about the HTTP side: when health is reported, and what a request gets when
    its handler panics. *)
From Stdlib Require Import ZArith.
From stdpp Require Import base list strings gmap.
From S2P Require Import Prelude GoStrings GoValues Submission World Config Health.

Open Scope Z_scope.

Section props.
Context {E : Env} (uuid_Parse_ok : string → bool) (rfc3339 : time → string)
  (json_Encode : gmap string string → result string) (chi_other : Handler).

(** The database answers and the poller, if there is one, has polled recently. *)
Definition healthy (h : HealthHandler) (w : World) : Prop :=
  env_fault w.(w_tick) = None ∧
  match h.(hh_poll) with
  | Some p => p.(pst_Configured) = true →
              Sub (env_now (S w.(w_tick))) (p.(pst_Last) (w_next w)) ≤ h.(hh_staleAfter)
  | None => True
  end.

(** What [reportPoll] does to a status that is 200 or 503. *)
Lemma reportPoll_status h body status w :
  status = StatusOK ∨ status = StatusServiceUnavailable →
  let '(_, status', _) := reportPoll rfc3339 h body status w in
  (status' = StatusOK ∨ status' = StatusServiceUnavailable) ∧
  (status' = StatusOK ↔ status = StatusOK ∧
     match h.(hh_poll) with
     | Some p => p.(pst_Configured) = true → Sub (env_now w.(w_tick)) (p.(pst_Last) w) ≤ h.(hh_staleAfter)
     | None => True
     end).
Proof.
  unfold reportPoll, StatusOK, StatusServiceUnavailable. intros Hs.
  destruct (hh_poll h) as [[conf last]|]; cbn; [|naive_solver].
  destruct conf; [|naive_solver].
  destruct (Z.ltb_spec (hh_staleAfter h) (Sub (env_now (w_tick w)) (last w))); naive_solver lia.
Qed.

Lemma writeJSON_sent status body x :
  x.(ex_sent) = None →
  (writeJSON json_Encode status body x).(ex_sent) =
    Some (status, <["Content-Type" := "application/json; charset=utf-8"]> x.(ex_header)).
Proof.
  intros Hx. unfold writeJSON, rec_WriteHeader, rec_Write, commit, note, header_Set. cbn. rewrite Hx. cbn.
  by destruct (json_Encode body).
Qed.

Lemma Handle_answers h r x :
  x.(ex_sent) = None →
  let '(o, x') := Handle rfc3339 json_Encode h r x in
  o = Returned ∧ ∃ code, x'.(ex_sent) =
    Some (code, <["Content-Type" := "application/json; charset=utf-8"]> x.(ex_header)) ∧
    (code = StatusOK ∨ code = StatusServiceUnavailable) ∧ (code = StatusOK ↔ healthy h x.(ex_world)).
Proof.
  intros Hx. unfold Handle, ping. cbv zeta beta iota.
  set (up := match env_fault (w_tick (ex_world x)) with None => true | _ => false end).
  set (body := if up then _ else _). set (status := if up then _ else _).
  pose proof (reportPoll_status h body status (w_next (ex_world x)) ltac:(subst status; destruct up; auto)) as Hr.
  destruct (reportPoll rfc3339 h body status (w_next (ex_world x))) as [[body' status'] w'].
  split; [done|]. exists status'. rewrite writeJSON_sent by done. split; [done|]. destruct Hr as [Hr Hiff].
  split; [exact Hr|]. rewrite Hiff. unfold healthy. cbn [w_next w_tick].
  subst status up. destruct (env_fault (w_tick (ex_world x))); naive_solver.
Qed.

(** C37: the health endpoint tells the truth.  A request for it is answered 200 exactly when
    the database answers a ping and the poller, when there is one, completed a fetch
    within the allowed time, and 503 otherwise; the answer carries one request id, the
    client's own if it is a UUID and a fresh one if it is anything else. *)
Theorem health_reports h r w :
  r.(rq_Method) = "GET" → r.(rq_Path) = "/health" →
  let valid := uuid_Parse_ok r.(rq_RequestID) in
  let w1 := if valid then w else w_next w in
  let '(o, x) := NewRouter uuid_Parse_ok rfc3339 json_Encode chi_other h r (new_exchange w) in
  o = Returned ∧ ∃ code headers, x.(ex_sent) = Some (code, headers) ∧
    (code = StatusOK ∨ code = StatusServiceUnavailable) ∧ (code = StatusOK ↔ healthy h w1) ∧
    headers !! requestIDHeader = Some (if valid then r.(rq_RequestID) else env_uuid w.(w_tick)).
Proof.
  intros Hm Hp valid w1. unfold NewRouter, withRequestID, withRecovery, request_id.
  rewrite Hm, Hp, bool_decide_eq_true_2 by done. fold valid.
  set (rid := if valid then rq_RequestID r else env_uuid (w_tick w)).
  assert ((if valid then (rq_RequestID r, new_exchange w)
           else (env_uuid (w_tick (ex_world (new_exchange w))),
                 ex_with_world (w_next (ex_world (new_exchange w))) (new_exchange w)))
          = (rid, new_exchange w1)) as -> by (subst rid w1; by destruct valid).
  pose proof (Handle_answers h r (new_recorder (header_Set requestIDHeader rid (new_exchange w1))) eq_refl) as Hh.
  destruct (Handle rfc3339 json_Encode h r _) as [o x]. destruct Hh as (-> & code & Hs & Hc & Hiff).
  split; [done|]. eexists code, _. split_and!; [exact Hs|done|exact Hiff|].
  rewrite lookup_insert_ne by done. apply lookup_insert_eq.
Qed.

(** ** Panics *)

(** The recorder knows whether the response is committed. *)
Definition recorder_ok (x : exchange) : Prop := x.(rec_wroteHeader) = bool_decide (is_Some x.(ex_sent)).

Lemma recorder_ok_WriteHeader code x : recorder_ok (rec_WriteHeader code x).
Proof. unfold recorder_ok, rec_WriteHeader, commit, note. destruct (ex_sent x) eqn:Hs; cbn; by rewrite ?Hs. Qed.

Lemma recorder_ok_Write b x : recorder_ok (rec_Write b x).
Proof. unfold recorder_ok, rec_Write, commit, note. destruct (ex_sent x) eqn:Hs; cbn; by rewrite ?Hs. Qed.

Lemma recorder_ok_Set k v x : recorder_ok x → recorder_ok (header_Set k v x).
Proof. done. Qed.

(** A handler that writes only through the recorder. *)
Definition writes_through (next : Handler) : Prop := ∀ r x, recorder_ok x → recorder_ok (next r x).2.

Lemma Handle_writes_through h : writes_through (Handle rfc3339 json_Encode h).
Proof.
  intros r x _. unfold Handle. destruct (ping _) as [up w]. destruct (reportPoll _ _ _ _ _) as [[body status] w'].
  cbn. unfold writeJSON. destruct (json_Encode _); [apply recorder_ok_Write|apply recorder_ok_WriteHeader].
Qed.

(** A panicking handler never takes the server down or garbles a response.  Whatever
    the handler does, the chain returns, unless it aborts the request on purpose; when it
    panics with nothing written the client gets a 500; when the response is already
    under way it is left exactly as the handler left it. *)
Theorem recovery_answers next r w :
  writes_through next →
  let chain := withRequestID uuid_Parse_ok (withRecovery next) in
  let '(o, x) := chain r (new_exchange w) in
  ∃ x0, recorder_ok x0 ∧ x0.(ex_sent) = None ∧
    match next r x0 with
    | (Panicked false _, xp) =>
      o = Returned ∧ (xp.(ex_sent) = None → response_code x = StatusInternalServerError) ∧
      (∀ sent, xp.(ex_sent) = Some sent → x = xp)
    | (o', x') => o = o' ∧ x = x'
    end.
Proof.
  intros Hnext. unfold withRequestID, withRecovery.
  destruct (request_id uuid_Parse_ok r (new_exchange w)) as [rid x] eqn:Hid.
  set (x0 := new_recorder (header_Set requestIDHeader rid x)).
  assert (x0.(ex_sent) = None) as Hs.
  { subst x0. cbn. unfold request_id in Hid. destruct (uuid_Parse_ok _); by injection Hid as <- <-. }
  assert (recorder_ok x0) as Hok by (unfold recorder_ok; by rewrite Hs).
  specialize (Hnext r x0 Hok). destruct (next r x0) as [[|[] v] xp] eqn:Hn; cbn [snd] in Hnext.
  - exists x0. rewrite Hn. done.
  - exists x0. rewrite Hn. done.
  - exists x0. rewrite Hn. split_and!; [done..| |].
    + intros Hp. unfold recorder_ok in Hnext. rewrite Hp in Hnext. rewrite Hnext.
      unfold response_code, rec_WriteHeader, commit, note. cbn. by rewrite Hp.
    + intros sent Hp. unfold recorder_ok in Hnext. rewrite Hp in Hnext. by rewrite Hnext.
Qed.
End props.

(** ** Runs *)

Definition demo_health : HealthHandler := mkHealthHandler (Some poller_status) (90 * Second).
Definition demo_get : request := mkRequest "GET" "/health" "not-a-uuid; drop table users".
Definition demo_uuid_ok (s : string) : bool := bool_decide (String.length s = 36%nat).

(** An environment whose clock stands at [t]; the database is down when asked. *)
Definition health_env (t : time) (up : bool) : Env :=
  {| env_now _ := t; env_uuid _ := "12345678-1234-1234-1234-123456789012"; env_send _ _ := Ok "";
     env_fault _ := if up then None else Some "no connection"; env_requestID _ := ""; env_cancelled _ := None |}.

Definition demo_health_run (t : time) (up : bool) : handler_outcome * exchange :=
  NewRouter (E := health_env t up) demo_uuid_ok (λ _, "") (λ _, Ok "{}") (λ _ x, (Returned, rec_WriteHeader 404 x))
    demo_health demo_get (new_exchange empty_world).

Lemma health_runs :
  response_code (demo_health_run Second true).2 = 200 ∧
  response_code (demo_health_run (100 * Second) true).2 = 503 ∧
  response_code (demo_health_run Second false).2 = 503.
Proof. vm_compute. done. Qed.

Lemma health_reports_witness :
  ∃ code headers, (demo_health_run Second true).2.(ex_sent) = Some (code, headers) ∧
    headers !! requestIDHeader = Some "12345678-1234-1234-1234-123456789012".
Proof.
  pose proof (health_reports (E := health_env Second true) demo_uuid_ok (λ _, "") (λ _, Ok "{}")
    (λ _ x, (Returned, rec_WriteHeader 404 x)) demo_health demo_get empty_world eq_refl eq_refl) as H.
  unfold demo_health_run. destruct (NewRouter _ _ _ _ _ _ _) as [o x].
  destruct H as (_ & code & headers & Hs & _ & _ & Hh). exists code, headers. split; [exact Hs|exact Hh].
Defined.

(** A handler that writes and then panics. *)
Definition demo_partial : Handler := λ _ x, (Panicked false "boom", rec_Write "partial" x).

Lemma recovery_answers_witness :
  writes_through demo_partial ∧
  ∃ x0, recorder_ok x0 ∧
    (withRequestID (E := health_env 0 true) demo_uuid_ok (withRecovery demo_partial) demo_get
       (new_exchange empty_world)).2 = (demo_partial demo_get x0).2.
Proof.
  assert (writes_through demo_partial) as Hw by (intros r x _; apply recorder_ok_Write).
  split; [exact Hw|].
  pose proof (recovery_answers (E := health_env 0 true) demo_uuid_ok demo_partial demo_get empty_world Hw) as H.
  cbv zeta in H. destruct (withRequestID _ _ _ _) as [o x]. destruct H as (x0 & Hok & Hs & _ & _ & Hx).
  exists x0. split; [exact Hok|]. apply (Hx (StatusOK, ex_header x0)).
  unfold rec_Write, commit, note. cbn. by rewrite Hs.
Defined.
