(* ===== verification/Pool.v ===== *)
(** The pool of reply workers and its shutdown: [enqueueReply], [replyWorker] and
    [Shutdown] of [internal/service/submissions.go], statement by statement.

    A [pool] is what the goroutines share: the [enqueueMu] lock, the [closed] flag, the
    channel, the two wait groups and the reply context.  A [pool_pc] says where a
    goroutine stands.  [goroutine_step] is its next statement: it moves on, it waits, or it
    panics, as Go does on a send to a closed channel, a second close, or a wait group
    below zero.  Any number of goroutines may call [enqueueReply] and [Shutdown].  The
    delivery of a job is one step here; [Dispatch] has its statements. *)
From Stdlib Require Import ZArith.
From stdpp Require Import base list strings relations.
From S2P Require Import Prelude.

Open Scope Z_scope.

Section pool.
Context {J : Type}.

Record pool : Type := mkPool {
  pl_readers : nat;          (** read locks held on [enqueueMu] *)
  pl_writer : bool;          (** the write lock *)
  pl_closed : bool;
  pl_chan : list J;          (** [replyJobs], oldest first *)
  pl_chanClosed : bool;
  pl_inFlight : Z;           (** [inFlightWG] *)
  pl_workers : Z;            (** [replyWG] *)
  pl_cancelled : bool;       (** [replyCtx] *)
  pl_accepted : list J;      (** jobs ever taken into the channel *)
  pl_finished : list J }.    (** jobs ever dispatched to the end *)

Inductive pool_pc : Type :=
(** [enqueueReply] *)
| EqStart (j : J) | EqLocked (j : J) | EqSelect (j : J) | EqUnlock (ok : bool) | EqDone (ok : bool)
(** [replyWorker] *)
| WReceive | WDispatch (j : J) | WDone | WExit
(** [Shutdown]; the flag says whether the drain ended within its bounds *)
| ShStart | ShLocked | ShUnlockEarly | ShUnlock | ShDrain | ShCancel | ShHardWait
| ShClose (drained : bool) | ShWaitWorkers (drained : bool) | ShDefer (drained : bool) | ShDone (drained : bool)
| ShAlready.

Inductive move : Type :=
| Blocked
| Panics (msg : string)
| Goes (pc : pool_pc) (s : pool).

Definition with_lock (readers : nat) (writer : bool) (s : pool) : pool :=
  mkPool readers writer s.(pl_closed) s.(pl_chan) s.(pl_chanClosed) s.(pl_inFlight) s.(pl_workers)
    s.(pl_cancelled) s.(pl_accepted) s.(pl_finished).
Definition with_closed (v : bool) (s : pool) : pool :=
  mkPool s.(pl_readers) s.(pl_writer) v s.(pl_chan) s.(pl_chanClosed) s.(pl_inFlight) s.(pl_workers)
    s.(pl_cancelled) s.(pl_accepted) s.(pl_finished).
Definition with_chan (v : list J) (accepted : list J) (s : pool) : pool :=
  mkPool s.(pl_readers) s.(pl_writer) s.(pl_closed) v s.(pl_chanClosed) s.(pl_inFlight) s.(pl_workers)
    s.(pl_cancelled) accepted s.(pl_finished).
Definition with_chanClosed (v : bool) (s : pool) : pool :=
  mkPool s.(pl_readers) s.(pl_writer) s.(pl_closed) s.(pl_chan) v s.(pl_inFlight) s.(pl_workers)
    s.(pl_cancelled) s.(pl_accepted) s.(pl_finished).
Definition with_inFlight (v : Z) (s : pool) : pool :=
  mkPool s.(pl_readers) s.(pl_writer) s.(pl_closed) s.(pl_chan) s.(pl_chanClosed) v s.(pl_workers)
    s.(pl_cancelled) s.(pl_accepted) s.(pl_finished).
Definition with_workers (v : Z) (s : pool) : pool :=
  mkPool s.(pl_readers) s.(pl_writer) s.(pl_closed) s.(pl_chan) s.(pl_chanClosed) s.(pl_inFlight) v
    s.(pl_cancelled) s.(pl_accepted) s.(pl_finished).
Definition with_cancelled (v : bool) (s : pool) : pool :=
  mkPool s.(pl_readers) s.(pl_writer) s.(pl_closed) s.(pl_chan) s.(pl_chanClosed) s.(pl_inFlight) s.(pl_workers)
    v s.(pl_accepted) s.(pl_finished).
Definition with_finished (v : list J) (s : pool) : pool :=
  mkPool s.(pl_readers) s.(pl_writer) s.(pl_closed) s.(pl_chan) s.(pl_chanClosed) s.(pl_inFlight) s.(pl_workers)
    s.(pl_cancelled) s.(pl_accepted) v.

(** [wg.Done()], then [k] *)
Definition wg_done (n : Z) (k : Z → move) : move :=
  if n - 1 <? 0 then Panics "sync: negative WaitGroup counter" else k (n - 1).

Section step.
Context (capacity : nat).

Definition enqueue_step (pc : pool_pc) (s : pool) : move :=
  match pc with
  | EqStart j => if s.(pl_writer) then Blocked
                 else Goes (EqLocked j) (with_lock (S s.(pl_readers)) false s)
  | EqLocked j => if s.(pl_closed) then Goes (EqUnlock false) s
                  else Goes (EqSelect j) (with_inFlight (s.(pl_inFlight) + 1) s)
  | EqSelect j =>
    if s.(pl_chanClosed) then Panics "send on closed channel"
    else if (length s.(pl_chan) <? capacity)%nat
         then Goes (EqUnlock true) (with_chan (s.(pl_chan) ++ [j]) (s.(pl_accepted) ++ [j]) s)
         else wg_done s.(pl_inFlight) (λ n, Goes (EqUnlock false) (with_inFlight n s))
  | EqUnlock ok => Goes (EqDone ok) (with_lock (pred s.(pl_readers)) s.(pl_writer) s)
  | _ => Blocked
  end.

Definition worker_step (pc : pool_pc) (s : pool) : move :=
  match pc with
  | WReceive =>
    match s.(pl_chan) with
    | j :: rest => Goes (WDispatch j) (with_chan rest s.(pl_accepted) s)
    | [] => if s.(pl_chanClosed) then wg_done s.(pl_workers) (λ n, Goes WExit (with_workers n s)) else Blocked
    end
  | WDispatch j => Goes WDone (with_finished (s.(pl_finished) ++ [j]) s)
  | WDone => wg_done s.(pl_inFlight) (λ n, Goes WReceive (with_inFlight n s))
  | _ => Blocked
  end.

(** [waitBounded]: the group reached zero, or the timer fired first. *)
Definition wait_bounded (timer : bool) (n : Z) (s : pool) (yes no : pool_pc) : move :=
  if timer then Goes no s else if n =? 0 then Goes yes s else Blocked.

Definition shutdown_step (timer : bool) (pc : pool_pc) (s : pool) : move :=
  match pc with
  | ShStart => if s.(pl_writer) || (0 <? Z.of_nat s.(pl_readers)) then Blocked
               else Goes ShLocked (with_lock 0 true s)
  | ShLocked => if s.(pl_closed) then Goes ShUnlockEarly s else Goes ShUnlock (with_closed true s)
  | ShUnlockEarly => Goes ShAlready (with_lock s.(pl_readers) false s)
  | ShUnlock => Goes ShDrain (with_lock s.(pl_readers) false s)
  | ShDrain => wait_bounded timer s.(pl_inFlight) s (ShClose true) ShCancel
  | ShCancel => Goes ShHardWait (with_cancelled true s)
  | ShHardWait => wait_bounded timer s.(pl_inFlight) s (ShClose true) (ShClose false)
  | ShClose b => if s.(pl_chanClosed) then Panics "close of closed channel"
                 else Goes (ShWaitWorkers b) (with_chanClosed true s)
  | ShWaitWorkers b => wait_bounded timer s.(pl_workers) s (ShDefer b) (ShDefer b)
  | ShDefer b => Goes (ShDone b) (with_cancelled true s)
  | _ => Blocked
  end.

Definition goroutine_step (timer : bool) (pc : pool_pc) (s : pool) : move :=
  match pc with
  | EqStart _ | EqLocked _ | EqSelect _ | EqUnlock _ | EqDone _ => enqueue_step pc s
  | WReceive | WDispatch _ | WDone | WExit => worker_step pc s
  | _ => shutdown_step timer pc s
  end.

Definition sys : Type := list pool_pc * pool.

Inductive pool_step : sys → sys → Prop :=
| PS_thread ths s i timer pc pc' s' :
    ths !! i = Some pc → goroutine_step timer pc s = Goes pc' s' → pool_step (ths, s) (<[i := pc']> ths, s')
| PS_enqueue ths s j : pool_step (ths, s) (ths ++ [EqStart j], s)
| PS_shutdown ths s : pool_step (ths, s) (ths ++ [ShStart], s).

(** What [NewSubmissionsService] starts: its workers, waiting on an empty channel. *)
Definition new_pool (workers : nat) : sys :=
  (replicate workers WReceive, mkPool 0 false false [] false 0 (Z.of_nat workers) false [] []).

Definition pool_reachable (workers : nat) : sys → Prop := rtc pool_step (new_pool workers).
End step.
End pool.
Arguments pool : clear implicits.
Arguments pool_pc : clear implicits.
Arguments sys : clear implicits.
