(* ===== verification/PoolProps.v ===== *)
(** Theorems about the worker pool: it never panics, a drained shutdown leaves no
    accepted reply behind, and every shutdown ends. *)
From Stdlib Require Import ZArith Permutation.
From stdpp Require Import base list strings relations sets.
From S2P Require Import Prelude Pool.

Open Scope Z_scope.

(** ** Sums over goroutines *)

Definition tsum {A} (f : A → Z) (l : list A) : Z := foldr (λ x n, f x + n) 0 l.

Lemma tsum_app {A} (f : A → Z) l k : tsum f (l ++ k) = tsum f l + tsum f k.
Proof. induction l as [|x l IH]; cbn [app tsum foldr]; [done|]. unfold tsum in *. lia. Qed.

Lemma tsum_insert {A} (f : A → Z) l i x y :
  l !! i = Some x → tsum f (<[i := y]> l) = tsum f l - f x + f y.
Proof.
  revert i. induction l as [|z l IH]; intros [|i] Hi; [done|done|..].
  - injection Hi as ->. change (<[0%nat := y]> (x :: l)) with (y :: l). cbn [tsum foldr]. lia.
  - change (<[S i := y]> (z :: l)) with (z :: <[i := y]> l). cbn [tsum foldr].
    specialize (IH i Hi). unfold tsum in IH. lia.
Qed.

Lemma tsum_add {A} (f g : A → Z) l : tsum (λ x, f x + g x) l = tsum f l + tsum g l.
Proof. induction l as [|x l IH]; cbn; [done|]. unfold tsum in *. lia. Qed.

Lemma tsum_le {A} (f g : A → Z) l : (∀ x, f x ≤ g x) → tsum f l ≤ tsum g l.
Proof. intros Hfg. induction l as [|x l IH]; cbn; [done|]. specialize (Hfg x). unfold tsum in *. lia. Qed.

Lemma tsum_nonneg {A} (f : A → Z) l : (∀ x, 0 ≤ f x) → 0 ≤ tsum f l.
Proof. intros Hf. induction l as [|x l IH]; cbn; [done|]. specialize (Hf x). unfold tsum in *. lia. Qed.

Lemma tsum_elem {A} (f : A → Z) l i x : (∀ x, 0 ≤ f x) → l !! i = Some x → f x ≤ tsum f l.
Proof.
  intros Hf. revert i. induction l as [|z l IH]; intros [|i] Hi; cbn in *; simplify_eq.
  - pose proof (tsum_nonneg f l Hf). unfold tsum in *. lia.
  - specialize (IH i Hi). pose proof (Hf z). unfold tsum in *. lia.
Qed.

Lemma tsum_pos {A} (f : A → Z) l : 0 < tsum f l → ∃ i x, l !! i = Some x ∧ 0 < f x.
Proof.
  induction l as [|z l IH]; cbn; [lia|]. intros Hs. destruct (Z_lt_le_dec 0 (f z)); [by exists 0%nat, z|].
  destruct IH as (i & x & Hi & Hx); [unfold tsum; lia|]. by exists (S i), x.
Qed.

Lemma bind_insert {A B} (f : A → list B) l i x y :
  l !! i = Some x → f x ++ (<[i := y]> l ≫= f) ≡ₚ f y ++ (l ≫= f).
Proof.
  revert i. induction l as [|z l IH]; intros [|i] Hi; simplify_eq/=; [solve_Permutation|].
  specialize (IH i Hi). rewrite (Permutation_app_swap_app (f x)), IH. apply Permutation_app_swap_app.
Qed.

(** ** The invariant *)

Section props.
Context {J : Type} (capacity : nat).
Implicit Types (pc : pool_pc J) (s : pool J) (ths : list (pool_pc J)).

(** Goroutines that hold a read lock, the write lock, an [inFlightWG] count, a checked
    but unsent job; between setting [closed] and closing the channel; live workers; a
    drained shutdown. *)
Definition reads pc : Z := match pc with EqLocked _ | EqSelect _ | EqUnlock _ => 1 | _ => 0 end.
Definition writes pc : Z := match pc with ShLocked | ShUnlockEarly | ShUnlock => 1 | _ => 0 end.
Definition selects pc : Z := match pc with EqSelect _ => 1 | _ => 0 end.
Definition flies pc : Z := match pc with EqSelect _ | WDispatch _ | WDone => 1 | _ => 0 end.
Definition closes pc : Z :=
  match pc with ShUnlock | ShDrain | ShCancel | ShHardWait | ShClose _ => 1 | _ => 0 end.
Definition lives pc : Z := match pc with WReceive | WDispatch _ | WDone => 1 | _ => 0 end.
Definition drained pc : Z :=
  match pc with ShClose true | ShWaitWorkers true | ShDefer true | ShDone true => 1 | _ => 0 end.
(** The job in hand. *)
Definition held pc : list J := match pc with WDispatch j => [j] | _ => [] end.

Record pool_inv (c : sys J) : Prop := {
  pi_readers : Z.of_nat c.2.(pl_readers) = tsum reads c.1;
  pi_writer : Z.b2z c.2.(pl_writer) = tsum writes c.1;
  pi_excl : Z.b2z c.2.(pl_writer) = 1 → tsum reads c.1 = 0;
  pi_flight : c.2.(pl_inFlight) = tsum flies c.1 + Z.of_nat (length c.2.(pl_chan));
  pi_select : Z.b2z c.2.(pl_closed) = 1 → tsum selects c.1 = 0;
  pi_close : tsum closes c.1 + Z.b2z c.2.(pl_chanClosed) = Z.b2z c.2.(pl_closed);
  pi_workers : c.2.(pl_workers) = tsum lives c.1;
  pi_drained : 0 < tsum drained c.1 → Z.b2z c.2.(pl_closed) = 1 ∧ c.2.(pl_inFlight) = 0;
  pi_jobs : c.2.(pl_accepted) ≡ₚ c.2.(pl_finished) ++ c.2.(pl_chan) ++ (c.1 ≫= held) }.

Lemma weights_nonneg pc :
  0 ≤ reads pc ∧ 0 ≤ writes pc ∧ 0 ≤ selects pc ∧ 0 ≤ flies pc ∧ 0 ≤ closes pc ∧ 0 ≤ lives pc ∧ 0 ≤ drained pc.
Proof. by destruct pc as [| | | | | | | | | | | | | | | |[]|[]|[]|[]|]. Qed.

Lemma selects_le pc : selects pc ≤ reads pc ∧ selects pc ≤ flies pc.
Proof. by destruct pc. Qed.

(** The sums of a state with goroutine [i] at [pc]. *)
Lemma sums_at ths i pc : ths !! i = Some pc →
  reads pc ≤ tsum reads ths ∧ writes pc ≤ tsum writes ths ∧ selects pc ≤ tsum selects ths ∧
  flies pc ≤ tsum flies ths ∧ closes pc ≤ tsum closes ths ∧ lives pc ≤ tsum lives ths ∧
  drained pc ≤ tsum drained ths.
Proof. intros Hi. split_and!; apply (tsum_elem _ _ i); try done; intros x; apply weights_nonneg. Qed.

Lemma sums_bounds ths :
  0 ≤ tsum selects ths ≤ tsum reads ths ∧ tsum selects ths ≤ tsum flies ths ∧ 0 ≤ tsum writes ths ∧
  0 ≤ tsum closes ths ∧ 0 ≤ tsum lives ths ∧ 0 ≤ tsum drained ths.
Proof.
  split_and!; try apply tsum_nonneg; try apply tsum_le; intros x; try apply selects_le; apply weights_nonneg.
Qed.

Lemma held_step ths i pc pc' fin chan fin' chan' acc acc' :
  ths !! i = Some pc → acc ≡ₚ fin ++ chan ++ (ths ≫= held) →
  (∃ new, acc' = acc ++ new ∧ fin' ++ chan' ++ held pc' ≡ₚ fin ++ chan ++ held pc ++ new) →
  acc' ≡ₚ fin' ++ chan' ++ (<[i := pc']> ths ≫= held).
Proof.
  intros Hi Hacc (new & -> & Heq). apply (Permutation_app_inv_l (held pc)).
  rewrite !(Permutation_app_swap_app (held pc)), (bind_insert _ _ _ _ pc' Hi), Hacc.
  assert (fin' ++ chan' ++ held pc' ++ (ths ≫= held) ≡ₚ (fin' ++ chan' ++ held pc') ++ (ths ≫= held)) as ->
    by (by rewrite <- !app_assoc).
  rewrite Heq. solve_Permutation.
Qed.

Lemma new_pool_inv workers : pool_inv (new_pool (J := J) workers).
Proof.
  assert (∀ f : pool_pc J → Z, tsum f (replicate workers WReceive) = Z.of_nat workers * f WReceive) as Hr.
  { intros f. induction workers as [|n IH]; cbn [replicate tsum foldr]; [lia|]. unfold tsum in IH. lia. }
  assert (replicate workers WReceive ≫= held = []) as Hh by (clear; by induction workers).
  split; cbn [new_pool fst snd pl_accepted pl_finished pl_chan app]; rewrite ?Hr, ?Hh; cbn; lia || done.
Qed.

Lemma call_inv ths s pc :
  pc = ShStart ∨ (∃ j, pc = EqStart j) → pool_inv (ths, s) → pool_inv (ths ++ [pc], s).
Proof.
  intros Hpc [H1 H2 H3 H4 H5 H6 H7 H8 H9]. cbn [fst snd] in *.
  split; cbn [fst snd]; rewrite ?tsum_app; try (destruct Hpc as [->|[j ->]]; cbn; rewrite ?Z.add_0_r; assumption).
  rewrite bind_app. destruct Hpc as [->|[j ->]]; cbn; by rewrite app_nil_r.
Qed.

Ltac thread_cases H :=
  unfold goroutine_step, enqueue_step, worker_step, shutdown_step, wg_done, wait_bounded in H;
  repeat match type of H with context [match ?b with _ => _ end] => destruct b eqn:? end;
  try discriminate H; injection H as <- <-.

Lemma thread_inv ths s i timer pc pc' s' :
  ths !! i = Some pc → goroutine_step capacity timer pc s = Goes pc' s' →
  pool_inv (ths, s) → pool_inv (<[i := pc']> ths, s').
Proof.
  intros Hi Hstep [H1 H2 H3 H4 H5 H6 H7 H8 H9]. cbn [fst snd] in *.
  pose proof (sums_at ths i pc Hi) as Hat. pose proof (sums_bounds ths) as Hb.
  destruct s as [rd wr cl ch cc fl wk ca ac fi]. cbn [pl_readers pl_writer pl_closed pl_chan pl_chanClosed
    pl_inFlight pl_workers pl_cancelled pl_accepted pl_finished] in *.
  destruct pc; cbn [reads writes selects flies closes lives drained] in Hat; thread_cases Hstep.
  all: split; cbn [fst snd pl_readers pl_writer pl_closed pl_chan pl_chanClosed pl_inFlight pl_workers
    pl_cancelled pl_accepted pl_finished with_lock with_closed with_chan with_chanClosed with_inFlight
    with_workers with_cancelled with_finished] in *;
    rewrite ?(tsum_insert _ _ _ _ _ Hi); cbn [reads writes selects flies closes lives drained].
  all: try match goal with
    | |- _ ≡ₚ _ =>
      eapply held_step; [exact Hi|exact H9|]; cbn [held]; subst;
      first [exists []; split; [by rewrite ?app_nil_r|solve_Permutation]
            |eexists [_]; split; [reflexivity|solve_Permutation]]
    end.
  all: rewrite ?length_app; destruct wr, cl, cc; cbn [length Z.b2z orb] in *; try discriminate; subst;
    rewrite ?length_app; cbn [length] in *; lia.
Qed.

Lemma pool_reachable_inv workers c : pool_reachable capacity workers c → pool_inv c.
Proof.
  intros Hr. refine (rtc_ind_r (R := pool_step capacity) pool_inv _ (new_pool_inv workers) _ _ Hr).
  intros c1 c2 _ Hst Hc1. destruct Hst; [by eapply thread_inv|..]; apply call_inv; eauto.
Qed.

Lemma thread_no_panic workers ths s i pc timer msg :
  pool_reachable capacity workers (ths, s) → ths !! i = Some pc →
  goroutine_step capacity timer pc s ≠ Panics msg.
Proof.
  intros [H1 H2 H3 H4 H5 H6 H7 H8 H9]%pool_reachable_inv Hi Hp. cbn [fst snd] in *.
  pose proof (sums_at ths i pc Hi) as Hat. pose proof (sums_bounds ths) as Hb.
  destruct pc; cbn [reads writes selects flies closes lives drained] in Hat;
    unfold goroutine_step, enqueue_step, worker_step, shutdown_step, wg_done, wait_bounded in Hp;
    repeat match type of Hp with context [match ?b with _ => _ end] => destruct b eqn:? end; try discriminate Hp;
    repeat match goal with H : pl_chanClosed s = true |- _ => rewrite H in * end;
    destruct (pl_closed s); cbn [Z.b2z] in *; lia.
Qed.

(** C34: Whatever calls of [enqueueReply] and [Shutdown] come together, and however they
    interleave with the workers, no goroutine of the pool ever panics: no send on the
    closed channel, no second close, no wait group below zero. *)
Theorem pool_never_panics workers ths s i pc timer msg :
  pool_reachable capacity workers (ths, s) → ths !! i = Some pc →
  goroutine_step capacity timer pc s ≠ Panics msg.
Proof. apply thread_no_panic. Qed.

(** The jobs accepted are the jobs finished, waiting and in hand: none is lost, none
    is handled twice. *)
Lemma jobs_conserved workers ths s :
  pool_reachable capacity workers (ths, s) →
  s.(pl_accepted) ≡ₚ s.(pl_finished) ++ s.(pl_chan) ++ (ths ≫= held).
Proof. intros Hr. apply (pi_jobs _ (pool_reachable_inv _ _ Hr)). Qed.

Lemma flies_none ths : tsum flies ths = 0 → ths ≫= held = [].
Proof.
  induction ths as [|pc ths IH]; cbn; [done|]. intros Hf.
  pose proof (tsum_nonneg flies ths (λ x, proj1 (proj2 (proj2 (proj2 (weights_nonneg x)))))) as Hn.
  unfold tsum in *. destruct pc; cbn in *; try lia; apply IH; lia.
Qed.

(** C35: A shutdown that reports its drain as complete left nothing behind: the channel is
    empty, no worker has a job, every reply ever accepted by the pool was dispatched to
    the end, exactly once, and no reply can be accepted any more. *)
Theorem drained_shutdown_complete workers ths s i :
  pool_reachable capacity workers (ths, s) → ths !! i = Some (ShDone true) →
  s.(pl_chan) = [] ∧ s.(pl_accepted) ≡ₚ s.(pl_finished) ∧ (ths ≫= held) = [] ∧
  ∀ ths' s', rtc (pool_step capacity) (ths, s) (ths', s') → s'.(pl_accepted) = s.(pl_accepted).
Proof.
  intros Hr Hi. pose proof (pool_reachable_inv _ _ Hr) as Hinv. pose proof Hinv as [H1 H2 H3 H4 H5 H6 H7 H8 H9].
  cbn [fst snd] in *. pose proof (sums_at ths i _ Hi) as Hat. pose proof (sums_bounds ths) as Hb. cbn in Hat.
  destruct H8 as [Hcl Hfl]; [lia|]. assert (pl_chan s = []) as Hc.
  { destruct (pl_chan s) as [|? l]; [done|]. cbn [length] in H4. lia. }
  assert (ths ≫= held = []) as Hh by (apply flies_none; rewrite Hc in H4; cbn in H4; lia).
  rewrite Hc, Hh, !app_nil_r in H9. split_and!; try done.
  intros ths' s' Hsteps. clear Hat Hb H1 H2 H3 H4 H5 H6 H7 H9 Hc Hh Hi.
  assert (∀ c c', rtc (pool_step capacity) c c' → pool_inv c → Z.b2z c.2.(pl_closed) = 1 →
    c'.2.(pl_accepted) = c.2.(pl_accepted)) as Hgen; [|by apply (Hgen _ _ Hsteps)].
  clear. induction 1 as [|c c1 c' Hst _ IH]; intros Hinv Hcl; [done|].
  destruct Hst as [ths s k timer pc pc' s' Hk Ht| |]; [|apply IH; [by apply call_inv; eauto|done]..].
  pose proof (thread_inv _ _ _ _ _ _ _ Hk Ht Hinv) as Hinv1.
  destruct Hinv as [H1 H2 H3 H4 H5 H6 H7 H8 H9]. cbn [fst snd] in *. specialize (H5 Hcl).
  pose proof (sums_at ths k pc Hk) as Hat. rewrite IH; [|done|].
  - destruct pc; cbn [selects] in Hat; thread_cases Ht; done || lia.
  - destruct pc; cbn [selects] in Hat; thread_cases Ht; done || lia || by destruct (pl_closed s).
Qed.

(** ** Every shutdown ends *)

(** How many statements a call of [Shutdown] has left. *)
Definition shutdown_rank pc : nat :=
  match pc with
  | ShStart => 10 | ShLocked => 9 | ShUnlockEarly => 1 | ShUnlock => 8 | ShDrain => 7 | ShCancel => 6
  | ShHardWait => 5 | ShClose _ => 4 | ShWaitWorkers _ => 3 | ShDefer _ => 2 | _ => 0
  end.

Definition in_shutdown pc : Prop := (0 < shutdown_rank pc)%nat.

(** Nothing waits while it holds the lock. *)
Lemma lock_holder_goes workers ths s k pc :
  pool_reachable capacity workers (ths, s) → ths !! k = Some pc → 0 < reads pc + writes pc →
  ∃ pc' s', goroutine_step capacity true pc s = Goes pc' s'.
Proof.
  intros Hr Hk Hpc. destruct (goroutine_step capacity true pc s) as [|msg|pc' s'] eqn:Ht; [| |eauto].
  - destruct pc; cbn in Hpc; try lia; unfold goroutine_step, enqueue_step, shutdown_step, wg_done in Ht;
      repeat case_match; discriminate Ht.
  - by destruct (thread_no_panic workers ths s k pc true msg Hr Hk).
Qed.

(** A shutdown always ends.  Its statements only bring it closer to its end; it can
    only wait for the lock or, at most until a timer fires, for a wait group; and while
    the lock is taken some holder of it can go on to give it back, since nothing under
    the lock waits. *)
Theorem shutdown_ends workers ths s i pc :
  pool_reachable capacity workers (ths, s) → ths !! i = Some pc → in_shutdown pc →
  (∀ timer pc' s', goroutine_step capacity timer pc s = Goes pc' s' →
     (shutdown_rank pc' < shutdown_rank pc)%nat) ∧
  (pc ≠ ShStart → ∃ pc' s', goroutine_step capacity true pc s = Goes pc' s') ∧
  (pc = ShStart → (∃ pc' s', goroutine_step capacity true pc s = Goes pc' s') ∨
     ∃ k pc_k, ths !! k = Some pc_k ∧ 0 < reads pc_k + writes pc_k ∧
       ∃ pc' s', goroutine_step capacity true pc_k s = Goes pc' s').
Proof.
  intros Hr Hi Hin. split_and!.
  - intros timer pc' s' Ht. destruct pc; try (unfold in_shutdown in Hin; cbn in Hin; lia);
      thread_cases Ht; cbn; lia.
  - intros Hne. assert (∀ msg, goroutine_step capacity true pc s ≠ Panics msg) as Hp.
    { intros msg. by eapply thread_no_panic. }
    destruct (goroutine_step capacity true pc s) as [|msg|pc' s'] eqn:Ht; [|by destruct (Hp msg)|eauto].
    destruct pc; try done; unfold in_shutdown in Hin; cbn in Hin; try lia;
      unfold goroutine_step, shutdown_step, wait_bounded in Ht; repeat case_match; try discriminate Ht; done.
  - intros ->. pose proof (pool_reachable_inv _ _ Hr) as [H1 H2 H3 H4 H5 H6 H7 H8 H9]. cbn [fst snd] in *.
    pose proof (sums_bounds ths) as Hb. unfold goroutine_step at 1, shutdown_step.
    destruct (pl_writer s || (0 <? Z.of_nat (pl_readers s))) eqn:Hl; [right|left; eauto].
    assert (0 < tsum (λ pc, reads pc + writes pc) ths) as Hpos.
    { rewrite tsum_add. apply orb_true_iff in Hl as [Hw|Hw%Z.ltb_lt]; [rewrite Hw in H2; cbn in H2|]; lia. }
    destruct (tsum_pos _ _ Hpos) as (k & pck & Hk & Hpk). exists k, pck. split_and!; [done..|].
    apply (lock_holder_goes workers ths s k pck Hr Hk Hpk).
Qed.
End props.

(** ** Runs *)

Inductive action : Type := Enqueue (j : nat) | Stop | Do (i : nat) (timer : bool).

Definition act (capacity : nat) (c : sys nat) (a : action) : option (sys nat) :=
  match a with
  | Enqueue j => Some (c.1 ++ [EqStart j], c.2)
  | Stop => Some (c.1 ++ [ShStart], c.2)
  | Do i timer => pc ← c.1 !! i;
                  match goroutine_step capacity timer pc c.2 with
                  | Goes pc' s' => Some (<[i := pc']> c.1, s')
                  | _ => None
                  end
  end.

Fixpoint acts (capacity : nat) (c : sys nat) (l : list action) : option (sys nat) :=
  match l with
  | [] => Some c
  | a :: l => c' ← act capacity c a; acts capacity c' l
  end.

Lemma acts_steps capacity c l c' : acts capacity c l = Some c' → rtc (pool_step capacity) c c'.
Proof.
  revert c. induction l as [|a l IH]; intros [ths s]; cbn [acts]; [by intros [= ->]|].
  intros ([ths1 s1] & Ha & Hl)%bind_Some. econstructor; [|by apply IH].
  destruct a as [j| |i timer]; cbn [act fst snd] in Ha; [injection Ha as <- <-; constructor..|].
  apply bind_Some in Ha as (pc & Hi & Ht). destruct (goroutine_step _ _ _ _) eqn:Hst; try discriminate.
  injection Ht as <- <-. by econstructor.
Qed.

(** Two replies for one worker and a channel of one: the second finds the channel full;
    the shutdown waits for the first and drains. *)
Definition demo_drain : list action :=
  [Enqueue 7; Do 1 false; Do 1 false; Do 1 false; Enqueue 8; Do 2 false; Do 2 false; Do 2 false;
   Do 1 false; Do 2 false; Stop; Do 3 false; Do 3 false; Do 3 false; Do 0 false; Do 0 false; Do 0 false;
   Do 3 false; Do 3 false; Do 0 false; Do 3 false; Do 3 false].

Definition demo_drained : sys nat :=
  ([WExit; EqDone true; EqDone false; ShDone true], mkPool 0 false true [] true 0 0 true [7%nat] [7%nat]).

Lemma demo_drain_reaches : pool_reachable 1 1 demo_drained.
Proof. apply (acts_steps 1 _ demo_drain). vm_compute. reflexivity. Qed.

(** The shutdown about to close the channel. *)
Definition demo_closing : sys nat :=
  ([WReceive; EqDone true; EqDone false; ShClose true], mkPool 0 false true [] false 0 1 false [7%nat] [7%nat]).

Lemma demo_closing_reaches : pool_reachable 1 1 demo_closing.
Proof. apply (acts_steps 1 _ (take 18 demo_drain)). vm_compute. reflexivity. Qed.

Lemma pool_never_panics_witness :
  pool_reachable 1 1 demo_closing ∧
  goroutine_step 1 true (ShClose true) demo_closing.2 ≠ Panics "close of closed channel".
Proof.
  split; [exact demo_closing_reaches|].
  exact (pool_never_panics 1 1 _ _ 3 (ShClose true) true _ demo_closing_reaches eq_refl).
Defined.

Lemma drained_shutdown_complete_witness :
  demo_drained.1 !! 3%nat = Some (ShDone true) ∧ demo_drained.2.(pl_accepted) ≡ₚ demo_drained.2.(pl_finished).
Proof.
  split; [reflexivity|].
  exact (proj1 (proj2 (drained_shutdown_complete 1 1 _ _ 3 demo_drain_reaches eq_refl))).
Defined.

(** The first actions only: the shutdown has set [closed] and waits for the worker. *)
Definition demo_waiting : sys nat :=
  ([WReceive; EqDone true; EqDone false; ShDrain], mkPool 0 false true [7%nat] false 1 1 false [7%nat] []).

Lemma demo_waiting_reaches : pool_reachable 1 1 demo_waiting.
Proof. apply (acts_steps 1 _ (take 14 demo_drain)). vm_compute. reflexivity. Qed.

Lemma shutdown_ends_witness :
  goroutine_step 1 false ShDrain demo_waiting.2 = Blocked ∧
  ∃ pc' s', goroutine_step 1 true ShDrain demo_waiting.2 = Goes pc' s'.
Proof.
  split; [reflexivity|].
  refine (proj1 (proj2 (shutdown_ends 1 1 _ _ 3 ShDrain demo_waiting_reaches eq_refl _)) _).
  - unfold in_shutdown. cbn. lia.
  - discriminate.
Defined.
