(* ===== verification/Smtp.v ===== *)
(** Rendering of outbound mail: the pure part of [internal/infrastructure/email/smtp.go].

    [QEncode] is [mime.QEncoding.Encode("utf-8", _)] and [RFC1123Z] the rendering of a
    time; both are the class [MimeLib]. *)
From Stdlib Require Import ZArith Ascii.
From stdpp Require Import base list strings gmap.
From S2P Require Import Prelude GoStrings GoValues Submission Reply Config.

Open Scope Z_scope.

Definition maxRefs : Z := 50.
Definition maxSubjectRunes : Z := 512.
Definition headerFoldOctets : Z := 900.
Definition maxMsgIDLen : Z := 256.

Definition cr : ascii := "013".
Definition lf : ascii := "010".
Definition crlf : string := String cr (String lf "").

Class MimeLib : Type := {
  QEncode : string → string;
  RFC1123Z : time → string
}.

(** [strings.NewReplacer(c1, "", c2, "", ...).Replace(s)]: the bytes of [set] removed. *)
Fixpoint strip_bytes (set : list ascii) (s : string) : string :=
  match s with
  | "" => ""
  | String c s => if bool_decide (c ∈ set) then strip_bytes set s else String c (strip_bytes set s)
  end.

Definition stripCRLF (s : string) : string := strip_bytes [cr; lf] s.

Definition msgIDStripper : list ascii := [cr; lf; "009"; " "; "<"; ">"]%char.

Definition sanitizeMsgID (s : string) : string := strip_bytes msgIDStripper (TrimSpace s).

Definition angle (id : string) : string := "<" +:+ id +:+ ">".

Definition usable_id (id : string) : bool := negb (bool_decide (id = "")) && (len id <=? maxMsgIDLen).

(** The last [maxRefs] references, sanitized, without the empty and the overlong. *)
Definition ref_ids (references : list string) : list string :=
  List.filter usable_id (map sanitizeMsgID (drop (length references - Z.to_nat maxRefs) references)).

(** The folding loop, after the first token. *)
Fixpoint fold_tokens (lineLen : Z) (tokens : list string) : string :=
  match tokens with
  | [] => ""
  | t :: tokens =>
    if headerFoldOctets <? lineLen + 1 + len t
    then crlf +:+ " " +:+ t +:+ fold_tokens (1 + len t) tokens
    else " " +:+ t +:+ fold_tokens (lineLen + 1 + len t) tokens
  end.

Definition buildRefs (references : list string) : string :=
  match map angle (ref_ids references) with
  | [] => ""
  | t :: tokens => t +:+ fold_tokens (len "References: " + len t) tokens
  end.

(** [string(rs[:max])] re-encodes the runes. *)
Definition truncateRunes (s : string) (max : Z) : string :=
  if len s <=? max then s
  else let rs := runes s in
       if Z.of_nat (length rs) <=? max then s else encode_runes (take (Z.to_nat max) rs).

Definition domainOf (addr : string) : string :=
  match LastIndexByte addr "@" with
  | Some at_ => if Z.of_nat at_ <? len addr - 1 then sdrop (at_ + 1) addr else "localhost"
  | None => "localhost"
  end.

(** [strings.ReplaceAll] of CRLF by LF, then of LF by CRLF. *)
Fixpoint crlf_to_lf (s : string) : string :=
  match s with
  | "" => ""
  | String c s' =>
    if bool_decide (c = cr) then
      match s' with
      | String d s'' => if bool_decide (d = lf) then String lf (crlf_to_lf s'') else String c (crlf_to_lf s')
      | "" => String c ""
      end
    else String c (crlf_to_lf s')
  end.

Fixpoint lf_to_crlf (s : string) : string :=
  match s with
  | "" => ""
  | String c s => if bool_decide (c = lf) then String cr (String lf (lf_to_crlf s)) else String c (lf_to_crlf s)
  end.

Definition render_body (body : string) : string := lf_to_crlf (crlf_to_lf body).

Section render.
Context {L : GoLib} {ML : MimeLib}.

(** Half of the digest: 16 bytes, 32 hex digits. *)
Definition replyMessageID (r : Reply) : string :=
  let z := String nul "" in
  stake 32 (sha256_hex (r.(rep_SubmissionID) +:+ z +:+ r.(rep_ToAddress) +:+ z +:+ r.(rep_Subject) +:+ z +:+
                        r.(rep_BodyText))).

Definition message_id (cfg : SMTPConfig) (r : Reply) : string :=
  replyMessageID r +:+ "@" +:+ domainOf cfg.(smtp_FromAddress).

(** The header lines, in order. *)
Definition header_lines (cfg : SMTPConfig) (r : Reply) (msgID : string) (now : time) : list string :=
  let fromAddr := stripCRLF cfg.(smtp_FromAddress) in
  let from := if bool_decide (cfg.(smtp_FromName) = "") then fromAddr
              else QEncode cfg.(smtp_FromName) +:+ " <" +:+ fromAddr +:+ ">" in
  let irt := sanitizeMsgID r.(rep_InReplyTo) in
  let refs := buildRefs r.(rep_References) in
  ["From: " +:+ from;
   "To: " +:+ stripCRLF r.(rep_ToAddress);
   "Subject: " +:+ QEncode (truncateRunes r.(rep_Subject) maxSubjectRunes);
   "Date: " +:+ RFC1123Z now;
   "Message-ID: <" +:+ msgID +:+ ">"] ++
  (if usable_id irt then ["In-Reply-To: " +:+ angle irt] else []) ++
  (if bool_decide (refs = "") then [] else ["References: " +:+ refs]) ++
  ["Auto-Submitted: auto-generated"; "MIME-Version: 1.0"; "Content-Type: text/plain; charset=utf-8"].

Definition join_lines (l : list string) : string := foldr (λ line k, line +:+ crlf +:+ k) "" l.

Definition buildMessage (cfg : SMTPConfig) (r : Reply) (msgID : string) (now : time) : string :=
  join_lines (header_lines cfg r msgID now) +:+ crlf +:+ render_body r.(rep_BodyText).
End render.
