(* ===== verification/Retry.v ===== *)
(** [pkg/retry]: calling a fallible operation until it succeeds, fails for good, or the
    attempts are used up.

    [Do] is a computation over the [World]: the pauses it makes are recorded in
    [w_net], the random factor of the jitter is the environment's. *)
From Stdlib Require Import ZArith SpecFloat.
From stdpp Require Import base list strings gmap.
From S2P Require Import Prelude GoStrings GoValues Submission World.

Open Scope Z_scope.

Class NetEnv : Type := {
  env_rand : nat → float64   (** [rand.Float64()] *)
}.

Definition MaxDelay : duration := 30 * Second.
Definition jitterFactor : float64 := f64_ratio 2 10.

Definition MarkPermanent (e : error) : error := ErrPermanent e.

Definition capDelay (d : duration) : duration := if MaxDelay <? d then MaxDelay else d.

Definition slept (d : duration) (w : World) : World :=
  w_next (w_with_net (mkNet w.(w_net).(ns_smtp) w.(w_net).(ns_posts) (w.(w_net).(ns_sleeps) ++ [d])) w).

Section retry.
Context {E : Env} {N : NetEnv}.

Definition jitter (d : duration) : M duration := λ w,
  if d <=? 0 then (Ok d, w)
  else
    let spread := f64_mul (f64_of_Z d) jitterFactor in
    let offset := f64_mul (f64_add (f64_mul (env_rand w.(w_tick)) (f64_of_Z 2)) (f64_of_Z (-1))) spread in
    (Ok (wrap64 (d + f64_trunc offset)), w_next w).

(** The timer of [d], or the end of the context. *)
Definition pause (d : duration) : M unit := modify (slept d) ≫= λ _, check_ctx.

Definition exhausted (attempts : Z) (e : error) : error :=
  ErrWrap ("retry exhausted after " +:+ fmt_d attempts +:+ " attempts") e.

(** The loop with [n + 1] attempts left. *)
Fixpoint retry_loop {A} (n : nat) (attempts : Z) (delay : duration) (fn : M A) : M A :=
  check_ctx ≫= λ _,
  r ← attempt fn;
  match r with
  | Ok a => mret a
  | Err e =>
    if errors_AsPermanent e then throw (ErrWrap "retry permanent" e)
    else match n with
         | O => throw (exhausted attempts e)
         | S n =>
           d ← jitter delay;
           pause (capDelay d) ≫= λ _,
           let delay := wrap64 (delay * 2) in
           retry_loop n attempts (if MaxDelay <? delay then MaxDelay else delay) fn
         end
  end.

Definition Do {A} (attempts : Z) (baseDelay : duration) (fn : M A) : M A :=
  let attempts := if attempts <=? 0 then 1 else attempts in
  let baseDelay := if baseDelay <=? 0 then 100 * Millisecond else baseDelay in
  retry_loop (Z.to_nat (attempts - 1)) attempts baseDelay fn.

(** ** What the loop does *)

(** An error after which another attempt is made. *)
Definition transient (e : error) : Prop :=
  errors_AsPermanent e = false ∧ match e with ErrPanic _ => False | _ => True end.

Definition paused (w w' : World) : Prop :=
  ∃ d, d ≤ MaxDelay ∧ (w' = slept d w ∨ w' = slept d (w_next w)).

(** The context has not ended. *)
Definition live (w : World) : Prop := env_cancelled w.(w_tick) = None.

(** [tried fn k w w']: [k] runs of [fn], each begun while the context was live, failed
    transiently and were followed by a pause. *)
Inductive tried {A} (fn : M A) : nat → World → World → Prop :=
| tried_none w : tried fn 0 w w
| tried_more k w w1 w2 w3 e :
    fn w = (Err e, w1) → transient e → paused w1 w2 → live w → tried fn k w2 w3 → tried fn (S k) w w3.

(** How the attempts end in [w]: the context has ended and no run is begun, or a last run
    decides. *)
Inductive last_attempt {A} (attempts : Z) (fn : M A) (final : bool) (w : World) : result A → World → Prop :=
| last_cancelled e : env_cancelled w.(w_tick) = Some e → last_attempt attempts fn final w (Err e) w
| last_ok a w' : fn w = (Ok a, w') → live w → last_attempt attempts fn final w (Ok a) w'
| last_permanent e w' :
    fn w = (Err e, w') → errors_AsPermanent e = true → live w →
    last_attempt attempts fn final w (Err (ErrWrap "retry permanent" e)) w'
| last_panic p w' :
    fn w = (Err (ErrPanic p), w') → live w → last_attempt attempts fn final w (Err (ErrPanic p)) w'
| last_exhausted e w' :
    fn w = (Err e, w') → transient e → final = true → live w →
    last_attempt attempts fn final w (Err (exhausted attempts e)) w'.

Lemma capDelay_le d : capDelay d ≤ MaxDelay.
Proof. unfold capDelay. destruct (Z.ltb_spec MaxDelay d); lia. Qed.

Lemma jitter_ok d w : ∃ d', jitter d w = (Ok d', w) ∨ jitter d w = (Ok d', w_next w).
Proof. unfold jitter. destruct (d <=? 0); eauto. Qed.

(** What follows the first failure, if it was transient. *)
Definition next_attempt {A} (n : nat) (attempts : Z) (delay : duration) (fn : M A) (e : error) : M A :=
  match n with
  | O => throw (exhausted attempts e)
  | S n =>
    d ← jitter delay;
    pause (capDelay d) ≫= λ _,
    let delay := wrap64 (delay * 2) in
    retry_loop n attempts (if MaxDelay <? delay then MaxDelay else delay) fn
  end.

Lemma retry_round {A} (fn : M A) n attempts delay w r w' final :
  retry_loop n attempts delay fn w = (r, w') →
  last_attempt attempts fn final w r w' ∨
  ∃ e w1, live w ∧ fn w = (Err e, w1) ∧ transient e ∧ next_attempt n attempts delay fn e w1 = (r, w').
Proof.
  intros Hrun. assert (retry_loop n attempts delay fn w = (check_ctx ≫= λ _, r ← attempt fn;
    match r with Ok a => mret a | Err e => if errors_AsPermanent e then throw (ErrWrap "retry permanent" e)
    else next_attempt n attempts delay fn e end) w) as Heq by (by destruct n). rewrite Heq in Hrun. clear Heq.
  unfold mbind, M_bind, check_ctx in Hrun. destruct (env_cancelled (w_tick w)) as [e|] eqn:Ec.
  { injection Hrun as <- <-. left. by constructor. }
  unfold attempt in Hrun. destruct (fn w) as [[a|e] w1] eqn:Ef.
  { injection Hrun as <- <-. left. by constructor. }
  assert ((∃ p, e = ErrPanic p) ∨ match e with ErrPanic _ => False | _ => True end) as [[p ->]|Hnp]
    by (destruct e; eauto).
  { injection Hrun as <- <-. left. by constructor. }
  assert (match e with ErrPanic p => (Err (ErrPanic p), w1) | _ => (Ok (Err e), w1) end = (Ok (Err (A := A) e), w1))
    as Hm by (by destruct e). rewrite Hm in Hrun.
  destruct (errors_AsPermanent e) eqn:Ep.
  - injection Hrun as <- <-. left. by apply last_permanent.
  - right. exists e, w1. by split_and!.
Qed.

Lemma next_attempt_S {A} (fn : M A) n attempts delay e w1 r w' :
  next_attempt (S n) attempts delay fn e w1 = (r, w') →
  ∃ w2 delay', paused w1 w2 ∧
    match env_cancelled w2.(w_tick) with
    | Some e => r = Err e ∧ w' = w2
    | None => retry_loop n attempts delay' fn w2 = (r, w')
    end.
Proof.
  cbn [next_attempt]. set (delay' := if MaxDelay <? wrap64 (delay * 2) then MaxDelay else wrap64 (delay * 2)).
  destruct (jitter_ok delay w1) as (d & Hd). pose proof (capDelay_le d).
  unfold mbind, M_bind, pause, modify, check_ctx, mbind, M_bind.
  destruct Hd as [->| ->]; intros Hrun;
    [exists (slept (capDelay d) w1), delay'|exists (slept (capDelay d) (w_next w1)), delay'];
    (split; [eexists; eauto|]); cbn in *; destruct (env_cancelled _); by simplify_eq.
Qed.

Lemma retry_loop_spec {A} (fn : M A) n attempts delay w r w' :
  retry_loop n attempts delay fn w = (r, w') →
  ∃ k w1, (k ≤ n)%nat ∧ tried fn k w w1 ∧ last_attempt attempts fn (bool_decide (k = n)) w1 r w'.
Proof.
  revert delay w. induction n as [|n IH]; intros delay w Hrun;
    (eapply retry_round in Hrun as [Hl|(e & w1 & Hlive & Hf & Ht & Hrest)];
       [exists 0%nat, w; split_and!; [lia|constructor|exact Hl]|]).
  - injection Hrest as <- <-. exists 0%nat, w. split_and!; [lia|constructor|by apply last_exhausted].
  - apply next_attempt_S in Hrest as (w2 & delay' & Hp & Hrest).
    destruct (env_cancelled (w_tick w2)) as [e'|] eqn:Ec2.
    + destruct Hrest as [-> ->]. exists 1%nat, w2. split_and!; [lia| |by constructor].
      eapply tried_more; [done..|constructor].
    + destruct (IH _ _ Hrest) as (k & w3 & Hk & Htr & Hl). exists (S k), w3.
      split_and!; [lia|by eapply tried_more|].
      by rewrite (bool_decide_ext (S k = S n) (k = n)) by (split; lia).
Qed.

Definition attempts_of (attempts : Z) : Z := if attempts <=? 0 then 1 else attempts.

Lemma Do_runs {A} (attempts : Z) (baseDelay : duration) (fn : M A) w :
  ∃ k w1 r w', Do attempts baseDelay fn w = (r, w') ∧ 0 ≤ k < attempts_of attempts ∧
    tried fn (Z.to_nat k) w w1 ∧
    last_attempt (attempts_of attempts) fn (bool_decide (k + 1 = attempts_of attempts)) w1 r w'.
Proof.
  destruct (Do attempts baseDelay fn w) as [r w'] eqn:Hrun.
  assert (1 ≤ attempts_of attempts) by (unfold attempts_of; destruct (Z.leb_spec attempts 0); lia).
  apply retry_loop_spec in Hrun as (k & w1 & Hk & Htr & Hl). fold (attempts_of attempts) in *.
  exists (Z.of_nat k), w1, r, w'. split_and!; [done|lia|lia|by rewrite Nat2Z.id|].
  by rewrite (bool_decide_ext _ (k = Z.to_nat (attempts_of attempts - 1))) by (split; lia).
Qed.

(** C28: [Do] makes at most the allowed number of attempts, each begun only while the
    context is live, and at least one unless the context had ended before; each but the
    last failed in a way that may be retried and was followed by a pause of at most
    [MaxDelay]; then either the context has ended, whose error is returned, or the last one
    decides the result: a success is returned at once, so is a permanent failure, marked
    as such, a panic goes through, and a failure that may be retried means that every
    attempt was used up. *)
Theorem Do_spec {A} (attempts : Z) (baseDelay : duration) (fn : M A) w :
  ∃ k w1 r w', Do attempts baseDelay fn w = (r, w') ∧ 0 ≤ k < attempts_of attempts ∧
    tried fn (Z.to_nat k) w w1 ∧
    last_attempt (attempts_of attempts) fn (bool_decide (k + 1 = attempts_of attempts)) w1 r w' ∧
    (live w → 0 < k ∨ (fn w).2 = w').
Proof.
  destruct (Do_runs attempts baseDelay fn w) as (k & w1 & r & w' & Hrun & Hk & Htr & Hl).
  exists k, w1, r, w'. split_and!; [done|lia|lia|done|done|]. intros Hlive.
  destruct (decide (k = 0)) as [->|?]; [right|left; lia].
  inversion Htr; subst. destruct Hl as [e He|? ? H|? ? H|? ? H|? ? H]; [unfold live in Hlive; congruence|by rewrite H..].
Qed.

(** ** Counting over the attempts *)

Section counting.
Context {A : Type} (fn : M A) (μ : World → Z).
Hypothesis μ_paused : ∀ w w', paused w w' → μ w' = μ w.

(** A run that adds to [μ] only when it succeeds does so once over all attempts. *)
Lemma Do_counts_success attempts baseDelay w :
  (∀ w, match fn w with (Ok _, w') => μ w' = μ w + 1 | (Err _, w') => μ w' = μ w end) →
  match Do attempts baseDelay fn w with (Ok _, w') => μ w' = μ w + 1 | (Err _, w') => μ w' = μ w end.
Proof.
  intros Hfn. destruct (Do_runs attempts baseDelay fn w) as (k & w1 & r & w' & -> & _ & Htr & Hl).
  assert (μ w1 = μ w) as <-.
  { clear Hl. induction Htr as [|k' u u1 u2 u3 e Hf _ Hp _ _ IH]; [done|].
    specialize (Hfn u). rewrite Hf in Hfn. rewrite IH, (μ_paused _ _ Hp). done. }
  specialize (Hfn w1). destruct Hl; try done; by rewrite H in Hfn.
Qed.

(** A run that adds at most one adds at most the number of attempts. *)
Lemma Do_counts_runs attempts baseDelay w :
  (∀ w, μ (fn w).2 ≤ μ w + 1) →
  μ (Do attempts baseDelay fn w).2 ≤ μ w + attempts_of attempts.
Proof.
  intros Hfn. destruct (Do_runs attempts baseDelay fn w) as (k & w1 & r & w' & -> & Hk & Htr & Hl). cbn.
  assert (∀ n, tried fn n w w1 → μ w1 ≤ μ w + Z.of_nat n) as Htried.
  { clear -μ_paused Hfn. intros n. induction 1 as [|k' u u1 u2 u3 e Hf _ Hp _ _ IH]; [lia|].
    specialize (Hfn u). rewrite Hf in Hfn. cbn in Hfn. rewrite (μ_paused _ _ Hp) in IH. lia. }
  specialize (Htried _ Htr). specialize (Hfn w1).
  assert (μ w' ≤ μ w1 + 1) by (destruct Hl; [lia|by rewrite H in Hfn..]). lia.
Qed.
End counting.
End retry.
