(* ===== verification/SmtpSend.v ===== *)
(** Sending over SMTP: the exchange of [internal/infrastructure/email/smtp.go] and the
    access tokens of [internal/infrastructure/oauth/oauth.go].

    The server is the class [SmtpServer]: its answer to each command.  The client of
    [net/smtp] is what the sender uses of it: the greeting is exchanged once, before the
    first command that needs it, and an address with a line break is refused before it
    is sent.  Every command is recorded in [w_net] with whether the connection was
    encrypted and whether the server agreed. *)
From Stdlib Require Import ZArith Ascii.
From stdpp Require Import base list strings gmap.
From S2P Require Import Prelude GoStrings GoValues Submission Checklist Reply Tables World Repository OutboxRepo Config Retry Smtp.

Open Scope Z_scope.

(** ** Access tokens *)

Definition XOAUTH2Payload (user token : string) : string :=
  let a := String "001" "" in "user=" +:+ user +:+ a +:+ "auth=Bearer " +:+ token +:+ a +:+ a.

(** An [oauth2.RetrieveError]: the error code and the response's status, if any. *)
Record retrieve_error : Type := mkRetrieveError { re_ErrorCode : string; re_Status : option Z }.

(** The failure of [oauth2.TokenSource.Token]: its error, and the retrieve error in it. *)
Record token_error : Type := mkTokenError { te_err : error; te_retrieve : option retrieve_error }.

Definition classify (e : token_error) : string * bool :=
  match e.(te_retrieve) with
  | None => ("transient", false)
  | Some re =>
    if bool_decide (re.(re_ErrorCode) ∈ ["invalid_grant"; "invalid_client"; "unauthorized_client"; "invalid_scope"])
    then (re.(re_ErrorCode), true)
    else if bool_decide (re.(re_Status) = Some 400) then
      (if bool_decide (re.(re_ErrorCode) = "") then "invalid_request" else re.(re_ErrorCode), true)
    else if bool_decide (re.(re_ErrorCode) = "") then ("transient", false) else (re.(re_ErrorCode), false)
  end.

Section oauth.
Context {E : Env}.

(** The hook [internal/app] installs for permanent failures. *)
Definition authFailureAuditor (provider class : string) : M unit :=
  log_err (Append (mkAuditEntry "" "" EventAuthFailed [("provider", AString provider); ("class", AString class)]
                     "" zeroTime)).

(** [reuseSource.Token]; [src] is the caching source of [golang.org/x/oauth2]. *)
Definition Token (provider : string) (src : nat → token_error + string) : M string := λ w,
  match src w.(w_tick) with
  | inr tok => (Ok tok, w_next w)
  | inl e =>
    let err := ErrWrap ("oauth " +:+ provider) e.(te_err) in
    let '(class, permanent) := classify e in
    if permanent : bool then (authFailureAuditor provider class ≫= λ _, throw (MarkPermanent err)) (w_next w)
    else (Err err, w_next w)
  end.
End oauth.

(** ** The server *)

Inductive srv_reply : Type :=
| Accepted
| Rejected (code : Z) (text : string)
| Broken (e : error).

Class SmtpServer : Type := {
  srv : nat → smtp_cmd → srv_reply;
  srv_STARTTLS : nat → bool    (** the extension is in the answer to EHLO *)
}.

Definition rep_ok (r : srv_reply) : bool := match r with Accepted => true | _ => false end.

(** The error [net/smtp] returns for an answer. *)
Definition rep_error (r : srv_reply) : option error :=
  match r with
  | Accepted => None
  | Rejected code text => Some (ErrNew (fmt_d code +:+ " " +:+ text))
  | Broken e => Some e
  end.

Definition classifySMTP (r : srv_reply) : option error :=
  match r with
  | Rejected code _ =>
    if (500 <=? code) && (code <? 600) then MarkPermanent <$> rep_error r else rep_error r
  | _ => rep_error r
  end.

Definition return_err {A} (r : option error) (k : M A) : M A :=
  match r with Some e => throw e | None => k end.

(** [net.JoinHostPort] *)
Definition JoinHostPort (host port : string) : string :=
  if Contains host ":" || Contains host "%" then "[" +:+ host +:+ "]:" +:+ port else host +:+ ":" +:+ port.

Inductive smtp_auth : Type :=
| PlainAuth (user password host : string)
| XOAuth2 (user token : string).

(** A client of [net/smtp]: encrypted or not, and the greeting once it was exchanged. *)
Record smtp_client : Type := mkSmtpClient { cl_tls : bool; cl_hello : option srv_reply }.

(** [isLocalhost] of [net/smtp]. *)
Definition smtp_isLocalhost (name : string) : bool :=
  bool_decide (name ∈ ["localhost"; "127.0.0.1"; "::1"]).

Definition has_line_break (s : string) : bool := ContainsAny s crlf.

Section send.
Context {L : GoLib} {MM : MimeLib} {E : Env} {N : NetEnv} {S : SmtpServer}.

Definition isLocalhost (host : string) : bool :=
  bool_decide (ToLower host ∈ ["localhost"; "127.0.0.1"; "::1"]).

Definition log_event (ev : smtp_event) (w : World) : World :=
  w_with_net (mkNet (w.(w_net).(ns_smtp) ++ [ev]) w.(w_net).(ns_posts) w.(w_net).(ns_sleeps)) w.

Definition issue (tls : bool) (cmd : smtp_cmd) : M srv_reply := λ w,
  let r := srv w.(w_tick) cmd in
  (Ok r, w_next (log_event (mkSmtpEvent cmd tls (rep_ok r)) w)).

(** [Client.hello]: once per connection. *)
Definition hello (c : smtp_client) : M (srv_reply * smtp_client) :=
  match c.(cl_hello) with
  | Some r => mret (r, c)
  | None => r ← issue c.(cl_tls) SmtpHello; mret (r, mkSmtpClient c.(cl_tls) (Some r))
  end.

(** [Client.Extension("STARTTLS")]: a failed greeting counts as not offered. *)
Definition offers_STARTTLS (r : srv_reply) : M bool := λ w,
  (Ok (rep_ok r && srv_STARTTLS w.(w_tick)), w).

(** The initial response of a mechanism. *)
Definition auth_Start (a : smtp_auth) (tls : bool) (host : string) : result (string * string) :=
  match a with
  | PlainAuth user password h =>
    if negb tls && negb (smtp_isLocalhost host) then Err (ErrNew "unencrypted connection")
    else if bool_decide (h = host)
    then let z := String nul "" in Ok ("PLAIN", z +:+ user +:+ z +:+ password)
    else Err (ErrNew "wrong host name")
  | XOAuth2 user token =>
    if negb tls && negb (isLocalhost host)
    then Err (MarkPermanent (ErrNew "smtp: XOAUTH2 requires a TLS connection"))
    else Ok ("XOAUTH2", XOAUTH2Payload user token)
  end.

(** [Client.Auth]; a challenge ends the exchange as a refusal does. *)
Definition client_Auth (c : smtp_client) (host : string) (a : smtp_auth) : M (option error * smtp_client) :=
  rc ← hello c;
  match rep_error rc.1 with
  | Some e => mret (Some e, rc.2)
  | None =>
    match auth_Start a c.(cl_tls) host with
    | Err e => issue c.(cl_tls) SmtpQuit ≫= λ _, mret (Some e, rc.2)
    | Ok (mechanism, payload) =>
      r ← issue c.(cl_tls) (SmtpAuth mechanism payload);
      mret (rep_error r, rc.2)
    end
  end.

(** [XOAUTH2Auth]. *)
Definition XOAUTH2Auth (user : string) (token : M string) : M smtp_auth :=
  t ← token; mret (XOAuth2 user t).

Definition smtpAuth (cfg : SMTPConfig) (auth : option (M smtp_auth)) : M (option smtp_auth) :=
  match auth with
  | Some a => m ← a; mret (Some m)
  | None =>
    if bool_decide (cfg.(smtp_Username) = "") then mret None
    else mret (Some (PlainAuth cfg.(smtp_Username) cfg.(smtp_Password) cfg.(smtp_Host)))
  end.

(** The upgrade of a connection that is not on port 465. *)
Definition negotiate_tls (cfg : SMTPConfig) (c : smtp_client) : M smtp_client :=
  if c.(cl_tls) then mret c
  else
    rc ← hello c;
    offered ← offers_STARTTLS rc.1;
    if (offered : bool) then
      r ← issue false SmtpStartTLS;
      return_err (rep_error r) (mret (mkSmtpClient true rc.2.(cl_hello)))
    else if isLocalhost cfg.(smtp_Host) then mret rc.2
    else throw (MarkPermanent (ErrNew ("smtp: " +:+ cfg.(smtp_Host) +:+
                  " does not offer STARTTLS; refusing to send over plaintext"))).

Definition dialSMTP (cfg : SMTPConfig) (auth : option (M smtp_auth)) : M smtp_client :=
  r ← issue false (SmtpDial (JoinHostPort cfg.(smtp_Host) cfg.(smtp_Port)));
  return_err (rep_error r)
    (let implicit := bool_decide (cfg.(smtp_Port) = "465") in
     r ← issue implicit SmtpBanner;
     return_err (rep_error r)
       (c ← negotiate_tls cfg (mkSmtpClient implicit None);
        mech ← smtpAuth cfg auth;
        match mech with
        | None => mret c
        | Some a =>
          ec ← client_Auth c cfg.(smtp_Host) a;
          return_err (MarkPermanent <$> ec.1) (mret ec.2)
        end)).

(** [Client.Mail] and [Client.Rcpt]. *)
Definition client_Mail (c : smtp_client) (from : string) : M srv_reply :=
  if has_line_break from then mret (Broken (ErrNew "smtp: A line must not contain CR or LF"))
  else
    rc ← hello c;
    if rep_ok rc.1 then issue c.(cl_tls) (SmtpMail from) else mret rc.1.

Definition client_Rcpt (c : smtp_client) (to : string) : M srv_reply :=
  if has_line_break to then mret (Broken (ErrNew "smtp: A line must not contain CR or LF"))
  else issue c.(cl_tls) (SmtpRcpt to).

Fixpoint rcpt_all (c : smtp_client) (to : list string) : M unit :=
  match to with
  | [] => mret ()
  | rcpt :: to => r ← client_Rcpt c rcpt; return_err (classifySMTP r) (rcpt_all c to)
  end.

Definition realSMTPSend (cfg : SMTPConfig) (auth : option (M smtp_auth)) (from : string)
    (to : list string) (msg : string) : M unit :=
  c ← dialSMTP cfg auth;
  r ← client_Mail c from;
  return_err (classifySMTP r)
    (rcpt_all c to ≫= λ _,
     r ← issue c.(cl_tls) SmtpData;
     return_err (classifySMTP r)
       (r ← issue c.(cl_tls) (SmtpWrite msg);
        return_err (rep_error r)
          (r ← issue c.(cl_tls) (SmtpEnd msg);
           return_err (classifySMTP r)
             (issue c.(cl_tls) SmtpQuit ≫= λ _, mret ())))).

(** ** The sender *)

Record SMTPSender : Type := mkSMTPSender {
  ss_cfg : SMTPConfig;
  ss_auth : option (M smtp_auth);
  ss_retryAttempts : Z;
  ss_retryBase : duration }.

Definition smtp_SendThreadedReply (s : SMTPSender) (r : Reply) : M string :=
  let cfg := s.(ss_cfg) in
  if bool_decide (cfg.(smtp_Host) = "") then throw (ErrNew "smtp: host not configured")
  else if bool_decide (cfg.(smtp_FromAddress) = "") then throw (ErrNew "smtp: from address not configured")
  else if bool_decide (r.(rep_ToAddress) = "") then throw (ErrNew "smtp: empty recipient")
  else
    let msgID := message_id cfg r in
    now ← time_Now;
    let msg := buildMessage cfg r msgID now in
    Do s.(ss_retryAttempts) s.(ss_retryBase)
      (realSMTPSend cfg s.(ss_auth) cfg.(smtp_FromAddress) [r.(rep_ToAddress)] msg) ≫= λ _,
    mret msgID.

(** [LogSender.SendThreadedReply]. *)
Definition log_SendThreadedReply (r : Reply) : M string :=
  id ← NewString; mret ("log-sender-" +:+ id).
End send.
