(* ===== verification/Translate.v ===== *)
(** [internal/delivery/emailingest]: a parsed email as an [IngestRequest].

    The payload types are those of [pkg/emlparse].  What the translation uses of
    [net/mail] and [encoding/base64] is the class [MailLib]; a Go map is an association
    list with unique keys. *)
From Stdlib Require Import ZArith Ascii.
From stdpp Require Import base list strings gmap.
From S2P Require Import Prelude GoStrings GoValues Submission Checklist Classifier ChecklistStore Tables World Repository OutboxRepo Config Service.

Open Scope Z_scope.

(** ** The parsed message *)

Record Address : Type := mkAddress { ad_Email : string; ad_Name : string }.
Record Header : Type := mkHeader { hd_Name : string; hd_Value : string }.
Record EmlAttachment : Type := mkEmlAttachment {
  ea_Name : string; ea_Content : string; ea_ContentType : string }.

Record Payload : Type := mkPayload {
  pl_MessageID : string;
  pl_From : string;
  pl_FromFull : Address;
  pl_ReplyTo : string;
  pl_ReplyToFull : Address;
  pl_To : string;
  pl_ToFull : list Address;
  pl_Subject : string;
  pl_TextBody : string;
  pl_Date : string;
  pl_Headers : list Header;
  pl_Attachments : list EmlAttachment;
  pl_Bounce : bool;
  pl_BouncePermanent : bool;
  pl_BouncedMessageID : string }.

(** A date with its zone's name and offset in seconds. *)
Record zoned : Type := mkZoned { zd_time : time; zd_zone : string; zd_offset : Z }.

Class MailLib : Type := {
  ParseDate : string → option zoned;      (** [mail.ParseDate] *)
  base64_Decode : string → option string  (** [base64.StdEncoding.DecodeString] *)
}.

(** ** Helpers *)

Definition trimAngle (s : string) : string := Trim s "<>".

Definition trimAngles (l : list string) : list string :=
  List.filter (λ v, negb (bool_decide (v = ""))) (map trimAngle l).

(** The bracketed ids of a header, left to right; [n] bounds the rounds of the loop. *)
Fixpoint bracketed (n : nat) (rest : string) : list string :=
  match n with
  | O => []
  | S n =>
    match IndexByte rest "<" with
    | None => []
    | Some i =>
      let rest := sdrop i rest in
      match IndexByte rest ">" with
      | None => []
      | Some j => stake (j + 1) rest :: bracketed n (sdrop (j + 1) rest)
      end
    end
  end.

Definition splitReferences (v : string) : list string :=
  match bracketed (S (String.length v)) v with
  | [] => List.filter (λ f, Contains f "@" && negb (ContainsAny f "<>")) (Fields v)
  | out => out
  end.

(** [m[k] = v] *)
Fixpoint map_set (k v : string) (m : list (string * string)) : list (string * string) :=
  match m with
  | [] => [(k, v)]
  | (k', v') :: m => if bool_decide (k = k') then (k, v) :: m else (k', v') :: map_set k v m
  end.

(** [m[k]] and whether it is there. *)
Fixpoint map_get (k : string) (m : list (string * string)) : option string :=
  match m with
  | [] => None
  | (k', v) :: m => if bool_decide (k = k') then Some v else map_get k m
  end.

Definition unresolvedZone (t : zoned) : bool :=
  (t.(zd_offset) =? 0) && negb (bool_decide (t.(zd_zone) = "")) &&
  negb (bool_decide (t.(zd_zone) = "UTC")) && negb (bool_decide (t.(zd_zone) = "GMT")).

Section translate.
Context {L : GoLib} {ML : MailLib} {E : Env}.

Definition validReplyTo (addr : string) : string :=
  if bool_decide (addr = "") then ""
  else match ParseAddress addr with Some _ => addr | None => "" end.

Definition automated_precedence (v : string) : bool :=
  bool_decide (v = "bulk") || bool_decide (v = "list") || bool_decide (v = "junk").

Definition detectAutoSubmitted (h : list (string * string)) : bool :=
  let at_ k := default "" (map_get k h) in
  match map_get "auto-submitted" h with
  | Some v => negb (EqualFold (TrimSpace v) "no")
  | None => false
  end ||
  automated_precedence (ToLower (TrimSpace (at_ "precedence"))) ||
  negb (bool_decide (at_ "list-id" = "")) || negb (bool_decide (at_ "list-unsubscribe" = "")) ||
  bool_decide (TrimSpace (at_ "return-path") = "<>").

(** An instant: its rendering in UTC is the same number. *)
Definition parseReceivedAt (date : string) : M time :=
  match ParseDate date with
  | Some t => if unresolvedZone t then time_Now else mret t.(zd_time)
  | None => time_Now
  end.

Definition decode_attachment (a : EmlAttachment) : option Attachment :=
  match base64_Decode a.(ea_Content) with
  | None | Some "" => None
  | Some raw => Some (mkAttachment a.(ea_Name) a.(ea_ContentType) (len raw) (sha256_hex raw) raw)
  end.

Definition decodeAttachments (l : list EmlAttachment) : list Attachment := omap decode_attachment l.

(** The header loop: In-Reply-To, References, and everything else by lower-case name. *)
Record header_scan : Type := mkHeaderScan {
  hs_inReplyTo : string;
  hs_references : list string;
  hs_auto : list (string * string) }.

Definition scan_header (acc : header_scan) (hdr : Header) : header_scan :=
  let name := ToLower hdr.(hd_Name) in
  if bool_decide (name = "in-reply-to") then
    mkHeaderScan (TrimSpace hdr.(hd_Value)) acc.(hs_references) acc.(hs_auto)
  else if bool_decide (name = "references") then
    mkHeaderScan acc.(hs_inReplyTo) (acc.(hs_references) ++ splitReferences hdr.(hd_Value)) acc.(hs_auto)
  else mkHeaderScan acc.(hs_inReplyTo) acc.(hs_references) (map_set name hdr.(hd_Value) acc.(hs_auto)).

Definition scan_headers (l : list Header) : header_scan := foldl scan_header (mkHeaderScan "" [] []) l.

Definition to_addresses (p : Payload) : list string :=
  let to := List.filter (λ e, negb (bool_decide (e = ""))) (map ad_Email p.(pl_ToFull)) in
  match to with
  | [] => if bool_decide (p.(pl_To) = "") then [] else [p.(pl_To)]
  | _ => to
  end.

Definition Translate (p : Payload) (source : string) : M IngestRequest :=
  let hs := scan_headers p.(pl_Headers) in
  receivedAt ← parseReceivedAt p.(pl_Date);
  let fromAddr := if bool_decide (p.(pl_FromFull).(ad_Email) = "") then p.(pl_From)
                  else p.(pl_FromFull).(ad_Email) in
  let bounced := trimAngle p.(pl_BouncedMessageID) in
  let references := trimAngles hs.(hs_references) ++
    (if p.(pl_Bounce) && negb (bool_decide (bounced = "")) then [bounced] else []) in
  let auto := negb p.(pl_Bounce) && detectAutoSubmitted hs.(hs_auto) in
  mret (mkIngestRequest (trimAngle p.(pl_MessageID)) (trimAngle hs.(hs_inReplyTo)) references
          fromAddr p.(pl_FromFull).(ad_Name) (validReplyTo p.(pl_ReplyToFull).(ad_Email))
          (to_addresses p) p.(pl_Subject) p.(pl_TextBody) receivedAt
          (decodeAttachments p.(pl_Attachments)) source auto (if auto then hs.(hs_auto) else [])
          p.(pl_Bounce) (p.(pl_Bounce) && p.(pl_BouncePermanent))).
End translate.
