(* ===== verification/Eml.v ===== *)
(** Parsing of inbound mail: [pkg/emlparse].

    What the parser uses of [net/mail], [mime], [mime/multipart], [html] and
    [encoding/base64] is the class [EmlLib]: the header block of a message, the parts of a
    multipart stream up to its end or its first error, and the decoders.  A stream is
    its bytes and the error it ends in, so a truncated part is a value.  [walkParts]
    recurses on the levels of nesting still allowed. *)
From Stdlib Require Import ZArith Ascii.
From stdpp Require Import base list strings gmap.
From S2P Require Import Prelude GoStrings GoValues Submission Checklist World Config Smtp Translate.

Open Scope Z_scope.

Definition maxMultipartDepth : Z := 32.
Definition maxAttachments : Z := 100.

Definition autoResponseHeaders : list string :=
  ["Auto-Submitted"; "Precedence"; "List-Id"; "List-Unsubscribe"; "X-Auto-Response-Suppress";
   "Return-Path"].

(** ** The interface of the standard library *)

(** A reader: what it yields and the error it ends in, if not at the end of file. *)
Record stream : Type := mkStream { st_bytes : string; st_err : option error }.

(** A header block: canonical names with their values in order. *)
Definition mime_header : Type := list (string * string).

(** A part of a multipart stream with its [FileName()]. *)
Record mime_part : Type := mkPart {
  pt_header : mime_header;
  pt_body : stream;
  pt_FileName : string }.

Class EmlLib : Type := {
  ReadMessage : string → result (mime_header * stream);  (** [mail.ReadMessage] *)
  (** [mime.ParseMediaType]: the type, its parameters, and whether it was in error; an
      ill-formed parameter still yields the type *)
  MediaType : string → string * list (string * string) * bool;
  NextParts : stream → string → list mime_part;          (** [NextPart] until its error *)
  QuotedPrintable : string → option string;              (** [quotedprintable.NewReader] *)
  DecodeWords : string → option string;                  (** [mime.WordDecoder.DecodeHeader] *)
  base64_Encode : string → string;                       (** [base64.StdEncoding.EncodeToString] *)
  UnescapeString : string → string                       (** [html.UnescapeString] *)
}.

(** [textproto.CanonicalMIMEHeaderKey] on a name of letters, digits and dashes. *)
Fixpoint canonical_go (upper : bool) (s : string) : string :=
  match s with
  | "" => ""
  | String c s =>
    let b := byte_of c in
    let c' := if upper && in_range 97 122 b then to_byte (b - 32)
              else if negb upper && in_range 65 90 b then to_byte (b + 32) else c in
    String c' (canonical_go (bool_decide (c = "-"%char)) s)
  end.
Definition CanonicalKey (s : string) : string := canonical_go true s.

(** [h.Get(key)] *)
Definition header_Get (h : mime_header) (key : string) : string :=
  default "" (map_get (CanonicalKey key) h).

Definition param (params : list (string * string)) (k : string) : string := default "" (map_get k params).

(** ** Character sets *)

Definition decodeLatin1 (b : string) : string := encode_runes (map byte_of (bytes b)).

(** The runes of 0x80 to 0x9F; 0 where Windows-1252 has none. *)
Definition cp1252High : list Z :=
  [8364; 0; 8218; 402; 8222; 8230; 8224; 8225; 710; 8240; 352; 8249; 338; 0; 381; 0;
   0; 8216; 8217; 8220; 8221; 8226; 8211; 8212; 732; 8482; 353; 8250; 339; 0; 382; 376].

Definition cp1252_rune (b : Z) : Z :=
  if in_range 128 159 b then
    match cp1252High !! Z.to_nat (b - 128) with
    | Some r => if r =? 0 then b else r
    | None => b
    end
  else b.

Definition decodeWindows1252 (b : string) : string := encode_runes (map (cp1252_rune ∘ byte_of) (bytes b)).

(** ** Text *)

Definition stripControl (s : string) : string :=
  strings_Map (λ r, if r =? 9 then r else if (r <? 32) || (r =? 127) then -1 else r) s.

Definition stripASCIISpace (s : string) : string :=
  strings_Map (λ r, if (r =? 32) || (r =? 9) || (r =? 13) || (r =? 10) then -1 else r) s.

(** The loop of [stripHTML] over the runes. *)
Fixpoint strip_tags (inTag : bool) (rs : list Z) : list Z :=
  match rs with
  | [] => []
  | r :: rs =>
    if r =? 60 then strip_tags true rs
    else if r =? 62 then strip_tags false rs
    else if inTag then strip_tags inTag rs else r :: strip_tags inTag rs
  end.

Fixpoint firstNonEmpty (vals : list string) : string :=
  match vals with
  | [] => ""
  | v :: vals => if bool_decide (v = "") then firstNonEmpty vals else v
  end.

(** ** Delivery-status notifications *)

Record bounceReport : Type := mkBounceReport {
  br_deliveryStatus : string;
  br_originalMessageID : string }.

Definition isOriginalMessagePart (partType : string) : bool :=
  bool_decide (partType = "message/rfc822") || bool_decide (partType = "text/rfc822-headers").

Section eml.
Context {L : GoLib} {ML : MailLib} {MM : MimeLib} {EL : EmlLib}.

Definition toUTF8 (b charset : string) : string :=
  let c := ToLower (TrimSpace charset) in
  if bool_decide (c ∈ ["iso-8859-1"; "iso8859-1"; "latin-1"; "latin1"]) then decodeLatin1 b
  else if bool_decide (c ∈ ["windows-1252"; "cp1252"]) then decodeWindows1252 b
  else b.

Definition stripHTML (s : string) : string :=
  TrimSpace (UnescapeString (encode_runes (strip_tags false (runes s)))).

Definition decodeHeader (s : string) : string := stripControl (default s (DecodeWords s)).

Definition splitAddress (s : string) : Address :=
  if bool_decide (s = "") then mkAddress "" ""
  else match ParseAddress s with
       | None => mkAddress s ""
       | Some (addr, name) => mkAddress addr name
       end.

(** The lines of a report, up to the first that decides. *)
Fixpoint original_id_lines (lines : list string) : string :=
  match lines with
  | [] => ""
  | line :: lines =>
    let line := TrimSpace line in
    if bool_decide (line = "") then ""
    else if HasPrefix (ToLower line) "message-id:" then
      Trim (TrimSpace (sdrop (String.length "message-id:") line)) "<>"
    else original_id_lines lines
  end.
Definition originalMessageID (body : string) : string := original_id_lines (Split body "010").

Fixpoint status_lines (lines : list string) : bool :=
  match lines with
  | [] => true
  | line :: lines =>
    let line := TrimSpace line in
    if HasPrefix (ToLower line) "status:" then
      negb (HasPrefix (TrimSpace (sdrop (String.length "status:") line)) "4.")
    else status_lines lines
  end.
Definition dsnPermanent (deliveryStatus : string) : bool := status_lines (Split deliveryStatus "010").

Definition isDaemonAddress (email : string) : bool :=
  let local := match IndexByte email "@" with
               | Some (S at_) => stake (S at_) email
               | _ => email
               end in
  let l := ToLower (TrimSpace local) in
  bool_decide (l = "mailer-daemon") || bool_decide (l = "postmaster").

Definition detectBounce (mediaType : string) (ctParams : list (string * string))
    (fromEmail returnPath deliveryStatus : string) : bool * bool :=
  let report := bool_decide (mediaType = "multipart/report") &&
                EqualFold (param ctParams "report-type") "delivery-status" in
  let nullReturn := bool_decide (TrimSpace returnPath = "<>") in
  if report || isDaemonAddress fromEmail || (nullReturn && negb (bool_decide (deliveryStatus = "")))
  then (true, dsnPermanent deliveryStatus)
  else (false, false).

(** ** Bodies *)

Definition decodeBody (r : stream) (encoding : string) : result string :=
  match r.(st_err) with
  | Some e => Err e
  | None =>
    let raw := r.(st_bytes) in
    let enc := ToLower (TrimSpace encoding) in
    if bool_decide (enc = "base64") then Ok (default raw (base64_Decode (stripASCIISpace raw)))
    else if bool_decide (enc = "quoted-printable") then Ok (default raw (QuotedPrintable raw))
    else Ok raw
  end.

(** What the pointers of [walkParts] are filled with. *)
Record walk : Type := mkWalk {
  wk_text : string;
  wk_html : string;
  wk_atts : list EmlAttachment;
  wk_report : bounceReport }.

Definition empty_walk : walk := mkWalk "" "" [] (mkBounceReport "" "").

Definition wk_with_status (v : string) (s : walk) : walk :=
  mkWalk s.(wk_text) s.(wk_html) s.(wk_atts) (mkBounceReport v s.(wk_report).(br_originalMessageID)).
Definition wk_with_original (v : string) (s : walk) : walk :=
  mkWalk s.(wk_text) s.(wk_html) s.(wk_atts) (mkBounceReport s.(wk_report).(br_deliveryStatus) v).
Definition wk_with_atts (v : list EmlAttachment) (s : walk) : walk :=
  mkWalk s.(wk_text) s.(wk_html) v s.(wk_report).
Definition wk_with_text (v : string) (s : walk) : walk :=
  mkWalk v s.(wk_html) s.(wk_atts) s.(wk_report).
Definition wk_with_html (v : string) (s : walk) : walk :=
  mkWalk s.(wk_text) v s.(wk_atts) s.(wk_report).

Definition part_type (p : mime_part) : string :=
  let '(t, _, _) := MediaType (header_Get p.(pt_header) "Content-Type") in
  if bool_decide (t = "") then "text/plain" else t.
Definition part_params (p : mime_part) : list (string * string) :=
  (MediaType (header_Get p.(pt_header) "Content-Type")).1.2.
Definition part_disposition (p : mime_part) : string :=
  (MediaType (header_Get p.(pt_header) "Content-Disposition")).1.1.

Definition is_multipart (p : mime_part) : bool := HasPrefix (part_type p) "multipart/".

Definition part_attachment (p : mime_part) (body : string) : EmlAttachment :=
  mkEmlAttachment
    (decodeHeader (firstNonEmpty [param (part_params p) "name"; p.(pt_FileName); "attachment.bin"]))
    (base64_Encode body) (part_type p).

(** The loop's body on a part that is not a multipart itself. *)
Definition leaf_part (p : mime_part) (s : walk) : walk :=
  match decodeBody p.(pt_body) (header_Get p.(pt_header) "Content-Transfer-Encoding") with
  | Err _ => s
  | Ok body =>
    let t := part_type p in
    if bool_decide (t = "message/delivery-status") && bool_decide (s.(wk_report).(br_deliveryStatus) = "")
    then wk_with_status body s
    else if isOriginalMessagePart t && bool_decide (s.(wk_report).(br_originalMessageID) = "")
    then wk_with_original (originalMessageID body) s
    else
      let bodyText := bool_decide (s.(wk_text) = "") && HasPrefix t "text/plain" in
      let bodyHTML := bool_decide (s.(wk_html) = "") && HasPrefix t "text/html" in
      if bool_decide (part_disposition p = "attachment") ||
         (negb (bool_decide (param (part_params p) "name" = "")) && negb bodyText && negb bodyHTML)
      then if maxAttachments <=? Z.of_nat (length s.(wk_atts)) then s
           else wk_with_atts (s.(wk_atts) ++ [part_attachment p body]) s
      else if bodyText then wk_with_text (toUTF8 body (param (part_params p) "charset")) s
      else if bodyHTML then wk_with_html (toUTF8 body (param (part_params p) "charset")) s
      else s
  end.

(** [levels] is [maxMultipartDepth + 1 - depth]. *)
Fixpoint walkParts (levels : nat) (r : stream) (boundary : string) (s : walk) : result unit * walk :=
  match levels with
  | O => (Err (ErrNew "multipart: nesting exceeds depth 32"), s)
  | S levels =>
    (Ok (), foldl (λ s p, if is_multipart p
                          then (walkParts levels p.(pt_body) (param (part_params p) "boundary") s).2
                          else leaf_part p s) s (NextParts r boundary))
  end.

Definition top_levels : nat := Z.to_nat (maxMultipartDepth + 1).

(** The text, the attachments and the report, each as far as it was parsed. *)
Definition parseBody (h : mime_header) (body : stream) : result (string * list EmlAttachment * bounceReport) :=
  let '(mediaType, params, err) := MediaType (header_Get h "Content-Type") in
  if err || negb (HasPrefix mediaType "multipart/") || bool_decide (param params "boundary" = "") then
    match decodeBody body (header_Get h "Content-Transfer-Encoding") with
    | Err e => Err e
    | Ok b =>
      let text := toUTF8 b (param params "charset") in
      Ok (if HasPrefix mediaType "text/html" then stripHTML text else text, [], mkBounceReport "" "")
    end
  else
    let '(r, s) := walkParts top_levels body (param params "boundary") empty_walk in
    match r with
    | Err e => Err e
    | Ok _ =>
      let text := if bool_decide (s.(wk_text) = "") && negb (bool_decide (s.(wk_html) = ""))
                  then stripHTML s.(wk_html) else s.(wk_text) in
      Ok (text, s.(wk_atts), s.(wk_report))
    end.

Definition auto_headers (h : mime_header) : list Header :=
  omap (λ name, let v := TrimSpace (header_Get h name) in
                if bool_decide (v = "") then None else Some (mkHeader name (stripControl v)))
    autoResponseHeaders.

(** [FromReader] at the time [now]. *)
Definition eml_FromReader (now : time) (raw : string) : result Payload :=
  match ReadMessage raw with
  | Err e => Err (ErrWrap "parse eml" e)
  | Ok (h, body) =>
    let date := header_Get h "Date" in
    let date := if bool_decide (date = "") then RFC1123Z now else date in
    let from := splitAddress (header_Get h "From") in
    let replyTo := splitAddress (header_Get h "Reply-To") in
    let to := splitAddress (header_Get h "To") in
    match parseBody h body with
    | Err e => Err e
    | Ok (text, atts, report) =>
      let '(topType, ctParams, _) := MediaType (header_Get h "Content-Type") in
      let '(bounce, permanent) := detectBounce topType ctParams from.(ad_Email)
                                    (header_Get h "Return-Path") report.(br_deliveryStatus) in
      Ok (mkPayload (Trim (header_Get h "Message-ID") "<>") from.(ad_Email) from
            replyTo.(ad_Email) replyTo to.(ad_Email) [to] (decodeHeader (header_Get h "Subject")) text date
            ([mkHeader "In-Reply-To" (Trim (header_Get h "In-Reply-To") "<>");
              mkHeader "References" (header_Get h "References")] ++ auto_headers h)
            atts bounce permanent (if bounce then report.(br_originalMessageID) else ""))
    end
  end.
End eml.
