(* ===== verification/MailProps.v ===== *)
(** Theorems on mail going out and coming back: the references of a reply survive the
    wire, header lines stay within bounds, and no field of a reply can add a header. *)
From Stdlib Require Import ZArith Ascii.
From stdpp Require Import base list strings gmap.
From S2P Require Import Prelude GoStrings GoValues Submission Checklist Reply TextUtil Classifier ChecklistStore Tables World Repository OutboxRepo Config Service Smtp Translate.

Open Scope Z_scope.

(** ** Strings *)

Lemma stake_append a b : stake (String.length a) (a +:+ b) = a.
Proof. induction a as [|c a IH]; [by destruct b|]. rewrite app_String. cbn. by rewrite IH. Qed.

Lemma byte_free_append c a b : byte_free c (a +:+ b) ↔ byte_free c a ∧ byte_free c b.
Proof. unfold byte_free. rewrite bytes_app. set_solver. Qed.

Lemma byte_free_cons c d s : byte_free c (String d s) ↔ c ≠ d ∧ byte_free c s.
Proof. unfold byte_free. cbn. set_solver. Qed.

Lemma IndexByte_app c pre rest :
  byte_free c pre → IndexByte (pre +:+ String c rest) c = Some (String.length pre).
Proof.
  unfold IndexByte. induction pre as [|d pre IH]; intros Hf.
  - rewrite app_empty, Index_unfold. cbn. destruct (ascii_dec c c); [|done]. by destruct rest.
  - apply byte_free_cons in Hf as [Hne Hf]. rewrite app_String, Index_unfold. cbn.
    destruct (ascii_dec c d); [done|]. by rewrite IH.
Qed.

Lemma IndexByte_free c s : byte_free c s → IndexByte s c = None.
Proof.
  unfold IndexByte. induction s as [|d s IH]; intros Hf; [done|].
  apply byte_free_cons in Hf as [Hne Hf]. rewrite Index_unfold. cbn.
  destruct (ascii_dec c d); [done|]. by rewrite IH.
Qed.

Lemma strip_bytes_free set c s : c ∈ set → byte_free c (strip_bytes set s).
Proof.
  intros Hc. induction s as [|d s IH]; cbn; [apply not_elem_of_nil|].
  case_bool_decide; [done|]. apply byte_free_cons. split; [congruence|done].
Qed.

(** ** References survive the wire *)

Lemma bracketed_angle n pre id rest :
  byte_free "<" pre → byte_free ">" id →
  bracketed (S n) (pre +:+ angle id +:+ rest) = angle id :: bracketed n rest.
Proof.
  intros Hpre Hid. assert (angle id +:+ rest = String "<" (id +:+ String ">" rest)) as Ha.
  { unfold angle. rewrite !string_app_assoc. done. }
  cbn [bracketed]. rewrite Ha, (IndexByte_app "<" pre _ Hpre), sdrop_app.
  assert (byte_free ">" (String "<" id)) as Hf by (by apply byte_free_cons).
  assert (String "<" (id +:+ String ">" rest) = String "<" id +:+ String ">" rest) as -> by done.
  rewrite (IndexByte_app ">" (String "<" id) rest Hf).
  assert (String "<" id +:+ String ">" rest = angle id +:+ rest) as -> by (by rewrite Ha).
  replace (String.length (String "<" id) + 1)%nat with (String.length (angle id))
    by (unfold angle; rewrite !string_app_length; cbn; lia).
  by rewrite stake_append, sdrop_app.
Qed.

Lemma TrimLeft_free c s set : mem_byte c set = false → TrimLeft (String c s) set = String c s.
Proof. intros Hc. cbn. by rewrite Hc. Qed.

Lemma mem_angle c : mem_byte c "<>" = bool_decide (c ∈ ["<"; ">"]%char).
Proof.
  unfold mem_byte, Contains. rewrite Index_unfold. cbn.
  destruct (ascii_dec c "<") as [->|H1]; [done|].
  destruct (ascii_dec c ">") as [->|H2]; [done|]. cbn. symmetry. apply bool_decide_eq_false. set_solver.
Qed.

Lemma TrimRight_angle id : id ≠ "" → byte_free "<" id → byte_free ">" id → TrimRight (id +:+ ">") "<>" = id.
Proof.
  induction id as [|c id IH]; intros Hne H1 H2; [done|]. clear Hne.
  apply byte_free_cons in H1 as [Hc1 H1], H2 as [Hc2 H2]. rewrite app_String. cbn [TrimRight].
  destruct id as [|d id].
  - rewrite app_empty. cbn [TrimRight]. change (mem_byte ">" "<>") with true. cbn iota.
    rewrite mem_angle, bool_decide_eq_false_2 by set_solver. done.
  - rewrite IH by done. done.
Qed.

Lemma trimAngle_angle id : id ≠ "" → byte_free "<" id → byte_free ">" id → trimAngle (angle id) = id.
Proof.
  intros Hne H1 H2. unfold trimAngle, Trim, angle. rewrite app_String. cbn [TrimLeft].
  change (mem_byte "<" "<>") with true. cbn iota. rewrite app_empty.
  destruct id as [|c id]; [done|]. apply byte_free_cons in H1 as [Hc1 H1'], H2 as [Hc2 H2'].
  rewrite app_String, TrimLeft_free by (rewrite mem_angle, bool_decide_eq_false_2 by set_solver; done).
  rewrite <- app_String. apply TrimRight_angle; [done|by apply byte_free_cons..].
Qed.

(** A header value as [net/textproto] hands it over: a continuation line is joined with
    one space. *)
Fixpoint unfold_header (s : string) : string :=
  match s with
  | "" => ""
  | String c s' =>
    match s' with
    | String d (String e s'') =>
      if bool_decide (c = cr) && bool_decide (d = lf) && bool_decide (e = " "%char)
      then String e (unfold_header s'') else String c (unfold_header s')
    | _ => String c (unfold_header s')
    end
  end.

Lemma unfold_cons c s : c ≠ cr → unfold_header (String c s) = String c (unfold_header s).
Proof.
  intros Hc. destruct s as [|d [|e s]]; [done..|]. cbn [unfold_header].
  by rewrite (bool_decide_eq_false_2 (c = cr)).
Qed.

Lemma unfold_free a b : byte_free cr a → unfold_header (a +:+ b) = a +:+ unfold_header b.
Proof.
  induction a as [|c a IH]; intros Hf; [done|]. apply byte_free_cons in Hf as [Hc Hf].
  rewrite !app_String, unfold_cons by done. by rewrite IH.
Qed.

(** Unfolded, the tokens are separated by single spaces. *)
Fixpoint spaced (tokens : list string) : string :=
  match tokens with [] => "" | t :: tokens => " " +:+ t +:+ spaced tokens end.

Lemma unfold_tokens lineLen tokens :
  Forall (byte_free cr) tokens → unfold_header (fold_tokens lineLen tokens) = spaced tokens.
Proof.
  intros Hall. revert lineLen. induction Hall as [|t tokens Ht Hall IH]; intros lineLen; [done|].
  cbn [fold_tokens spaced]. destruct (_ <? _).
  - change (crlf +:+ " " +:+ t +:+ fold_tokens (1 + len t) tokens) with
      (String cr (String lf (String " " (t +:+ fold_tokens (1 + len t) tokens)))).
    cbn [unfold_header]. rewrite !bool_decide_eq_true_2 by done. cbn [andb].
    rewrite unfold_free by done. by rewrite IH.
  - rewrite !app_String, !app_empty, unfold_cons by done. rewrite unfold_free by done. by rewrite IH.
Qed.

Lemma spaced_bracketed ids n :
  Forall (byte_free ">") ids → (length ids ≤ n)%nat → bracketed n (spaced (map angle ids)) = map angle ids.
Proof.
  intros Hids. revert n. induction Hids as [|id ids Hid Hids IH]; intros n Hn; [by destruct n|].
  cbn in Hn. destruct n as [|n]; [lia|]. cbn [map spaced].
  rewrite bracketed_angle; [|vm_compute; set_solver|done]. f_equal. apply IH. lia.
Qed.

Lemma spaced_length tokens : (length tokens ≤ String.length (spaced tokens))%nat.
Proof.
  induction tokens as [|t tokens IH]; cbn [spaced length]; [done|].
  rewrite !string_app_length. cbn. lia.
Qed.

(** What [sanitizeMsgID] guarantees. *)
Record clean_msgid (id : string) : Prop := {
  cm_nonempty : id ≠ "";
  cm_len : len id ≤ maxMsgIDLen;
  cm_lt : byte_free "<" id;
  cm_gt : byte_free ">" id;
  cm_cr : byte_free cr id;
  cm_lf : byte_free lf id;
  cm_sp : byte_free " " id }.

Lemma sanitized_clean s : usable_id (sanitizeMsgID s) = true → clean_msgid (sanitizeMsgID s).
Proof.
  unfold usable_id. intros [Hne Hlen]%andb_true_iff. apply negb_true_iff, bool_decide_eq_false in Hne.
  split; [done|lia|..]; apply strip_bytes_free; unfold msgIDStripper; set_solver.
Qed.

Lemma ref_ids_clean refs : Forall clean_msgid (ref_ids refs).
Proof.
  unfold ref_ids. apply Forall_forall. intros id Hid.
  apply list_elem_of_In, List.filter_In in Hid as [Hin Hu].
  apply in_map_iff in Hin as (s & <- & _). by apply sanitized_clean.
Qed.

Lemma angle_free c id : c ≠ "<"%char → c ≠ ">"%char → byte_free c id → byte_free c (angle id).
Proof.
  intros H1 H2 Hid. unfold angle. rewrite !byte_free_append. unfold byte_free in *. cbn. set_solver.
Qed.

(** C18: a reply's references survive the wire.  The References header rendered for a
    reply, folded into lines by the sender and unfolded by the receiver's parser, is
    read back by the translation of an inbound email as exactly the sanitized ids, in
    order: what we send is what an answer is threaded by. *)
Theorem references_survive (references : list string) :
  trimAngles (splitReferences (unfold_header (buildRefs references))) = ref_ids references.
Proof.
  pose proof (ref_ids_clean references) as Hclean. unfold buildRefs.
  generalize dependent (ref_ids references). clear references. intros [|id ids] Hclean; [done|].
  apply Forall_cons in Hclean as [Hid Hids]. cbn [map].
  rewrite unfold_free, unfold_tokens.
  2: { apply Forall_map. eapply Forall_impl; [exact Hids|]. intros x []. by apply angle_free. }
  2: { destruct Hid. by apply angle_free. }
  unfold splitReferences. rewrite <- (app_empty (angle id +:+ _)).
  rewrite bracketed_angle; [|vm_compute; set_solver|apply Hid].
  rewrite spaced_bracketed; [|eapply Forall_impl; [exact Hids|]; by intros x []|].
  2: { pose proof (spaced_length (map angle ids)) as Hl. rewrite length_map in Hl.
       rewrite app_empty, string_app_length. lia. }
  unfold trimAngles. assert (map trimAngle (angle id :: map angle ids) = id :: ids) as ->.
  { change (angle id :: map angle ids) with (map angle (id :: ids)). rewrite map_map.
    rewrite <- (map_id (id :: ids)) at 2. apply map_ext_in. intros x Hx%list_elem_of_In.
    assert (clean_msgid x) as [] by (apply elem_of_cons in Hx as [->|Hx]; [done|];
      rewrite Forall_forall in Hids; by apply Hids). by apply trimAngle_angle. }
  cbn [List.filter]. destruct Hid as [Hne]. rewrite bool_decide_eq_false_2 by done. cbn [negb]. f_equal.
  induction Hids as [|x xs [] Hxs IH]; [done|]. cbn [List.filter].
  rewrite bool_decide_eq_false_2 by done. cbn [negb]. f_equal. apply IH.
Qed.

(** ** Header lines *)

(** Line breaks occur only as folds: CR LF followed by a space. *)
Fixpoint fold_safe (s : string) : bool :=
  match s with
  | "" => true
  | String c s' =>
    if bool_decide (c = cr) then
      match s' with
      | String d (String e s'') => bool_decide (d = lf) && bool_decide (e = " "%char) && fold_safe s''
      | _ => false
      end
    else negb (bool_decide (c = lf)) && fold_safe s'
  end.

(** Every line of [s], the first one after [cur] octets, has at most [max] octets. *)
Fixpoint lines_within (max cur : Z) (s : string) : bool :=
  match s with
  | "" => cur <=? max
  | String c s' =>
    match s' with
    | String d s'' =>
      if bool_decide (c = cr) && bool_decide (d = lf) then (cur <=? max) && lines_within max 0 s''
      else lines_within max (cur + 1) s'
    | "" => lines_within max (cur + 1) s'
    end
  end.

Definition no_breaks (s : string) : Prop := byte_free cr s ∧ byte_free lf s.

Lemma no_breaks_app a b : no_breaks a → no_breaks b → no_breaks (a +:+ b).
Proof. intros [] []. by split; apply byte_free_append. Qed.

Lemma fold_safe_app a b : no_breaks a → fold_safe (a +:+ b) = fold_safe b.
Proof.
  intros [Hc Hl]. induction a as [|c a IH]; [done|].
  apply byte_free_cons in Hc as [Hc Hc'], Hl as [Hl Hl']. rewrite app_String. cbn [fold_safe].
  rewrite bool_decide_eq_false_2 by done. rewrite bool_decide_eq_false_2 by done. cbn. by apply IH.
Qed.

Lemma fold_safe_app_safe a b : fold_safe a = true → fold_safe b = true → fold_safe (a +:+ b) = true.
Proof.
  intros Ha Hb. remember (String.length a) as n eqn:Hn.
  assert (String.length a ≤ n)%nat as Hle by lia. clear Hn. revert a Ha Hle.
  induction n as [|n IH]; intros [|c a] Ha Hle; [done|cbn in Hle; lia|done|].
  rewrite app_String. cbn [fold_safe] in *. case_bool_decide as Hc.
  - destruct a as [|d [|e a]]; [done..|]. rewrite !app_String. cbn in Hle.
    apply andb_true_iff in Ha as [-> Ha]. cbn [andb]. apply IH; [done|lia].
  - apply andb_true_iff in Ha as [-> Ha]. cbn [andb]. apply IH; [done|]. cbn in Hle. lia.
Qed.

Lemma no_breaks_safe s : no_breaks s → fold_safe s = true.
Proof. intros Hs. rewrite <- (string_app_nil_r s), fold_safe_app by done. done. Qed.

Lemma lines_within_app max cur a b :
  no_breaks a → lines_within max cur (a +:+ b) = lines_within max (cur + len a) b.
Proof.
  intros [Hc Hl]. revert cur. induction a as [|c a IH]; intros cur.
  { rewrite app_empty. change (len "") with 0. by rewrite Z.add_0_r. }
  apply byte_free_cons in Hc as [Hc Hc'], Hl as [Hl Hl']. rewrite app_String.
  assert (lines_within max cur (String c (a +:+ b)) = lines_within max (cur + 1) (a +:+ b)) as ->.
  { cbn. destruct (a +:+ b); [done|]. by rewrite bool_decide_eq_false_2. }
  rewrite IH by done. f_equal. unfold len. cbn [String.length]. lia.
Qed.

Lemma angle_no_breaks id : clean_msgid id → no_breaks (angle id).
Proof. intros []. split; by apply angle_free. Qed.

Lemma len_angle id : clean_msgid id → len (angle id) ≤ 258.
Proof.
  intros []. unfold angle. rewrite !len_app. unfold maxMsgIDLen in *.
  change (len "<") with 1. change (len ">") with 1. lia.
Qed.

Lemma fold_safe_crlf s : fold_safe (crlf +:+ " " +:+ s) = fold_safe s.
Proof. done. Qed.

Lemma lines_within_crlf max cur s :
  lines_within max cur (crlf +:+ s) = (cur <=? max) && lines_within max 0 s.
Proof. by destruct s. Qed.

Lemma fold_tokens_ok ids lineLen :
  Forall clean_msgid ids → 0 ≤ lineLen ≤ headerFoldOctets →
  fold_safe (fold_tokens lineLen (map angle ids)) = true ∧
  lines_within headerFoldOctets lineLen (fold_tokens lineLen (map angle ids)) = true.
Proof.
  intros Hids. revert lineLen. induction Hids as [|id ids Hid Hids IH]; intros lineLen Hl; cbn [map fold_tokens].
  { split; [done|]. cbn. lia. }
  pose proof (len_angle id Hid) as Hlen. pose proof (angle_no_breaks id Hid) as Hnb.
  assert (0 ≤ len (angle id)) by (unfold len; lia).
  assert (no_breaks (" " +:+ angle id)) as Hnb' by (apply no_breaks_app; [split; vm_compute; set_solver|done]).
  assert (len (" " +:+ angle id) = 1 + len (angle id)) as Hsp by (by rewrite len_app).
  destruct (_ <? _) eqn:Hlt.
  - destruct (IH (1 + len (angle id))) as [H1 H2]; [unfold headerFoldOctets; lia|].
    split; [by rewrite fold_safe_crlf, fold_safe_app|].
    rewrite lines_within_crlf, (proj2 (Z.leb_le _ _)), <- string_app_assoc by lia.
    rewrite lines_within_app, Hsp by done. exact H2.
  - apply Z.ltb_ge in Hlt. destruct (IH (lineLen + 1 + len (angle id))) as [H1 H2]; [lia|].
    rewrite <- string_app_assoc. split; [by rewrite fold_safe_app|].
    rewrite lines_within_app, Hsp, Z.add_assoc by done. exact H2.
Qed.

(** What the encoder, the date format and the hash put on a line. *)
Record mime_laws (L : GoLib) (ML : MimeLib) : Prop := {
  ml_encode : ∀ s, fold_safe (QEncode s) = true;
  ml_date : ∀ t, no_breaks (RFC1123Z t);
  ml_hash : ∀ s, no_breaks (sha256_hex s) }.

(** A field name and what follows the colon. *)
Definition field_of (name line : string) : Prop := ∃ v, line = name +:+ ": " +:+ v.

Definition reply_fields : list string :=
  ["From"; "To"; "Subject"; "Date"; "Message-ID"; "In-Reply-To"; "References"; "Auto-Submitted";
   "MIME-Version"; "Content-Type"].

Lemma stake_no_breaks n s : no_breaks s → no_breaks (stake n s).
Proof.
  intros [Hc Hl]. revert s Hc Hl. induction n as [|n IH]; intros [|c s] Hc Hl; cbn; try (by split; apply not_elem_of_nil).
  apply byte_free_cons in Hc as [? Hc], Hl as [? Hl]. destruct (IH s Hc Hl).
  by split; apply byte_free_cons.
Qed.

Lemma sdrop_no_breaks n s : no_breaks s → no_breaks (sdrop n s).
Proof.
  intros [Hc Hl]. revert s Hc Hl. induction n as [|n IH]; intros [|c s] Hc Hl; cbn; try by split.
  apply byte_free_cons in Hc as [? Hc], Hl as [? Hl]. by apply IH.
Qed.

Lemma stripCRLF_no_breaks s : no_breaks (stripCRLF s).
Proof. split; apply strip_bytes_free; set_solver. Qed.

Lemma references_line_ok refs :
  fold_safe ("References: " +:+ buildRefs refs) = true ∧
  lines_within headerFoldOctets 0 ("References: " +:+ buildRefs refs) = true.
Proof.
  pose proof (ref_ids_clean refs) as Hclean. unfold buildRefs.
  generalize dependent (ref_ids refs). intros [|id ids] Hclean; [done|].
  apply Forall_cons in Hclean as [Hid Hids]. cbn [map].
  assert (no_breaks "References: ") as Hn by (split; vm_compute; set_solver).
  pose proof (angle_no_breaks id Hid) as Ha. pose proof (len_angle id Hid) as Hl.
  change (len "References: ") with 12.
  destruct (fold_tokens_ok ids (12 + len (angle id)) Hids) as [H1 H2].
  { unfold headerFoldOctets. unfold len in *. lia. }
  rewrite !fold_safe_app by done. split; [done|]. rewrite !lines_within_app by done. exact H2.
Qed.

Lemma field_line name v : fold_safe v = true → no_breaks name → fold_safe (name +:+ v) = true.
Proof. intros Hv Hn. by rewrite fold_safe_app. Qed.

(** The lines of a reply: every one a known field, in order, breaking only where it
    folds. *)
Record safe_headers (lines : list string) : Prop := {
  sh_folds : Forall (λ l, fold_safe l = true) lines;
  sh_fields : ∃ names, sublist names reply_fields ∧ Forall2 field_of names lines }.

Ltac plain := split; vm_compute; set_solver.

Lemma domainOf_no_breaks a : no_breaks a → no_breaks (domainOf a).
Proof.
  intros Ha. unfold domainOf. destruct (LastIndexByte a "@"); [|plain].
  destruct (_ <? _); [by apply sdrop_no_breaks|plain].
Qed.

Lemma message_id_no_breaks {L : GoLib} cfg r :
  (∀ s, no_breaks (sha256_hex s)) → no_breaks cfg.(smtp_FromAddress) → no_breaks (message_id cfg r).
Proof.
  intros Hh Hf. unfold message_id, replyMessageID.
  apply no_breaks_app; [by apply stake_no_breaks|]. apply no_breaks_app; [plain|].
  by apply domainOf_no_breaks.
Qed.

Lemma field_intro p name v : p = name +:+ ": " → field_of name (p +:+ v).
Proof. intros ->. exists v. apply string_app_assoc. Qed.

Section headers.
Context {L : GoLib} {ML : MimeLib} (Hlaws : mime_laws L ML).
Context (cfg : SMTPConfig) (Hfrom : no_breaks cfg.(smtp_FromAddress)).

Lemma from_line_safe :
  let fromAddr := stripCRLF cfg.(smtp_FromAddress) in
  fold_safe ("From: " +:+ (if bool_decide (cfg.(smtp_FromName) = "") then fromAddr
              else QEncode cfg.(smtp_FromName) +:+ " <" +:+ fromAddr +:+ ">")) = true.
Proof.
  intros fromAddr. apply field_line; [|plain]. pose proof (stripCRLF_no_breaks (smtp_FromAddress cfg)) as Ha.
  case_bool_decide; [by apply no_breaks_safe|]. apply fold_safe_app_safe; [apply Hlaws|].
  apply no_breaks_safe. apply no_breaks_app; [plain|]. apply no_breaks_app; [done|plain].
Qed.

Lemma header_lines_folds r now :
  Forall (λ l, fold_safe l = true) (header_lines cfg r (message_id cfg r) now).
Proof.
  unfold header_lines. rewrite !Forall_app. split_and!.
  - rewrite !Forall_cons. split_and!; [apply from_line_safe|..|by apply Forall_nil].
    + apply field_line; [apply no_breaks_safe, stripCRLF_no_breaks|plain].
    + apply field_line; [apply Hlaws|plain].
    + apply field_line; [apply no_breaks_safe, Hlaws|plain].
    + apply field_line; [|plain]. apply no_breaks_safe, no_breaks_app; [|plain].
      apply message_id_no_breaks; [apply Hlaws|done].
  - destruct (usable_id _) eqn:Hu; [|by apply Forall_nil]. apply Forall_singleton.
    apply field_line; [|plain]. by apply no_breaks_safe, angle_no_breaks, sanitized_clean.
  - destruct (bool_decide _); [by apply Forall_nil|]. apply Forall_singleton. apply references_line_ok.
  - rewrite !Forall_cons. split_and!; [vm_compute; reflexivity..|by apply Forall_nil].
Qed.

Lemma header_lines_fields r now :
  ∃ names, sublist names reply_fields ∧ Forall2 field_of names (header_lines cfg r (message_id cfg r) now).
Proof.
  unfold header_lines.
  set (irt := usable_id _). set (nr := bool_decide (buildRefs _ = "")).
  exists (["From"; "To"; "Subject"; "Date"; "Message-ID"] ++ (if irt then ["In-Reply-To"] else []) ++
          (if nr then [] else ["References"]) ++ ["Auto-Submitted"; "MIME-Version"; "Content-Type"]).
  split.
  - destruct irt, nr; cbn; unfold reply_fields; repeat constructor.
  - apply Forall2_app; [|apply Forall2_app; [|apply Forall2_app]].
    + do 4 (apply Forall2_cons; split; [by apply field_intro|]).
      apply Forall2_cons. split; [|by apply Forall2_nil]. exists ("<" +:+ message_id cfg r +:+ ">"). done.
    + destruct irt; [|by apply Forall2_nil]. apply Forall2_cons. split; [by apply field_intro|by apply Forall2_nil].
    + destruct nr; [by apply Forall2_nil|]. apply Forall2_cons. split; [by apply field_intro|by apply Forall2_nil].
    + apply Forall2_cons. split; [by exists "auto-generated"|].
      apply Forall2_cons. split; [by exists "1.0"|].
      apply Forall2_cons. split; [by exists "text/plain; charset=utf-8"|by apply Forall2_nil].
Qed.
End headers.

(** C19: no field of a reply can add a header.  Whatever the recipient, subject, thread
    ids and body hold (all of them come from inbound mail), the header block consists of
    the sender's known fields in their order, every line break in it is a fold of one of
    them, and every line of References is within the fold limit. *)
Theorem no_header_injection (L : GoLib) (ML : MimeLib) cfg r now :
  mime_laws L ML → no_breaks cfg.(smtp_FromAddress) →
  safe_headers (header_lines cfg r (message_id cfg r) now) ∧
  lines_within headerFoldOctets 0 ("References: " +:+ buildRefs r.(rep_References)) = true.
Proof.
  intros Hlaws Hfrom. split; [split|apply references_line_ok].
  - by apply header_lines_folds.
  - apply header_lines_fields.
Qed.

(** An encoder that drops what it cannot show, and a constant hash. *)
Definition plain_mime : MimeLib := {| QEncode := stripCRLF; RFC1123Z _ := "Mon, 02 Jan 2006 15:04:05 +0000" |}.
Definition hex_lib : GoLib :=
  {| golib_unicode := ascii_unicode; FormatFloat _ := "5"; ParseFloat _ := None;
     sha256_hex _ := "00112233445566778899aabbccddeeff"; ParseMediaType s := Some (s, []);
     ParseAddress _ := None; time_Parse _ _ := None |}.
Definition hostile_reply : Reply :=
  mkReply "sub-1" ("bo@broker.com" +:+ crlf +:+ "Bcc: all@broker.com") ("Hi" +:+ crlf +:+ "Bcc: x")
    "Hello" ("<a@b>" +:+ crlf +:+ "X: y") ["<a@b>"; "c d@e"].
Definition demo_smtp : SMTPConfig := mkSMTPConfig "mail" "587" "" "" "triage@agency.com" "Triage".

Lemma no_header_injection_witness :
  safe_headers (header_lines (ML := plain_mime) demo_smtp hostile_reply
                  (message_id (L := hex_lib) demo_smtp hostile_reply) 0).
Proof.
  apply (no_header_injection hex_lib plain_mime demo_smtp hostile_reply 0).
  - split.
    + intros s. apply no_breaks_safe, stripCRLF_no_breaks.
    + intros t. plain.
    + intros s. plain.
  - plain.
Defined.

(** ** Inbound mail *)

(** The last In-Reply-To of the headers, trimmed. *)
Definition header_named {L : GoLib} (name : string) (h : Header) : bool := bool_decide (ToLower h.(hd_Name) = name).

Section inbound.
Context {L : GoLib} {ML : MailLib} {E : Env}.

Lemma scan_headers_references hs acc :
  hs_references (foldl scan_header acc hs) =
  hs_references acc ++ flat_map (λ h, splitReferences h.(hd_Value)) (List.filter (header_named "references") hs).
Proof.
  revert acc. induction hs as [|h hs IH]; intros acc; cbn [foldl List.filter flat_map]; [by rewrite app_nil_r|].
  rewrite IH. unfold scan_header, header_named. case_bool_decide as H1.
  - rewrite (bool_decide_eq_false_2 (_ = "references")) by congruence. done.
  - case_bool_decide; [|done]. cbn [hs_references flat_map]. by rewrite app_assoc.
Qed.

(** An automated message: what detection looks at, among the headers kept by name. *)
Definition automated (h : list (string * string)) : Prop :=
  (∃ v, map_get "auto-submitted" h = Some v ∧ EqualFold (TrimSpace v) "no" = false) ∨
  ToLower (TrimSpace (default "" (map_get "precedence" h))) ∈ ["bulk"; "list"; "junk"] ∨
  default "" (map_get "list-id" h) ≠ "" ∨ default "" (map_get "list-unsubscribe" h) ≠ "" ∨
  TrimSpace (default "" (map_get "return-path" h)) = "<>".

Lemma detectAutoSubmitted_spec h : detectAutoSubmitted h = true ↔ automated h.
Proof.
  unfold detectAutoSubmitted, automated, automated_precedence. rewrite !orb_true_iff, !negb_true_iff.
  rewrite !bool_decide_eq_true, !bool_decide_eq_false.
  generalize (default "" (map_get "list-id" h)) (default "" (map_get "list-unsubscribe" h))
    (TrimSpace (default "" (map_get "return-path" h))) (ToLower (TrimSpace (default "" (map_get "precedence" h)))).
  intros li lu rp pr. rewrite !elem_of_cons, elem_of_nil.
  assert (match map_get "auto-submitted" h with
          | Some v => negb (EqualFold (TrimSpace v) "no") | None => false end = true ↔
          ∃ v, map_get "auto-submitted" h = Some v ∧ EqualFold (TrimSpace v) "no" = false) as ->.
  { destruct (map_get "auto-submitted" h) as [v|]; [rewrite negb_true_iff; naive_solver|naive_solver]. }
  tauto.
Qed.
End inbound.

(** What an attachment of a request always satisfies. *)
Definition attachment_ok {L : GoLib} (a : Attachment) : Prop :=
  a.(att_Content) ≠ "" ∧ a.(att_Size) = len a.(att_Content) ∧ a.(att_SHA256) = sha256_hex a.(att_Content).

Lemma decodeAttachments_ok {L : GoLib} {ML : MailLib} l : Forall attachment_ok (decodeAttachments l).
Proof.
  apply Forall_forall. intros a (x & _ & Ha)%list_elem_of_omap. revert Ha. unfold decode_attachment.
  destruct (base64_Decode _) as [[|c raw]|]; [done| |done]. by intros [= <-].
Qed.

(** What translation makes of a parsed message.  It never fails and touches no
    state.  A bounce is a bounce and nothing else: it is never taken for automated mail,
    and only a bounce can be permanent; any other message is automated exactly when its
    headers say so, and only then are they kept for the audit.  The references are the
    ids of every References header in order, followed for a bounce by the id of the
    message that bounced, all without brackets and none empty.  Every attachment has
    content, its size and its hash. *)
Theorem Translate_spec (L : GoLib) (ML : MailLib) (E : Env) p source w :
  let hs := scan_headers p.(pl_Headers) in
  let refs := flat_map (λ h, splitReferences h.(hd_Value)) (List.filter (header_named "references") p.(pl_Headers)) in
  ∃ req w', Translate p source w = (Ok req, w') ∧ w_db w' = w_db w ∧ mem w' = mem w ∧
    req.(rq_Bounce) = p.(pl_Bounce) ∧ (req.(rq_BouncePermanent) = true → req.(rq_Bounce) = true) ∧
    (req.(rq_AutoSubmitted) = true ↔ p.(pl_Bounce) = false ∧ automated hs.(hs_auto)) ∧
    req.(rq_AutoResponseHeaders) = (if req.(rq_AutoSubmitted) then hs.(hs_auto) else []) ∧
    req.(rq_References) = trimAngles (refs ++ (if p.(pl_Bounce) then [p.(pl_BouncedMessageID)] else [])) ∧
    Forall attachment_ok req.(rq_Attachments).
Proof.
  intros hs refs. assert (∃ t w', parseReceivedAt p.(pl_Date) w = (Ok t, w') ∧ w_db w' = w_db w ∧ mem w' = mem w)
    as (t & w' & Ht & Hdb & Hm).
  { unfold parseReceivedAt. destruct (ParseDate _) as [z|]; [destruct (unresolvedZone z)|]; by eexists _, _. }
  unfold Translate. rewrite (bind_ok _ _ _ _ _ Ht). fold hs. eexists _, w'. split; [reflexivity|]. cbn.
  split_and!; try done.
  - by intros [? _]%andb_true_iff.
  - rewrite andb_true_iff, negb_true_iff, detectAutoSubmitted_spec. done.
  - assert (hs_references hs = refs) as ->.
    { unfold hs, scan_headers, refs. by rewrite scan_headers_references. }
    unfold trimAngles. rewrite map_app, List.filter_app. f_equal. destruct (pl_Bounce p); [|done]. cbn.
    by destruct (bool_decide (trimAngle _ = "")).
  - apply decodeAttachments_ok.
Qed.
