(* ===== verification/SmtpProps.v ===== *)
(** What a send over SMTP guarantees, whatever the server answers: nothing but the
    greeting crosses an unencrypted connection to another host, a call ends at the first
    message the server acknowledges and fails when it acknowledges none, and every attempt
    carries the same bytes under the same Message-ID.

    A connection that breaks at the end of the data leaves the sender without an answer:
    the server may hold the message or not, and the next attempt offers it again. *)
From Stdlib Require Import ZArith Ascii.
From stdpp Require Import base list strings gmap.
From S2P Require Import Prelude GoStrings GoValues Submission Checklist Reply Tables World Repository OutboxRepo RepositoryProps Config Retry Smtp SmtpSend MailProps.

Open Scope Z_scope.

Definition smtp_log (w : World) : list smtp_event := w.(w_net).(ns_smtp).

(** [talks P Q m]: [m] appends to the log events that satisfy [P], and returns a value
    that satisfies [Q] if it returns one. *)
Definition talks {A} (P : smtp_event → Prop) (Q : A → Prop) (m : M A) : Prop :=
  ∀ w, ∃ evs, smtp_log (m w).2 = smtp_log w ++ evs ∧ Forall P evs ∧
              match (m w).1 with Ok a => Q a | Err _ => True end.

Definition silent {A} (m : M A) : Prop := ∀ w, smtp_log (m w).2 = smtp_log w.

Section talks.
Context (P : smtp_event → Prop).

Lemma talks_silent {A} (m : M A) : silent m → talks P (λ _, True) m.
Proof. intros Hm w. exists []. rewrite Hm, app_nil_r. split_and!; [done|constructor|by destruct (m w).1]. Qed.

Lemma talks_ret {A} (Q : A → Prop) a : Q a → talks P Q (mret a).
Proof. intros Ha w. exists []. rewrite app_nil_r. split_and!; [done|constructor|done]. Qed.

Lemma talks_throw {A} (Q : A → Prop) e : talks P Q (throw e).
Proof. intros w. exists []. rewrite app_nil_r. split_and!; [done|constructor|done]. Qed.

Lemma talks_bind {A B} (R : A → Prop) (Q : B → Prop) (m : M A) (f : A → M B) :
  talks P R m → (∀ a, R a → talks P Q (f a)) → talks P Q (m ≫= f).
Proof.
  intros Hm Hf w. destruct (Hm w) as (evs & Hlog & Hevs & Hr). unfold mbind, M_bind.
  destruct (m w) as [[a|e] w1]; cbn in *; [|by exists evs].
  destruct (Hf a Hr w1) as (evs' & Hlog' & Hevs' & Hq). exists (evs ++ evs').
  rewrite Hlog', Hlog, app_assoc. split_and!; [done|by apply Forall_app|done].
Qed.

Lemma talks_weaken {A} (Q Q' : A → Prop) (m : M A) : (∀ a, Q a → Q' a) → talks P Q m → talks P Q' m.
Proof.
  intros HQ Hm w. destruct (Hm w) as (evs & Hlog & Hevs & Hr). exists evs. split_and!; [done|done|].
  destruct (m w).1; [by apply HQ|done].
Qed.

Lemma talks_issue `{SmtpServer} tls cmd :
  (∀ ok, P (mkSmtpEvent cmd tls ok)) → talks P (λ _, True) (issue tls cmd).
Proof. intros HP w. eexists [_]. split_and!; [reflexivity|by repeat constructor|done]. Qed.

Lemma talks_return_err {A} (Q : A → Prop) r (k : M A) : talks P Q k → talks P Q (return_err r k).
Proof. intros Hk. destruct r; [apply talks_throw|exact Hk]. Qed.
End talks.

Lemma paused_log w w' : paused w w' → smtp_log w' = smtp_log w.
Proof. by intros (d & _ & [->| ->]). Qed.

(** Attempts talk as one run does. *)
Lemma talks_Do {E : Env} {N : NetEnv} {A} (P : smtp_event → Prop) (fn : M A) attempts base :
  talks P (λ _, True) fn → talks P (λ _, True) (Do attempts base fn).
Proof.
  intros Hfn w. destruct (Do_runs attempts base fn w) as (k & w1 & r & w' & -> & _ & Htr & Hl). cbn.
  assert (∃ evs, smtp_log w1 = smtp_log w ++ evs ∧ Forall P evs) as (evs & Hlog & Hevs).
  { clear Hl. induction Htr as [u|k' u u1 u2 u3 e Hf _ Hp _ _ (evs & Hlog & Hevs)].
    { exists []. by rewrite app_nil_r. }
    destruct (Hfn u) as (evs0 & Hlog0 & Hevs0 & _). rewrite Hf in Hlog0. cbn in Hlog0.
    exists (evs0 ++ evs). rewrite Hlog, (paused_log _ _ Hp), Hlog0, app_assoc.
    split; [done|by apply Forall_app]. }
  assert (∃ evs', smtp_log w' = smtp_log w1 ++ evs' ∧ Forall P evs') as (evs' & Hlog' & Hevs').
  { destruct (Hfn w1) as (evs' & Hlog' & Hevs' & _).
    destruct Hl; [exists []; by rewrite app_nil_r|by rewrite H in Hlog'; eauto..]. }
  exists (evs ++ evs'). rewrite Hlog', Hlog, app_assoc. split_and!; [done|by apply Forall_app|by destruct r].
Qed.

(** ** The exchange *)

(** Commands with credentials, addresses or the message. *)
Definition sensitive (cmd : smtp_cmd) : bool :=
  match cmd with
  | SmtpAuth _ _ | SmtpMail _ | SmtpRcpt _ | SmtpData | SmtpWrite _ | SmtpEnd _ => true
  | _ => false
  end.

(** The end of a message, where the server takes it over or not. *)
Definition offers (ev : smtp_event) : bool := match ev.(se_cmd) with SmtpEnd _ => true | _ => false end.
(** The sender knows that the server took it over. *)
Definition acknowledged (ev : smtp_event) : bool := offers ev && ev.(se_ok).

Section exchange.
Context {L : GoLib} {MM : MimeLib} {E : Env} {N : NetEnv} {S : SmtpServer}.

Definition private (host : string) (ev : smtp_event) : Prop :=
  sensitive ev.(se_cmd) = true → ev.(se_tls) = true ∨ isLocalhost host = true.
Definition only (msg : string) (ev : smtp_event) : Prop :=
  match ev.(se_cmd) with SmtpWrite m | SmtpEnd m => m = msg | _ => True end.
Definition before_data (ev : smtp_event) : Prop :=
  match ev.(se_cmd) with SmtpWrite _ | SmtpEnd _ => False | _ => True end.

(** A client that may be given sensitive commands. *)
Definition trusted (host : string) (c : smtp_client) : Prop := c.(cl_tls) = true ∨ isLocalhost host = true.

(** The events of a connection to [host] that has not reached the message. *)
Definition opening (host : string) (ev : smtp_event) : Prop := private host ev ∧ before_data ev.

#[local] Hint Extern 1 (opening _ _) => (split; [by intros ?|done]) : smtp.

Ltac talk :=
  repeat match goal with
  | |- talks _ _ (mret _) => apply talks_ret
  | |- talks _ _ (throw _) => apply talks_throw
  | |- talks _ _ (return_err _ _) => apply talks_return_err
  | |- talks _ _ (issue _ _ ≫= _) => eapply talks_bind; [apply talks_issue|intros ? _]
  | |- talks _ (λ _, True) (issue _ _) => apply talks_issue
  end.

Lemma talks_hello host c :
  talks (opening host) (λ rc, rc.2.(cl_tls) = c.(cl_tls)) (hello c).
Proof. unfold hello. destruct (cl_hello c); talk; auto with smtp. Qed.

Lemma talks_negotiate cfg c :
  talks (opening cfg.(smtp_Host)) (trusted cfg.(smtp_Host)) (negotiate_tls cfg c).
Proof.
  unfold negotiate_tls. destruct (cl_tls c) eqn:Ht; [talk; by left|].
  eapply talks_bind; [apply talks_hello|]. intros rc Hrc.
  eapply talks_bind; [apply talks_silent; by intros w|]. intros offered _.
  destruct offered; [talk; [auto with smtp|by left]|].
  destruct (isLocalhost _) eqn:El; talk. by right.
Qed.

Lemma sensitive_opening host c cmd ok :
  trusted host c → (∀ m, cmd ≠ SmtpWrite m) → (∀ m, cmd ≠ SmtpEnd m) →
  opening host (mkSmtpEvent cmd c.(cl_tls) ok).
Proof. intros Ht H1 H2. split; [by intros _|]. destruct cmd; try done; [by eapply H1|by eapply H2]. Qed.

Lemma talks_Auth host c a :
  trusted host c → talks (opening host) (λ ec, trusted host ec.2) (client_Auth c host a).
Proof.
  intros Ht. unfold client_Auth. eapply talks_bind; [apply talks_hello|]. intros [r c'] Hc. cbn in *.
  assert (trusted host c') by (unfold trusted; by rewrite Hc).
  destruct (rep_error r); [by talk|]. destruct (auth_Start _ _ _) as [[mech payload]|e]; talk; auto with smtp.
Qed.

Lemma talks_dial cfg auth :
  (∀ a, auth = Some a → silent a) →
  talks (opening cfg.(smtp_Host)) (trusted cfg.(smtp_Host)) (dialSMTP cfg auth).
Proof.
  intros Hauth. unfold dialSMTP. talk; auto with smtp.
  eapply talks_bind; [apply talks_negotiate|]. intros c Hc.
  eapply (talks_bind _ (λ _, True)).
  { unfold smtpAuth. destruct auth as [m|]; [|destruct (bool_decide _); by talk].
    eapply talks_bind; [by apply talks_silent, Hauth|]. intros; by talk. }
  intros [mech|] _; [|by talk]. eapply talks_bind; [by apply talks_Auth|]. intros ec Hec. by talk.
Qed.

Lemma talks_rcpt host c to : trusted host c → talks (opening host) (λ _, True) (rcpt_all c to).
Proof.
  intros Hc. induction to as [|rcpt to IH]; [by apply talks_ret|]. cbn.
  eapply (talks_bind _ (λ _, True)); [|intros; by apply talks_return_err].
  unfold client_Rcpt. destruct (has_line_break rcpt); talk; [done|]. intros ok. by apply sensitive_opening.
Qed.

Lemma talks_Mail host c from : trusted host c → talks (opening host) (λ _, True) (client_Mail c from).
Proof.
  intros Hc. unfold client_Mail. destruct (has_line_break from); [by talk|].
  eapply talks_bind; [apply talks_hello|]. intros rc _. destruct (rep_ok rc.1); talk; [|done].
  intros ok. by apply sensitive_opening.
Qed.

Definition count_taken (evs : list smtp_event) : Z := Z.of_nat (length (List.filter acknowledged evs)).
Definition taken (w : World) : Z := count_taken (smtp_log w).
Definition count_offers (evs : list smtp_event) : Z := Z.of_nat (length (List.filter offers evs)).

Lemma count_taken_app l1 l2 : count_taken (l1 ++ l2) = count_taken l1 + count_taken l2.
Proof. unfold count_taken. rewrite List.filter_app, length_app. lia. Qed.

Lemma count_offers_app l1 l2 : count_offers (l1 ++ l2) = count_offers l1 + count_offers l2.
Proof. unfold count_offers. rewrite List.filter_app, length_app. lia. Qed.

Lemma count_offers_opening host evs : Forall (opening host) evs → count_offers evs = 0.
Proof.
  induction 1 as [|[cmd tls ok] evs [_ Hb] _ IH]; [done|]. unfold count_offers in *. cbn.
  by destruct cmd; cbn in *.
Qed.

Lemma count_taken_opening host evs : Forall (opening host) evs → count_taken evs = 0.
Proof.
  induction 1 as [|[cmd tls ok] evs [_ Hb] _ IH]; [done|]. unfold count_taken in *. cbn.
  by destruct cmd; cbn in *.
Qed.

Lemma talks_taken {A} host (Q : A → Prop) (m : M A) w : talks (opening host) Q m → taken (m w).2 = taken w.
Proof.
  intros Hm. destruct (Hm w) as (evs & Hlog & Hevs & _). unfold taken.
  rewrite Hlog, count_taken_app, (count_taken_opening host evs) by done. lia.
Qed.

(** The tail of [realSMTPSend], once the recipients are accepted. *)
Definition send_data (c : smtp_client) (msg : string) : M unit :=
  r ← issue c.(cl_tls) SmtpData;
  return_err (classifySMTP r)
    (r ← issue c.(cl_tls) (SmtpWrite msg);
     return_err (rep_error r)
       (r ← issue c.(cl_tls) (SmtpEnd msg);
        return_err (classifySMTP r)
          (issue c.(cl_tls) SmtpQuit ≫= λ _, mret ()))).

Definition send_envelope (cfg : SMTPConfig) (auth : option (M smtp_auth)) (from : string) (to : list string) : M smtp_client :=
  c ← dialSMTP cfg auth;
  r ← client_Mail c from;
  return_err (classifySMTP r) (rcpt_all c to ≫= λ _, mret c).

Lemma realSMTPSend_parts cfg auth from to msg w :
  realSMTPSend cfg auth from to msg w = (send_envelope cfg auth from to ≫= λ c, send_data c msg) w.
Proof.
  unfold realSMTPSend, send_envelope, send_data, mbind, M_bind.
  destruct (dialSMTP cfg auth w) as [[c|e] w1]; [|done].
  destruct (client_Mail c from w1) as [[r|e] w2]; [|done].
  destruct (classifySMTP r); cbn; [done|]. by destruct (rcpt_all c to w2) as [[[]|e] w3].
Qed.

Lemma talks_envelope cfg auth from to :
  (∀ a, auth = Some a → silent a) →
  talks (opening cfg.(smtp_Host)) (trusted cfg.(smtp_Host)) (send_envelope cfg auth from to).
Proof.
  intros Hauth. eapply talks_bind; [by apply talks_dial|]. intros c Hc.
  eapply talks_bind; [by apply talks_Mail|]. intros r _. talk.
  eapply talks_bind; [by apply talks_rcpt|]. intros; by talk.
Qed.

Lemma talks_opening {A} (P : smtp_event → Prop) host (Q : A → Prop) (m : M A) :
  (∀ ev, opening host ev → P ev) → talks (opening host) Q m → talks P Q m.
Proof. intros HP Hm w. destruct (Hm w) as (evs & Hlog & Hevs & Hq). exists evs.
  split_and!; [done|by eapply Forall_impl|done]. Qed.

(** What every event of a send satisfies. *)
Definition send_event (host msg : string) (ev : smtp_event) : Prop := private host ev ∧ only msg ev.

Lemma talks_realSMTPSend cfg auth from to msg :
  (∀ a, auth = Some a → silent a) →
  talks (send_event cfg.(smtp_Host) msg) (λ _, True) (realSMTPSend cfg auth from to msg).
Proof.
  intros Hauth w. rewrite realSMTPSend_parts. revert w.
  change (talks (send_event cfg.(smtp_Host) msg) (λ _, True)
    (send_envelope cfg auth from to ≫= λ c, send_data c msg)).
  eapply talks_bind; [eapply talks_opening; [|by apply talks_envelope]|].
  { intros [cmd tls ok] [Hp Hb]. split; [done|]. by destruct cmd. }
  intros c Hc. unfold send_data. talk; try done; intros ok; (split; [by intros _|done]).
Qed.

Definition issued (tls : bool) (cmd : smtp_cmd) (w : World) : World := (issue tls cmd w).2.

Lemma issue_run tls cmd w : issue tls cmd w = (Ok (srv w.(w_tick) cmd), issued tls cmd w).
Proof. done. Qed.

Lemma taken_issued tls cmd w :
  taken (issued tls cmd w) =
  taken w + match cmd with SmtpEnd _ => if rep_ok (srv w.(w_tick) cmd) then 1 else 0 | _ => 0 end.
Proof.
  unfold taken, issued, issue, smtp_log. cbn. rewrite count_taken_app. unfold count_taken at 2. cbn.
  destruct cmd; cbn; try lia. by destruct (srv _ _).
Qed.

Lemma send_data_taken c msg w :
  match send_data c msg w with
  | (Ok _, w') => taken w' = taken w + 1
  | (Err _, w') => taken w' = taken w
  end.
Proof.
  unfold send_data, mbind, M_bind. rewrite issue_run. destruct (classifySMTP _) as [e|]; cbn -[issue issued taken].
  { rewrite taken_issued. lia. }
  rewrite issue_run. destruct (rep_error _) as [e|]; cbn -[issue issued taken].
  { rewrite !taken_issued. lia. }
  rewrite issue_run. destruct (srv (w_tick (issued _ (SmtpWrite msg) _)) (SmtpEnd msg)) eqn:Es; cbn -[issue issued taken].
  - rewrite issue_run. cbn -[issued taken]. rewrite !taken_issued, Es. cbn. lia.
  - destruct ((500 <=? code) && (code <? 600)); cbn -[issue issued taken]; rewrite !taken_issued, Es; cbn; lia.
  - rewrite !taken_issued, Es. cbn. lia.
Qed.

(** The events of [send_data]: the message is offered once at most, and on success the
    exchange ends with the acknowledged offer and the farewell. *)
Lemma send_data_events c msg w :
  ∃ evs, smtp_log (send_data c msg w).2 = smtp_log w ++ evs ∧ count_offers evs ≤ 1 ∧
    (is_ok (send_data c msg w).1 = true →
     ∃ evs1 ev quit, evs = evs1 ++ [ev; quit] ∧ acknowledged ev = true ∧ quit.(se_cmd) = SmtpQuit).
Proof.
  assert (∀ tls cmd u, ∃ ev, smtp_log (issued tls cmd u) = smtp_log u ++ [ev] ∧ se_cmd ev = cmd ∧
    se_ok ev = rep_ok (srv u.(w_tick) cmd)) as Hissued by (intros; by eexists (mkSmtpEvent _ _ _)).
  unfold send_data, mbind, M_bind. rewrite issue_run.
  destruct (Hissued (cl_tls c) SmtpData w) as ([? ? ?] & L1 & E1 & _). cbn in E1. subst.
  destruct (classifySMTP _) as [e|]; cbn -[issue issued]; [by eexists; split_and!; [exact L1| |]|]. rewrite issue_run.
  destruct (Hissued (cl_tls c) (SmtpWrite msg) (issued (cl_tls c) SmtpData w)) as ([? ? ?] & L2 & E2 & _). cbn in E2. subst.
  rewrite L1, <-app_assoc in L2.
  destruct (rep_error _) as [e|]; cbn -[issue issued]; [by eexists; split_and!; [exact L2| |]|]. rewrite issue_run.
  set (u := issued _ (SmtpWrite msg) _) in *.
  destruct (Hissued (cl_tls c) (SmtpEnd msg) u) as ([? ? ok] & L3 & E3 & O3). cbn in E3. change (ok = rep_ok (srv (w_tick u) (SmtpEnd msg))) in O3. subst.
  rewrite L2, <-app_assoc in L3. destruct (srv (w_tick u) (SmtpEnd msg)) as [|code text|e] eqn:Es;
    cbn -[issue issued]; [|destruct (_ && _); by eexists; split_and!; [exact L3| |]|by eexists; split_and!; [exact L3| |]].
  rewrite issue_run. cbn -[issued].
  destruct (Hissued (cl_tls c) SmtpQuit (issued (cl_tls c) (SmtpEnd msg) u)) as (q & L4 & E4 & _).
  rewrite L3, <-!app_assoc in L4. eexists. split_and!; [exact L4|by destruct q as [? ? ?]; cbn in *; subst|].
  intros _. eexists [_; _], _, q. split_and!; [reflexivity|done|done].
Qed.

(** The events of a run. *)
Lemma realSMTPSend_events cfg auth from to msg w :
  (∀ a, auth = Some a → silent a) →
  ∃ evs, smtp_log (realSMTPSend cfg auth from to msg w).2 = smtp_log w ++ evs ∧ count_offers evs ≤ 1 ∧
    (is_ok (realSMTPSend cfg auth from to msg w).1 = true →
     ∃ evs1 ev quit, evs = evs1 ++ [ev; quit] ∧ acknowledged ev = true ∧ quit.(se_cmd) = SmtpQuit).
Proof.
  intros Hauth. rewrite realSMTPSend_parts. unfold mbind at 1 2, M_bind at 1 2.
  destruct (talks_envelope cfg auth from to Hauth w) as (evs & Hlog & Hevs & _).
  apply count_offers_opening in Hevs.
  destruct (send_envelope cfg auth from to w) as [[c|e] w1]; cbn [fst snd] in *;
    [|exists evs; split_and!; [done|lia|done]].
  destruct (send_data_events c msg w1) as (evs' & Hlog' & Hc & Hok). exists (evs ++ evs').
  rewrite Hlog', Hlog, app_assoc, count_offers_app. split_and!; [done|lia|].
  intros (evs1 & ev & quit & -> & Ha & Hq)%Hok. exists (evs ++ evs1), ev, quit. by rewrite app_assoc.
Qed.

(** A run that succeeds hands over one message, a run that fails none. *)
Lemma realSMTPSend_taken cfg auth from to msg w :
  (∀ a, auth = Some a → silent a) →
  match realSMTPSend cfg auth from to msg w with
  | (Ok _, w') => taken w' = taken w + 1
  | (Err _, w') => taken w' = taken w
  end.
Proof.
  intros Hauth. rewrite realSMTPSend_parts. unfold mbind at 1, M_bind at 1.
  pose proof (talks_taken _ _ _ w (talks_envelope cfg auth from to Hauth)) as <-.
  destruct (send_envelope cfg auth from to w) as [[c|e] w1]; cbn [fst snd]; [|done]. apply send_data_taken.
Qed.

Lemma taken_paused w w' : paused w w' → taken w' = taken w.
Proof. intros Hp. unfold taken. by rewrite (paused_log _ _ Hp). Qed.

Lemma talks_now : talks (λ _, False) (λ _, True) time_Now.
Proof. apply talks_silent. by intros w. Qed.

(** The whole call, as a run of [Do] on the message of this moment. *)
Lemma SendThreadedReply_run s r w :
  let msg := buildMessage s.(ss_cfg) r (message_id s.(ss_cfg) r) (env_now w.(w_tick)) in
  (∃ e, smtp_SendThreadedReply s r w = (Err e, w)) ∨
  smtp_SendThreadedReply s r w =
    (Do s.(ss_retryAttempts) s.(ss_retryBase)
       (realSMTPSend s.(ss_cfg) s.(ss_auth) s.(ss_cfg).(smtp_FromAddress) [r.(rep_ToAddress)] msg) ≫= λ _,
     mret (message_id s.(ss_cfg) r)) (w_next w).
Proof. intros msg. unfold smtp_SendThreadedReply. repeat case_bool_decide; [eauto..|]. by right. Qed.

(** The offers over all attempts, and where they end. *)
Lemma Do_events s from to msg w :
  (∀ a, s.(ss_auth) = Some a → silent a) →
  let m := Do s.(ss_retryAttempts) s.(ss_retryBase) (realSMTPSend s.(ss_cfg) s.(ss_auth) from to msg) in
  ∃ evs, smtp_log (m w).2 = smtp_log w ++ evs ∧ count_offers evs ≤ attempts_of s.(ss_retryAttempts) ∧
    (is_ok (m w).1 = true →
     ∃ evs1 ev quit, evs = evs1 ++ [ev; quit] ∧ acknowledged ev = true ∧ quit.(se_cmd) = SmtpQuit).
Proof.
  intros Hauth. set (fn := realSMTPSend _ _ _ _ _). cbn zeta.
  pose proof (λ u, realSMTPSend_events s.(ss_cfg) s.(ss_auth) from to msg u Hauth) as Hrun. fold fn in Hrun.
  destruct (Do_runs s.(ss_retryAttempts) s.(ss_retryBase) fn w) as (k & w1 & r & w' & -> & Hk & Htr & Hl). cbn [fst snd].
  assert (∀ n, tried fn n w w1 → ∃ evs, smtp_log w1 = smtp_log w ++ evs ∧ count_offers evs ≤ Z.of_nat n) as Htried.
  { clear -Hrun. intros n. induction 1 as [u|n u u1 u2 u3 e Hf _ Hp _ _ (evs & Hlog & Hc)].
    { exists []. by rewrite app_nil_r. }
    destruct (Hrun u) as (evs0 & Hlog0 & Hc0 & _). rewrite Hf in Hlog0. cbn in Hlog0. exists (evs0 ++ evs).
    rewrite Hlog, (paused_log _ _ Hp), Hlog0, app_assoc, count_offers_app. split; [done|lia]. }
  destruct (Htried _ Htr) as (evs & Hlog & Hc). rewrite Z2Nat.id in Hc by lia.
  destruct (Hrun w1) as (evs' & Hlog' & Hc' & Hok).
  assert (w' = w1 ∧ is_ok r = false ∨ (fn w1).2 = w' ∧ (is_ok r = true → is_ok (fn w1).1 = true)) as [[-> Hr]|[Hw Hr]].
  { destruct Hl; [by left|right; by rewrite H..]. }
  - exists evs. rewrite Hr. split_and!; [done|lia|done].
  - rewrite Hw in Hlog'. exists (evs ++ evs'). rewrite Hlog', Hlog, app_assoc, count_offers_app.
    split_and!; [done|lia|]. intros (evs1 & ev & quit & -> & Ha & Hq)%Hr%Hok. exists (evs ++ evs1), ev, quit.
    by rewrite app_assoc.
Qed.

Lemma SendThreadedReply_events s r w :
  (∀ a, s.(ss_auth) = Some a → silent a) →
  ∃ evs, smtp_log (smtp_SendThreadedReply s r w).2 = smtp_log w ++ evs ∧
    Forall (send_event s.(ss_cfg).(smtp_Host)
              (buildMessage s.(ss_cfg) r (message_id s.(ss_cfg) r) (env_now w.(w_tick)))) evs ∧
    count_offers evs ≤ attempts_of s.(ss_retryAttempts) ∧
    match (smtp_SendThreadedReply s r w).1 with
    | Ok id => id = message_id s.(ss_cfg) r ∧ count_taken evs = 1 ∧
        ∃ evs1 ev quit, evs = evs1 ++ [ev; quit] ∧ acknowledged ev = true ∧ quit.(se_cmd) = SmtpQuit
    | Err _ => count_taken evs = 0
    end.
Proof.
  intros Hauth. destruct (SendThreadedReply_run s r w) as [[e ->]| ->].
  { exists []. rewrite app_nil_r. split_and!; [done|constructor| |done].
    unfold attempts_of, count_offers. cbn. destruct (Z.leb_spec (ss_retryAttempts s) 0); lia. }
  set (msg := buildMessage _ _ _ _).
  pose proof (Do_events s (smtp_FromAddress (ss_cfg s)) [rep_ToAddress r] msg (w_next w) Hauth) as Hdo. cbn zeta in Hdo.
  set (fn := realSMTPSend _ _ _ _ msg) in *.
  pose proof (talks_Do _ fn s.(ss_retryAttempts) s.(ss_retryBase)
    (talks_realSMTPSend s.(ss_cfg) s.(ss_auth) _ _ msg Hauth)) as Ht.
  pose proof (Do_counts_success fn taken taken_paused s.(ss_retryAttempts) s.(ss_retryBase) (w_next w)
    (λ w, realSMTPSend_taken _ _ _ _ msg w Hauth)) as Hc.
  destruct (Ht (w_next w)) as (evs & Hlog & Hevs & _). destruct Hdo as (evs' & Hlog' & Hoff & Hok).
  assert (evs' = evs) as -> by (rewrite Hlog in Hlog'; by apply (inj (app _)) in Hlog').
  unfold mbind, M_bind. exists evs.
  destruct (Do _ _ fn (w_next w)) as [[[]|e] w']; cbn [fst snd mret M_ret is_ok] in *; unfold taken in Hc;
    rewrite Hlog, count_taken_app in Hc; split_and!; try done; change (smtp_log (w_next w)) with (smtp_log w) in *;
    first [lia|by apply Hok].
Qed.

(** C29: whatever the SMTP server answers and however often the send is retried,
    credentials, addresses and the message only cross an encrypted connection, unless
    the configured host is the local one. *)
Theorem smtp_stays_private s r w :
  (∀ a, s.(ss_auth) = Some a → silent a) →
  ∃ evs, smtp_log (smtp_SendThreadedReply s r w).2 = smtp_log w ++ evs ∧
    ∀ ev, ev ∈ evs → sensitive ev.(se_cmd) = true →
          ev.(se_tls) = true ∨ isLocalhost s.(ss_cfg).(smtp_Host) = true.
Proof.
  intros Hauth. destruct (SendThreadedReply_events s r w Hauth) as (evs & Hlog & Hevs & _ & _).
  exists evs. split; [done|]. intros ev Hev. rewrite Forall_forall in Hevs. by apply (Hevs ev Hev).
Qed.

(** C30: whatever the SMTP server answers, all that a call offers it, over its attempts, are
    the same bytes under the Message-ID the call returns, which is a function of the reply
    and the configuration, and it offers them once per attempt at most.  A call that returns
    the id ends with the one offer the server acknowledged: what it offered before was
    refused or left without an answer.  A call that fails had no offer acknowledged. *)
Theorem smtp_hands_over_once s r w :
  (∀ a, s.(ss_auth) = Some a → silent a) →
  ∃ evs, smtp_log (smtp_SendThreadedReply s r w).2 = smtp_log w ++ evs ∧
    (∀ ev m, ev ∈ evs → ev.(se_cmd) = SmtpWrite m ∨ ev.(se_cmd) = SmtpEnd m →
       m = buildMessage s.(ss_cfg) r (message_id s.(ss_cfg) r) (env_now w.(w_tick))) ∧
    Z.of_nat (length (List.filter offers evs)) ≤ attempts_of s.(ss_retryAttempts) ∧
    match (smtp_SendThreadedReply s r w).1 with
    | Ok id => id = message_id s.(ss_cfg) r ∧
        ∃ evs1 ev quit, evs = evs1 ++ [ev; quit] ∧ acknowledged ev = true ∧ quit.(se_cmd) = SmtpQuit ∧
          List.filter acknowledged evs1 = []
    | Err _ => List.filter acknowledged evs = []
    end.
Proof.
  intros Hauth. destruct (SendThreadedReply_events s r w Hauth) as (evs & Hlog & Hevs & Hoff & Hc).
  exists evs. split_and!; [done| |done|].
  - intros ev m Hev Hm. rewrite Forall_forall in Hevs. destruct (Hevs ev Hev) as [_ Ho]. unfold only in Ho.
    by destruct Hm as [Hm|Hm]; rewrite Hm in Ho.
  - unfold count_taken in Hc. destruct (smtp_SendThreadedReply s r w).1.
    + destruct Hc as (-> & Hc & evs1 & ev & quit & -> & Ha & Hq). split; [done|]. exists evs1, ev, quit.
      split_and!; [done..|]. rewrite List.filter_app, length_app in Hc. cbn in Hc. rewrite Ha in Hc.
      destruct (List.filter acknowledged evs1); [done|]. cbn in Hc. lia.
    + destruct (List.filter acknowledged evs); [done|]. cbn in Hc. lia.
Qed.

(** The OAuth mechanism keeps out of the exchange. *)
Lemma silent_preserves {A} (m : M A) : (∀ x, preserves (λ w, smtp_log w = x) m) → silent m.
Proof. intros Hm w. by apply (Hm (smtp_log w)). Qed.

Lemma preserves_log_stmt {A} x (f : DB → result (A * DB)) : preserves (λ w, smtp_log w = x) (stmt f).
Proof. intros w Hw. unfold stmt. destruct (env_fault _); [done|]. by destruct (f _) as [[]|]. Qed.

Lemma preserves_log_Append x e : preserves (λ w, smtp_log w = x) (Append e).
Proof.
  unfold Append. apply preserves_bind; [by case_bool_decide; intros w|]. intros id.
  apply preserves_bind; [by destruct (IsZero _); intros w|]. intros created.
  destruct (negb _); [apply preserves_throw|]. apply preserves_wrap_err, preserves_log_stmt.
Qed.

Lemma XOAUTH2Auth_silent user provider src : silent (XOAUTH2Auth user (Token provider src)).
Proof.
  apply silent_preserves. intros x. apply preserves_bind; [|intros; apply preserves_ret].
  intros w Hw. unfold Token. destruct (src (w_tick w)) as [e|tok]; [|done].
  destruct (classify e) as [class [|]]; [|done]. revert Hw. change (smtp_log w) with (smtp_log (w_next w)).
  generalize (w_next w) as u. change (preserves (λ u, smtp_log u = x) (authFailureAuditor provider class ≫= λ _,
    throw (A := string) (MarkPermanent (ErrWrap ("oauth " +:+ provider) e.(te_err))))).
  apply preserves_bind; [apply preserves_log_err, preserves_log_Append|]. intros. apply preserves_throw.
Qed.
End exchange.

(** ** A server to evaluate: it offers STARTTLS and breaks the first connection *)

Definition toy_smtp_server : SmtpServer :=
  {| srv n cmd := match cmd with SmtpData => if bool_decide (n < 10)%nat then Rejected 451 "try later" else Accepted
                               | _ => Accepted end;
     srv_STARTTLS _ := true |}.
Definition toy_net : NetEnv := {| env_rand _ := f64_zero |}.
Definition toy_smtp_config : SMTPConfig := mkSMTPConfig "mail.x" "587" "u" "p" "ops@x.com" "Ops".
Definition toy_sender : SMTPSender := mkSMTPSender toy_smtp_config None 3 Second.
Definition toy_reply : Reply := mkReply "sub-1" "b@x.com" "Re: Acme" "hello" "<m1>" ["<m1>"].

#[local] Existing Instance demo_lib.
#[local] Existing Instance plain_mime.
#[local] Existing Instance demo_env.
#[local] Existing Instance toy_net.
#[local] Existing Instance toy_smtp_server.

Lemma smtp_stays_private_witness :
  ∃ evs, smtp_log (smtp_SendThreadedReply toy_sender toy_reply empty_world).2 = smtp_log empty_world ++ evs ∧
    ∀ ev, ev ∈ evs → sensitive ev.(se_cmd) = true →
          ev.(se_tls) = true ∨ isLocalhost toy_sender.(ss_cfg).(smtp_Host) = true.
Proof. apply (smtp_stays_private toy_sender toy_reply empty_world). by intros a. Defined.

Lemma toy_send_retried :
  length (smtp_log (smtp_SendThreadedReply toy_sender toy_reply empty_world).2) = 19%nat ∧
  is_ok (smtp_SendThreadedReply toy_sender toy_reply empty_world).1 = true.
Proof. split; vm_compute; reflexivity. Qed.

Lemma smtp_hands_over_once_witness :
  ∃ evs, smtp_log (smtp_SendThreadedReply toy_sender toy_reply empty_world).2 = smtp_log empty_world ++ evs ∧
    (∀ ev m, ev ∈ evs → ev.(se_cmd) = SmtpWrite m ∨ ev.(se_cmd) = SmtpEnd m →
       m = buildMessage toy_smtp_config toy_reply (message_id toy_smtp_config toy_reply) (env_now 0)) ∧
    Z.of_nat (length (List.filter offers evs)) ≤ attempts_of 3 ∧
    match (smtp_SendThreadedReply toy_sender toy_reply empty_world).1 with
    | Ok id => id = message_id toy_smtp_config toy_reply ∧
        ∃ evs1 ev quit, evs = evs1 ++ [ev; quit] ∧ acknowledged ev = true ∧ quit.(se_cmd) = SmtpQuit ∧
          List.filter acknowledged evs1 = []
    | Err _ => List.filter acknowledged evs = []
    end.
Proof. apply (smtp_hands_over_once toy_sender toy_reply empty_world). by intros a. Defined.
