(* ===== verification/Llm.v ===== *)
(** The LLM client: [internal/infrastructure/llm/anthropic.go].

    [callMessages] and the three operations are computations over the [World]: they read
    and add to the spend table, post to the service ([LlmServer], recorded in [w_net])
    and retry with [Retry.Do].  A Go method that returns a value and an error returns
    the pair.  JSON texts are parsed to [json] by the library; which members the
    structs take, and how a member of the wrong type is reported, is written out. *)
From Stdlib Require Import ZArith SpecFloat Ascii.
From stdpp Require Import base list strings gmap.
From S2P Require Import Prelude GoStrings GoValues Submission Checklist TextUtil Classifier Tables World Repository OutboxRepo Config Retry.

Open Scope Z_scope.

Definition anthropicVersion : string := "2023-06-01".
Definition maxTextSampleBytes : nat := 2048.

(** ** Requests *)

Record pricing : Type := mkPricing { pr_input : float64; pr_output : float64 }.

Definition modelPricing : list (string * pricing) :=
  [("claude-haiku-4-5", mkPricing (f64_of_Z 1) (f64_of_Z 5));
   ("claude-haiku-4-5-20251001", mkPricing (f64_of_Z 1) (f64_of_Z 5));
   ("claude-sonnet-4-6", mkPricing (f64_of_Z 3) (f64_of_Z 15));
   ("claude-opus-4-8", mkPricing (f64_of_Z 15) (f64_of_Z 75))].

Definition price_of (model : string) : option pricing :=
  snd <$> List.find (λ mp, bool_decide (mp.1 = model)) modelPricing.

Record anthropicMessage : Type := mkAnthropicMessage { am_Role : string; am_Content : string }.
Record anthropicTool : Type := mkAnthropicTool { at_Name : string; at_Description : string; at_InputSchema : any }.
Record anthropicRequest : Type := mkAnthropicRequest {
  aq_Model : string;
  aq_MaxTokens : Z;
  aq_Messages : list anthropicMessage;
  aq_System : string;
  aq_Tools : list anthropicTool;
  aq_ToolChoice : option string }.   (** the name, with type "tool" *)

(** ** JSON *)

(** A JSON text: numbers as written, members in order, repeated ones included. *)
Inductive json : Type :=
| JNull
| JBool (b : bool)
| JNum (literal : string)
| JStr (s : string)
| JArr (l : list json)
| JObj (members : list (string * json)).

(** What the client uses of [encoding/json], [fmt] and [strconv]. *)
Class JsonLib : Type := {
  json_parse : string → option json;            (** a valid text *)
  json_request : anthropicRequest → string;     (** [json.Marshal] of a request *)
  json_value : any → string;                    (** [json.Marshal] of a decoded value *)
  Quote : string → string;                      (** [%q] *)
  ParseInt : string → option Z                  (** a literal as an [int] *)
}.

Class LlmServer : Type := {
  (** the transport's error, or the status and the body or the error of reading it *)
  http_Post : nat → string → string + Z * (string + string)
}.

(** ** Responses *)

Record content_block : Type := mkBlock { cb_Type : string; cb_Text : string; cb_Input : option any }.

Record anthropicResponse : Type := mkAnthropicResponse {
  ar_Content : list content_block;
  ar_InputTokens : Z;
  ar_OutputTokens : Z;
  ar_Error : option string }.

(** [extractJSON]: the scan from the first brace, returning the length of the object. *)
Fixpoint balance (depth : nat) (inStr escaped : bool) (s : string) : option nat :=
  match s with
  | "" => None
  | String c s =>
    S <$>
    if inStr then
      if escaped then balance depth true false s
      else if bool_decide (c = "\"%char) then balance depth true true s
      else balance depth (negb (bool_decide (c = "034"%char))) false s
    else if bool_decide (c = "034"%char) then balance depth true false s
    else if bool_decide (c = "{"%char) then balance (S depth) false false s
    else if bool_decide (c = "}"%char) then
      match depth with
      | S (S depth) => balance (S depth) false false s
      | S O => Some O
      | O => balance O false false s
      end
    else balance depth false false s
  end.

Definition extractJSON (s : string) : string :=
  match IndexByte s "{" with
  | None => s
  | Some start =>
    match balance 0 false false (sdrop start s) with
    | Some n => stake n (sdrop start s)
    | None => s
    end
  end.

Definition clampConfidence (c : float64) : float64 :=
  if IsNaN c || IsInf c then f64_zero
  else if f64_lt c f64_zero then f64_zero
  else if f64_lt (f64_of_Z 1) c then f64_of_Z 1
  else c.

Definition truncate (s : string) (n : nat) : string :=
  if Nat.leb (String.length s) n then s else TruncateBytes s n +:+ "...[truncated]".

Section decode.
Context {L : GoLib} {J : JsonLib}.

(** The values of the members a struct field takes, in order. *)
Definition members (name : string) (ms : list (string * json)) : list json :=
  map snd (List.filter (λ m, EqualFold m.1 name) ms).

(** A field after its members, and whether one had the wrong type; null is skipped. *)
Definition field_string (name : string) (ms : list (string * json)) : string * bool :=
  foldl (λ acc v, match v with JStr s => (s, acc.2) | JNull => acc | _ => (acc.1, true) end)
    ("", false) (members name ms).
Definition field_float (name : string) (ms : list (string * json)) : float64 * bool :=
  foldl (λ acc v, match v with
                  | JNum lit => match ParseFloat lit with Some f => (f, acc.2) | None => (acc.1, true) end
                  | JNull => acc
                  | _ => (acc.1, true) end) (f64_zero, false) (members name ms).
Definition field_int (name : string) (ms : list (string * json)) : Z * bool :=
  foldl (λ acc v, match v with
                  | JNum lit => match ParseInt lit with Some n => (n, acc.2) | None => (acc.1, true) end
                  | JNull => acc
                  | _ => (acc.1, true) end) (0, false) (members name ms).

(** A value decoded into an [any]; a number out of range is an error. *)
Fixpoint to_any (v : json) : option any :=
  match v with
  | JNull => Some ANil
  | JBool b => Some (ABool b)
  | JNum lit => AFloat64 <$> ParseFloat lit
  | JStr s => Some (AString s)
  | JArr l => AList <$> mapM to_any l
  | JObj ms => AMap <$> mapM (λ m, pair m.1 <$> to_any m.2) ms
  end.
Definition field_any (name : string) (ms : list (string * json)) : any * bool :=
  foldl (λ acc v, match to_any v with Some a => (a, acc.2) | None => (acc.1, true) end)
    (ANil, false) (members name ms).

(** The members of an object; null is an empty one, anything else is an error. *)
Definition object (v : json) : list (string * json) * bool :=
  match v with JObj ms => (ms, false) | JNull => ([], false) | _ => ([], true) end.

Definition decode_block (v : json) : content_block * bool :=
  let '(ms, e0) := object v in
  let '(type, e1) := field_string "type" ms in
  let '(text, e2) := field_string "text" ms in
  let '(input, e3) := foldl (λ acc v, match v with
      | JObj _ => match to_any v with Some a => (Some a, acc.2) | None => (acc.1, true) end
      | JNull => (None, acc.2)
      | _ => (acc.1, true) end) (None, false) (members "input" ms) in
  (mkBlock type text input, e0 || e1 || e2 || e3).

Definition decode_content (v : json) : list content_block * bool :=
  match v with
  | JArr l => (map (fst ∘ decode_block) l, existsb (snd ∘ decode_block) l)
  | JNull => ([], false)
  | _ => ([], true)
  end.

(** The members an object field takes, merged. *)
Definition field_object (name : string) (ms : list (string * json)) : list (string * json) * bool :=
  foldl (λ acc v, (acc.1 ++ (object v).1, acc.2 || (object v).2)) ([], false) (members name ms).

(** [json.Unmarshal] into an [anthropicResponse]. *)
Definition decode_response (body : string) : option anthropicResponse :=
  match json_parse body with
  | None => None
  | Some v =>
    let '(ms, e0) := object v in
    let '(content, e1) := foldl (λ acc v, ((decode_content v).1, acc.2 || (decode_content v).2))
                            ([], false) (members "content" ms) in
    let '(usage, e2) := field_object "usage" ms in
    let '(inTok, e3) := field_int "input_tokens" usage in
    let '(outTok, e4) := field_int "output_tokens" usage in
    let '(err, e5) := foldl (λ acc v, match v with
        | JNull => (None, acc.2)
        | _ => let '(ms, e) := object v in
               let '(t, et) := field_string "type" ms in
               let '(m, em) := field_string "message" ms in
               (Some m, acc.2 || e || et || em) end) (None, false) (members "error" ms) in
    if e0 || e1 || e2 || e3 || e4 || e5 then None else Some (mkAnthropicResponse content inTok outTok err)
  end.

(** [classifyHTTPStatus]: the error of a status, if any. *)
Definition classifyHTTPStatus (code : Z) (respBody : string) : option error :=
  if 500 <=? code then Some (ErrNew ("anthropic: server error " +:+ fmt_d code))
  else if code =? 429 then Some (ErrNew ("anthropic: rate limited " +:+ fmt_d code))
  else if 400 <=? code then
    let msg := match decode_response respBody with
               | Some r => default "" r.(ar_Error)
               | None => ""
               end in
    Some (MarkPermanent (ErrNew ("anthropic: client error " +:+ fmt_d code +:+ ": " +:+ msg)))
  else None.

(** The first tool input re-encoded, else the texts concatenated. *)
Definition extractResponseText (parsed : anthropicResponse) : string :=
  match List.find (λ b, bool_decide (b.(cb_Type) = "tool_use") &&
                        match b.(cb_Input) with Some _ => true | None => false end) parsed.(ar_Content) with
  | Some b => json_value (default ANil b.(cb_Input))
  | None => foldr (λ b k, b.(cb_Text) +:+ k) ""
              (List.filter (λ b, bool_decide (b.(cb_Type) = "text")) parsed.(ar_Content))
  end.

Definition decodeIdentity (body : string) (usage : Usage) : IdentityResponse :=
  let empty := mkIdentityResponse "" "" usage in
  if bool_decide (TrimSpace body = "") then empty
  else match json_parse body with
  | None => empty
  | Some v =>
    let '(ms, e0) := object v in
    let '(insured, e1) := field_string "named_insured" ms in
    let '(date, e2) := field_string "effective_date" ms in
    if e0 || e1 || e2 then empty else mkIdentityResponse (TrimSpace insured) (TrimSpace date) usage
  end.

Definition decodeFieldExtraction (body fieldType : string) (usage : Usage) : FieldExtractionResponse :=
  let empty := mkFieldExtractionResponse ANil f64_zero "" usage in
  if bool_decide (TrimSpace body = "") then empty
  else match json_parse body with
  | None => empty
  | Some v =>
    let '(ms, e0) := object v in
    let '(value, e1) := field_any "value" ms in
    let '(confidence, e2) := field_float "confidence" ms in
    let '(reason, e3) := field_string "reason" ms in
    if e0 || e1 || e2 || e3 then empty
    else
      let value := match value with
                   | AString s =>
                     if bool_decide (fieldType = "number") then
                       match ParseFloat (TrimSpace s) with Some f => AFloat64 f | None => ANil end
                     else value
                   | _ => value
                   end in
      mkFieldExtractionResponse value (clampConfidence confidence) reason usage
  end.

(** [json.Unmarshal] of the classification, as far as it got, and its error. *)
Definition decode_classification (text : string) : string * float64 * string * option error :=
  match json_parse text with
  | None => ("", f64_zero, "", Some (ErrNew "invalid JSON"))
  | Some v =>
    let '(ms, e0) := object v in
    let '(id, e1) := field_string "candidate_id" ms in
    let '(confidence, e2) := field_float "confidence" ms in
    let '(reason, e3) := field_string "reason" ms in
    (id, confidence, reason, if e0 || e1 || e2 || e3 then Some (ErrNew "wrong type") else None)
  end.
End decode.

(** ** The client *)

Record AnthropicClient : Type := mkAnthropicClient {
  ac_cfg : AnthropicConfig;
  ac_spend : bool;              (** a spend tracker is set *)
  ac_retryAttempts : Z;
  ac_retryBase : duration }.

(** Spend is tracked when a tracker is given. *)
Definition NewAnthropicClient (cfg : AnthropicConfig) (spend : bool) (retryAttempts : Z) (retryBase : duration)
  : AnthropicClient := mkAnthropicClient cfg spend retryAttempts retryBase.

Section client.
Context {L : GoLib} {J : JsonLib} {E : Env} {N : NetEnv} {Srv : LlmServer} (c : AnthropicClient).

Definition post (payload : string) : M (string + Z * (string + string)) := λ w,
  (Ok (http_Post w.(w_tick) payload),
   w_next (w_with_net (mkNet w.(w_net).(ns_smtp) (w.(w_net).(ns_posts) ++ [payload]) w.(w_net).(ns_sleeps)) w)).

(** One attempt: the text and the tokens of the answer.  Re-encoding a decoded tool
    input cannot fail, so the attempt that read the tokens is the one that returns. *)
Definition call_once (payload : string) : M (string * Z * Z) :=
  r ← post payload;
  match r with
  | inl e | inr (_, inl e) => throw (ErrNew e)
  | inr (code, inr body) =>
    match classifyHTTPStatus code body with
    | Some e => throw e
    | None =>
      match decode_response body with
      | None => throw (ErrWrap "anthropic: decode" (ErrNew "json"))
      | Some parsed => mret (extractResponseText parsed, parsed.(ar_InputTokens), parsed.(ar_OutputTokens))
      end
    end
  end.

(** [c.cfg.DailyCapUSD > 0 && c.spend != nil], and today's spend is at it; a spend that
    cannot be read does not stop the call. *)
Definition capped : M bool :=
  if f64_lt f64_zero c.(ac_cfg).(llm_DailyCapUSD) && c.(ac_spend) then
    r ← attempt Today;
    mret (match (r : result float64) with
          | Ok total => f64_le c.(ac_cfg).(llm_DailyCapUSD) total
          | Err _ => false
          end)
  else mret false.

Definition estimated_cost (inTok outTok : Z) : float64 :=
  match price_of c.(ac_cfg).(llm_Model) with
  | Some p => f64_div (f64_add (f64_mul (f64_of_Z inTok) p.(pr_input)) (f64_mul (f64_of_Z outTok) p.(pr_output)))
                (f64_of_Z 1000000)
  | None => f64_zero
  end.

Definition usage_of (hash : string) (latency inTok outTok : Z) : Usage :=
  mkUsage hash latency inTok outTok (estimated_cost inTok outTok) c.(ac_cfg).(llm_Model).

Definition callMessages (body : anthropicRequest) (promptForHash : string)
  : M (string * Usage * option error) :=
  let usage0 := mkUsage "" 0 0 0 f64_zero c.(ac_cfg).(llm_Model) in
  if bool_decide (c.(ac_cfg).(llm_APIKey) = "")
  then mret ("", usage0, Some (ErrNew "anthropic: api key not configured"))
  else
    stop ← capped;
    if (stop : bool) then mret ("", usage0, Some (ErrSentinel ErrSpendCapReached))
    else
      let hash := sha256_hex promptForHash in
      start ← time_Now;
      r ← attempt (Do c.(ac_retryAttempts) c.(ac_retryBase) (call_once (json_request body)));
      stop ← time_Now;
      let latency := Z.quot (Sub stop start) Millisecond in
      match (r : result (string * Z * Z)) with
      | Err e => mret ("", usage_of hash latency 0 0, Some e)
      | Ok (text, inTok, outTok) =>
        let usage := usage_of hash latency inTok outTok in
        (if c.(ac_spend) && f64_lt f64_zero usage.(us_EstimatedCostUSD)
         then log_err (Spend_Add usage.(us_EstimatedCostUSD)) else mret ()) ≫= λ _,
        mret (text, usage, None)
      end.

Definition nl : string := String "010" "".

Definition classify_prompt (req : ClassificationRequest) : string :=
  "You classify insurance submission documents. Choose the candidate that best matches the document." +:+ nl +:+
  "Policy type: " +:+ req.(cq_PolicyType) +:+ nl +:+ "Filename: " +:+ req.(cq_Filename) +:+ nl +:+
  "Content type: " +:+ req.(cq_ContentType) +:+ nl +:+ "Text sample:" +:+ nl +:+
  truncate req.(cq_TextSample) maxTextSampleBytes +:+ nl +:+ nl +:+ "Candidates:" +:+ nl +:+
  Join (map (λ cand, "- " +:+ cand.(cc_ID) +:+ ": " +:+ cand.(cc_Description)) req.(cq_Candidates)) nl +:+ nl +:+ nl +:+
  let q := String "034" "" in
  "Return JSON: {" +:+ q +:+ "candidate_id" +:+ q +:+ ":" +:+ q +:+ "..." +:+ q +:+ "," +:+ q +:+ "confidence" +:+ q +:+
  ":0.0-1.0," +:+ q +:+ "reason" +:+ q +:+ ":" +:+ q +:+ "..." +:+ q +:+ "}. If none fit, set candidate_id to " +:+
  q +:+ "unknown" +:+ q +:+ ".".

Definition zero_usage : Usage := mkUsage "" 0 0 0 f64_zero "".

Definition user_message (prompt : string) : list anthropicMessage := [mkAnthropicMessage "user" prompt].

Definition anthropic_Classify (req : ClassificationRequest) : M (ClassificationResponse * option error) :=
  if bool_decide (length req.(cq_Candidates) = 0%nat)
  then mret (mkClassificationResponse "" f64_zero "" zero_usage, Some (ErrNew "anthropic: no candidates"))
  else
    let prompt := classify_prompt req in
    '(raw, usage, err) ← callMessages
      (mkAnthropicRequest c.(ac_cfg).(llm_Model) c.(ac_cfg).(llm_MaxTokens) (user_message prompt)
         "Respond with JSON only, no prose, no code fences." [] None) prompt;
    match err with
    | Some e => mret (mkClassificationResponse "" f64_zero "" usage, Some e)
    | None =>
      let '(id, confidence, reason, e) := decode_classification (extractJSON raw) in
      match e with
      | Some e => mret (mkClassificationResponse id confidence reason usage,
                        Some (ErrWrap "anthropic: parse classify response" e))
      | None => mret (mkClassificationResponse id (clampConfidence confidence) reason usage, None)
      end
    end.

Definition field_schema (fieldType : string) : any :=
  AMap [("type", AString "object");
        ("properties", AMap [("value", AMap [("type", AList [AString fieldType; AString "null"])]);
                             ("confidence", AMap [("type", AString "number")]);
                             ("reason", AMap [("type", AString "string")])]);
        ("required", AList [AString "value"])].

Definition buildFieldExtractionPrompt (req : FieldExtractionRequest) (fieldType : string) : string * anthropicTool :=
  ("Extract the field " +:+ Quote req.(fq_FieldName) +:+ " (" +:+ fieldType +:+ ") from the following document." +:+ nl +:+
   "Description: " +:+ req.(fq_FieldDescription) +:+ nl +:+ "Filename: " +:+ req.(fq_Filename) +:+ nl +:+
   "Text sample:" +:+ nl +:+ truncate req.(fq_TextSample) maxTextSampleBytes +:+ nl +:+ nl +:+
   "Call the report_field tool with the value. If the field is not present, call the tool with a null value.",
   mkAnthropicTool "report_field" "Report the extracted field value from the document." (field_schema fieldType)).

Definition anthropic_ExtractField (req : FieldExtractionRequest) : M (FieldExtractionResponse * option error) :=
  if bool_decide (req.(fq_FieldName) = "")
  then mret (mkFieldExtractionResponse ANil f64_zero "" zero_usage, Some (ErrNew "anthropic: field name required"))
  else
    let t := ToLower req.(fq_FieldType) in
    let fieldType := if bool_decide (t = "number") || bool_decide (t = "string") then t else "string" in
    let '(prompt, tool) := buildFieldExtractionPrompt req fieldType in
    '(body, usage, err) ← callMessages
      (mkAnthropicRequest c.(ac_cfg).(llm_Model) c.(ac_cfg).(llm_MaxTokens) (user_message prompt)
         "You extract structured fields from insurance documents. Use the report_field tool." [tool]
         (Some "report_field")) prompt;
    match err with
    | Some e => mret (mkFieldExtractionResponse ANil f64_zero "" usage, Some e)
    | None => mret (decodeFieldExtraction body fieldType usage, None)
    end.

Definition identity_prompt (req : IdentityRequest) : string :=
  "From this insurance application, extract the named insured (the business or person the policy covers) and the policy effective date." +:+
  nl +:+ "Filename: " +:+ req.(iq_Filename) +:+ nl +:+ "Text sample:" +:+ nl +:+
  truncate req.(iq_TextSample) maxTextSampleBytes +:+ nl +:+ nl +:+
  "Call the report_identity tool. Leave a field empty if it is not present; give the effective date as written on the document. Do not guess.".

Definition identity_tool : anthropicTool :=
  mkAnthropicTool "report_identity" "Report the named insured and effective date from the application."
    (AMap [("type", AString "object");
           ("properties", AMap [("named_insured", AMap [("type", AString "string")]);
                                ("effective_date", AMap [("type", AString "string")])]);
           ("required", AList [AString "named_insured"])]).

Definition anthropic_ExtractIdentity (req : IdentityRequest) : M (IdentityResponse * option error) :=
  let prompt := identity_prompt req in
  '(body, usage, err) ← callMessages
    (mkAnthropicRequest c.(ac_cfg).(llm_Model) c.(ac_cfg).(llm_MaxTokens) (user_message prompt)
       "You extract the account identity from insurance applications. Use the report_identity tool."
       [identity_tool] (Some "report_identity")) prompt;
  match err with
  | Some e => mret (mkIdentityResponse "" "" usage, Some e)
  | None => mret (decodeIdentity body usage, None)
  end.

(** ** The client keeps the interface's law *)

(** Reading and the clock. *)
Lemma llm_next w : Llm w (w_next w).
Proof. exists (db_spend (w_db w)), 1%nat, (w_net w). by destruct w as [[]]. Qed.

Lemma frame_time_Now : llm_frame time_Now.
Proof. apply llm_frame_run. intros w. apply llm_next. Qed.

Lemma frame_check_ctx : llm_frame check_ctx.
Proof. apply llm_frame_run. intros w. unfold check_ctx. destruct (env_cancelled _); apply Llm_refl. Qed.

Lemma frame_Today : llm_frame Today.
Proof.
  intros w0. unfold Today. apply preserves_bind; [apply frame_time_Now|]. intros now.
  apply preserves_bind; [|intros; apply preserves_ret]. apply preserves_wrap_err, llm_frame_run. intros w.
  unfold query, stmt. destruct (env_fault _); [apply llm_next|].
  exists (db_spend (w_db w)), 1%nat, (w_net w). by destruct w as [[]].
Qed.

Lemma frame_Spend_Add usd : llm_frame (Spend_Add usd).
Proof.
  intros w0. unfold Spend_Add. apply preserves_bind; [apply frame_time_Now|]. intros now.
  apply preserves_wrap_err, llm_frame_run. intros w. unfold exec, stmt.
  destruct (env_fault _); [apply llm_next|]. by eexists _, 1%nat, (w_net w).
Qed.

Lemma frame_post payload : llm_frame (post payload).
Proof.
  apply llm_frame_run. intros w. exists (db_spend (w_db w)), 1%nat, (w_net (post payload w).2).
  by destruct w as [[]].
Qed.

Lemma frame_jitter d : llm_frame (jitter d).
Proof.
  apply llm_frame_run. intros w. unfold jitter. destruct (_ <=? _); [apply Llm_refl|apply llm_next].
Qed.

Lemma frame_pause d : llm_frame (pause d).
Proof.
  intros w0. unfold pause. apply preserves_bind; [|intros; apply frame_check_ctx].
  apply llm_frame_run. intros w. exists (db_spend (w_db w)), 1%nat, (w_net (slept d w)). by destruct w as [[]].
Qed.

Lemma frame_at {A} (m : M A) w0 : llm_frame m → preserves (Llm w0) m.
Proof. auto. Qed.

#[local] Hint Resolve frame_at frame_time_Now frame_check_ctx frame_Today frame_Spend_Add frame_post frame_jitter
  frame_pause : triage.

Lemma frame_Do {A} n d (fn : M A) : llm_frame fn → llm_frame (Do n d fn).
Proof.
  intros Hf w0. specialize (Hf w0). unfold Do. generalize (Z.to_nat ((if n <=? 0 then 1 else n) - 1)) as k.
  intros k. generalize (if d <=? 0 then 100 * Millisecond else d) as delay.
  induction k as [|k IH]; intros delay; cbn [retry_loop]; walk.
Qed.

Lemma frame_callMessages body prompt : llm_frame (callMessages body prompt).
Proof.
  intros w0. assert (∀ p, llm_frame (call_once p)) as Hc by (intros p w1; unfold call_once; walk).
  assert (preserves (Llm w0) (Do c.(ac_retryAttempts) c.(ac_retryBase) (call_once (json_request body))))
    by (by apply frame_Do). unfold callMessages, capped. walk.
Qed.
#[local] Hint Resolve frame_callMessages : triage.

Lemma anthropic_Classify_frame req : llm_frame (anthropic_Classify req).
Proof. intros w0. unfold anthropic_Classify. walk. Qed.

Lemma anthropic_ExtractField_frame req : llm_frame (anthropic_ExtractField req).
Proof. intros w0. unfold anthropic_ExtractField. walk. Qed.

Lemma anthropic_ExtractIdentity_frame req : llm_frame (anthropic_ExtractIdentity req).
Proof. intros w0. unfold anthropic_ExtractIdentity. walk. Qed.

(** The [AnthropicClient] as the service's [llm.Client]. *)
Definition anthropic_client : Client :=
  mkClient anthropic_Classify anthropic_ExtractField anthropic_ExtractIdentity
    anthropic_Classify_frame anthropic_ExtractField_frame anthropic_ExtractIdentity_frame.
End client.
