(* ===== verification/LlmProps.v ===== *)
(** What the LLM client guarantees: the daily budget stops calls and the classifier then
    works without the model, a call posts its one payload a bounded number of times,
    the spend recorded is the cost reported, and the parser finds the JSON object in
    whatever prose surrounds it. *)
From Stdlib Require Import ZArith SpecFloat Ascii.
From stdpp Require Import base list strings gmap.
From S2P Require Import Prelude GoStrings GoValues Submission Checklist TextUtil Classifier Tables World Repository OutboxRepo RepositoryProps Config Retry Smtp Translate MailProps Llm.

Open Scope Z_scope.

(** ** The object in the prose *)

Definition quote : ascii := "034".
Definition backslash : ascii := "\".

(** The inside of a string literal: escapes, and characters that end or escape nothing. *)
Inductive literal : string → Prop :=
| literal_nil : literal ""
| literal_char c s : c ≠ quote → c ≠ backslash → literal s → literal (String c s)
| literal_escape c s : literal s → literal (String backslash (String c s)).

(** A text whose braces match outside its string literals. *)
Inductive balanced : string → Prop :=
| balanced_nil : balanced ""
| balanced_char c s : c ≠ quote → c ≠ "{"%char → c ≠ "}"%char → balanced s → balanced (String c s)
| balanced_literal b s : literal b → balanced s → balanced (String quote (b +:+ String quote s))
| balanced_object b s : balanced b → balanced s → balanced (String "{" (b +:+ String "}" s)).

(** Lengths counted along the scan. *)
Ltac counts := cbn [String.length]; rewrite ?string_app_length; cbn [String.length];
  match goal with |- context [balance ?d ?i ?e ?s] => destruct (balance d i e s) end; cbn; [f_equal; lia|done].

Lemma balance_literal b d s :
  literal b → balance d true false (b +:+ String quote s) = Nat.add (S (String.length b)) <$> balance d false false s.
Proof.
  induction 1 as [|c b Hq Hb _ IH|c b _ IH]; rewrite ?app_String, ?app_empty.
  - cbn [balance]. rewrite bool_decide_false, bool_decide_true by done. cbn [negb]. counts.
  - cbn [balance]. rewrite !bool_decide_false by done. cbn [negb]. rewrite IH. counts.
  - cbn [balance]. rewrite bool_decide_true by done. rewrite IH. counts.
Qed.

Lemma balance_balanced b d s :
  balanced b → balance (S d) false false (b +:+ s) = Nat.add (String.length b) <$> balance (S d) false false s.
Proof.
  intros Hb. revert d s. induction Hb as [|c b Hq Ho Hc _ IH|b t Hl _ IH|b t _ IHb _ IHt]; intros d s.
  - change ("" +:+ s) with s. counts.
  - rewrite app_String. cbn [balance]. rewrite !bool_decide_false by done. rewrite IH. counts.
  - rewrite app_String, string_app_assoc, app_String. cbn [balance]. rewrite bool_decide_true by done.
    rewrite balance_literal, IH by done. counts.
  - rewrite app_String, string_app_assoc, app_String. cbn [balance]. rewrite bool_decide_false by done.
    rewrite bool_decide_true by done. rewrite IHb. cbn [balance]. rewrite !bool_decide_false by done.
    rewrite bool_decide_true by done. rewrite IHt. counts.
Qed.

(** The client finds the object the model answers with: after any prose without a
    brace, the first brace opens the object that is returned, to its matching brace,
    whatever braces and quotes its strings hold and whatever text follows. *)
Theorem extractJSON_object pre b post :
  byte_free "{" pre → balanced b →
  extractJSON (pre +:+ (String "{" (b +:+ String "}" post))) = String "{" (b +:+ "}").
Proof.
  intros Hpre Hb. unfold extractJSON. rewrite IndexByte_app by done. rewrite sdrop_app.
  cbn [balance]. rewrite bool_decide_false, bool_decide_true by done. rewrite (balance_balanced b 0) by done.
  cbn [balance]. rewrite !bool_decide_false, bool_decide_true by done. cbn [fmap option_fmap option_map].
  replace (String "{" (b +:+ String "}" post)) with (String "{" (b +:+ "}") +:+ post)
    by (by rewrite app_String, string_app_assoc).
  replace (S (String.length b + 1)) with (String.length (String "{" (b +:+ "}")))
    by (cbn [String.length]; rewrite string_app_length; cbn; lia).
  apply stake_append.
Qed.

Lemma extractJSON_object_witness :
  extractJSON ("ok " +:+ String "{" ((String quote ("k}" +:+ String quote ": {}")) +:+ String "}" " done")) =
    String "{" (String quote ("k}" +:+ String quote ": {}") +:+ "}").
Proof.
  apply (extractJSON_object "ok " (String quote ("k}" +:+ String quote ": {}")) " done").
  - apply (bool_decide_unpack (_ ∉ _)). reflexivity.
  - apply balanced_literal; [repeat (constructor; [done|done|]); constructor|].
    do 2 (constructor; [done|done|done|]). apply (balanced_object "" ""); constructor.
Defined.

(** ** Confidence *)

Lemma SFcompare_antisym_pos m1 e1 m2 e2 :
  SFcompare (S754_finite false m1 e1) (S754_finite false m2 e2) =
  CompOpp <$> SFcompare (S754_finite false m2 e2) (S754_finite false m1 e1).
Proof.
  cbn. rewrite (Z.compare_antisym e1 e2). destruct (e1 ?= e2)%Z; cbn; try done.
  f_equal. symmetry. apply (Pos.compare_cont_antisym m2 m1 Eq).
Qed.

Lemma clampConfidence_range f :
  f64_le f64_zero (clampConfidence f) = true ∧ f64_le (clampConfidence f) (f64_of_Z 1) = true.
Proof.
  unfold clampConfidence. destruct (IsNaN f || IsInf f) eqn:E0; [done|].
  destruct (f64_lt f f64_zero) eqn:E1; [done|]. destruct (f64_lt (f64_of_Z 1) f) eqn:E2; [done|].
  destruct f as [sg| | |sg m e]; try done. destruct sg; [done|]. split; [done|].
  revert E2. change (f64_of_Z 1) with (S754_finite false 4503599627370496 (-52)).
  generalize 4503599627370496%positive, (-52). clear. intros m1 e1. unfold f64_le, f64_lt, SFleb, SFltb.
  rewrite SFcompare_antisym_pos. cbn. destruct (e ?= e1)%Z; cbn; try done. by destruct (Pos.compare_cont _ _ _).
Qed.

(** ** Calls *)

Definition posts (w : World) : list string := w.(w_net).(ns_posts).

Section calls.
Context {L : GoLib} {J : JsonLib} {E : Env} {N : NetEnv} {Srv : LlmServer} (c : AnthropicClient).

(** What a run leaves alone, but for [n] posts of [payload]. *)
Definition posted (payload : string) (n : nat) (w w' : World) : Prop :=
  posts w' = posts w ++ replicate n payload ∧ w_db w' = w_db w.

Lemma posted_refl payload w : posted payload 0 w w.
Proof. split; [by rewrite app_nil_r|done]. Qed.

Lemma posted_trans payload n k w1 w2 w3 :
  posted payload n w1 w2 → posted payload k w2 w3 → posted payload (n + k) w1 w3.
Proof. intros [H1 D1] [H2 D2]. split; [by rewrite H2, H1, replicate_add, app_assoc|congruence]. Qed.

Lemma call_once_posted payload w : posted payload 1 w (call_once payload w).2.
Proof.
  unfold call_once, mbind, M_bind, post. destruct (http_Post _ _) as [e|[code [e|body]]]; [by split..|].
  destruct (classifyHTTPStatus code body); [by split|]. destruct (decode_response body); by split.
Qed.

Lemma paused_posted payload w w' : paused w w' → posted payload 0 w w'.
Proof. intros (d & _ & [->| ->]); split; cbn; by rewrite ?app_nil_r. Qed.

Lemma tried_posted payload k w w' : tried (call_once payload) k w w' → posted payload k w w'.
Proof.
  induction 1 as [|k w w1 w2 w3 e Hf _ Hp _ _ IH]; [apply posted_refl|].
  pose proof (call_once_posted payload w) as H1. rewrite Hf in H1. cbn in H1.
  apply (posted_trans payload 1 k w w2); [|done].
  apply (posted_trans payload 1 0 w w1); [done|by apply paused_posted].
Qed.

Lemma Do_posted payload w :
  ∃ n, Z.of_nat n ≤ attempts_of c.(ac_retryAttempts) ∧
    posted payload n w (Do c.(ac_retryAttempts) c.(ac_retryBase) (call_once payload) w).2 ∧
    (is_ok (Do c.(ac_retryAttempts) c.(ac_retryBase) (call_once payload) w).1 = true → (1 ≤ n)%nat).
Proof.
  destruct (Do_runs c.(ac_retryAttempts) c.(ac_retryBase) (call_once payload) w)
    as (k & w1 & r & w' & -> & Hk & Htr & Hl). cbn.
  apply tried_posted in Htr. pose proof (call_once_posted payload w1) as H1.
  assert (posted payload 1 w1 w' ∨ w' = w1 ∧ is_ok r = false) as [H|[-> Hr]].
  { destruct Hl; [by right|left; by rewrite H in H1..]. }
  - exists (Z.to_nat k + 1)%nat. split_and!; [lia|by eapply posted_trans|lia].
  - exists (Z.to_nat k). split_and!; [lia|done|by rewrite Hr].
Qed.

Lemma Today_run w :
  ∃ r w', attempt Today w = (Ok r, w') ∧ posts w' = posts w ∧ w_db w' = w_db w ∧
    (env_fault (S (w_tick w)) = None →
     r = Ok (default f64_zero ((w_db w).(db_spend) !! utc_day (env_now (w_tick w))))).
Proof.
  unfold attempt, Today, mbind, M_bind, time_Now, wrap_err, query, stmt. cbn.
  destruct (env_fault _) eqn:Ef; eexists _, _; split_and!; try reflexivity; try done.
Qed.

Lemma capped_run w :
  ∃ b w', capped c w = (Ok b, w') ∧ posts w' = posts w ∧ w_db w' = w_db w.
Proof.
  unfold capped. destruct (_ && _); [|by eexists _, _].
  destruct (Today_run w) as (r & w' & Hr & Hp & Hd & _). rewrite (bind_ok _ _ _ _ _ Hr). by eexists _, _.
Qed.

Lemma capped_true w total :
  f64_lt f64_zero c.(ac_cfg).(llm_DailyCapUSD) = true → c.(ac_spend) = true →
  env_fault (S (w_tick w)) = None → (w_db w).(db_spend) !! utc_day (env_now (w_tick w)) = Some total →
  f64_le c.(ac_cfg).(llm_DailyCapUSD) total = true →
  ∃ w', capped c w = (Ok true, w') ∧ posts w' = posts w ∧ w_db w' = w_db w.
Proof.
  intros Hcap Hsp Hf Hday Hle. unfold capped. rewrite Hcap, Hsp. cbn [andb].
  destruct (Today_run w) as (r & w' & Hr & Hp & Hd & Hv). rewrite (bind_ok _ _ _ _ _ Hr), Hv by done.
  rewrite Hday. cbn. rewrite Hle. by eexists.
Qed.

(** The effect of recording a cost, if the statement runs. *)
Definition spend_added (usd : float64) (d d' : DB) : Prop :=
  ∃ day, d' = db_with_spend (<[ day := match d.(db_spend) !! day with
                                       | Some old => f64_add old usd | None => usd end ]> d.(db_spend)) d.

Lemma Spend_Add_run usd w :
  ∃ w', log_err (Spend_Add usd) w = (Ok (), w') ∧ posts w' = posts w ∧
        (w_db w' = w_db w ∨ spend_added usd (w_db w) (w_db w')).
Proof.
  unfold log_err, attempt, Spend_Add, mbind, M_bind, time_Now, wrap_err, exec, stmt. cbn.
  destruct (env_fault _); eexists; (split; [reflexivity|]); (split; [done|]); [by left|right]. by eexists.
Qed.

Lemma attempt_Do payload w :
  (∀ n e, env_cancelled n = Some e → match e with ErrPanic _ => False | _ => True end) →
  attempt (Do c.(ac_retryAttempts) c.(ac_retryBase) (call_once payload)) w =
  (Ok (Do c.(ac_retryAttempts) c.(ac_retryBase) (call_once payload) w).1,
   (Do c.(ac_retryAttempts) c.(ac_retryBase) (call_once payload) w).2).
Proof.
  intros Hctx. unfold attempt.
  destruct (Do_runs c.(ac_retryAttempts) c.(ac_retryBase) (call_once payload) w)
    as (k & w1 & r & w' & -> & _ & _ & Hl). cbn.
  assert (match r with Err (ErrPanic _) => False | _ => True end) as Hr.
  { destruct Hl as [e He|a ? _|e ? _ _|p ? Hf|e ? _ _ _]; try done.
    - specialize (Hctx _ _ He). by destruct e.
    - exfalso. revert Hf. unfold call_once, mbind, M_bind, post.
      destruct (http_Post _ _) as [?|[code [?|body]]]; [done..|]. unfold classifyHTTPStatus.
      destruct (500 <=? code); [done|]. destruct (code =? 429); [done|]. destruct (400 <=? code); [done|].
      by destruct (decode_response body). }
  by destruct r as [|[]].
Qed.

(** C32: a call to the model always returns; it posts its one payload at most as often as
    attempts are allowed, at least once if it succeeds; it changes nothing in the
    database but for adding its estimated cost to a day's spend, which only a
    successful call with a price and a spend tracker does. *)
Theorem callMessages_accounts body prompt w :
  (∀ n e, env_cancelled n = Some e → match e with ErrPanic _ => False | _ => True end) →
  ∃ text usage err w' n, callMessages c body prompt w = (Ok (text, usage, err), w') ∧
    posts w' = posts w ++ replicate n (json_request body) ∧ Z.of_nat n ≤ attempts_of c.(ac_retryAttempts) ∧
    (err = None → (1 ≤ n)%nat) ∧
    (w_db w' = w_db w ∨
     err = None ∧ c.(ac_spend) = true ∧ f64_lt f64_zero usage.(us_EstimatedCostUSD) = true ∧
     usage.(us_EstimatedCostUSD) = estimated_cost c usage.(us_InputTokens) usage.(us_OutputTokens) ∧
     spend_added usage.(us_EstimatedCostUSD) (w_db w) (w_db w')).
Proof.
  intros Hctx. assert (0 ≤ attempts_of c.(ac_retryAttempts)) by (unfold attempts_of; destruct (_ <=? 0) eqn:E0; lia).
  unfold callMessages. case_bool_decide.
  { eexists _, _, _, w, 0%nat. split_and!; [reflexivity|by rewrite app_nil_r|lia|done|by left]. }
  destruct (capped_run w) as (b & w1 & Hc & Hp1 & Hd1). rewrite (bind_ok _ _ _ _ _ Hc). destruct b.
  { eexists _, _, _, w1, 0%nat. split_and!; [reflexivity|by rewrite app_nil_r|lia|done|by left]. }
  rewrite (bind_ok time_Now _ _ _ _ eq_refl). set (payload := json_request body).
  rewrite (bind_ok _ _ _ _ _ (attempt_Do payload _ Hctx)).
  destruct (Do_posted payload (w_next w1)) as (n & Hn & [Hp2 Hd2] & Hok).
  destruct (Do _ _ _ (w_next w1)) as [r w2]. cbn [fst snd] in *. rewrite (bind_ok time_Now _ _ _ _ eq_refl).
  change (posts (w_next w1)) with (posts w1) in Hp2. change (w_db (w_next w1)) with (w_db w1) in Hd2.
  rewrite Hp1 in Hp2. rewrite Hd1 in Hd2. destruct r as [[[text inTok] outTok]|e].
  - destruct (c.(ac_spend) && _) eqn:Esp.
    + apply andb_true_iff in Esp as [Hsp Hcost].
      destruct (Spend_Add_run (us_EstimatedCostUSD (usage_of c (sha256_hex prompt)
        (Z.quot (Sub (env_now (w_tick w2)) (env_now (w_tick w1))) Millisecond) inTok outTok)) (w_next w2)) as (w3 & Hadd & Hp3 & Hd3).
      rewrite (bind_ok _ _ _ _ _ Hadd). eexists _, _, _, w3, n.
      split_and!; [reflexivity|by rewrite Hp3|done|by intros _; apply Hok|].
      change (w_db (w_next w2)) with (w_db w2) in Hd3. rewrite Hd2 in Hd3.
      destruct Hd3 as [?|Hd3]; [by left|right]. by split_and!.
    + eexists _, _, _, _, n. split_and!; [reflexivity|done|done|by intros _; apply Hok|by left].
  - eexists _, _, _, _, n. split_and!; [reflexivity|done|done|done|by left].
Qed.

(** ** The budget *)

Lemma callMessages_capped body prompt w w1 :
  c.(ac_cfg).(llm_APIKey) ≠ "" → capped c w = (Ok true, w1) →
  ∃ u, callMessages c body prompt w = (Ok ("", u, Some (ErrSentinel ErrSpendCapReached)), w1).
Proof. intros Hkey Hc. unfold callMessages. rewrite bool_decide_false by done. rewrite (bind_ok _ _ _ _ _ Hc). by eexists. Qed.

(** C31: once the spend recorded for the day has reached the cap, no call posts anything
    or touches the database, each reports the cap, and the classifier decides exactly
    as it does without a model, without an error. *)
Theorem spend_cap_stops_calls w total :
  c.(ac_cfg).(llm_APIKey) ≠ "" → f64_lt f64_zero c.(ac_cfg).(llm_DailyCapUSD) = true → c.(ac_spend) = true →
  env_fault (S (w_tick w)) = None → (w_db w).(db_spend) !! utc_day (env_now (w_tick w)) = Some total →
  f64_le c.(ac_cfg).(llm_DailyCapUSD) total = true →
  (∀ body prompt, ∃ usage w', callMessages c body prompt w =
     (Ok ("", usage, Some (ErrSentinel ErrSpendCapReached)), w') ∧ posts w' = posts w ∧ w_db w' = w_db w) ∧
  ∀ inp, inp.(in_Checklist).(cl_Required) ≠ [] →
    ∃ r w', Classify (Some (anthropic_client c)) inp w = (Ok (r, None), w') ∧
      posts w' = posts w ∧ w_db w' = w_db w ∧
      ∃ r0, Classify None inp w = (Ok (r0, None), w) ∧ r.(res_CandidateID) = r0.(res_CandidateID) ∧
        r.(res_Confidence) = r0.(res_Confidence) ∧ r.(res_By) = r0.(res_By).
Proof.
  intros Hkey Hcap Hsp Hf Hday Hle.
  destruct (capped_true w total Hcap Hsp Hf Hday Hle) as (w1 & Hc & Hp & Hd). split.
  - intros body prompt. destruct (callMessages_capped body prompt w w1 Hkey Hc) as (u & ->). by eexists _, _.
  - intros inp Hreq. unfold Classify. destruct (heuristic inp) as [h|]; [by eexists h, w; eauto 10|].
    unfold classifyByLLM. cbn [llm_Classify anthropic_client].
    unfold anthropic_Classify. cbn [cq_Candidates]. rewrite length_map, bool_decide_false
      by (by destruct (cl_Required _)).
    match goal with |- context [callMessages c ?b ?p] => destruct (callMessages_capped b p w w1 Hkey Hc) as (u & Hcall) end.
    unfold mbind at 1, M_bind at 1. rewrite (bind_ok _ _ _ _ _ Hcall). cbn.
    eexists _, w1. split; [reflexivity|]. split_and!; [done|done|]. by eexists.
Qed.
End calls.

(** ** A service to evaluate: rate limited at first, then an answer with a tool input *)

Definition toy_json : JsonLib :=
  {| json_parse s := Some (JObj [("content", JArr [JObj [("type", JStr "text"); ("text", JStr s)]]);
                                 ("usage", JObj [("input_tokens", JNum "n"); ("output_tokens", JNum "n")])]);
     json_request r := r.(aq_Model); json_value _ := ""; Quote s := s; ParseInt _ := Some 1000 |}.
Definition toy_llm : LlmServer :=
  {| http_Post n _ := if bool_decide (n < 4)%nat then inr (429, inr "") else inr (200, inr "hello") |}.
Definition toy_rand : NetEnv := {| env_rand _ := f64_zero |}.
Definition toy_client : AnthropicClient :=
  mkAnthropicClient (mkAnthropicConfig "key" "claude-haiku-4-5" 30 256 (f64_of_Z 1)) true 3 Second.
Definition spent_world : World :=
  w_with_db (db_with_spend {[ utc_day (env_now (Env := demo_env) 0) := f64_of_Z 2 ]} empty_db) empty_world.

#[local] Existing Instance demo_lib.
#[local] Existing Instance demo_env.
#[local] Existing Instance toy_json.
#[local] Existing Instance toy_llm.
#[local] Existing Instance toy_rand.

Definition toy_request : anthropicRequest := mkAnthropicRequest "claude-haiku-4-5" 256 [] "" [] None.

Lemma toy_call :
  posts (callMessages toy_client toy_request "p" empty_world).2 = ["claude-haiku-4-5"; "claude-haiku-4-5"] ∧
  (callMessages toy_client toy_request "p" empty_world).1 =
    Ok ("hello", usage_of toy_client "p" 0 1000 1000, None) ∧
  f64_lt f64_zero (estimated_cost toy_client 1000 1000) = true.
Proof. split_and!; vm_compute; reflexivity. Qed.

Lemma callMessages_accounts_witness :
  ∃ text usage err w' n, callMessages toy_client toy_request "p" empty_world = (Ok (text, usage, err), w') ∧
    posts w' = posts empty_world ++ replicate n (json_request toy_request) ∧ Z.of_nat n ≤ attempts_of toy_client.(ac_retryAttempts) ∧
    (err = None → (1 ≤ n)%nat) ∧
    (w_db w' = w_db empty_world ∨
     err = None ∧ toy_client.(ac_spend) = true ∧ f64_lt f64_zero usage.(us_EstimatedCostUSD) = true ∧
     usage.(us_EstimatedCostUSD) = estimated_cost toy_client usage.(us_InputTokens) usage.(us_OutputTokens) ∧
     spend_added usage.(us_EstimatedCostUSD) (w_db empty_world) (w_db w')).
Proof. apply (callMessages_accounts toy_client toy_request "p" empty_world). by intros n e. Defined.

Lemma spend_cap_stops_calls_witness :
  ∃ usage w', callMessages toy_client toy_request "p" spent_world =
    (Ok ("", usage, Some (ErrSentinel ErrSpendCapReached)), w') ∧
    posts w' = posts spent_world ∧ w_db w' = w_db spent_world.
Proof.
  refine (proj1 (spend_cap_stops_calls toy_client spent_world (f64_of_Z 2) _ _ _ _ _ _) toy_request "p");
    [done|reflexivity|reflexivity|reflexivity|vm_compute; reflexivity|reflexivity].
Defined.
