(* ===== verification/Imap.v ===== *)
(** The mailbox adapter: [internal/delivery/imap/client.go].

    The server and the go-imap client are the class [ImapServer]: what each command
    answers at each interaction.  The commands that change a message and that the server
    confirmed are recorded in [ps_mail]; of one that returned an error the program does not
    know whether the server carried it out, and it goes on as if it had not. *)
From Stdlib Require Import ZArith.
From stdpp Require Import base list strings gmap.
From S2P Require Import Prelude GoStrings GoValues Submission World Config.

Open Scope Z_scope.

Definition maxProbeWindow : nat := 500.
Definition maxBatchBytes : Z := 64 * 2 ^ 20.

(** Capabilities the filing looks at. *)
Record caps : Type := mkCaps { cap_Move : bool; cap_UIDPlus : bool }.

Class ImapServer : Type := {
  srv_dial : nat → option error;                     (** TCP and TLS *)
  srv_auth : nat → option error;
  srv_select : nat → string → result (Z * Z);        (** UIDVALIDITY and number of messages *)
  srv_list : nat → result (list string);             (** the delimiters listed, empty for none *)
  srv_search : nat → option time → result (list Z);  (** unseen UIDs since a date *)
  srv_sizes : nat → list Z → result (list (Z * Z));  (** UID and RFC822.SIZE *)
  srv_bodies : nat → list Z → result (list (Z * option string));
  srv_envelopes : nat → Z → result (list (option string)); (** Message-IDs of messages 1 to n *)
  srv_caps : nat → caps;
  srv_command : nat → mail_cmd → option error }.

Record rawMessage : Type := mkRawMessage { rm_UID : Z; rm_Raw : string }.

Record mailbox : Type := mkMailbox {
  mb_maxBytes : Z;
  mb_folderPrefix : string;
  mb_delim : string;
  mb_uidValidity : Z }.

Definition w_with_mail (l : list mail_cmd) (w : World) : World :=
  w_with_poll (mkPollState l w.(w_poll).(ps_lastPoll) w.(w_poll).(ps_failures)) w.

Section client.
Context {E : Env} {Srv : ImapServer}.

(** One exchange with the server. *)
Definition ask {A} (f : nat → result A) : M A := λ w, (f w.(w_tick), w_next w).

Definition command (c : mail_cmd) : M unit := λ w,
  match srv_command w.(w_tick) c with
  | Some e => (Err e, w_next w)
  | None => (Ok (), w_with_mail (w.(w_poll).(ps_mail) ++ [c]) (w_next w))
  end.

Definition opt_result (o : option error) : result unit := match o with Some e => Err e | None => Ok () end.

Definition discoverDelim : M string :=
  data ← attempt (ask srv_list);
  match (data : result (list string)) with
  | Ok l => mret (default "/" (List.find (λ d, negb (bool_decide (d = ""))) l))
  | Err _ => mret "/"
  end.

(** Dial, authenticate, select; refreshing the capabilities only logs. *)
Definition dialIMAP (cfg : IMAPConfig) : M mailbox :=
  wrap_err "imap dial" (ask (λ n, opt_result (srv_dial n))) ≫= λ _,
  wrap_err "imap auth" (ask (λ n, opt_result (srv_auth n))) ≫= λ _,
  sel ← wrap_err "imap select" (ask (λ n, srv_select n cfg.(imap_Mailbox)));
  delim ← discoverDelim;
  mret (mkMailbox (MaxMessageBytes cfg) cfg.(imap_FolderPrefix) delim (fst (sel : Z * Z))).

Definition MarkSeen (uid : Z) : M unit := command (CmdSeen uid).
Definition Flag (uid : Z) : M unit := command (CmdFlagged uid).

(** The size loop: the UIDs kept so far and their bytes. *)
Fixpoint under_cap (maxBytes : Z) (sizes : list (Z * Z)) (keep : list Z) (batchBytes : Z) : M (list Z) :=
  match sizes with
  | [] => mret keep
  | (uid, size) :: sizes =>
    if maxBytes <? size then
      log_err (MarkSeen uid) ≫= λ _, under_cap maxBytes sizes keep batchBytes
    else if negb (bool_decide (keep = [])) && (maxBatchBytes <? batchBytes + size) then mret keep
    else under_cap maxBytes sizes (keep ++ [uid]) (batchBytes + size)
  end.

Definition underCap (mb : mailbox) (uids : list Z) : M (list Z) :=
  if mb.(mb_maxBytes) <=? 0 then mret uids
  else
    sizes ← attempt (ask (λ n, srv_sizes n uids));
    match (sizes : result (list (Z * Z))) with
    | Err _ => mret uids
    | Ok l => under_cap mb.(mb_maxBytes) l [] 0
    end.

Definition FetchUnseen (mb : mailbox) (limit : Z) (since : time) : M (list rawMessage) :=
  check_ctx ≫= λ _,
  uids ← wrap_err "imap search" (ask (λ n, srv_search n (if IsZero since then None else Some since)));
  if bool_decide (uids = []) then mret []
  else
    uids ← underCap mb (take maxProbeWindow uids);
    if bool_decide (uids = []) then mret []
    else
      let uids := if 0 <? limit then take (Z.to_nat limit) uids else uids in
      msgs ← wrap_err "imap fetch" (ask (λ n, srv_bodies n uids));
      mret (omap (λ m, match snd m with Some raw => Some (mkRawMessage (fst m) raw) | None => None end)
              (msgs : list (Z * option string))).

Definition folderPath (mb : mailbox) (leaf : string) : string :=
  if bool_decide (mb.(mb_folderPrefix) = "") then leaf
  else mb.(mb_folderPrefix) +:+ mb.(mb_delim) +:+ leaf.

(** [withCreate]: once more after creating the folder. *)
Definition withCreate (folder : string) (op : M unit) : M unit :=
  r ← attempt op;
  match (r : result unit) with
  | Ok _ => mret ()
  | Err _ => log_err (command (CmdCreate folder)) ≫= λ _, op
  end.

Definition fileByLadder (uid : Z) (folder : string) : M unit :=
  c ← ask (λ n, Ok (srv_caps n));
  if (c : caps).(cap_Move) then withCreate folder (command (CmdMove uid folder))
  else if c.(cap_UIDPlus) then
    withCreate folder (command (CmdCopy uid folder)) ≫= λ _,
    wrap_err "imap: flag deleted" (command (CmdDeleted uid)) ≫= λ _,
    wrap_err "imap: uid expunge" (command (CmdExpunge uid))
  else withCreate folder (command (CmdCopy uid folder)).

Definition File (mb : mailbox) (uid : Z) (folder : string) : M unit :=
  fileByLadder uid (folderPath mb folder).

Definition scanned_ids (l : list (option string)) : list string :=
  omap (λ m, match m with
             | Some raw => let id := Trim raw "<>" in if bool_decide (id = "") then None else Some id
             | None => None
             end) l.

(** Go's conversion of an [int]. *)
Definition uint32 (n : Z) : Z := n mod 2 ^ 32.

(** The messages 1 to [n] of the selected folder. *)
Definition scan_selected (num limit : Z) : M (list string) :=
  if num =? 0 then mret []
  else
    let n := if (0 <? limit) && (uint32 limit <? num) then uint32 limit else num in
    msgs ← wrap_err "imap fetch hold envelopes" (ask (λ k, srv_envelopes k n));
    mret (scanned_ids msgs).

(** A folder that cannot be selected is created and selected again; failing that it is
    taken to be empty. *)
Definition ScanFolder (mb : mailbox) (folder : string) (limit : Z) : M (list string) :=
  check_ctx ≫= λ _,
  let path := folderPath mb folder in
  sel ← attempt (ask (λ n, srv_select n path));
  match (sel : result (Z * Z)) with
  | Ok s => scan_selected (snd s) limit
  | Err _ =>
    log_err (command (CmdCreate path)) ≫= λ _,
    again ← attempt (ask (λ n, srv_select n path));
    match (again : result (Z * Z)) with
    | Ok s => scan_selected (snd s) limit
    | Err _ => mret []
    end
  end.
End client.
