(* ===== verification/Poller.v ===== *)
(** The IMAP poller: [internal/delivery/imap/poller.go].

    The interfaces the poller is written against are classes: [Ingester] and
    [IngestControl], which the service and the repository implement, and the mailbox of
    [Imap].  Parsing the raw message is [EmlParser]. *)
From Stdlib Require Import ZArith.
From stdpp Require Import base list strings gmap.
From S2P Require Import Prelude GoStrings GoValues Submission Checklist Classifier ChecklistStore Tables World Repository OutboxRepo Config Service Ingest Delivery Sweeps Translate Imap.

Open Scope Z_scope.

Definition defaultBatchLimit : Z := 50.

(** [emlparse.FromReader], whose default date is the time of the call. *)
Class EmlParser : Type := { FromReader : nat → string → result Payload }.

(** ** Interfaces *)

Class Ingester : Type := {
  ing_IngestEmail : IngestRequest → M IngestResult;
  ing_AuditFileFailed : string → string → string → M unit;
  ing_ReconcileHold : list string → M unit }.

Class IngestControl : Type := {
  ctl_FirstBootAt : time → M time;
  ctl_RecordFailure : Z → Z → string → time → M Z;
  ctl_ClearFailure : Z → Z → M unit }.

Record statusFolders : Type := mkStatusFolders {
  sf_complete : string; sf_awaiting : string; sf_escalated : string; sf_unknownPolicy : string }.

Record Poller : Type := mkPoller {
  po_cfg : IMAPConfig;
  po_batchLimit : Z;
  po_maxAttempts : Z;
  po_fileByStatus : bool;
  po_folders : statusFolders;
  po_holdFolder : string;
  po_holdScanLimit : Z;
  po_configuredCutoff : time }.

Section poller.
Context {L : GoLib} {ML : MailLib} {E : Env} {Srv : ImapServer} {Eml : EmlParser}.
Context {Ing : Ingester} {Ctl : IngestControl}.

Definition w_with_lastPoll (t : Z) (w : World) : World :=
  w_with_poll (mkPollState w.(w_poll).(ps_mail) t 0) w.

(** [recordSuccess]: the time of the cycle, and no failure in a row. *)
Definition recordSuccess : M unit :=
  now ← time_Now; modify (w_with_lastPoll (UnixNano now)).

Definition recordFailure : M unit :=
  modify (λ w, w_with_poll (mkPollState w.(w_poll).(ps_mail) w.(w_poll).(ps_lastPoll)
                              (wrap64 (w.(w_poll).(ps_failures) + 1))) w).

(** The poller and the startup time it is seeded with. *)
Definition NewPoller (cfg : IMAPConfig) : M Poller :=
  let cutoff := match IgnoreBeforeTime cfg with Ok (Some t) => t | _ => zeroTime end in
  now ← time_Now;
  modify (λ w, w_with_poll (mkPollState w.(w_poll).(ps_mail) (UnixNano now) w.(w_poll).(ps_failures)) w) ≫= λ _,
  mret (mkPoller cfg defaultBatchLimit cfg.(imap_PollMaxAttempts) cfg.(imap_FileByStatus)
          (mkStatusFolders cfg.(imap_FolderComplete) cfg.(imap_FolderAwaiting)
             cfg.(imap_FolderEscalated) cfg.(imap_FolderUnknownPolicy))
          cfg.(imap_FolderHold) cfg.(imap_HoldScanLimit) cutoff).

Definition resolveCutoff (p : Poller) : M time :=
  if negb (IsZero p.(po_configuredCutoff)) then mret p.(po_configuredCutoff)
  else
    now ← time_Now;
    r ← attempt (ctl_FirstBootAt now);
    match (r : result time) with Ok t => mret t | Err _ => mret zeroTime end.

Definition folderFor (p : Poller) (res : IngestResult) : string :=
  if negb p.(po_fileByStatus) then ""
  else if res.(ir_PolicyUnknown) then p.(po_folders).(sf_unknownPolicy)
  else match res.(ir_State) with
       | StateComplete => p.(po_folders).(sf_complete)
       | StateAwaiting => p.(po_folders).(sf_awaiting)
       | StateEscalated => p.(po_folders).(sf_escalated)
       | _ => ""
       end.

Definition handleIngestFailure (p : Poller) (mb : mailbox) (m : rawMessage) (err : error) : M unit :=
  if errors_Is err ErrInvalidTransition then log_err (MarkSeen m.(rm_UID))
  else
    now ← time_Now;
    r ← attempt (ctl_RecordFailure mb.(mb_uidValidity) m.(rm_UID) (error_text err) now);
    match (r : result Z) with
    | Err _ => mret ()
    | Ok attempts =>
      if (0 <? p.(po_maxAttempts)) && (p.(po_maxAttempts) <=? attempts)
      then log_err (MarkSeen m.(rm_UID)) else mret ()
    end.

(** Marked read, then flagged, then filed. *)
Definition settle_message (p : Poller) (mb : mailbox) (m : rawMessage) (res : IngestResult) : M unit :=
  r ← attempt (MarkSeen m.(rm_UID));
  match (r : result unit) with
  | Err _ => mret ()
  | Ok _ =>
    log_err (ctl_ClearFailure mb.(mb_uidValidity) m.(rm_UID)) ≫= λ _,
    (if res.(ir_NeedsReview) then log_err (Flag m.(rm_UID)) else mret ()) ≫= λ _,
    let folder := folderFor p res in
    if bool_decide (folder = "") || res.(ir_IsDuplicate) then mret ()
    else
      f ← attempt (File mb m.(rm_UID) folder);
      match (f : result unit) with
      | Ok _ => mret ()
      | Err e => ing_AuditFileFailed res.(ir_SubmissionID) folder (error_text e)
      end
  end.

Definition parse_message (m : rawMessage) : M Payload := ask (λ n, FromReader n m.(rm_Raw)).

(** The body of [process], without its recover. *)
Definition process_body (p : Poller) (mb : mailbox) (m : rawMessage) : M unit :=
  payload ← attempt (parse_message m);
  match (payload : result Payload) with
  | Err _ => log_err (MarkSeen m.(rm_UID))
  | Ok payload =>
    req ← Translate payload "imap";
    r ← attempt (ing_IngestEmail req);
    match (r : result IngestResult) with
    | Err e => handleIngestFailure p mb m e
    | Ok res => settle_message p mb m res
    end
  end.

Definition process (p : Poller) (mb : mailbox) (m : rawMessage) : M unit :=
  recovering (process_body p mb m) (λ _, mret ()).

Definition reconcileHold (p : Poller) (mb : mailbox) : M unit :=
  w ← get;
  if bool_decide (p.(po_holdFolder) = "") ||
     match env_cancelled w.(w_tick) with Some _ => true | None => false end
  then mret ()
  else
    ids ← attempt (ScanFolder mb p.(po_holdFolder) p.(po_holdScanLimit));
    match (ids : result (list string)) with
    | Err _ => mret ()
    | Ok ids => log_err (ing_ReconcileHold ids)
    end.

(** The messages in order; false when the context ended before the last one. *)
Fixpoint process_all (p : Poller) (mb : mailbox) (msgs : list rawMessage) : M bool :=
  match msgs with
  | [] => mret true
  | m :: msgs =>
    w ← get;
    match env_cancelled w.(w_tick) with
    | Some _ => mret false
    | None => process p mb m ≫= λ _, process_all p mb msgs
    end
  end.

(** One poll; the timeout of the context is part of [env_cancelled]. *)
Definition pollOnce (p : Poller) (cutoff : time) : M unit :=
  w ← get;
  match env_cancelled w.(w_tick) with
  | Some _ => mret ()
  | None =>
    mb ← attempt (dialIMAP p.(po_cfg));
    match (mb : result mailbox) with
    | Err _ => recordFailure
    | Ok mb =>
      msgs ← attempt (FetchUnseen mb p.(po_batchLimit) cutoff);
      match (msgs : result (list rawMessage)) with
      | Err _ => recordFailure
      | Ok msgs =>
        recordSuccess ≫= λ _,
        done ← process_all p mb msgs;
        if (done : bool) then reconcileHold p mb else mret ()
      end
    end
  end.
End poller.

(** ** The service and the repository as the poller's interfaces *)

#[export] Instance service_ingester {L : GoLib} {E : Env} (svc : Service) : Ingester := {|
  ing_IngestEmail := IngestEmail svc;
  ing_AuditFileFailed := AuditFileFailed;
  ing_ReconcileHold := ReconcileHold |}.

#[export] Instance repository_control {E : Env} : IngestControl := {|
  ctl_FirstBootAt := FirstBootAt;
  ctl_RecordFailure := RecordFailure;
  ctl_ClearFailure := ClearFailure |}.
