(* ===== verification/PollerProps.v ===== *)
(** What polling does to the mailbox and to the failure counts.

    The poller's theorems are proved against the interfaces: an ingester and a control
    that leave the mailbox alone ([IngesterLaws], [ControlLaws]); the service and the
    repository are shown to be such. *)
From Stdlib Require Import ZArith.
From stdpp Require Import base list strings gmap.
From S2P Require Import Prelude GoStrings GoValues Submission Checklist Reply Classifier ChecklistStore Tables World Repository OutboxRepo Persistence RepositoryProps Config Service Ingest Delivery Sweeps ServiceInv Demo IngestProps DeliveryProps SweepProps Translate Imap Poller.

Open Scope Z_scope.

(** ** Who touches the mailbox *)

Definition Polled (x : poll_state) (w : World) : Prop := w.(w_poll) = x.

Section polled.
Context {E : Env} (x : poll_state).

Lemma polled_check_ctx : preserves (Polled x) check_ctx.
Proof. intros w. unfold check_ctx. by destruct (env_cancelled _). Qed.

Lemma polled_now : preserves (Polled x) time_Now.
Proof. by intros w. Qed.

Lemma polled_uuid : preserves (Polled x) NewString.
Proof. by intros w. Qed.

Lemma polled_stmt {A} (f : DB → result (A * DB)) : preserves (Polled x) (stmt f).
Proof. intros w Hw. unfold stmt. destruct (env_fault _); [done|]. by destruct (f _) as [[]|]. Qed.

Lemma polled_exec f : preserves (Polled x) (exec f).
Proof. apply polled_stmt. Qed.

Lemma polled_query {A} (f : DB → A) : preserves (Polled x) (query f).
Proof. apply polled_stmt. Qed.

Lemma polled_transaction {A} bare (m : M A) :
  preserves (Polled x) m → preserves (Polled x) (transaction bare m).
Proof.
  intros Hm w Hw. unfold transaction.
  assert (preserves (Polled x) (tx_body bare m)) as Hp.
  { repeat (apply preserves_bind; [|intros]); try apply preserves_wrap_err, polled_query;
      [done|destruct bare; try apply preserves_wrap_err; apply polled_query|apply preserves_ret]. }
  specialize (Hp w Hw). by destruct (tx_body bare m w) as [[a|e] w'].
Qed.

Lemma polled_modify f : (∀ w, w_poll (f w) = w_poll w) → preserves (Polled x) (modify f).
Proof. intros Hf. apply preserves_modify. intros w. unfold Polled. by rewrite Hf. Qed.
End polled.

#[export] Hint Resolve polled_check_ctx polled_now polled_uuid polled_stmt polled_exec polled_query
  polled_transaction : triage.
#[export] Hint Extern 1 (preserves (Polled _) (modify _)) =>
  apply polled_modify; intros ?; reflexivity : triage.

Section service.
Context {L : GoLib} {E : Env} (svc : Service) (x : poll_state).
Notation P := (preserves (Polled x)).

Lemma polled_Append e : P (Append e).
Proof. unfold Append. walk. Qed.
#[local] Hint Resolve polled_Append : triage.

Lemma polled_audit id evt p : P (audit id evt p).
Proof. unfold audit. walk. Qed.
#[local] Hint Resolve polled_audit : triage.

Lemma polled_flushAudit : P flushAudit.
Proof. unfold flushAudit. walk. Qed.

Lemma polled_auditCapOnce : P auditCapOnce.
Proof. unfold auditCapOnce. walk. Qed.

Lemma polled_auditLLMCall id op f u : P (auditLLMCall id op f u).
Proof. unfold auditLLMCall. walk. Qed.

Lemma polled_llm {A} (m : M A) : llm_frame m → P m.
Proof. intros Hm. by apply preserves_llm. Qed.
#[local] Hint Resolve polled_auditCapOnce polled_auditLLMCall polled_llm : triage.

Lemma polled_classifyAttachment id e cl a : P (classifyAttachment svc id e cl a).
Proof. unfold classifyAttachment, extractField. walk. Qed.
#[local] Hint Resolve polled_classifyAttachment : triage.

Lemma polled_classifyAttachments id e cl atts : P (classifyAttachments svc id e cl atts).
Proof. induction atts; cbn [classifyAttachments]; walk. Qed.

Lemma polled_GetByID id : P (GetByID id).
Proof. unfold GetByID, loadEmails, loadDocuments, not_found. walk. Qed.
#[local] Hint Resolve polled_classifyAttachments polled_GetByID : triage.

Lemma polled_resolve req id : P (resolveSubmission svc req id).
Proof.
  unfold resolveSubmission, FindByEmailReference, FindByDeterministicID, findSubmissionIDsByRefs,
    pickMostRecentlyUpdated, not_found, audit_duplicate, createSubmission. walk.
Qed.

Lemma polled_upsert_rows s : P (upsert_rows s).
Proof.
  unfold upsert_rows, upsertSubmissionRow, nanoOrNow, unless_duplicate, upsertEmailRow, upsertDocumentRow. walk.
Qed.
#[local] Hint Resolve polled_resolve polled_upsert_rows : triage.

Lemma polled_UpsertSubmission s : P (UpsertSubmission s).
Proof. unfold UpsertSubmission. walk. Qed.

Lemma polled_UpsertSubmissionWithReply s e : P (UpsertSubmissionWithReply s e).
Proof.
  unfold UpsertSubmissionWithReply, insertOutboxRow. case_bool_decide; [walk|].
  apply polled_transaction. walk.
Qed.
#[local] Hint Resolve polled_UpsertSubmission polled_UpsertSubmissionWithReply : triage.

Lemma polled_evaluate_and_thread sub inbound b : P (evaluate_and_thread svc sub inbound b).
Proof.
  unfold evaluate_and_thread, evaluate, resolvePolicyType, extractIdentity, contentMatch, reparentAudits,
    FindContentMatch, not_found. walk.
Qed.

Lemma polled_queue_reply sub r fp res : P (queue_reply svc sub r fp res).
Proof. unfold queue_reply, claimDispatch, releaseDispatch, enqueueReply. walk. Qed.
#[local] Hint Resolve polled_evaluate_and_thread polled_queue_reply : triage.

Lemma polled_ingest_body req id : P (ingest_body svc req id).
Proof.
  unfold ingest_body, attach_inbound, persistBounce, settle, transitionState, persistSuppressed,
    reply_or_persist, persistNoReply, replySuppressed. walk.
Qed.

Lemma polled_IngestEmail req : P (IngestEmail svc req).
Proof.
  unfold IngestEmail. apply preserves_bind; [walk|]. intros req'. unfold ingestEmailInner.
  set (id := computeEmailID _ _ _). intros w Hw.
  pose proof (polled_ingest_body req' id (w_with_collector (Some []) w) Hw) as Hb.
  destruct (ingest_body svc req' id _) as [r w1]. pose proof (polled_flushAudit w1 Hb) as Hf.
  destruct (flushAudit w1) as [r' w2]. exact Hf.
Qed.

Lemma polled_ReconcileHold ids : P (ReconcileHold ids).
Proof.
  unfold ReconcileHold, SubmissionIDsByMessageIDs, ListHeldIDs, SetOnHold, update_submissions,
    ExpirePendingForSubmissions. walk.
Qed.
End service.

(** ** The laws of the interfaces *)

Class IngesterLaws (Ing : Ingester) : Prop := {
  law_ingest : ∀ x req, preserves (Polled x) (ing_IngestEmail req);
  law_audit : ∀ x id folder reason, preserves (Polled x) (ing_AuditFileFailed id folder reason);
  law_hold : ∀ x ids, preserves (Polled x) (ing_ReconcileHold ids) }.

Class ControlLaws (Ctl : IngestControl) : Prop := {
  law_boot : ∀ x now, preserves (Polled x) (ctl_FirstBootAt now);
  law_record : ∀ x v uid reason now, preserves (Polled x) (ctl_RecordFailure v uid reason now);
  law_clear : ∀ x v uid, preserves (Polled x) (ctl_ClearFailure v uid) }.

#[export] Instance service_laws {L : GoLib} {E : Env} svc : IngesterLaws (service_ingester svc).
Proof.
  split; intros x; cbn.
  - apply polled_IngestEmail.
  - intros. apply polled_audit.
  - apply polled_ReconcileHold.
Qed.

#[export] Instance repository_laws {E : Env} : ControlLaws repository_control.
Proof.
  split; intros x; cbn; intros; unfold FirstBootAt, RecordFailure, ClearFailure; walk.
Qed.

(** ** Commands *)

(** [m] only adds commands satisfying [Q] to the log. *)
Definition appends (Q : mail_cmd → Prop) {A} (m : M A) : Prop :=
  ∀ w, ∃ cmds, ps_mail (w_poll (m w).2) = ps_mail (w_poll w) ++ cmds ∧ Forall Q cmds.

Section appends.
Context (Q : mail_cmd → Prop).

Lemma appends_polled {A} (m : M A) : (∀ x, preserves (Polled x) m) → appends Q m.
Proof.
  intros Hm w. exists []. rewrite app_nil_r. split; [|constructor]. by rewrite (Hm _ w eq_refl).
Qed.

Lemma appends_bind {A B} (m : M A) (f : A → M B) :
  appends Q m → (∀ a, appends Q (f a)) → appends Q (m ≫= f).
Proof.
  intros Hm Hf w. destruct (Hm w) as (c1 & H1 & HQ1). unfold mbind, M_bind.
  destruct (m w) as [[a|e] w1]; [|by exists c1]. destruct (Hf a w1) as (c2 & H2 & HQ2).
  exists (c1 ++ c2). cbn in H1. rewrite H2, H1, app_assoc. split; [done|]. by apply Forall_app.
Qed.

Lemma appends_ret {A} (a : A) : appends Q (mret a).
Proof. apply appends_polled. intros x w Hw. exact Hw. Qed.

Lemma appends_attempt {A} (m : M A) : appends Q m → appends Q (attempt m).
Proof.
  intros Hm w. destruct (Hm w) as (c & Hc & HQ). exists c. split; [|done]. unfold attempt.
  by destruct (m w) as [[|[]]].
Qed.

Lemma appends_log_err {A} (m : M A) : appends Q m → appends Q (log_err m).
Proof. intros Hm. apply appends_bind; [by apply appends_attempt|intros; apply appends_ret]. Qed.

Lemma appends_wrap_err {A} msg (m : M A) : appends Q m → appends Q (wrap_err msg m).
Proof.
  intros Hm w. destruct (Hm w) as (c & Hc & HQ). exists c. split; [|done]. unfold wrap_err.
  by destruct (m w) as [[|[]]].
Qed.

Lemma appends_command {Srv : ImapServer} c : Q c → appends Q (command c).
Proof.
  intros HQ w. unfold command. destruct (srv_command _ _).
  - exists []. by rewrite app_nil_r.
  - exists [c]. split; [done|]. by constructor.
Qed.

Lemma appends_ask {A} (f : nat → result A) : appends Q (ask f).
Proof. apply appends_polled. intros x w Hw. exact Hw. Qed.
End appends.

(** Commands on one message, or the creation of a folder. *)
Definition about (uid : Z) (c : mail_cmd) : Prop :=
  match c with
  | CmdSeen u | CmdFlagged u | CmdDeleted u | CmdMove u _ | CmdCopy u _ | CmdExpunge u => u = uid
  | CmdCreate _ => True
  end.

Section process.
Context {L : GoLib} {ML : MailLib} {E : Env} {Srv : ImapServer} {Eml : EmlParser}.
Context {Ing : Ingester} {Ctl : IngestControl} {IL : IngesterLaws Ing} {CL : ControlLaws Ctl}.

Lemma appends_File mb uid folder : appends (about uid) (File mb uid folder).
Proof.
  unfold File, fileByLadder, withCreate.
  assert (∀ c, about uid c → appends (about uid) (command c)) as Hc by (intros; by apply appends_command).
  assert (∀ f op, appends (about uid) op → appends (about uid) (withCreate f op)) as Hw.
  { intros f op Hop. unfold withCreate. apply appends_bind; [by apply appends_attempt|].
    intros [?|?]; [apply appends_ret|]. apply appends_bind; [by apply appends_log_err, Hc|done]. }
  apply appends_bind; [apply appends_ask|]. intros c. destruct (cap_Move c); [by apply Hw, Hc|].
  destruct (cap_UIDPlus c); [|by apply Hw, Hc].
  apply appends_bind; [by apply Hw, Hc|]. intros _.
  apply appends_bind; [by apply appends_wrap_err, Hc|]. intros _. by apply appends_wrap_err, Hc.
Qed.
(** The message was parsed, translated and its ingest committed. *)
Definition ingested (m : rawMessage) : Prop :=
  ∃ payload w0 req w1 res w2, FromReader (w_tick w0) m.(rm_Raw) = Ok payload ∧
    (Translate payload "imap" (w_next w0)) = (Ok req, w1) ∧ ing_IngestEmail req w1 = (Ok res, w2).

(** The message will never be ingested: it does not parse, its submission cannot take
    it, or its ingest failed as often as is allowed. *)
Definition given_up (p : Poller) (mb : mailbox) (m : rawMessage) : Prop :=
  (∃ n e, FromReader n m.(rm_Raw) = Err e) ∨
  ∃ req w1 e w2, ing_IngestEmail req w1 = (Err e, w2) ∧
    (errors_Is e ErrInvalidTransition = true ∨
     ∃ now w3 attempts w4, ctl_RecordFailure mb.(mb_uidValidity) m.(rm_UID) (error_text e) now w3 = (Ok attempts, w4) ∧
       0 < p.(po_maxAttempts) ≤ attempts).

(** What processing a message may do to the mailbox, the commands in order. *)
Definition marked (p : Poller) (mb : mailbox) (m : rawMessage) (w w' : World) : Prop :=
  ∃ cmds, ps_mail (w_poll w') = ps_mail (w_poll w) ++ cmds ∧
    (cmds = [] ∨ ∃ rest, cmds = CmdSeen m.(rm_UID) :: rest ∧ Forall (about m.(rm_UID)) rest ∧
       (ingested m ∨ rest = [] ∧ given_up p mb m)).

Lemma marked_nothing p mb m w w' : w_poll w' = w_poll w → marked p mb m w w'.
Proof. intros Hw. exists []. rewrite app_nil_r, Hw. split; [done|by left]. Qed.

Lemma command_cases c w :
  (∃ e, command c w = (Err e, w_next w)) ∨
  command c w = (Ok (), w_with_mail (ps_mail (w_poll w) ++ [c]) (w_next w)).
Proof. unfold command. destruct (srv_command _ _); [left; by eexists|by right]. Qed.

Lemma log_seen_marked p mb m w0 w :
  w_poll w = w_poll w0 → given_up p mb m → marked p mb m w0 (log_err (MarkSeen (rm_UID m)) w).2.
Proof.
  intros Hw Hg. unfold log_err, attempt, mbind, M_bind, MarkSeen.
  destruct (command_cases (CmdSeen (rm_UID m)) w) as [[e He]|He]; rewrite He.
  - apply marked_nothing. by destruct e.
  - exists [CmdSeen (rm_UID m)]. cbn. rewrite Hw. split; [done|]. right. exists [].
    split_and!; [done|constructor|by right].
Qed.

Lemma handleIngestFailure_marked p mb m req e w1 w2 w0 :
  ing_IngestEmail req w1 = (Err e, w2) → w_poll w2 = w_poll w0 →
  marked p mb m w0 (handleIngestFailure p mb m e w2).2.
Proof.
  intros Hing Hw. unfold handleIngestFailure. destruct (errors_Is _ _) eqn:Ht.
  { apply log_seen_marked; [done|]. right. exists req, w1, e, w2. split; [done|by left]. }
  rewrite (bind_ok time_Now _ _ _ _ eq_refl). set (now := env_now (w_tick w2)).
  pose proof (law_record (w_poll w2) (mb_uidValidity mb) (rm_UID m) (error_text e) now (w_next w2) eq_refl) as Hr.
  destruct (ctl_RecordFailure _ _ _ _ _) as [[attempts|er] w3] eqn:Hc; unfold Polled in Hr; cbn in Hr.
  - rewrite (bind_ok (attempt _) _ (Ok attempts) _ w3) by (unfold attempt; by rewrite Hc).
    destruct (_ && _) eqn:Hmax; [|apply marked_nothing; cbn; congruence].
    apply log_seen_marked; [congruence|]. right. exists req, w1, e, w2. split; [done|]. right.
    exists now, (w_next w2), attempts, w3. split; [done|]. apply andb_true_iff in Hmax. lia.
  - apply marked_nothing. unfold mbind, M_bind, attempt. rewrite Hc. cbn. destruct er; cbn; congruence.
Qed.

Lemma settle_message_marked p mb m res w0 w :
  w_poll w = w_poll w0 → ingested m → marked p mb m w0 (settle_message p mb m res w).2.
Proof.
  intros Hw Hi. unfold settle_message, MarkSeen.
  destruct (command_cases (CmdSeen (rm_UID m)) w) as [[e He]|He].
  { apply marked_nothing. unfold mbind, M_bind, attempt. rewrite He. by destruct e. }
  rewrite (bind_ok (attempt _) _ (Ok ()) _ _) by (unfold attempt; rewrite He; reflexivity).
  match goal with |- marked _ _ _ _ (?k ?w1).2 => assert (appends (about (rm_UID m)) k) as Ha end.
  { apply appends_bind; [apply appends_log_err, appends_polled; intros; apply law_clear|]. intros _.
    apply appends_bind; [destruct (ir_NeedsReview res); [by apply appends_log_err, appends_command|apply appends_ret]|].
    intros _. destruct (_ || _); [apply appends_ret|].
    apply appends_bind; [apply appends_attempt, appends_File|]. intros [?|?]; [apply appends_ret|].
    apply appends_polled. intros. apply law_audit. }
  destruct (Ha (w_with_mail (ps_mail (w_poll w) ++ [CmdSeen (rm_UID m)]) (w_next w))) as (rest & Hrest & HQ).
  exists (CmdSeen (rm_UID m) :: rest). split.
  - rewrite Hrest. cbn. by rewrite Hw, <- app_assoc.
  - right. exists rest. split_and!; [done|done|by left].
Qed.
End process.

Lemma recovering_world m h w : (∀ p w, (h p w).2 = w) → (recovering m h w).2 = (m w).2.
Proof. intros Hh. unfold recovering. by destruct (m w) as [[|[]] w']; cbn; rewrite ?Hh. Qed.

(** C16: a message is marked read only when it is settled.  Against any ingester and
    control that leave the mailbox alone, processing a message either leaves the mailbox
    as it was, so that the next poll finds the message unread again, or first marks it
    read and then only flags or files that message; and it is marked only after its
    ingest committed, or, and then nothing else is done to it, when it is given up: it
    does not parse, its submission cannot take it, or it failed as often as is allowed. *)
Theorem process_marks_settled (L : GoLib) (ML : MailLib) (E : Env) (Srv : ImapServer) (Eml : EmlParser)
    (Ing : Ingester) (Ctl : IngestControl) (IL : IngesterLaws Ing) (CL : ControlLaws Ctl) p mb m w :
  marked p mb m w (process p mb m w).2.
Proof.
  unfold process. rewrite recovering_world by done. unfold process_body.
  destruct (FromReader (w_tick w) (rm_Raw m)) as [payload|e] eqn:Hp.
  - assert (attempt (parse_message m) w = (Ok (Ok payload), w_next w)) as Ha
      by (unfold attempt, parse_message, ask; by rewrite Hp).
    rewrite (bind_ok _ _ _ _ _ Ha).
    assert (∃ req w1, Translate payload "imap" (w_next w) = (Ok req, w1) ∧ w_poll w1 = w_poll w) as (req & w1 & Ht & Hw1).
    { unfold Translate, parseReceivedAt, mbind, M_bind.
      destruct (ParseDate _) as [z|]; [destruct (unresolvedZone z)|]; by eexists _, _. }
    rewrite (bind_ok _ _ _ _ _ Ht).
    pose proof (law_ingest (w_poll w1) req w1 eq_refl) as Hpoll. unfold Polled in Hpoll.
    destruct (ing_IngestEmail req w1) as [[res|e] w2] eqn:Hi; cbn in Hpoll.
    + rewrite (bind_ok (attempt _) _ (Ok res) _ w2) by (unfold attempt; by rewrite Hi).
      apply settle_message_marked; [congruence|]. by exists payload, w, req, w1, res, w2.
    + destruct (decide (is_panic e = true)) as [Hpan|Hnp].
      * apply marked_nothing. unfold mbind, M_bind, attempt. rewrite Hi.
        destruct e; try done. cbn. congruence.
      * rewrite (bind_ok (attempt _) _ (Err e) _ w2) by (unfold attempt; rewrite Hi; by destruct e).
        eapply handleIngestFailure_marked; [exact Hi|congruence].
  - destruct (decide (is_panic e = true)) as [Hpan|Hnp].
    + apply marked_nothing. unfold mbind, M_bind, attempt, parse_message, ask. rewrite Hp. by destruct e.
    + rewrite (bind_ok (attempt _) _ (Err e) _ (w_next w))
        by (unfold attempt, parse_message, ask; rewrite Hp; by destruct e).
      apply log_seen_marked; [done|]. left. by exists (w_tick w), e.
Qed.

(** ** Quarantine *)

Definition failure_count (mb : mailbox) (m : rawMessage) (w : World) : Z :=
  match (w_db w).(db_failures) !! (mb.(mb_uidValidity), m.(rm_UID)) with
  | Some f => f.(fr_attempts)
  | None => 0
  end.

Section quarantine.
Context {L : GoLib} {ML : MailLib} {E : Env} {Srv : ImapServer} {Eml : EmlParser} {Ing : Ingester}.
Context (Hff : fault_free E) (Hsrv : ∀ n c, srv_command n c = None).
Context (p : Poller) (mb : mailbox) (m : rawMessage) (Hmax : 0 < p.(po_maxAttempts)).
Context (Hparse : ∀ n, ∃ payload, FromReader n m.(rm_Raw) = Ok payload).

(** The ingest fails for good: with an error that is neither a panic nor a refused
    transition, leaving the mailbox and the failure counts alone. *)
Definition fails_for_good : Prop :=
  ∀ req w, ∃ e w', ing_IngestEmail req w = (Err e, w') ∧ is_panic e = false ∧
    errors_Is e ErrInvalidTransition = false ∧ w_poll w' = w_poll w ∧
    (w_db w').(db_failures) = (w_db w).(db_failures).

Context (Hfail : fails_for_good).

(** The polls that find the message unread. *)
Fixpoint process_times (k : nat) (w : World) : World :=
  match k with
  | O => w
  | S k => (process (Ctl := repository_control) p mb m (process_times k w)).2
  end.

Lemma RecordFailure_run reason now w :
  ∃ w', RecordFailure mb.(mb_uidValidity) m.(rm_UID) reason now w = (Ok (failure_count mb m w + 1), w') ∧
    failure_count mb m w' = failure_count mb m w + 1 ∧ w_poll w' = w_poll w.
Proof.
  unfold RecordFailure. rewrite wrap_err_run. unfold stmt. rewrite Hff. cbn [fst snd].
  set (a := match db_failures (w_db w) !! _ with Some f => _ | None => 1 end).
  assert (a = failure_count mb m w + 1) as <-.
  { unfold a, failure_count. by destruct (db_failures (w_db w) !! _). }
  eexists. split; [reflexivity|]. split; [|done]. unfold failure_count. cbn. by rewrite lookup_insert_eq.
Qed.

Lemma process_failing w :
  let w' := (process (Ctl := repository_control) p mb m w).2 in
  failure_count mb m w' = failure_count mb m w + 1 ∧
  ps_mail (w_poll w') = ps_mail (w_poll w) ++
    (if p.(po_maxAttempts) <=? failure_count mb m w + 1 then [CmdSeen m.(rm_UID)] else []).
Proof.
  unfold process. rewrite recovering_world by done. unfold process_body.
  destruct (Hparse (w_tick w)) as [payload Hp].
  rewrite (bind_ok (attempt _) _ (Ok payload) _ (w_next w)) by (unfold attempt, parse_message, ask; by rewrite Hp).
  assert (∃ req w1, Translate payload "imap" (w_next w) = (Ok req, w1) ∧ w_poll w1 = w_poll w ∧ w_db w1 = w_db w)
    as (req & w1 & Ht & Hw1 & Hd1).
  { unfold Translate, parseReceivedAt, mbind, M_bind.
    destruct (ParseDate _) as [z|]; [destruct (unresolvedZone z)|]; by eexists _, _. }
  rewrite (bind_ok _ _ _ _ _ Ht). destruct (Hfail req w1) as (e & w2 & Hi & Hnp & Hnt & Hw2 & Hd2).
  rewrite (bind_ok (attempt _) _ (Err e) _ w2) by (unfold attempt; rewrite Hi; by destruct e).
  unfold handleIngestFailure. rewrite Hnt, (bind_ok time_Now _ _ _ _ eq_refl).
  destruct (RecordFailure_run (error_text e) (env_now (w_tick w2)) (w_next w2)) as (w3 & Hr & Hc & Hw3).
  assert (failure_count mb m (w_next w2) = failure_count mb m w) as Hc0.
  { unfold failure_count. cbn. by rewrite Hd2, Hd1. }
  rewrite Hc0 in Hr, Hc.
  rewrite (bind_ok (attempt _) _ (Ok (failure_count mb m w + 1)) _ w3) by (unfold attempt; cbn; by rewrite Hr).
  rewrite (proj2 (Z.ltb_lt _ _) Hmax). cbn [andb]. destruct (_ <=? _).
  - unfold log_err, attempt, mbind, M_bind, MarkSeen, command. rewrite Hsrv. cbn.
    split; [done|]. rewrite Hw3. cbn. by rewrite Hw2, Hw1.
  - cbn. split; [done|]. rewrite Hw3. cbn. by rewrite Hw2, Hw1, app_nil_r.
Qed.
End quarantine.

(** C17: a message that cannot be ingested is quarantined.  When its ingest keeps
    failing, the failures are counted poll by poll; below the allowed number the message
    stays unread and is tried again, and at that number it is marked read, so that it
    no longer costs an attempt at every poll. *)
Theorem failing_message_quarantined (L : GoLib) (ML : MailLib) (E : Env) (Srv : ImapServer)
    (Eml : EmlParser) (Ing : Ingester) p mb m w k :
  fault_free E → (∀ n c, srv_command n c = None) → 0 < p.(po_maxAttempts) →
  (∀ n, ∃ payload, FromReader n m.(rm_Raw) = Ok payload) → fails_for_good →
  failure_count mb m w = 0 →
  let w' := process_times p mb m k w in
  failure_count mb m w' = Z.of_nat k ∧
  (Z.of_nat k < p.(po_maxAttempts) → ps_mail (w_poll w') = ps_mail (w_poll w)) ∧
  (p.(po_maxAttempts) ≤ Z.of_nat k → CmdSeen m.(rm_UID) ∈ ps_mail (w_poll w')).
Proof.
  intros Hff Hsrv Hmax Hparse Hfail H0 w'. unfold w'. clear w'.
  induction k as [|k (IHc & IHl & IHm)]; cbn [process_times].
  { split; [done|]. split; [done|]. lia. }
  destruct (process_failing Hff Hsrv p mb m Hmax Hparse Hfail (process_times p mb m k w)) as [Hc Hmail].
  rewrite Hc, Hmail, IHc. split; [lia|]. split.
  - intros Hlt. rewrite (proj2 (Z.leb_gt _ _)) by lia. rewrite app_nil_r. apply IHl. lia.
  - intros Hge. apply elem_of_app. destruct (decide (p.(po_maxAttempts) ≤ Z.of_nat k)); [left; by apply IHm|right].
    rewrite (proj2 (Z.leb_le _ _)) by lia. left.
Qed.

(** ** The Hold folder *)

Section holds.
Context {L : GoLib} {E : Env} {Srv : ImapServer}.

(** A folder that cannot be selected is read as empty. *)
Lemma ScanFolder_unselectable mb folder limit w :
  (∀ n, env_cancelled n = None) → (∀ n path, ∃ e, srv_select n path = Err e ∧ is_panic e = false) →
  (∀ n c e, srv_command n c = Some e → is_panic e = false) →
  ∃ w', ScanFolder mb folder limit w = (Ok [], w') ∧ w_db w' = w_db w.
Proof.
  intros Hctx Hsel Hcmd. unfold ScanFolder.
  assert (check_ctx w = (Ok (), w)) as Hc by (unfold check_ctx; by rewrite Hctx).
  rewrite (bind_ok _ _ _ _ _ Hc). set (path := folderPath mb folder).
  assert (∀ w, ∃ e, attempt (ask (λ n, srv_select n path)) w = (Ok (Err e), w_next w)) as Hs.
  { intros w1. destruct (Hsel (w_tick w1) path) as (e & He & Hp). exists e. unfold attempt, ask. rewrite He.
    by destruct e. }
  destruct (Hs w) as (e & He). rewrite (bind_ok _ _ _ _ _ He).
  assert (∃ w1, log_err (command (CmdCreate path)) (w_next w) = (Ok (), w1) ∧ w_db w1 = w_db w) as (w1 & Hl & Hd).
  { unfold log_err, attempt, mbind, M_bind, command.
    destruct (srv_command _ _) as [e'|] eqn:Hcm; [|by eexists].
    pose proof (Hcmd _ _ _ Hcm) as Hnp. destruct e'; first [discriminate Hnp|by eexists]. }
  rewrite (bind_ok _ _ _ _ _ Hl). destruct (Hs w1) as (e2 & He2). rewrite (bind_ok _ _ _ _ _ He2).
  by exists (w_next w1).
Qed.
End holds.

(** C25: a Hold folder the server fails to select releases every hold.  The scan takes
    such a folder, after trying to create it, to be empty, and the reconciliation that
    follows releases everything that was on hold. *)
Theorem unselectable_folder_releases_all (L : GoLib) (E : Env) (Srv : ImapServer) svc p mb w :
  fault_free E → (∀ n, env_cancelled n = None) → db_wf (w_db w) → p.(po_holdFolder) ≠ "" →
  (∀ n path, ∃ e, srv_select n path = Err e ∧ is_panic e = false) →
  (∀ n c e, srv_command n c = Some e → is_panic e = false) →
  held_ids (w_db (reconcileHold (Ing := service_ingester svc) p mb w).2) = [].
Proof.
  intros Hff Hctx Hwf Hfolder Hsel Hcmd. unfold reconcileHold.
  rewrite (bind_ok get _ w w w eq_refl), (bool_decide_eq_false_2 (_ = "")), Hctx by done. cbn [orb].
  destruct (ScanFolder_unselectable mb (po_holdFolder p) (po_holdScanLimit p) w Hctx Hsel Hcmd) as (w1 & Hs & Hd).
  assert (attempt (ScanFolder mb (po_holdFolder p) (po_holdScanLimit p)) w = (Ok (Ok []), w1)) as Ha
    by (unfold attempt; by rewrite Hs).
  rewrite (bind_ok _ _ _ _ _ Ha).
  destruct (ReconcileHold_run E [] w1 Hff) as (w2 & t & Hr & Hsub & _); [by rewrite Hd|].
  cbn [ing_ReconcileHold service_ingester]. rewrite (log_err_run _ _ _ _ Hr). cbn.
  unfold held_ids. rewrite Hsub. assert (∀ sid, in_folder [] (w_db w1) sid = false) as Hf.
  { intros sid. unfold in_folder. apply not_true_iff_false. intros (e & _ & Hb)%existsb_exists.
    apply andb_true_iff in Hb as [Hb%bool_decide_eq_true _]. by apply elem_of_nil in Hb. }
  clear Hsub. induction (db_submissions (w_db w1)) as [|r l IH]; [done|]. cbn. rewrite Hf. exact IH.
Qed.

(** ** A server, a parser and messages to run the poller on *)

Definition demo_server : ImapServer := {|
  srv_dial _ := None; srv_auth _ := None; srv_select _ _ := Ok (1, 1); srv_list _ := Ok ["/"];
  srv_search _ _ := Ok [7]; srv_sizes _ _ := Ok [(7, 100)]; srv_bodies _ _ := Ok [(7, Some "raw")];
  srv_envelopes _ _ := Ok []; srv_caps _ := mkCaps true true; srv_command _ _ := None |}.

(** One that cannot select folders. *)
Definition folderless_server : ImapServer := {|
  srv_dial _ := None; srv_auth _ := None; srv_select _ _ := Err (ErrNew "NO [UNAVAILABLE]");
  srv_list _ := Ok ["/"]; srv_search _ _ := Ok []; srv_sizes _ _ := Ok []; srv_bodies _ _ := Ok [];
  srv_envelopes _ _ := Ok []; srv_caps _ := mkCaps true true; srv_command _ _ := None |}.

Definition demo_maillib : MailLib := {| ParseDate _ := None; base64_Decode s := Some s |}.

Definition demo_payload (content : string) : Payload :=
  mkPayload "m1@broker" "bo@broker.com" (mkAddress "bo@broker.com" "Bo") "" (mkAddress "" "")
    "in@agency.com" [] "New cyber submission" "Hello" "" [mkHeader "In-Reply-To" ""]
    [mkEmlAttachment "application.txt" content "text/plain"] false false "".

(** The raw bytes are the content of the attachment. *)
Definition demo_eml : EmlParser := {| FromReader _ raw := Ok (demo_payload raw) |}.

Definition demo_poller : Poller :=
  mkPoller demo_config.(cfg_IMAP) 50 5 true
    (mkStatusFolders "Ready for Underwriting" "Waiting on Broker" "Escalated" "Unknown Policy") "Hold" 200 zeroTime.
Definition demo_mailbox : mailbox := mkMailbox (32 * 2 ^ 20) "Triage" "/" 1.
Definition demo_raw : rawMessage := mkRawMessage 7 "Named Insured: Acme LLC".

Definition processed_world : World :=
  (process (L := demo_lib) (ML := demo_maillib) (E := demo_env) (Srv := demo_server) (Eml := demo_eml)
     (Ing := service_ingester (L := demo_lib) (E := demo_env) demo_service)
     (Ctl := repository_control (E := demo_env)) demo_poller demo_mailbox demo_raw empty_world).2.

Lemma processed_mail :
  ps_mail (w_poll processed_world) = [CmdSeen 7; CmdMove 7 "Triage/Waiting on Broker"].
Proof. vm_compute. reflexivity. Qed.

Lemma process_marks_settled_witness :
  ps_mail (w_poll processed_world) = [CmdSeen 7; CmdMove 7 "Triage/Waiting on Broker"] ∧
  ingested (L := demo_lib) (ML := demo_maillib) (E := demo_env) (Eml := demo_eml)
    (Ing := service_ingester (L := demo_lib) (E := demo_env) demo_service) demo_raw.
Proof.
  split; [exact processed_mail|].
  assert (marked (L := demo_lib) (ML := demo_maillib) (E := demo_env) (Eml := demo_eml)
    (Ing := service_ingester (L := demo_lib) (E := demo_env) demo_service)
    (Ctl := repository_control (E := demo_env)) demo_poller demo_mailbox demo_raw empty_world processed_world)
    as (cmds & Hm & Hc).
  { exact (process_marks_settled demo_lib demo_maillib demo_env demo_server demo_eml
      (service_ingester (L := demo_lib) (E := demo_env) demo_service) (repository_control (E := demo_env))
      (service_laws (L := demo_lib) (E := demo_env) demo_service) (repository_laws (E := demo_env))
      demo_poller demo_mailbox demo_raw empty_world). }
  rewrite processed_mail in Hm. cbn in Hm. subst cmds.
  destruct Hc as [Hc|(rest & Hc & _ & [Hi|[Hr _]])]; [discriminate Hc|exact Hi|].
  subst rest. discriminate Hc.
Defined.

(** An ingester whose store is full. *)
Definition full_disk : Ingester := {|
  ing_IngestEmail _ := throw (ErrNew "database or disk is full");
  ing_AuditFileFailed _ _ _ := mret (); ing_ReconcileHold _ := mret () |}.

Lemma failing_message_quarantined_witness :
  let w' := process_times (L := demo_lib) (ML := demo_maillib) (E := demo_env) (Srv := demo_server)
    (Eml := demo_eml) (Ing := full_disk) demo_poller demo_mailbox demo_raw 5 empty_world in
  failure_count demo_mailbox demo_raw w' = 5 ∧ CmdSeen 7 ∈ ps_mail (w_poll w').
Proof.
  destruct (failing_message_quarantined demo_lib demo_maillib demo_env demo_server demo_eml full_disk
    demo_poller demo_mailbox demo_raw empty_world 5) as (Hc & _ & Hs).
  - intros n. reflexivity.
  - intros n c. reflexivity.
  - reflexivity.
  - intros n. eexists. reflexivity.
  - intros req w. eexists _, w. split; [reflexivity|]. split; [reflexivity|]. split; [reflexivity|].
    split; reflexivity.
  - reflexivity.
  - split; [exact Hc|]. apply Hs. discriminate.
Defined.

Lemma unselectable_folder_releases_all_witness :
  held_ids (w_db held_world) = ["id-2"] ∧
  held_ids (w_db (reconcileHold (E := demo_env) (Srv := folderless_server)
    (Ing := service_ingester (L := demo_lib) (E := demo_env) demo_service) demo_poller demo_mailbox held_world).2) = [].
Proof.
  split; [vm_compute; reflexivity|].
  apply (unselectable_folder_releases_all demo_lib demo_env folderless_server demo_service demo_poller
    demo_mailbox held_world).
  - intros n. reflexivity.
  - intros n. reflexivity.
  - exact held_world_wf.
  - discriminate.
  - intros n path. eexists. split; reflexivity.
  - intros n c e. discriminate.
Defined.
