(* ===== verification/Workers.v ===== *)
(** The loops of the background workers: [internal/service/escalation.go],
    [outbox_worker.go], [retention.go] and [Run] of [internal/delivery/imap/poller.go].

    Each loop is a [select] over the context and one or two tickers.  Which case fires
    next is up to the clock and the runtime: a loop takes the list of cases that fire,
    in order, and says whether it has returned by the end of it ([true]) or is waiting
    in the [select] ([false]).  [env_cancelled] is the context. *)
From Stdlib Require Import ZArith.
From stdpp Require Import base list strings gmap.
From S2P Require Import Prelude GoStrings GoValues Submission Checklist Classifier ChecklistStore Tables World Repository OutboxRepo Config Service Ingest Delivery Sweeps Translate Imap Poller.

Open Scope Z_scope.

(** A case of the [select]. *)
Inductive wake : Type := WakeDone | WakeTick | WakeDigest.

#[export] Instance wake_eq_dec : EqDecision wake.
Proof. solve_decision. Defined.

(** [time.NewTicker], which panics on an interval that is not positive. *)
Definition NewTicker (d : duration) : M unit :=
  if 0 <? d then mret () else throw (ErrPanic "non-positive interval for NewTicker").

Section loops.
Context {E : Env}.

(** [if ctx.Err() != nil { return }], then [check], then the rest of the loop. *)
Definition on_tick (check : M unit) (loop : M bool) : M bool :=
  w ← get;
  match env_cancelled w.(w_tick) with
  | Some _ => mret true
  | None => check ≫= λ _, loop
  end.

(** A loop over one ticker. *)
Fixpoint tick_loop (check : M unit) (cases : list wake) : M bool :=
  match cases with
  | [] => mret false
  | WakeDone :: _ => mret true
  | WakeTick :: rest => on_tick check (tick_loop check rest)
  | WakeDigest :: rest => tick_loop check rest
  end.

(** The two tickers of the escalation worker; [digest] is off when its channel is nil. *)
Fixpoint escalation_loop (periodic : M unit) (digest : option (M unit)) (cases : list wake) : M bool :=
  match cases with
  | [] => mret false
  | WakeDone :: _ => mret true
  | WakeTick :: rest => on_tick periodic (escalation_loop periodic digest rest)
  | WakeDigest :: rest =>
    match digest with
    | Some send => on_tick send (escalation_loop periodic digest rest)
    | None => escalation_loop periodic digest rest
    end
  end.
End loops.

Section workers.
Context {L : GoLib} {ML : MailLib} {E : Env}.
Context (svc : Service).

Definition EscalationWorker_Run (interval : duration) (cases : list wake) : M bool :=
  NewTicker interval ≫= λ _,
  let digestInterval := Digest_Interval svc.(sv_cfg).(cfg_Digest) in
  (if 0 <? digestInterval then NewTicker digestInterval else mret ()) ≫= λ _,
  escalation_loop (periodic_checks svc) (if 0 <? digestInterval then Some (digest_tick svc) else None) cases.

Definition OutboxWorker_Run (interval : duration) (cases : list wake) : M bool :=
  outbox_sweep svc ≫= λ _, NewTicker interval ≫= λ _, tick_loop (outbox_sweep svc) cases.

Definition RetentionWorker_Run (vacuum : M unit) (interval : duration) (cases : list wake) : M bool :=
  if interval <=? 0 then mret true
  else NewTicker interval ≫= λ _,
       tick_loop (recoverCheck "retention" (retention_sweep svc vacuum)) cases.
End workers.

Section poller_loop.
Context {L : GoLib} {ML : MailLib} {E : Env} {Srv : ImapServer} {Eml : EmlParser}.
Context {Ing : Ingester} {Ctl : IngestControl}.

(** [Poller.Run]'s loop has no check of its own: [pollOnce] looks at the context. *)
Fixpoint poll_loop (poll : M unit) (cases : list wake) : M bool :=
  match cases with
  | [] => mret false
  | WakeDone :: _ => mret true
  | WakeTick :: rest => poll ≫= λ _, poll_loop poll rest
  | WakeDigest :: rest => poll_loop poll rest
  end.

Definition Poller_Run (p : Poller) (cases : list wake) : M bool :=
  cutoff ← resolveCutoff p;
  pollOnce p cutoff ≫= λ _,
  NewTicker (PollInterval p.(po_cfg)) ≫= λ _, poll_loop (pollOnce p cutoff) cases.
End poller_loop.
