(* ===== verification/WorkersProps.v ===== *)
(** Theorems about the background workers: no check that fails or panics ends one, no
    check starts once the context is cancelled, and which intervals are not validated. *)
From Stdlib Require Import ZArith.
From stdpp Require Import base list strings gmap.
From S2P Require Import Prelude GoStrings GoValues Submission Checklist Classifier ChecklistStore Tables World Repository OutboxRepo Config Service Ingest Delivery Sweeps Translate Imap Poller Workers Demo RepositoryProps IngestProps.

Open Scope Z_scope.

(** ** Checks survive their panics *)

(** A body whose failures are all panics. *)
Definition only_panics (m : M unit) : Prop := ∀ w e w', m w = (Err e, w') → ∃ p, e = ErrPanic p.

Lemma only_panics_log_err {A} (m : M A) : only_panics (log_err m).
Proof.
  intros w e w'. unfold log_err, attempt, mbind, M_bind. destruct (m w) as [[a|e'] w1]; [done|].
  destruct e'; intros [= <- <-]; eauto.
Qed.

Lemma only_panics_bind (m : M unit) (f : unit → M unit) :
  only_panics m → (∀ u, only_panics (f u)) → only_panics (m ≫= f).
Proof.
  intros Hm Hf w e w'. unfold mbind, M_bind. destruct (m w) as [[u|e'] w1] eqn:Hw; [apply Hf|].
  intros [= <- <-]. by eapply Hm.
Qed.

Section props.
Context {L : GoLib} {ML : MailLib} {E : Env}.

Lemma recoverCheck_safe name body : only_panics body → safe (recoverCheck name body).
Proof.
  intros Hb w. unfold recoverCheck, recovering. destruct (body w) as [[[]|e] w'] eqn:Hw; [by eexists _, _|].
  destruct (Hb _ _ _ Hw) as [p ->]. apply audit_safe.
Qed.

Lemma periodic_checks_safe svc : safe (periodic_checks svc).
Proof. apply recoverCheck_safe, only_panics_bind; intros; apply only_panics_log_err. Qed.

Lemma digest_tick_safe svc : safe (digest_tick svc).
Proof. apply recoverCheck_safe, only_panics_log_err. Qed.

Lemma outbox_sweep_safe svc : safe (outbox_sweep svc).
Proof. apply recoverCheck_safe, only_panics_log_err. Qed.

Lemma retention_check_safe svc vacuum : safe (recoverCheck "retention" (retention_sweep svc vacuum)).
Proof.
  apply recoverCheck_safe. intros w e w'. unfold retention_sweep, attempt, mbind, M_bind.
  destruct (PruneRetention svc w) as [[n|e'] w1].
  - destruct (n =? 0); [done|]. apply only_panics_log_err.
  - destruct e'; intros [= <- <-]; eauto.
Qed.

(** ** Loops *)

(** The checks a list of cases asks for, when the context is never cancelled. *)
Fixpoint checks_of (periodic : M unit) (digest : option (M unit)) (cases : list wake) : list (M unit) :=
  match cases with
  | [] | WakeDone :: _ => []
  | WakeTick :: rest => periodic :: checks_of periodic digest rest
  | WakeDigest :: rest => option_list digest ++ checks_of periodic digest rest
  end.

Definition all_checks : list (M unit) → M unit := for_each (λ check, check).

(** What it means for a loop to do its job: it never fails; it returns only on the
    context; and as long as the context lives every case that fires has its check run. *)
Definition serves (loop : list wake → M bool) (before : list (M unit)) (periodic : M unit)
    (digest : option (M unit)) : Prop :=
  ∀ cases w, ∃ b w', loop cases w = (Ok b, w') ∧
    ((∀ n, env_cancelled n = None) →
       b = bool_decide (WakeDone ∈ cases) ∧
       all_checks (before ++ checks_of periodic digest cases) w = (Ok (), w')).


Lemma all_checks_cons check l w w1 :
  check w = (Ok (), w1) → all_checks (check :: l) w = all_checks l w1.
Proof. intros Hw. exact (bind_ok check (λ _, all_checks l) () w w1 Hw). Qed.

Lemma escalation_loop_serves periodic digest :
  safe periodic → (∀ send, digest = Some send → safe send) →
  serves (escalation_loop periodic digest) [] periodic digest.
Proof.
  intros Hp Hd cases. cbn [app].
  assert (∀ check rest w, safe check →
    (∀ w, ∃ b w', escalation_loop periodic digest rest w = (Ok b, w') ∧
       ((∀ n, env_cancelled n = None) →
          b = bool_decide (WakeDone ∈ rest) ∧ all_checks (checks_of periodic digest rest) w = (Ok (), w'))) →
    ∃ b w', on_tick check (escalation_loop periodic digest rest) w = (Ok b, w') ∧
       ((∀ n, env_cancelled n = None) → b = bool_decide (WakeDone ∈ rest) ∧
          all_checks (check :: checks_of periodic digest rest) w = (Ok (), w'))) as Htick.
  { intros check rest w Hs IH. unfold on_tick, mbind, M_bind at 1, get.
    destruct (env_cancelled (w_tick w)) as [e|] eqn:Hc.
    - exists true, w. split; [done|]. intros Hn. by rewrite Hn in Hc.
    - destruct (Hs w) as ([] & w1 & Hw1). destruct (IH w1) as (b & w' & Hl & Hn).
      exists b, w'. unfold M_bind. rewrite Hw1. split; [done|]. intros Hq.
      rewrite (all_checks_cons _ _ _ _ Hw1). by apply Hn. }
  induction cases as [|[] rest IH]; intros w; cbn [escalation_loop checks_of].
  - exists false, w. done.
  - exists true, w. split; [done|]. intros _. split; [|done]. symmetry. apply bool_decide_eq_true_2. by left.
  - destruct (Htick periodic rest w Hp IH) as (b & w' & Hl & Hn). exists b, w'. split; [done|]. intros Hq.
    destruct (Hn Hq) as [-> ?]. split; [|done]. apply bool_decide_ext. rewrite elem_of_cons. naive_solver.
  - destruct digest as [send|]; cbn [option_list app].
    + destruct (Htick send rest w (Hd _ eq_refl) IH) as (b & w' & Hl & Hn). exists b, w'. split; [done|]. intros Hq.
      destruct (Hn Hq) as [-> ?]. split; [|done]. apply bool_decide_ext. rewrite elem_of_cons. naive_solver.
    + destruct (IH w) as (b & w' & Hl & Hn). exists b, w'. split; [done|]. intros Hq.
      destruct (Hn Hq) as [-> ?]. split; [|done]. apply bool_decide_ext. rewrite elem_of_cons. naive_solver.
Qed.

Lemma tick_loop_escalation check cases : tick_loop check cases = escalation_loop check None cases.
Proof. induction cases as [|[] rest IH]; cbn; by rewrite ?IH. Qed.

Lemma NewTicker_pos d : 0 < d → NewTicker d = mret ().
Proof. unfold NewTicker. intros. by rewrite (proj2 (Z.ltb_lt 0 d)). Qed.

(** C36: With positive intervals no background worker ever dies.  Whatever its checks do
    (fail, panic, find the database or the mail server gone), the worker goes on to the
    next tick, and while the context lives it runs exactly the checks its tickers ask
    for, in order, the outbox worker one more at the start; it returns on the context
    only. *)
Theorem workers_survive svc vacuum escalation flush retention :
  0 < escalation → 0 < flush → 0 < retention →
  let digest := if 0 <? Digest_Interval svc.(sv_cfg).(cfg_Digest) then Some (digest_tick svc) else None in
  serves (EscalationWorker_Run svc escalation) [] (periodic_checks svc) digest ∧
  serves (OutboxWorker_Run svc flush) [outbox_sweep svc] (outbox_sweep svc) None ∧
  serves (RetentionWorker_Run svc vacuum retention) []
    (recoverCheck "retention" (retention_sweep svc vacuum)) None.
Proof.
  intros He Hf Hr digest. split_and!.
  - intros cases w. unfold EscalationWorker_Run. rewrite (NewTicker_pos escalation) by done.
    assert ((if 0 <? Digest_Interval (cfg_Digest (sv_cfg svc)) then NewTicker (Digest_Interval (cfg_Digest (sv_cfg svc)))
             else mret ()) = mret ()) as Hd.
    { destruct (Z.ltb_spec 0 (Digest_Interval (cfg_Digest (sv_cfg svc)))); [by apply NewTicker_pos|done]. }
    cbv zeta. rewrite Hd. apply escalation_loop_serves; [apply periodic_checks_safe|].
    intros send. destruct (_ <? _); [intros [= <-]; apply digest_tick_safe|done].
  - intros cases w. unfold OutboxWorker_Run. destruct (outbox_sweep_safe svc w) as ([] & w1 & Hw).
    rewrite (bind_ok _ _ _ _ _ Hw), NewTicker_pos by done.
    destruct (escalation_loop_serves (outbox_sweep svc) None (outbox_sweep_safe svc) ltac:(done) cases w1)
      as (b & w' & Hl & Hn).
    exists b, w'. split; [by rewrite <- tick_loop_escalation in Hl|]. cbn [app].
    intros Hq. rewrite (all_checks_cons _ _ _ _ Hw). by apply Hn.
  - intros cases w. unfold RetentionWorker_Run. destruct (Z.leb_spec retention 0); [lia|]. rewrite NewTicker_pos by done.
    destruct (escalation_loop_serves _ None (retention_check_safe svc vacuum) ltac:(done) cases w) as (b & w' & Hl & Hn).
    exists b, w'. split; [by rewrite <- tick_loop_escalation in Hl|done].
Qed.

(** A tick that comes with the cancellation starts nothing. *)
Lemma cancelled_loop_idle periodic digest c rest e w :
  env_cancelled w.(w_tick) = Some e → (c = WakeDigest → digest ≠ None) →
  escalation_loop periodic digest (c :: rest) w = (Ok true, w).
Proof.
  intros Hc Hd. destruct c; cbn [escalation_loop]; [done|..];
    [|destruct digest; [|by destruct Hd]]; unfold on_tick, mbind, M_bind, get; by rewrite Hc.
Qed.

(** ** Intervals *)

Definition with_flush_seconds (n : Z) (c : Config) : Config :=
  mkConfig c.(cfg_Service) c.(cfg_HTTP) c.(cfg_Database) c.(cfg_Log) c.(cfg_IMAP) c.(cfg_SMTP) c.(cfg_Mail)
    c.(cfg_Outbound) c.(cfg_Anthropic) c.(cfg_Classifier) c.(cfg_Document) c.(cfg_Checklists)
    c.(cfg_Escalation) c.(cfg_Digest) c.(cfg_Retry)
    (let r := c.(cfg_Reply) in
     mkReplyConfig r.(rpl_Workers) r.(rpl_QueueSize) r.(rpl_RepliesEnabled) r.(rpl_PolicyClarifyMaxAsks)
       r.(rpl_CoalesceWindowSeconds) n)
    c.(cfg_Threading) c.(cfg_Retention).

(** The flush interval is not validated.  With it set to zero, any configuration that
    validates still does, and the outbox worker panics at its ticker, which nothing
    recovers, after its first sweep. *)
Theorem flush_interval_unchecked c svc cases w :
  Validate c = Ok () →
  let c' := with_flush_seconds 0 c in
  Validate c' = Ok () ∧
  ∃ w', OutboxWorker_Run svc (FlushInterval c'.(cfg_Reply)) cases w =
        (Err (ErrPanic "non-positive interval for NewTicker"), w').
Proof.
  intros Hv c'. split; [exact Hv|]. unfold OutboxWorker_Run.
  destruct (outbox_sweep_safe svc w) as ([] & w1 & Hw). exists w1.
  by rewrite (bind_ok _ _ _ _ _ Hw).
Qed.
End props.

(** ** Runs *)

Lemma workers_survive_witness :
  ∃ b w', OutboxWorker_Run (L := demo_lib) (E := demo_env) demo_service Minute [WakeTick; WakeDone] empty_world =
          (Ok b, w').
Proof.
  destruct (workers_survive (L := demo_lib) (E := demo_env) demo_service (mret ()) Minute Minute Minute
    eq_refl eq_refl eq_refl) as (_ & Ho & _).
  destruct (Ho [WakeTick; WakeDone] empty_world) as (b & w' & Hr & _). exists b, w'. exact Hr.
Defined.

Lemma demo_config_validates : Validate (L := demo_lib) demo_config = Ok ().
Proof. vm_compute. reflexivity. Qed.

Lemma flush_interval_unchecked_witness :
  let c' := with_flush_seconds 0 demo_config in
  Validate (L := demo_lib) c' = Ok () ∧
  ∃ w', OutboxWorker_Run (L := demo_lib) (E := demo_env) demo_service (FlushInterval c'.(cfg_Reply)) [] empty_world =
        (Err (ErrPanic "non-positive interval for NewTicker"), w').
Proof.
  exact (flush_interval_unchecked (L := demo_lib) (E := demo_env) demo_config demo_service [] empty_world
    demo_config_validates).
Defined.
