(* ===== verification/App.v ===== *)
(** Putting the service together: [internal/app/build.go], with the token sources of
    [internal/infrastructure/oauth] and the authenticators of
    [internal/delivery/imap/auth.go] it chooses between.

    [Build] runs in a state that knows whether the database handle is open, on top of
    the service's world.  What opening and migrating the database come to ([Schema]) and
    what the checklist directory holds are arguments. *)
From Stdlib Require Import ZArith.
From stdpp Require Import base list strings gmap.
From S2P Require Import Prelude GoStrings GoValues Submission Checklist Reply TextUtil Classifier Extract ChecklistStore Tables World Repository OutboxRepo Config Service Ingest Delivery Sweeps Smtp Retry SmtpSend Translate Llm Imap Poller Health.

Open Scope Z_scope.

(** ** Token sources *)

Definition googleAuthURL : string := "https://accounts.google.com/o/oauth2/auth".
Definition googleTokenURL : string := "https://oauth2.googleapis.com/token".
Definition googleMailScope : string := "https://mail.google.com/".
Definition microsoftScope : string := "https://outlook.office365.com/.default".
Definition microsoftTokenURL (tenant : string) : string :=
  "https://login.microsoftonline.com/" +:+ tenant +:+ "/oauth2/v2.0/token".

(** The configurations of [golang.org/x/oauth2] the program makes. *)
Inductive oauth_grant : Type :=
| ClientCredentials (clientID clientSecret tokenURL : string) (scopes : list string)
| StoredRefreshToken (clientID clientSecret authURL tokenURL : string) (scopes : list string) (refresh : string).

Record reuseSource : Type := mkReuseSource { rs_provider : string; rs_src : oauth_grant }.

Section app.
Context {L : GoLib} {E : Env}.

Definition NewTokenSource (cfg : OAuthConfig) : result reuseSource :=
  let provider := ToLower cfg.(oauth_Provider) in
  if bool_decide (provider = OAuthProviderMicrosoft) then
    Ok (mkReuseSource OAuthProviderMicrosoft
          (ClientCredentials cfg.(oauth_ClientID) cfg.(oauth_ClientSecret)
             (microsoftTokenURL cfg.(oauth_TenantID)) [microsoftScope]))
  else if bool_decide (provider = OAuthProviderGoogle) then
    Ok (mkReuseSource OAuthProviderGoogle
          (StoredRefreshToken cfg.(oauth_ClientID) cfg.(oauth_ClientSecret) googleAuthURL googleTokenURL
             [googleMailScope] cfg.(oauth_RefreshToken)))
  else Err (ErrNew ("oauth: unknown provider " +:+ cfg.(oauth_Provider))).

(** What [golang.org/x/oauth2] answers for a grant. *)
Context (fetch : oauth_grant → nat → token_error + string).

Definition source_token (ts : reuseSource) : M string := Token ts.(rs_provider) (fetch ts.(rs_src)).

(** ** Logging into IMAP *)

(** The command an [Authenticator] gives the server. *)
Inductive imap_login : Type :=
| ImapLogin (username password : string)
| ImapAuthenticate (mechanism initial : string).

Definition Authenticator : Type := M imap_login.

Definition PasswordAuth (username password : string) : Authenticator := mret (ImapLogin username password).

(** A fresh token for every connection; its payload is [xoauth2Client.Start]'s. *)
Definition imap_XOAUTH2Auth (user : string) (ts : reuseSource) : Authenticator :=
  token ← source_token ts; mret (ImapAuthenticate "XOAUTH2" (XOAUTH2Payload user token)).

(** ** Senders *)

Inductive Sender : Type := SenderSMTP (s : SMTPSender) | SenderLog.

Definition Sender_Name (s : Sender) : string := match s with SenderSMTP _ => "smtp" | SenderLog => "log" end.

Definition SendThreadedReply {MM : MimeLib} {N : NetEnv} {S : SmtpServer} (s : Sender) (r : Reply) : M string :=
  match s with SenderSMTP smtp => smtp_SendThreadedReply smtp r | SenderLog => log_SendThreadedReply r end.

Definition chooseSender (cfg : Config) (tokenSource : option reuseSource) : result Sender :=
  let auth := (λ ts, XOAUTH2Auth cfg.(cfg_Mail).(mail_OAuth).(oauth_User) (source_token ts)) <$> tokenSource in
  let smtp := SenderSMTP (mkSMTPSender cfg.(cfg_SMTP) auth cfg.(cfg_Retry).(rty_Attempts) (BaseDelay cfg.(cfg_Retry))) in
  let provider := ToLower cfg.(cfg_Outbound).(out_Provider) in
  if bool_decide (provider = "smtp") then
    if SMTP_Configured cfg.(cfg_SMTP) then Ok smtp
    else Err (ErrNew "OUTBOUND_PROVIDER=smtp but SMTP is not configured: set SMTP_HOST and SMTP_FROM_ADDRESS")
  else if bool_decide (provider = "log") then Ok SenderLog
  else if bool_decide (provider = "") then
    if SMTP_Configured cfg.(cfg_SMTP) then Ok smtp
    else Err (ErrNew "no outbound provider configured: set SMTP_*, or OUTBOUND_PROVIDER=log to send nothing")
  else Err (ErrNew ("unknown outbound provider " +:+ cfg.(cfg_Outbound).(out_Provider) +:+ " (want smtp|log)")).

(** ** Extractors *)

Definition buildExtractors {R : DocReaders} : gmap string TextExtractor :=
  let ext (f : string → result string) : TextExtractor := λ data, Some (f data) in
  list_to_map
    [("application/pdf", ext PDF_Extract); ("application/x-pdf", ext PDF_Extract);
     ("application/vnd.openxmlformats-officedocument.wordprocessingml.document", ext DOCX_Extract);
     ("application/vnd.openxmlformats-officedocument.spreadsheetml.sheet", ext XLSX_Extract);
     ("text/csv", ext CSV_Extract); ("application/csv", ext CSV_Extract)].

(** ** Configuration at startup *)

Definition resolveDeprecatedConfig (c : Config) : Config :=
  let i := c.(cfg_IMAP) in
  let i' := if bool_decide (i.(imap_CompleteLabel) = "") then i
            else mkIMAPConfig i.(imap_Host) i.(imap_Port) i.(imap_Username) i.(imap_Password) i.(imap_Mailbox)
                   i.(imap_PollIntervalSeconds) i.(imap_MaxMessageMB) i.(imap_FileByStatus) i.(imap_FolderPrefix)
                   i.(imap_CompleteLabel) i.(imap_FolderAwaiting) i.(imap_FolderEscalated)
                   i.(imap_FolderUnknownPolicy) i.(imap_FolderHold) i.(imap_HoldScanLimit) i.(imap_IgnoreBefore)
                   i.(imap_PollMaxAttempts) i.(imap_PollTimeoutSeconds) i.(imap_CompleteLabel) in
  let d := c.(cfg_Digest) in
  let d' := mkDigestConfig
    (if d.(dig_LegacyIntervalHours) =? 0 then d.(dig_IntervalHours) else d.(dig_LegacyIntervalHours))
    (if bool_decide (d.(dig_LegacyRecipient) = "") then d.(dig_Recipient) else d.(dig_LegacyRecipient))
    d.(dig_MaxRows) d.(dig_LegacyIntervalHours) d.(dig_LegacyRecipient) in
  mkConfig c.(cfg_Service) c.(cfg_HTTP) c.(cfg_Database) c.(cfg_Log) i' c.(cfg_SMTP) c.(cfg_Mail)
    c.(cfg_Outbound) c.(cfg_Anthropic) c.(cfg_Classifier) c.(cfg_Document) c.(cfg_Checklists)
    c.(cfg_Escalation) d' c.(cfg_Retry) c.(cfg_Reply) c.(cfg_Threading) c.(cfg_Retention).

Definition anyChecklistDigestRecipient (st : Store) : bool :=
  existsb (λ c, negb (bool_decide (c.(cl_Escalation).(ep_DigestRecipient) = ""))) st.(store_All).

(** The gaps, in the order they are logged. *)
Inductive startup_gap : Type :=
| NoDigestRecipient | NoChecklists | NoLLMKey | LogProvider | RepliesDisabled | NoDigestInterval
| NoRetention | NoMessageCap.

Definition warnStartupGaps (cfg : Config) (st : Store) (senderName : string) : list startup_gap :=
  let warn (b : bool) (g : startup_gap) := if b then [g] else [] in
  warn (bool_decide (cfg.(cfg_Digest).(dig_Recipient) = "") && negb (anyChecklistDigestRecipient st)) NoDigestRecipient ++
  warn (bool_decide (st.(store_All) = [])) NoChecklists ++
  warn (bool_decide (cfg.(cfg_Anthropic).(llm_APIKey) = "")) NoLLMKey ++
  warn (bool_decide (senderName = "log")) LogProvider ++
  warn (bool_decide (cfg.(cfg_Reply).(rpl_RepliesEnabled) = Some false)) RepliesDisabled ++
  warn (cfg.(cfg_Digest).(dig_IntervalHours) <=? 0) NoDigestInterval ++
  warn (cfg.(cfg_Retention).(ret_IntervalHours) <=? 0) NoRetention ++
  warn (cfg.(cfg_IMAP).(imap_MaxMessageMB) =? 0) NoMessageCap.

(** ** Build *)

(** The world and whether the database handle is open. *)
Definition B (A : Type) : Type := World * bool → result A * (World * bool).

#[local] Instance B_ret : MRet B := λ A a s, (Ok a, s).
#[local] Instance B_bind : MBind B := λ A B' f m s,
  match m s with (Ok a, s') => f a s' | (Err e, s') => (Err e, s') end.

Definition lift {A} (m : M A) : B A := λ '(w, h), let '(r, w') := m w in (r, (w', h)).
Definition db_Close : B unit := λ '(w, _), (Ok (), (w, false)).

(** [if err != nil { _ = db.Close(); return nil, err }] *)
Definition or_close {A} (r : result A) : B A :=
  λ s, match r with Ok a => (Ok a, s) | Err e => (Err e, (db_Close s).2) end.

(** [opened] and [migrated] are what [database.Open] and [database.Migrate] come to. *)
Definition openDB (opened migrated : result unit) : B unit := λ '(w, h),
  match opened with
  | Err e => (Err e, (w, h))
  | Ok _ => or_close migrated (w, true)
  end.

Record BuiltApp : Type := mkBuiltApp {
  ba_Service : Service;
  ba_Sender : Sender;
  ba_imapAuth : Authenticator;
  ba_Poller : option Poller;
  ba_Health : HealthHandler;
  ba_Gaps : list startup_gap }.

Section build.
Context {R : DocReaders} {J : JsonLib} {N : NetEnv} {Srv : LlmServer} (parse : string → result rawChecklist).

Definition Build (cfg : Config) (opened migrated : result unit) (checklist_dir : list DirEntry) : B BuiltApp :=
  let cfg := resolveDeprecatedConfig cfg in
  openDB opened migrated ≫= λ _,
  or_close (match NewYAMLStore parse checklist_dir with
            | Ok s => Ok (yaml_store s)
            | Err e => Err (ErrWrap "load checklists" e)
            end) ≫= λ checklists,
  let llm := if bool_decide (cfg.(cfg_Anthropic).(llm_APIKey) = "") then None
             else Some (anthropic_client (NewAnthropicClient cfg.(cfg_Anthropic) true
                          cfg.(cfg_Retry).(rty_Attempts) (BaseDelay cfg.(cfg_Retry)))) in
  or_close (if OAuthEnabled cfg.(cfg_Mail)
            then match NewTokenSource cfg.(cfg_Mail).(mail_OAuth) with Ok ts => Ok (Some ts) | Err e => Err e end
            else Ok None) ≫= λ tokenSource,
  or_close (chooseSender cfg tokenSource) ≫= λ sender,
  let svc := NewSubmissionsService cfg checklists buildExtractors llm (Sender_Name sender) in
  let imapAuth := match tokenSource with
                  | Some ts => imap_XOAUTH2Auth cfg.(cfg_Mail).(mail_OAuth).(oauth_User) ts
                  | None => PasswordAuth cfg.(cfg_IMAP).(imap_Username) cfg.(cfg_IMAP).(imap_Password)
                  end in
  (if IMAPConfigured cfg then lift (NewPoller cfg.(cfg_IMAP)) ≫= λ p, mret (Some p) else mret None) ≫= λ poller,
  let gaps := warnStartupGaps cfg checklists (Sender_Name sender) in
  let health := mkHealthHandler ((λ _, poller_status) <$> poller) (PollStaleAfter cfg) in
  mret (mkBuiltApp svc sender imapAuth poller health gaps).
End build.

(** ** Run *)

(** What a run of the process does, in order. *)
Inductive life_event : Type :=
| OpenedLog | BuiltService | Listening (port : Z) | StartedWorkers (poller : bool) | CancelledContext
| StoppedServer | WaitedForWorkers (within : duration) (all_stopped : bool) | DrainedReplies | ClosedDatabase | ClosedLog.

(** How the world answers a run: a fatal error of [ListenAndServe], and whether the
    workers stop in time.  Without the error the context ends on a signal. *)
Record life : Type := mkLife { lf_listen : option error; lf_workersStop : bool }.

(** [awaitShutdownAndStop]: the server, then the workers, then the replies. *)
Definition awaitShutdownAndStop (cfg : Config) (l : life) : list life_event :=
  [CancelledContext; StoppedServer; WaitedForWorkers (ShutdownTimeout cfg.(cfg_HTTP)) l.(lf_workersStop); DrainedReplies].

(** [Run] after its deferred calls; [build] has closed the database when it fails. *)
Definition Run (load : result Config) (log : result unit) (migrateOnly : bool)
    (build : Config → result BuiltApp) (l : life) : result unit * list life_event :=
  match load with
  | Err e => (Err (ErrWrap "load config" e), [])
  | Ok cfg =>
    match log with
    | Err e => (Err (ErrWrap "setup logger" e), [])
    | Ok _ =>
      match build cfg with
      | Err e => (Err e, [OpenedLog; ClosedLog])
      | Ok built =>
        if migrateOnly then (Ok (), [OpenedLog; BuiltService; DrainedReplies; ClosedDatabase; ClosedLog])
        else
          (match l.(lf_listen) with Some e => Err (ErrWrap "http server failed" e) | None => Ok () end,
           [OpenedLog; BuiltService; Listening cfg.(cfg_HTTP).(http_Port);
            StartedWorkers (match built.(ba_Poller) with Some _ => true | None => false end)] ++
           awaitShutdownAndStop cfg l ++ [ClosedDatabase; ClosedLog])
      end
    end
  end.
End app.
