(* ===== verification/AppProps.v ===== *)
(** Theorems about startup: a validated configuration can be built, and a build that
    fails leaves nothing open. *)
From Stdlib Require Import ZArith.
From stdpp Require Import base list strings gmap.
From S2P Require Import Prelude GoStrings GoValues Submission Checklist Reply TextUtil Classifier Extract ChecklistStore Tables World Repository OutboxRepo Config Service Ingest Delivery Sweeps Smtp Retry SmtpSend Translate Llm LlmProps Imap Poller Health App Demo RepositoryProps.

Open Scope Z_scope.

Section props.
Context {L : GoLib} {E : Env} (fetch : oauth_grant → nat → token_error + string).

(** Deprecated settings are applied after validation, and cannot undo it. *)
Lemma resolve_keeps_validation c : Validate (resolveDeprecatedConfig c) = Validate c.
Proof. unfold resolveDeprecatedConfig. destruct (bool_decide _); reflexivity. Qed.

Lemma resolve_frame c :
  let c' := resolveDeprecatedConfig c in
  c'.(cfg_Mail) = c.(cfg_Mail) ∧ c'.(cfg_SMTP) = c.(cfg_SMTP) ∧ c'.(cfg_Outbound) = c.(cfg_Outbound) ∧
  IMAPConfigured c' = IMAPConfigured c.
Proof. unfold resolveDeprecatedConfig. destruct (bool_decide _); split_and!; reflexivity. Qed.

(** ** Case folding of ASCII settings *)

Definition ascii_runes (s : string) : Prop := ∀ r, r ∈ runes s → r < 128.

Lemma fold_lower (a b : list Z) :
  (∀ r, r ∈ a → r < 128) → (∀ r, r ∈ b → r < 128 ∧ ascii_lower r = r) →
  runes_fold_eq a b = true → rune_lower <$> a = b.
Proof.
  revert b. induction a as [|x a IH]; intros [|y b] Ha Hb; cbn [runes_fold_eq fmap list_fmap]; try done.
  intros [Hxy Hrest]%andb_true_iff. pose proof (Ha x ltac:(by left)) as Hx. pose proof (Hb y ltac:(by left)) as [Hy Hly].
  f_equal; [|apply IH; [set_solver..|done]]. unfold rune_lower, rune_fold_eq in *.
  rewrite (proj2 (Z.ltb_lt x 128) Hx) in *. rewrite (proj2 (Z.ltb_lt y 128) Hy) in *. cbn [andb] in *.
  apply orb_true_iff in Hxy as [->%Z.eqb_eq|Hxy%Z.eqb_eq]; congruence.
Qed.

Lemma oauth_mode_lower m :
  ascii_runes m.(mail_AuthMode) → OAuthEnabled m = true → ToLower m.(mail_AuthMode) = AuthModeOAuth.
Proof.
  intros Ha Hm. unfold ToLower, strings_Map.
  change (map rune_lower (runes (mail_AuthMode m))) with (rune_lower <$> runes (mail_AuthMode m)).
  rewrite (fold_lower (runes (mail_AuthMode m)) (runes AuthModeOAuth) Ha); [reflexivity| |exact Hm].
  vm_compute. intros r Hr. repeat (apply elem_of_cons in Hr as [->|Hr]; [done|]). by apply elem_of_nil in Hr.
Qed.

(** ** Choosing the parts *)

Definition sender_usable (c : Config) : Prop :=
  let provider := ToLower c.(cfg_Outbound).(out_Provider) in
  provider = "log" ∨ (provider = "smtp" ∨ provider = "") ∧ SMTP_Configured c.(cfg_SMTP) = true.

Lemma chooseSender_usable c ts : is_ok (chooseSender fetch c ts) = true ↔ sender_usable c.
Proof.
  unfold chooseSender, sender_usable. generalize (ToLower (out_Provider (cfg_Outbound c))). intros p.
  destruct (SMTP_Configured (cfg_SMTP c)); repeat case_bool_decide; subst; cbn; naive_solver.
Qed.

Lemma NewTokenSource_valid o : oauth_ok o → ∃ ts, NewTokenSource o = Ok ts.
Proof.
  intros (_ & _ & _ & _ & [[Hp _]|[Hp _]]); unfold NewTokenSource; rewrite Hp; by eexists.
Qed.

Lemma valid_token_source c :
  Validate c = Ok () → ascii_runes c.(cfg_Mail).(mail_AuthMode) → OAuthEnabled c.(cfg_Mail) = true →
  ∃ ts, NewTokenSource c.(cfg_Mail).(mail_OAuth) = Ok ts.
Proof.
  intros Hv Ha Hm. apply NewTokenSource_valid. apply Validate_spec in Hv. destruct Hv as [_ _ _ _ Hmail _ _ _].
  rewrite (oauth_mode_lower _ Ha Hm) in Hmail. destruct Hmail as [Hin|[_ ?]]; [|done].
  unfold AuthModeOAuth, AuthModePassword in Hin. rewrite !elem_of_cons, elem_of_nil in Hin. naive_solver.
Qed.

Lemma chooseSender_auth c ts s :
  chooseSender fetch c ts = Ok (SenderSMTP s) → ∀ m, cfg_Mail c = m →
  s.(ss_auth) = (λ ts, XOAUTH2Auth m.(mail_OAuth).(oauth_User) (source_token fetch ts)) <$> ts.
Proof.
  intros Hs m <-. unfold chooseSender in Hs. cbv zeta in Hs.
  repeat match type of Hs with context [if ?b then _ else _] => destruct b end; try discriminate; by injection Hs as <-.
Qed.

Section build.
Context {R : DocReaders} {J : JsonLib} {N : NetEnv} {Srv : LlmServer} (parse : string → result rawChecklist).

(** How the parts of a built service go together. *)
Record wired (c : Config) (app : BuiltApp) : Prop := {
  wired_poller : is_Some app.(ba_Poller) ↔ IMAPConfigured c = true;
  wired_health : is_Some app.(ba_Health).(hh_poll) ↔ is_Some app.(ba_Poller);
  wired_via : app.(ba_Service).(sv_mailName) = Sender_Name app.(ba_Sender);
  wired_auth : OAuthEnabled c.(cfg_Mail) = true → ∃ ts,
    NewTokenSource c.(cfg_Mail).(mail_OAuth) = Ok ts ∧
    app.(ba_imapAuth) = imap_XOAUTH2Auth fetch c.(cfg_Mail).(mail_OAuth).(oauth_User) ts ∧
    ∀ s, app.(ba_Sender) = SenderSMTP s →
      s.(ss_auth) = Some (XOAUTH2Auth c.(cfg_Mail).(mail_OAuth).(oauth_User) (source_token fetch ts));
  wired_llm : is_Some app.(ba_Service).(sv_llm) ↔ c.(cfg_Anthropic).(llm_APIKey) ≠ "" }.

(** Startup is all or nothing.  For a configuration that validates, the build succeeds
    exactly when the database opens and migrates, the checklists load and the outbound
    provider is usable (OAuth credentials never get in the way); a build that fails has
    closed the database, one that succeeds has it open.  In a built service there is a
    poller, and health looks at it, exactly when IMAP is configured; IMAP and SMTP log in
    with the same token source; and the LLM is used exactly when there is a key. *)
Theorem Build_spec c opened migrated dir w :
  Validate c = Ok () → ascii_runes c.(cfg_Mail).(mail_AuthMode) →
  let '(r, (_, handle)) := Build fetch parse c opened migrated dir (w, false) in
  handle = is_ok r ∧
  (is_ok r = true ↔ is_ok opened = true ∧ is_ok migrated = true ∧ is_ok (NewYAMLStore parse dir) = true ∧
                    sender_usable c) ∧
  (∀ app, r = Ok app → wired c app).
Proof.
  intros Hv Ha. destruct (resolve_frame c) as (Hm & Hs & Ho & Hi). unfold Build.
  set (c' := resolveDeprecatedConfig c) in *.
  assert (sender_usable c' ↔ sender_usable c) as Hu by (unfold sender_usable; by rewrite Hs, Ho).
  assert (cfg_Anthropic c' = cfg_Anthropic c) as Hk by (subst c'; done).
  unfold mbind, B_bind, openDB, or_close. cbv zeta.
  destruct opened as [[]|e]; [|split_and!; cbn; naive_solver].
  destruct migrated as [[]|e]; [|split_and!; cbn; naive_solver].
  destruct (NewYAMLStore parse dir) as [st|e]; [|split_and!; cbn; naive_solver]. rewrite Hm.
  assert (∃ ts, (if OAuthEnabled (cfg_Mail c) then
            match NewTokenSource (mail_OAuth (cfg_Mail c)) with Ok ts => Ok (Some ts) | Err e => Err e end
          else Ok None) = Ok ts ∧
          (OAuthEnabled (cfg_Mail c) = true → ∃ t, ts = Some t ∧ NewTokenSource (mail_OAuth (cfg_Mail c)) = Ok t))
    as (ts & -> & Hts).
  { destruct (OAuthEnabled (cfg_Mail c)) eqn:He; [|by exists None].
    destruct (valid_token_source c Hv Ha He) as [t Ht]. rewrite Ht. exists (Some t). split; [done|]. intros _. by exists t. }
  pose proof (chooseSender_usable c' ts) as Hc. rewrite Hu in Hc.
  destruct (chooseSender fetch c' ts) as [sender|e] eqn:Hsend; [|split_and!; cbn in *; naive_solver].
  assert (∀ app, app.(ba_Sender) = sender → app.(ba_Service).(sv_mailName) = Sender_Name sender →
    (is_Some app.(ba_Poller) ↔ IMAPConfigured c = true) →
    (is_Some app.(ba_Health).(hh_poll) ↔ is_Some app.(ba_Poller)) →
    app.(ba_imapAuth) = match ts with
                        | Some ts => imap_XOAUTH2Auth fetch c.(cfg_Mail).(mail_OAuth).(oauth_User) ts
                        | None => PasswordAuth (imap_Username (cfg_IMAP c')) (imap_Password (cfg_IMAP c'))
                        end →
    (is_Some app.(ba_Service).(sv_llm) ↔ c.(cfg_Anthropic).(llm_APIKey) ≠ "") → wired c app) as Hwired.
  { intros app Hsa Hvia Hpo Hhe Hau Hll. split; [done|done|by rewrite Hsa| |done].
    intros He. destruct (Hts He) as (t & -> & Ht). exists t. split_and!; [done|done|].
    intros s Hss. rewrite <- Hsa, Hss in Hsend.
    by rewrite (chooseSender_auth _ _ _ Hsend _ Hm). }
  assert (∀ b : bool, b = true → (b = true ↔ true = true ∧ true = true ∧ true = true ∧ sender_usable c)) as Htrue
    by (cbn in Hc; naive_solver).
  rewrite Hi. unfold lift, mret, B_ret, NewPoller, mbind, M_bind, mret, M_ret, time_Now, modify.
  destruct (IMAPConfigured c) eqn:Hic; (split_and!; [done|by apply Htrue|]); intros app [= <-];
    (apply Hwired; cbn; [done|done|by rewrite is_Some_alt|by rewrite !is_Some_alt|done|]);
    try rewrite Hk; case_bool_decide; rewrite is_Some_alt; naive_solver.
Qed.
End build.
End props.

(** ** Shutdown order *)

Lemma Run_order load log migrateOnly build l :
  let '(r, events) := Run load log migrateOnly build l in
  (BuiltService ∈ events → ∃ before, events = before ++ [DrainedReplies; ClosedDatabase; ClosedLog] ∧
     DrainedReplies ∉ before ∧ ClosedDatabase ∉ before) ∧
  (r = Ok () → BuiltService ∈ events).
Proof.
  unfold Run, awaitShutdownAndStop.
  destruct load as [c|e]; [|set_solver]. destruct log as [[]|e]; [|set_solver].
  destruct (build c) as [app|e]; [|set_solver]. destruct migrateOnly; cbn.
  - split; [|set_solver]. intros _. exists [OpenedLog; BuiltService]. set_solver.
  - split; [|set_solver]. intros _. eexists [_; _; _; _; _; _; _]. split; [reflexivity|]. set_solver.
Qed.

(** ** A build *)

Definition log_config : Config :=
  let c := demo_config in
  mkConfig c.(cfg_Service) c.(cfg_HTTP) c.(cfg_Database) c.(cfg_Log) c.(cfg_IMAP) c.(cfg_SMTP) c.(cfg_Mail)
    (mkOutboundConfig "LOG") c.(cfg_Anthropic) c.(cfg_Classifier) c.(cfg_Document) c.(cfg_Checklists)
    c.(cfg_Escalation) c.(cfg_Digest) c.(cfg_Retry) c.(cfg_Reply) c.(cfg_Threading) c.(cfg_Retention).

Definition no_readers : DocReaders := {|
  csv_records _ := []; pdf_NewReader _ := Err (ErrNew ""); xlsx_OpenReader _ := Ok []; zip_NewReader _ := Ok [];
  xml_tokens _ := [] |}.

Definition demo_build (migrated : result unit) : result BuiltApp * (World * bool) :=
  Build (L := demo_lib) (E := demo_env) (R := no_readers) (J := toy_json) (N := toy_rand) (Srv := toy_llm)
    (λ _ _, inr "") (λ _, Err (ErrNew "no parser")) log_config (Ok ()) migrated [] (empty_world, false).

Lemma log_config_validates : Validate (L := demo_lib) log_config = Ok ().
Proof. vm_compute. reflexivity. Qed.

Lemma log_config_ascii : ascii_runes (mail_AuthMode (cfg_Mail log_config)).
Proof.
  vm_compute. intros r Hr. repeat (apply elem_of_cons in Hr as [->|Hr]; [done|]). by apply elem_of_nil in Hr.
Qed.

(** Opened and built, or closed when a migration fails. *)
Lemma Build_spec_witness :
  (demo_build (Ok ())).2.2 = true ∧ (demo_build (Err (ErrNew "syntax error"))).2.2 = false.
Proof.
  pose proof (λ migrated, Build_spec (L := demo_lib) (E := demo_env) (R := no_readers) (J := toy_json) (N := toy_rand)
    (Srv := toy_llm) (λ _ _, inr "") (λ _, Err (ErrNew "no parser")) log_config (Ok ()) migrated [] empty_world
    log_config_validates log_config_ascii) as H.
  split.
  - specialize (H (Ok ())). unfold demo_build. destruct (Build _ _ _ _ _ _ _) as [r [w h]].
    destruct H as (Hh & Hiff & _). cbn. rewrite Hh. apply Hiff. split_and!; try reflexivity. left. vm_compute. reflexivity.
  - specialize (H (Err (ErrNew "syntax error"))). unfold demo_build. destruct (Build _ _ _ _ _ _ _) as [r [w h]].
    destruct H as (Hh & Hiff & _). cbn. rewrite Hh. destruct (is_ok r); [|reflexivity].
    destruct (proj1 Hiff eq_refl) as (_ & Hm & _). discriminate Hm.
Defined.
