(* ===== verification/Lifecycle.v ===== *)
(** The process's goroutines from start to exit: [startHTTPServer], [startWorkers],
    [awaitShutdownAndStop] and [waitBounded] of [internal/app/app.go].

    The main goroutine waits for the root context, which ends on a signal or when the
    listening goroutine calls [cancel]; it then stops the server, waits for the wait group
    at most as long as allowed, drains the replies and reads [listenErr] without blocking.
    [stepl] is one step of any goroutine, of a timer or of the operating system. *)
From Stdlib Require Import ZArith.
From stdpp Require Import base list strings gmap.
From S2P Require Import Prelude GoStrings GoValues Submission Checklist Classifier Extract ChecklistStore Tables World Repository OutboxRepo Config Service Ingest Poller Health App Demo.

Open Scope Z_scope.

(** ** The server *)

Definition httpReadHeaderTimeout : duration := 5 * Second.
Definition httpIdleTimeout : duration := 60 * Second.
Definition httpMaxHeaderBytes : Z := Z.shiftl 1 20.

(** The [http.Server] that is started. *)
Record http_server : Type := mkHttpServer {
  hs_Addr : string;
  hs_ReadTimeout : duration;
  hs_ReadHeaderTimeout : duration;
  hs_WriteTimeout : duration;
  hs_IdleTimeout : duration;
  hs_MaxHeaderBytes : Z }.

Definition startHTTPServer (cfg : Config) : http_server :=
  mkHttpServer ("0.0.0.0:" +:+ fmt_d cfg.(cfg_HTTP).(http_Port)) (ReadTimeout cfg.(cfg_HTTP))
    httpReadHeaderTimeout (WriteTimeout cfg.(cfg_HTTP)) httpIdleTimeout httpMaxHeaderBytes.

(** ** The goroutines *)

(** The workers that are started: the poller only when there is one. *)
Inductive worker_kind : Type := EscalationWorker | OutboxWorker | RetentionWorker | PollerWorker.

Definition startWorkers (built : BuiltApp) : list worker_kind :=
  [EscalationWorker; OutboxWorker; RetentionWorker] ++
  match built.(ba_Poller) with Some _ => [PollerWorker] | None => [] end.

(** The listening goroutine: in [ListenAndServe], about to send its error, about to call
    [cancel], or gone. *)
Inductive http_pc : Type := HListen | HSend (e : error) | HCancel | HDone.

(** The main goroutine.  [MDrain] and later know whether the wait group was waited out. *)
Inductive main_pc : Type :=
| MAwait                           (** [<-rootCtx.Done()] *)
| MStop                            (** [server.Shutdown], with its timeout *)
| MWait                            (** [waitBounded] *)
| MDrain (stopped : bool)          (** [svc.Shutdown] *)
| MSelect (stopped : bool)         (** the final [select] *)
| MExit (stopped : bool) (r : result unit).

Record procl : Type := mkProcl {
  pl_main : main_pc;
  pl_http : http_pc;
  pl_running : list worker_kind;   (** the workers that have not returned *)
  pl_done : bool;                  (** the root context has ended *)
  pl_signalled : bool;             (** a signal arrived *)
  pl_listenErr : option error;     (** the buffered channel *)
  pl_closing : bool;               (** [Shutdown] was called on the server *)
  pl_drains : nat }.               (** calls of [svc.Shutdown] that returned *)

Definition boot (workers : list worker_kind) : procl :=
  mkProcl MAwait HListen workers false false None false 0.

Definition pl_at (m : main_pc) (p : procl) : procl :=
  mkProcl m p.(pl_http) p.(pl_running) p.(pl_done) p.(pl_signalled) p.(pl_listenErr) p.(pl_closing) p.(pl_drains).

(** Everything the wait group counts is gone. *)
Definition all_stopped (p : procl) : bool :=
  match p.(pl_http), p.(pl_running) with HDone, [] => true | _, _ => false end.

(** The [select] with a [default] at the end of [Run]. *)
Definition exit_result (p : procl) : result unit :=
  match p.(pl_listenErr) with
  | Some e => Err (ErrWrap "http server failed" e)
  | None => Ok ()
  end.

(** Steps of the main goroutine. *)
Inductive step_main : procl → procl → Prop :=
| main_woken p : p.(pl_main) = MAwait → p.(pl_done) = true →
    step_main p (mkProcl MStop p.(pl_http) p.(pl_running) p.(pl_done) p.(pl_signalled) p.(pl_listenErr) true p.(pl_drains))
| main_server_stopped p : p.(pl_main) = MStop → step_main p (pl_at MWait p)
| main_waited p : p.(pl_main) = MWait → all_stopped p = true → step_main p (pl_at (MDrain true) p)
| main_timed_out p : p.(pl_main) = MWait → step_main p (pl_at (MDrain false) p)
| main_drained p b : p.(pl_main) = MDrain b →
    step_main p (mkProcl (MSelect b) p.(pl_http) p.(pl_running) p.(pl_done) p.(pl_signalled) p.(pl_listenErr)
                   p.(pl_closing) (S p.(pl_drains)))
| main_selects p b : p.(pl_main) = MSelect b → step_main p (pl_at (MExit b (exit_result p)) p).

Definition exited (p : procl) : bool := match p.(pl_main) with MExit _ _ => true | _ => false end.

(** Steps of everything else, while the process lives. *)
Inductive step_other : procl → procl → Prop :=
| os_signal p :
    step_other p (mkProcl p.(pl_main) p.(pl_http) p.(pl_running) true true p.(pl_listenErr) p.(pl_closing) p.(pl_drains))
| http_fails p e : p.(pl_http) = HListen →
    step_other p (mkProcl p.(pl_main) (HSend e) p.(pl_running) p.(pl_done) p.(pl_signalled) p.(pl_listenErr)
                    p.(pl_closing) p.(pl_drains))
| http_closed p : p.(pl_http) = HListen → p.(pl_closing) = true →
    step_other p (mkProcl p.(pl_main) HDone p.(pl_running) p.(pl_done) p.(pl_signalled) p.(pl_listenErr)
                    p.(pl_closing) p.(pl_drains))
| http_sends p e : p.(pl_http) = HSend e → p.(pl_listenErr) = None →
    step_other p (mkProcl p.(pl_main) HCancel p.(pl_running) p.(pl_done) p.(pl_signalled) (Some e)
                    p.(pl_closing) p.(pl_drains))
| http_cancels p : p.(pl_http) = HCancel →
    step_other p (mkProcl p.(pl_main) HDone p.(pl_running) true p.(pl_signalled) p.(pl_listenErr)
                    p.(pl_closing) p.(pl_drains))
(** at the end of the context; the retention worker also at once, when it is disabled *)
| worker_returns p l1 k l2 : p.(pl_running) = l1 ++ k :: l2 → p.(pl_done) = true ∨ k = RetentionWorker →
    step_other p (mkProcl p.(pl_main) p.(pl_http) (l1 ++ l2) p.(pl_done) p.(pl_signalled) p.(pl_listenErr)
                    p.(pl_closing) p.(pl_drains)).

Definition stepl (p p' : procl) : Prop := exited p = false ∧ (step_main p p' ∨ step_other p p').

Create HintDb life.
#[export] Hint Constructors step_main step_other : life.

(** ** The invariant *)

(** Main's progress: the steps it still has to make. *)
Definition main_left (m : main_pc) : nat :=
  match m with MAwait => 5 | MStop => 4 | MWait => 3 | MDrain _ => 2 | MSelect _ => 1 | MExit _ _ => 0 end.

Definition past_drain (m : main_pc) : bool :=
  match m with MSelect _ | MExit _ _ => true | _ => false end.

(** Whether the wait group was waited out. *)
Definition waited (m : main_pc) : bool :=
  match m with MDrain b | MSelect b | MExit b _ => b | _ => false end.

Record life_inv (p : procl) : Prop := {
  li_cause : p.(pl_done) = true → p.(pl_signalled) = true ∨ is_Some p.(pl_listenErr);
  li_awake : p.(pl_main) ≠ MAwait → p.(pl_done) = true ∧ p.(pl_closing) = true;
  li_http : match p.(pl_http) with
            | HListen | HSend _ => p.(pl_listenErr) = None
            | HCancel => is_Some p.(pl_listenErr)
            | HDone => True
            end;
  li_drains : p.(pl_drains) = if past_drain p.(pl_main) then 1%nat else 0%nat;
  li_waited : waited p.(pl_main) = true → p.(pl_http) = HDone ∧ p.(pl_running) = [];
  li_exit : ∀ b r, p.(pl_main) = MExit b r → r = exit_result p }.

Lemma boot_inv workers : life_inv (boot workers).
Proof. split; cbn; naive_solver. Qed.

Lemma all_stopped_spec p : all_stopped p = true ↔ p.(pl_http) = HDone ∧ p.(pl_running) = [].
Proof. unfold all_stopped. destruct (pl_http p), (pl_running p); naive_solver. Qed.

Lemma step_main_inv p p' : life_inv p → step_main p p' → life_inv p'.
Proof.
  intros [H1 H2 H3 H4 H5 H6] Hs.
  destruct Hs as [p Hm Hd|p Hm|p Hm Ha|p Hm|p b Hm|p b Hm]; rewrite Hm in *; cbn in *;
    split; cbn; auto; try discriminate.
  - intros _. by apply all_stopped_spec.
  - by intros ? ? [= _ <-].
Qed.

Lemma step_other_inv p p' : exited p = false → life_inv p → step_other p p' → life_inv p'.
Proof.
  intros Hx [H1 H2 H3 H4 H5 H6] Hs. unfold exited in Hx.
  destruct Hs as [p|p e Hh|p Hh Hc|p e Hh Hl|p Hh|p l1 k l2 Hr Hd]; try rewrite Hh in *; cbn in *;
    split; cbn; auto.
  - intros Ha%H2. naive_solver.
  - intros [??]%H5. done.
  - intros ?%H5. naive_solver.
  - intros ?%H5. naive_solver.
  - intros b r Hm. by rewrite Hm in Hx.
  - intros Ha%H2. naive_solver.
  - intros ?%H5. naive_solver.
  - intros [Hh Hn]%H5. rewrite Hr in Hn. by destruct l1.
Qed.

Lemma stepl_inv p p' : life_inv p → stepl p p' → life_inv p'.
Proof. intros Hp [Hx [Hs|Hs]]; eauto using step_main_inv, step_other_inv. Qed.

Lemma life_inv_reachable workers p : rtc stepl (boot workers) p → life_inv p.
Proof.
  intros Hp. pose proof (boot_inv workers) as Hi. induction Hp; [done|]. eauto using stepl_inv.
Qed.

(** ** How a run ends *)

(** Main alone gets to the exit, the wait group's timeout included. *)
Lemma main_exits p : p.(pl_done) = true → ∃ p', rtc step_main p p' ∧ exited p' = true.
Proof.
  remember (main_left p.(pl_main)) as n eqn:Hn. revert p Hn.
  induction n as [n IH] using lt_wf_ind. intros p -> Hd.
  assert (exited p = true ∨ ∃ q, step_main p q ∧ (main_left q.(pl_main) < main_left p.(pl_main))%nat ∧ q.(pl_done) = true)
    as [Hx|(q & Hs & Hlt & Hq)].
  { unfold exited. destruct (pl_main p) eqn:Hm; auto; right; eexists;
      (split; [eauto with life|cbn; split; [lia|done]]). }
  - exists p. by split.
  - destruct (IH _ Hlt q eq_refl Hq) as (p' & Hp' & Hx). exists p'. split; [by eapply rtc_l|done].
Qed.

Section ends.
Context {L : GoLib} {E : Env}.

(** C38: how the process exits.  Whatever the order of signals, listen failures, worker
    returns and timeouts, a process that exits with success was told to stop by a signal
    and its server had not reported a failure; a reported failure is what the process
    exits with.  The replies were drained exactly once, and when the wait was not cut off
    by its timeout the server and every worker had stopped before.  The result is that of
    the sequential [Run] for what happened. *)
Theorem exit_is_faithful cfg built p stopped r :
  rtc stepl (boot (startWorkers built)) p → p.(pl_main) = MExit stopped r →
  (r = Ok () → p.(pl_signalled) = true ∧ p.(pl_listenErr) = None) ∧
  (∀ e, p.(pl_listenErr) = Some e → r = Err (ErrWrap "http server failed" e)) ∧
  p.(pl_drains) = 1%nat ∧
  (stopped = true → p.(pl_http) = HDone ∧ p.(pl_running) = []) ∧
  (Run (Ok cfg) (Ok ()) false (λ _, Ok built) (mkLife p.(pl_listenErr) stopped)).1 = r.
Proof.
  intros Hp Hm. apply life_inv_reachable in Hp as [H1 H2 H3 H4 H5 H6].
  rewrite Hm in *. cbn in H4, H5. specialize (H6 _ _ eq_refl). subst r. unfold exit_result.
  destruct H2 as [Hd _]; [done|]. specialize (H1 Hd). split_and!; try done.
  - destruct (pl_listenErr p) as [e|] eqn:He; [done|]. intros _. split; [|done].
    destruct H1 as [?|[? ?]]; done.
  - by intros e ->.
Qed.

(** A stop request is carried out.  Once the root context has ended, the main
    goroutine always has its next step, even when workers never return or the server does
    not stop; every step it makes brings it closer to its exit, at most five in all, and
    nothing else moves it back. *)
Theorem shutdown_never_blocks p :
  p.(pl_done) = true →
  (∃ p', rtc step_main p p' ∧ exited p' = true) ∧
  (∀ p', step_main p p' → main_left p'.(pl_main) < main_left p.(pl_main) ≤ 5)%nat ∧
  (∀ p', step_other p p' → p'.(pl_main) = p.(pl_main) ∧ p'.(pl_done) = true).
Proof.
  intros Hd. split_and!; [by apply main_exits| |].
  - intros p' [q Hm _|q Hm|q Hm _|q Hm|q b Hm|q b Hm]; rewrite Hm; cbn; lia.
  - intros p' Hs. revert Hd. by destruct Hs.
Qed.
End ends.

(** A run in which the port is taken: the failure ends the context, a worker hangs. *)
Definition port_taken : error := ErrNew "listen tcp 0.0.0.0:8080: bind: address already in use".

Definition failed_start : procl :=
  mkProcl (MExit false (Err (ErrWrap "http server failed" port_taken))) HDone [OutboxWorker; RetentionWorker]
    true false (Some port_taken) true 1.

Definition demo_built : BuiltApp :=
  mkBuiltApp demo_service SenderLog (PasswordAuth "" "") None (mkHealthHandler None 0) [].

Lemma life_other p p' : exited p = false → step_other p p' → stepl p p'.
Proof. by split; [|right]. Qed.

Lemma life_main p p' : exited p = false → step_main p p' → stepl p p'.
Proof. by split; [|left]. Qed.

Lemma failed_start_reachable : rtc stepl (boot (startWorkers demo_built)) failed_start.
Proof.
  eapply rtc_l. { apply life_other; [done|]. by apply (http_fails _ port_taken). }
  eapply rtc_l. { apply life_other; [done|]. by eapply http_sends. }
  eapply rtc_l. { apply life_other; [done|]. by eapply http_cancels. }
  eapply rtc_l. { apply life_main; [done|]. by apply main_woken. }
  eapply rtc_l. { apply life_other; [done|]. apply (worker_returns _ [] EscalationWorker [OutboxWorker; RetentionWorker]); [done|by left]. }
  eapply rtc_l. { apply life_main; [done|]. by apply main_server_stopped. }
  eapply rtc_l. { apply life_main; [done|]. by apply main_timed_out. }
  eapply rtc_l. { apply life_main; [done|]. by eapply main_drained. }
  eapply rtc_l. { apply life_main; [done|]. by eapply main_selects. }
  reflexivity.
Qed.

Lemma exit_is_faithful_witness :
  failed_start.(pl_drains) = 1%nat ∧
  (Run (Ok demo_config) (Ok ()) false (λ _, Ok demo_built) (mkLife (Some port_taken) false)).1 =
    Err (ErrWrap "http server failed" port_taken).
Proof.
  destruct (exit_is_faithful demo_config demo_built failed_start false
    (Err (ErrWrap "http server failed" port_taken)) failed_start_reachable eq_refl) as (_ & _ & Hd & _ & Hr).
  split; [exact Hd|exact Hr].
Defined.

(** A signal arrived; the server still listens and no worker has returned. *)
Definition told_to_stop : procl :=
  mkProcl MAwait HListen (startWorkers demo_built) true true None false 0.

Lemma shutdown_never_blocks_witness : ∃ p', rtc step_main told_to_stop p' ∧ exited p' = true.
Proof. exact (proj1 (shutdown_never_blocks told_to_stop eq_refl)). Defined.
