(* ===== verification/Authorize.v ===== *)
(** The consent tool: [cmd/authorize/main.go], with [GoogleConsentConfig] of
    [internal/infrastructure/oauth/oauth.go].

    The tool listens on a loopback port, sends the user to the consent page and waits for
    the page to call back.  Anything on the machine can call the port, any number of
    times; each call is handled in a goroutine of its own that writes to one of two
    channels with room for one value.  [stepa] is one step of a handler, of the main
    goroutine, of its timer or of the token endpoint.  The exchange of the code is
    golang.org/x/oauth2's: an argument. *)
From Stdlib Require Import ZArith Ascii.
From stdpp Require Import base list strings gmap.
From S2P Require Import Prelude GoStrings GoValues Submission Checklist Classifier Extract ChecklistStore World Config Service App.

Open Scope Z_scope.

Definition consentTimeout : duration := 5 * Minute.
Definition exchangeTimeout : duration := 30 * Second.

(** ** The consent configuration *)

Record oauth2_config : Type := mkOauth2Config {
  oc_ClientID : string;
  oc_ClientSecret : string;
  oc_AuthURL : string;
  oc_TokenURL : string;
  oc_Scopes : list string;
  oc_RedirectURL : string }.

Definition GoogleConsentConfig (clientID clientSecret redirectURL : string) : oauth2_config :=
  mkOauth2Config clientID clientSecret googleAuthURL googleTokenURL [googleMailScope] redirectURL.

(** ** The state parameter *)

Definition hex_digit (n : N) : ascii :=
  match String.get (N.to_nat n) "0123456789abcdef" with Some c => c | None => "0" end%char.

(** [hex.EncodeToString] *)
Fixpoint hex_EncodeToString (b : string) : string :=
  match b with
  | "" => ""
  | String c b => let n := N_of_ascii c in
                  String (hex_digit (n / 16)) (String (hex_digit (n mod 16)) (hex_EncodeToString b))
  end.

(** [read] is what [rand.Read] gives for sixteen bytes. *)
Definition randomState (read : result string) : result string :=
  match read with
  | Ok b => Ok (hex_EncodeToString b)
  | Err e => Err (ErrWrap "generate state" e)
  end.

(** ** The callback *)

(** The query's values, in order. *)
Definition query_values : Type := list (string * string).

Definition query_Get (q : query_values) (key : string) : string :=
  match List.find (λ kv, bool_decide (kv.1 = key)) q with Some kv => kv.2 | None => "" end.

Inductive channel_send : Type := SendCode (code : string) | SendErr (e : error).

(** The status answered and the value sent. *)
Definition callback (state : string) (q : query_values) : Z * channel_send :=
  if negb (bool_decide (query_Get q "state" = state)) then
    (400, SendErr (ErrNew "state mismatch (possible CSRF); aborting"))
  else if negb (bool_decide (query_Get q "error" = "")) then
    (400, SendErr (ErrNew ("consent denied: " +:+ query_Get q "error")))
  else (200, SendCode (query_Get q "code")).

(** ** The flow *)

Definition no_refresh_token : error :=
  ErrNew "no refresh token returned; revoke prior access at https://myaccount.google.com/permissions and retry".

(** What the tool prints and returns once the exchange has answered with a refresh token. *)
Definition finish (tok : result string) : result string :=
  match tok with
  | Err e => Err (ErrWrap "exchange code" e)
  | Ok refresh => if bool_decide (refresh = "") then Err no_refresh_token
                  else Ok ("  MAIL_OAUTH_REFRESH_TOKEN=" +:+ refresh)
  end.

Inductive auth_pc : Type := AWait | AExchange (code : string) | AExit (r : result string).

(** [af_handlers] are the handlers blocked on a full channel. *)
Record auth_flow : Type := mkAuthFlow {
  af_main : auth_pc;
  af_code : option string;
  af_err : option error;
  af_handlers : list channel_send;
  af_calls : list query_values }.

Definition auth_start : auth_flow := mkAuthFlow AWait None None [] [].

(** The sending of [s], if its channel has room. *)
Definition try_send (s : channel_send) (f : auth_flow) : option auth_flow :=
  match s with
  | SendCode c => match f.(af_code) with
                  | None => Some (mkAuthFlow f.(af_main) (Some c) f.(af_err) f.(af_handlers) f.(af_calls))
                  | Some _ => None
                  end
  | SendErr e => match f.(af_err) with
                 | None => Some (mkAuthFlow f.(af_main) f.(af_code) (Some e) f.(af_handlers) f.(af_calls))
                 | Some _ => None
                 end
  end.

Section flow.
Context (state : string) (exchange : string → result string).

Inductive stepa : auth_flow → auth_flow → Prop :=
| called f q :
    stepa f (mkAuthFlow f.(af_main) f.(af_code) f.(af_err) (f.(af_handlers) ++ [(callback state q).2])
               (f.(af_calls) ++ [q]))
| handler_sends f f' l1 s l2 :
    f.(af_handlers) = l1 ++ s :: l2 →
    try_send s (mkAuthFlow f.(af_main) f.(af_code) f.(af_err) (l1 ++ l2) f.(af_calls)) = Some f' → stepa f f'
| takes_code f c : f.(af_main) = AWait → f.(af_code) = Some c →
    stepa f (mkAuthFlow (AExchange c) None f.(af_err) f.(af_handlers) f.(af_calls))
| takes_err f e : f.(af_main) = AWait → f.(af_err) = Some e →
    stepa f (mkAuthFlow (AExit (Err e)) f.(af_code) None f.(af_handlers) f.(af_calls))
| times_out f : f.(af_main) = AWait →
    stepa f (mkAuthFlow (AExit (Err (ErrNew "timed out waiting for consent"))) f.(af_code) f.(af_err)
               f.(af_handlers) f.(af_calls))
| exchanges f c : f.(af_main) = AExchange c →
    stepa f (mkAuthFlow (AExit (finish (exchange c))) f.(af_code) f.(af_err) f.(af_handlers) f.(af_calls)).

(** A call the consent page made: it carries the state and no error. *)
Definition genuine (q : query_values) : Prop := query_Get q "state" = state ∧ query_Get q "error" = "".

(** Every code on its way comes from such a call. *)
Definition code_ok (f : auth_flow) (c : string) : Prop :=
  ∃ q, q ∈ f.(af_calls) ∧ genuine q ∧ query_Get q "code" = c.

Record flow_inv (f : auth_flow) : Prop := {
  fi_code : ∀ c, f.(af_code) = Some c → code_ok f c;
  fi_handlers : ∀ c, SendCode c ∈ f.(af_handlers) → code_ok f c;
  fi_main : match f.(af_main) with
            | AWait => True
            | AExchange c => code_ok f c
            | AExit (Ok out) => ∃ c, code_ok f c ∧ finish (exchange c) = Ok out
            | AExit (Err _) => True
            end }.

Lemma callback_code q c : (callback state q).2 = SendCode c → genuine q ∧ query_Get q "code" = c.
Proof.
  unfold callback, genuine. do 2 case_bool_decide; cbn; try discriminate. by intros [= <-].
Qed.

Lemma stepa_inv f f' : flow_inv f → stepa f f' → flow_inv f'.
Proof.
  intros [H1 H2 H3] Hs.
  destruct Hs as [f q|f f' l1 s l2 Hh Ht|f c Hm Hc|f e Hm He|f Hm|f c Hm].
  - assert (∀ c, code_ok f c → code_ok (mkAuthFlow f.(af_main) f.(af_code) f.(af_err)
      (f.(af_handlers) ++ [(callback state q).2]) (f.(af_calls) ++ [q])) c) as Hmono.
    { intros c (q' & Hq & Hg). exists q'. split; [|done]. cbn. apply elem_of_app. by left. }
    split; cbn.
    + auto.
    + intros c [Hc|Hc%list_elem_of_singleton]%elem_of_app; [auto|]. symmetry in Hc.
      apply callback_code in Hc as [Hg Hc]. exists q. split; [|done]. cbn. apply elem_of_app. right.
      by apply list_elem_of_singleton.
    + destruct (af_main f) as [|c|[out|]]; auto. destruct H3 as (c & Hc & Hf). eauto.
  - rewrite Hh in H2. destruct s as [c|e]; cbn in Ht.
    + destruct (af_code f); [done|]. injection Ht as <-. split; cbn; auto.
      * intros ? [= <-]. apply H2. set_solver.
      * intros c' Hc'. apply H2. set_solver.
    + destruct (af_err f); [done|]. injection Ht as <-. split; cbn; auto.
      intros c' Hc'. apply H2. set_solver.
  - split; cbn; [done|done|]. exact (H1 _ Hc).
  - split; cbn; auto.
  - split; cbn; auto.
  - rewrite Hm in H3. split; cbn; auto. destruct (finish (exchange c)) eqn:Hf; [|done]. eauto.
Qed.

Lemma flow_inv_reachable f : rtc stepa auth_start f → flow_inv f.
Proof.
  assert (flow_inv auth_start) as Hi by (split; cbn; [done|set_solver|done]).
  induction 1; [done|]. eauto using stepa_inv.
Qed.

Lemma finish_ok tok out :
  finish tok = Ok out → ∃ refresh, tok = Ok refresh ∧ refresh ≠ "" ∧ out = "  MAIL_OAUTH_REFRESH_TOKEN=" +:+ refresh.
Proof.
  unfold finish. destruct tok as [r|]; [|done]. case_bool_decide; [done|]. intros [= <-]. eauto.
Qed.
End flow.

(** C40: the consent flow.  Whoever calls the loopback port, in whatever order and however
    often, the tool prints a token only after a call that carried the state it had made
    up and no error; the token is what the token endpoint gave for that call's code, and
    is not empty.  With it and the same client, the service's token source asks the same
    endpoint for the same scope as the consent did. *)
Theorem consent_is_genuine (L : GoLib) state exchange clientID clientSecret redirectURL cfg f out :
  rtc (stepa state exchange) auth_start f → f.(af_main) = AExit (Ok out) →
  cfg.(oauth_Provider) = OAuthProviderGoogle → cfg.(oauth_ClientID) = clientID →
  cfg.(oauth_ClientSecret) = clientSecret →
  ∃ q refresh, q ∈ f.(af_calls) ∧ query_Get q "state" = state ∧ query_Get q "error" = "" ∧
    exchange (query_Get q "code") = Ok refresh ∧ refresh ≠ "" ∧
    out = "  MAIL_OAUTH_REFRESH_TOKEN=" +:+ refresh ∧
    (cfg.(oauth_RefreshToken) = refresh →
     let cc := GoogleConsentConfig clientID clientSecret redirectURL in
     NewTokenSource cfg = Ok (mkReuseSource OAuthProviderGoogle
       (StoredRefreshToken cc.(oc_ClientID) cc.(oc_ClientSecret) cc.(oc_AuthURL) cc.(oc_TokenURL)
          cc.(oc_Scopes) refresh))).
Proof.
  intros Hf Hm Hp Hi Hs. apply flow_inv_reachable in Hf as [_ _ H3]. rewrite Hm in H3.
  destruct H3 as (c & (q & Hq & [Hst Her] & <-) & Hfin). apply finish_ok in Hfin as (r & Hx & Hne & ->).
  exists q, r. split_and!; try done. intros Hr. unfold NewTokenSource. rewrite Hp, Hi, Hs, Hr. done.
Qed.

(** A stranger calls first with a wrong state, but the page's call is taken. *)
Definition demo_exchange (code : string) : result string :=
  if bool_decide (code = "4/abc") then Ok "1//refresh" else Err (ErrNew "invalid_grant").
Definition page_call : query_values := [("state", "5eed"); ("code", "4/abc")].

Definition consented : auth_flow :=
  mkAuthFlow (AExit (Ok "  MAIL_OAUTH_REFRESH_TOKEN=1//refresh")) None None
    [SendErr (ErrNew "state mismatch (possible CSRF); aborting")] [[("code", "4/evil")]; page_call].

Lemma consented_reachable : rtc (stepa "5eed" demo_exchange) auth_start consented.
Proof.
  eapply rtc_l; [apply (called _ _ _ [("code", "4/evil")])|].
  eapply rtc_l; [apply (called _ _ _ page_call)|].
  eapply rtc_l.
  { by apply (handler_sends _ _ _ _ [SendErr (ErrNew "state mismatch (possible CSRF); aborting")]
      (SendCode "4/abc") []). }
  eapply rtc_l; [by apply takes_code|]. eapply rtc_l; [by apply exchanges|]. reflexivity.
Qed.

Lemma consent_is_genuine_witness :
  ∃ q, q ∈ consented.(af_calls) ∧ query_Get q "state" = "5eed" ∧ demo_exchange (query_Get q "code") = Ok "1//refresh".
Proof.
  destruct (consent_is_genuine demo_lib "5eed" demo_exchange "id" "secret" "http://127.0.0.1:1/callback"
    (mkOAuthConfig OAuthProviderGoogle "id" "secret" "" "1//refresh" "") consented
    "  MAIL_OAUTH_REFRESH_TOKEN=1//refresh" consented_reachable eq_refl eq_refl eq_refl eq_refl)
    as (q & r & Hq & Hst & _ & Hx & _ & Hout & _).
  exists q. split_and!; [exact Hq|exact Hst|]. rewrite Hx. by injection Hout as ->.
Defined.
