(* ===== verification/Logger.v ===== *)
(** Logging: [pkg/logger/logger.go], and the context [replyJobContext] of
    [internal/service/submissions.go] builds with it.

    logrus and rotatelogs are arguments: which levels parse, and whether a directory and
    a rotating file can be made.  What the program decides is the [log_setup]. *)
From Stdlib Require Import ZArith.
From stdpp Require Import base list strings gmap.
From S2P Require Import Prelude GoStrings GoValues Submission Checklist World Config.

Open Scope Z_scope.

(** ** Setting up *)

Inductive log_format : Type := JSONFormat | TextFormat.

(** A file of a directory: [filepath.Join]. *)
Record log_path : Type := mkLogPath { lp_dir : string; lp_name : string }.

(** What [rotatelogs.New] is given. *)
Record rotating_log : Type := mkRotatingLog {
  rl_pattern : log_path;
  rl_maxAge : duration;
  rl_rotation : duration;
  rl_link : option log_path }.

Record log_setup : Type := mkLogSetup {
  ls_level : Z;
  ls_format : log_format;
  ls_file : option rotating_log;   (** beside stdout *)
  ls_service : string }.

Definition date_pattern (rotationHours : Z) : string :=
  if rotationHours <? 24 then "%Y%m%d-%H" else "%Y%m%d".

Section setup.
Context {L : GoLib} (parse_level : string → result Z) (mkdir : string → option error)
  (open_rotating : rotating_log → option error) (windows : bool).

Definition SetupLogger (level format serviceName logDir : string) (maxAgeDays rotationHours : Z)
  : result log_setup :=
  match parse_level level with
  | Err e => Err (ErrWrap ("parse log level " +:+ level) e)
  | Ok lvl =>
    let fmt := if bool_decide (ToLower format = "json") then JSONFormat else TextFormat in
    if bool_decide (logDir = "") then Ok (mkLogSetup lvl fmt None serviceName)
    else
      match mkdir logDir with
      | Some e => Err (ErrWrap ("create log dir " +:+ logDir) e)
      | None =>
        let rl := mkRotatingLog
          (mkLogPath logDir (serviceName +:+ "." +:+ date_pattern rotationHours +:+ ".log"))
          (dur_mul (dur_mul maxAgeDays 24) Hour) (dur_mul rotationHours Hour)
          (if windows then None else Some (mkLogPath logDir (serviceName +:+ ".log"))) in
        match open_rotating rl with
        | Some e => Err (ErrWrap "init rotating log" e)
        | None => Ok (mkLogSetup lvl fmt (Some rl) serviceName)
        end
      end
  end.
End setup.

(** ** Names of rotated files *)

(** The stamp one of the date patterns gives an instant, in hours since the epoch: its
    day, and its hour where the pattern has [%H]. *)
Definition stamp (pattern : string) (hour : Z) : Z * option Z :=
  (hour / 24, if Contains pattern "%H" then Some (hour mod 24) else None).

Lemma stamp_injective rotationHours k k' :
  0 < rotationHours →
  stamp (date_pattern rotationHours) (k * rotationHours) =
  stamp (date_pattern rotationHours) (k' * rotationHours) → k = k'.
Proof.
  intros Hr. unfold stamp, date_pattern. destruct (Z.ltb_spec rotationHours 24) as [Hlt|Hge];
    [change (Contains _ _) with true|change (Contains _ _) with false].
  - intros [= Hd Hm]. assert (k * rotationHours = k' * rotationHours) as He.
    { rewrite (Z.div_mod (k * rotationHours) 24), (Z.div_mod (k' * rotationHours) 24) by lia. congruence. }
    nia.
  - intros [= Hd].
    pose proof (Z.div_mod (k * rotationHours) 24 ltac:(lia)) as H1.
    pose proof (Z.div_mod (k' * rotationHours) 24 ltac:(lia)) as H2.
    pose proof (Z.mod_pos_bound (k * rotationHours) 24 ltac:(lia)).
    pose proof (Z.mod_pos_bound (k' * rotationHours) 24 ltac:(lia)). nia.
Qed.

(** No rotation overwrites another.  With a validated configuration the logger is set
    up with a name pattern under which any two rotation periods, which begin at multiples
    of the rotation interval, have different names: by the day when the interval is a day
    or more, else by day and hour. *)
Theorem rotations_have_own_files (L : GoLib) parse_level mkdir open_rotating windows (c : Config) ls rl k k' :
  Validate c = Ok () →
  SetupLogger parse_level mkdir open_rotating windows c.(cfg_Log).(log_Level) c.(cfg_Log).(log_Format)
    c.(cfg_Service).(svc_Name) c.(cfg_Log).(log_Directory) c.(cfg_Log).(log_MaxAgeDays)
    c.(cfg_Log).(log_RotationHours) = Ok ls →
  ls.(ls_file) = Some rl → k ≠ k' →
  ∃ pattern, rl.(rl_pattern).(lp_name) = c.(cfg_Service).(svc_Name) +:+ "." +:+ pattern +:+ ".log" ∧
    stamp pattern (k * c.(cfg_Log).(log_RotationHours)) ≠ stamp pattern (k' * c.(cfg_Log).(log_RotationHours)).
Proof.
  intros Hv Hs Hf Hk. apply Validate_spec in Hv as [_ _ [_ Hr] _ _ _ _ _]. unfold SetupLogger in Hs.
  destruct (parse_level _) as [lvl|]; [|done]. cbv zeta in Hs.
  destruct (bool_decide (log_Directory _ = "")); [by injection Hs as <-|].
  destruct (mkdir _); [done|]. destruct (open_rotating _); [done|]. injection Hs as <-.
  cbn in Hf. injection Hf as <-. exists (date_pattern (log_RotationHours (cfg_Log c))).
  split; [done|]. intros Heq. by apply stamp_injective in Heq; [|lia].
Qed.

(** ** Values in contexts *)

Inductive ctxKey : Type := loggerCtxKey | requestIDCtxKey.

#[export] Instance ctxKey_eq_dec : EqDecision ctxKey.
Proof. solve_decision. Defined.

Section contexts.
Context {Entry : Type} (standard : Entry).

Inductive ctx_value : Type := VLogger (e : option Entry) | VRequestID (rid : string).

(** The scope that cancels the context, and its values, innermost first. *)
Record Ctx : Type := mkCtx {
  cx_scope : string;
  cx_values : list (ctxKey * ctx_value) }.

Definition WithValue (c : Ctx) (k : ctxKey) (v : ctx_value) : Ctx :=
  mkCtx c.(cx_scope) ((k, v) :: c.(cx_values)).

Definition Value (c : Ctx) (k : ctxKey) : option ctx_value :=
  snd <$> List.find (λ kv, bool_decide (kv.1 = k)) c.(cx_values).

Definition ContextWithLogger (c : Ctx) (e : option Entry) : Ctx := WithValue c loggerCtxKey (VLogger e).
Definition ContextWithRequestID (c : Ctx) (rid : string) : Ctx := WithValue c requestIDCtxKey (VRequestID rid).

(** [None] is a nil context. *)
Definition GetLoggerFromContext (c : option Ctx) : Entry :=
  match c with
  | None => standard
  | Some c => match Value c loggerCtxKey with Some (VLogger (Some e)) => e | _ => standard end
  end.

Definition RequestIDFromContext (c : option Ctx) : string :=
  match c with
  | None => ""
  | Some c => match Value c requestIDCtxKey with Some (VRequestID rid) => rid | _ => "" end
  end.

(** [replyCtx] is the service's, which carries no values. *)
Definition replyJobContext (replyCtx reqCtx : Ctx) : Ctx :=
  let jobCtx := ContextWithLogger replyCtx (Some (GetLoggerFromContext (Some reqCtx))) in
  let rid := RequestIDFromContext (Some reqCtx) in
  if bool_decide (rid = "") then jobCtx else ContextWithRequestID jobCtx rid.

(** A reply job logs as its request does and carries its id, and is cancelled with the
    service and not with the request. *)
Lemma replyJobContext_spec replyCtx reqCtx :
  cx_values replyCtx = [] →
  let job := replyJobContext replyCtx reqCtx in
  cx_scope job = cx_scope replyCtx ∧
  GetLoggerFromContext (Some job) = GetLoggerFromContext (Some reqCtx) ∧
  RequestIDFromContext (Some job) = RequestIDFromContext (Some reqCtx).
Proof.
  intros Hv. unfold replyJobContext. case_bool_decide as Hr; split_and!; try done.
  rewrite Hr. cbn. by rewrite Hv.
Qed.
End contexts.
