(* ===== verification/ImapConn.v ===== *)
(** The life of an IMAP connection: [closeOnCancel] and [Close] of
    [internal/delivery/imap/client.go], and the poll around them.

    A poll dials, starts the watcher [closeOnCancel], gives its commands one after the
    other and closes.  The watcher closes the connection when the poll's context ends, so
    that a command the server does not answer returns; [Close] first ends the watcher,
    through the channel [stop], then logs out and closes.  [stepc] is one step of the
    poll, the watcher, the timer or the server. *)
From Stdlib Require Import ZArith.
From stdpp Require Import base list strings gmap.
From S2P Require Import Prelude.

(** The watcher: in its [select], about to close the connection, or gone. *)
Inductive watch_pc : Type := WWait | WClose | WGone.

(** The poll: between two commands, waiting for an answer, in [Close] (about to stop the
    watcher, waiting for the answer to LOGOUT, about to close), or returned. *)
Inductive poll_pc : Type := PIdle | PCommand | PStop | PLogout | PClose | PDone.

Record imap_conn : Type := mkConn {
  cn_poll : poll_pc;
  cn_watch : watch_pc;
  cn_ctx : bool;        (** the poll's context has ended *)
  cn_stop : nat;        (** how often the channel was closed *)
  cn_once : bool;       (** [stopOnce] has fired *)
  cn_open : bool }.     (** the connection is open *)

Definition dialled : imap_conn := mkConn PIdle WWait false 0 false true.

Definition cn_at (p : poll_pc) (c : imap_conn) : imap_conn :=
  mkConn p c.(cn_watch) c.(cn_ctx) c.(cn_stop) c.(cn_once) c.(cn_open).

(** [m.stopOnce.Do(func() { close(m.stop) })] *)
Definition stop_once (c : imap_conn) : imap_conn :=
  if c.(cn_once) then c
  else mkConn c.(cn_poll) c.(cn_watch) c.(cn_ctx) (S c.(cn_stop)) true c.(cn_open).

(** What the program does by itself. *)
Inductive step_prog : imap_conn → imap_conn → Prop :=
| poll_sends c : c.(cn_poll) = PIdle → step_prog c (cn_at PCommand c)
| poll_unblocked c : c.(cn_poll) = PCommand → c.(cn_open) = false → step_prog c (cn_at PIdle c)
| poll_closes c : c.(cn_poll) = PIdle → step_prog c (cn_at PStop c)
| close_stops c : c.(cn_poll) = PStop → step_prog c (cn_at PLogout (stop_once c))
| close_unblocked c : c.(cn_poll) = PLogout → c.(cn_open) = false → step_prog c (cn_at PClose c)
| close_ends c : c.(cn_poll) = PClose →
    step_prog c (mkConn PDone c.(cn_watch) c.(cn_ctx) c.(cn_stop) c.(cn_once) false)
| close_again c : c.(cn_poll) = PDone → step_prog c (cn_at PStop c)
| watch_cancelled c : c.(cn_watch) = WWait → c.(cn_ctx) = true →
    step_prog c (mkConn c.(cn_poll) WClose c.(cn_ctx) c.(cn_stop) c.(cn_once) c.(cn_open))
| watch_closes c : c.(cn_watch) = WClose →
    step_prog c (mkConn c.(cn_poll) WGone c.(cn_ctx) c.(cn_stop) c.(cn_once) false)
| watch_stopped c : c.(cn_watch) = WWait → (0 < c.(cn_stop))%nat →
    step_prog c (mkConn c.(cn_poll) WGone c.(cn_ctx) c.(cn_stop) c.(cn_once) c.(cn_open)).

(** The timer of the poll, and the answers of the server. *)
Inductive step_world : imap_conn → imap_conn → Prop :=
| ctx_ends c : step_world c (mkConn c.(cn_poll) c.(cn_watch) true c.(cn_stop) c.(cn_once) c.(cn_open))
| server_answers c : c.(cn_poll) = PCommand → step_world c (cn_at PIdle c)
| server_logs_out c : c.(cn_poll) = PLogout → step_world c (cn_at PClose c).

Definition stepc (c c' : imap_conn) : Prop := step_prog c c' ∨ step_world c c'.

(** ** The invariant *)

(** [Close] is past the channel. *)
Definition past_stop (p : poll_pc) : bool :=
  match p with PLogout | PClose | PDone => true | _ => false end.

(** [Close] was not called yet. *)
Definition early (p : poll_pc) : bool := match p with PIdle | PCommand => true | _ => false end.

Record conn_inv (c : imap_conn) : Prop := {
  ci_stop : c.(cn_stop) = if c.(cn_once) then 1%nat else 0%nat;
  ci_closing : past_stop c.(cn_poll) = true → c.(cn_once) = true;
  ci_done : c.(cn_poll) = PDone → c.(cn_open) = false;
  ci_early : early c.(cn_poll) = true → c.(cn_once) = false;
  ci_watch : c.(cn_watch) = WGone → c.(cn_once) = true ∨ c.(cn_open) = false }.

Lemma stop_once_inv c : conn_inv c → conn_inv (cn_at PLogout (stop_once c)).
Proof.
  intros [H1 H2 H3 H5 H4]. unfold stop_once.
  destruct (cn_once c) eqn:Ho; split; cbn; rewrite ?Ho, ?H1; auto; discriminate.
Qed.

Lemma stepc_inv c c' : conn_inv c → stepc c c' → conn_inv c'.
Proof.
  intros Hi [Hs|Hs].
  - destruct Hs as [c Hp|c Hp|c Hp|c Hp|c Hp|c Hp|c Hp|c Hw Hc|c Hw|c Hw Hc];
      [..|by apply stop_once_inv| | | | | |]; destruct Hi as [H1 H2 H3 H5 H4]; try rewrite Hp in *;
      split; cbn in *; auto; try discriminate.
    intros _. left. rewrite H1 in Hc. destruct (cn_once c); [done|lia].
  - destruct Hs as [c|c Hp|c Hp]; destruct Hi as [H1 H2 H3 H5 H4]; try rewrite Hp in *;
      split; cbn in *; auto; discriminate.
Qed.

Lemma conn_inv_reachable c : rtc stepc dialled c → conn_inv c.
Proof.
  assert (conn_inv dialled) as Hi by done.
  induction 1; [done|]. eauto using stepc_inv.
Qed.

(** ** What holds of a connection *)

(** The connection's watcher and its closing, under every order of answers, timeouts
    and further calls of [Close].  The channel is closed at most once, so that nothing
    panics; a poll that has returned has closed the connection and released its watcher;
    and while a command waits for an answer, the end of the poll's context lets the
    program itself unblock it. *)
Theorem connection_closes c :
  rtc stepc dialled c →
  (c.(cn_stop) ≤ 1)%nat ∧
  (c.(cn_poll) = PDone → c.(cn_open) = false ∧
     (c.(cn_watch) = WGone ∨ ∃ c', step_prog c c' ∧ c'.(cn_watch) ≠ WWait ∧ c'.(cn_poll) = PDone)) ∧
  (c.(cn_poll) = PCommand → c.(cn_ctx) = true →
     ∃ c', rtc step_prog c c' ∧ c'.(cn_poll) = PIdle).
Proof.
  intros Hc. apply conn_inv_reachable in Hc as [H1 H2 H3 H5 H4]. split_and!.
  - rewrite H1. destruct (cn_once c); lia.
  - intros Hp. split; [by apply H3|]. rewrite Hp in H2. specialize (H2 eq_refl). rewrite H2 in H1.
    destruct (cn_watch c) eqn:Hw; [right|right|by left].
    + eexists. split; [apply watch_stopped; [done|lia]|done].
    + eexists. split; [by apply watch_closes|done].
  - intros Hp Hx. assert (cn_once c = false) as Ho by (apply H5; by rewrite Hp). destruct (cn_watch c) eqn:Hw.
    + eexists. split; [|shelve].
      eapply rtc_l; [by apply watch_cancelled|]. eapply rtc_l; [by apply watch_closes|].
      eapply rtc_l; [by apply poll_unblocked|]. reflexivity.
      Unshelve. done.
    + eexists. split; [|shelve].
      eapply rtc_l; [by apply watch_closes|]. eapply rtc_l; [by apply poll_unblocked|]. reflexivity.
      Unshelve. done.
    + eexists. split; [|shelve]. eapply rtc_l; [|reflexivity]. apply poll_unblocked; [done|].
      destruct (H4 eq_refl); congruence.
      Unshelve. done.
Qed.

(** ** A server that does not answer LOGOUT *)

Definition stalled_logout : imap_conn := mkConn PLogout WGone true 1 true true.

Lemma stalled_logout_reachable : rtc stepc dialled stalled_logout.
Proof.
  eapply rtc_l; [left; by apply poll_closes|]. eapply rtc_l; [left; by apply close_stops|].
  eapply rtc_l; [left; by apply watch_stopped; cbn; [|lia]|].
  eapply rtc_l; [right; by apply ctx_ends|]. reflexivity.
Qed.

(** C39: [Close] ends the watcher before it sends LOGOUT.  There is a run in which the
    poll's context has ended while LOGOUT is unanswered, and then nothing the program does
    gets the poll out of [Close]: it only ends when the server answers. *)
Theorem stalled_logout_blocks_poll :
  rtc stepc dialled stalled_logout ∧
  (∀ c, rtc step_prog stalled_logout c → c = stalled_logout).
Proof.
  split; [apply stalled_logout_reachable|].
  assert (∀ c, ¬ step_prog stalled_logout c) as Hstuck by (intros c; inversion 1; done).
  intros c Hc. inversion Hc as [|? c' ? Hs]; subst; [done|]. by destruct (Hstuck c').
Qed.

Lemma connection_closes_witness :
  ∃ c', rtc step_prog (mkConn PCommand WWait true 0 false true) c' ∧ c'.(cn_poll) = PIdle.
Proof.
  apply (connection_closes (mkConn PCommand WWait true 0 false true)); [|reflexivity..].
  eapply rtc_l; [left; by apply poll_sends|]. eapply rtc_l; [right; by apply ctx_ends|]. reflexivity.
Defined.
