(* ===== verification/Findings.v ===== *)
(** Concrete runs on which the code departs from what it says it does. *)
From Stdlib Require Import ZArith Ascii.
From stdpp Require Import base list strings gmap.
From S2P Require Import Prelude GoStrings GoValues Submission Checklist Reply Classifier ChecklistStore Tables World Repository OutboxRepo Persistence RepositoryProps Config Service Ingest Delivery Sweeps ServiceInv Tasks Interleave Demo IngestProps DeliveryProps SweepProps Translate Imap Poller PollerProps.

Open Scope Z_scope.

(** ** An ask dropped on release is not made again *)

(** A follow-up on the held case, with nothing new. *)
Definition follow_up : IngestRequest :=
  demo_request "<m2@broker>" "<m1@broker>" "Re: New cyber submission" "Any news?" [].

Definition follow_up_out : result IngestResult * World :=
  IngestEmail (L := demo_lib) (E := demo_env) demo_service follow_up released_world.
Definition follow_up_queued : bool :=
  match follow_up_out.1 with Ok r => r.(ir_ReplyQueued) | Err _ => true end.
Definition follow_up_missing : list string :=
  match follow_up_out.1 with Ok r => map mi_ID r.(ir_MissingItems) | Err _ => [] end.

(** The comment in [ReconcileHold] says that after a release the next inbound email
    queues a reply.  Here the first reply was queued, the case was held before it went
    out and then released, which drops it; the broker writes again with the same item
    missing, and no reply is queued, because the hash of the dropped one is still on the
    submission.  Nothing was ever sent. *)
Example released_ask_is_lost :
  follow_up_missing = ["loss_runs"] ∧ follow_up_queued = false ∧ w_sent follow_up_out.2 = [] ∧
  map or_status (db_outbox (w_db follow_up_out.2)) = [OutboxFailed].
Proof. vm_compute. split_and!; reflexivity. Qed.

(** ** A Latin-1 application makes the ingest panic *)

Definition latin1_line : string := String "233" " NAMED INSURED".
Definition latin1_mail : IngestRequest :=
  demo_request "<m9@broker>" "" "New cyber submission" "Hello"
    [demo_attachment "application.txt" latin1_line].

(** The same line as the content of a polled message, polled past the allowed failures. *)
Definition latin1_raw : rawMessage := mkRawMessage 7 latin1_line.
Definition latin1_polled : World :=
  process_times (L := demo_lib) (ML := demo_maillib) (E := demo_env) (Srv := demo_server) (Eml := demo_eml)
    (Ing := service_ingester (L := demo_lib) (E := demo_env) demo_service)
    demo_poller demo_mailbox latin1_raw 6 empty_world.

(** The label's position is found in the lower-cased line, where an invalid byte
    takes three; the slice of the original line is then out of range, and the ingest of
    the message panics.  The poller recovers but neither counts the failure nor marks the
    message read, so that it is not quarantined however often it fails. *)
Example latin1_application_panics :
  namedInsuredFromText (L := demo_lib) latin1_line = Err (ErrPanic "slice bounds out of range") ∧
  (IngestEmail (L := demo_lib) (E := demo_env) demo_service latin1_mail empty_world).1 =
    Err (ErrPanic "slice bounds out of range") ∧
  failure_count demo_mailbox latin1_raw latin1_polled = 0 ∧ ps_mail (w_poll latin1_polled) = [].
Proof. vm_compute. split_and!; reflexivity. Qed.

(** ** An ambiguous thread defeats deduplication *)

Definition mail_a := demo_request "<a@broker>" "" "New cyber submission" "First" [].
Definition mail_b := demo_request "<b@broker>" "" "Another cyber submission" "Second" [].
Definition mail_both : IngestRequest :=
  mkIngestRequest "<c@broker>" "<b@broker>" ["<a@broker>"; "<b@broker>"] "bo@broker.com" "Bo" ""
    ["in@agency.com"] "Re: both" "Third" 1000 [demo_attachment "loss.txt" "losses"] "imap" false [] false false.
Definition mail_d := demo_request "<d@broker>" "<a@broker>" "Re: first" "Fourth" [].

Definition ingest_demo (req : IngestRequest) (w : World) : World :=
  (IngestEmail (L := demo_lib) (E := demo_env) demo_service req w).2.

(** Two cases, one message naming both, then activity on the case it did not go to. *)
Definition ambiguous_world : World :=
  ingest_demo mail_d (ingest_demo mail_both (ingest_demo mail_b (ingest_demo mail_a empty_world))).
Definition redelivered : result IngestResult * World :=
  IngestEmail (L := demo_lib) (E := demo_env) demo_service mail_both ambiguous_world.

Definition redelivered_flags : option (bool * bool) :=
  match redelivered.1 with Ok r => Some (r.(ir_IsDuplicate), r.(ir_ReplyQueued)) | Err _ => None end.

(** A second delivery of one message is taken for a new one when its references lead to
    two cases and the one it is stored under was not the last to change: it is not
    reported as a duplicate, its attachment is filed a second time, under the other
    case, and a reply is queued there; the email itself stays under the first. *)
Example ambiguous_redelivery_is_reingested :
  redelivered_flags = Some (false, true) ∧
  map doc_SubmissionID (db_documents (w_db ambiguous_world)) = ["id-28"] ∧
  map doc_SubmissionID (db_documents (w_db redelivered.2)) = ["id-28"; "id-2"] ∧
  map em_SubmissionID (db_emails (w_db redelivered.2)) = map em_SubmissionID (db_emails (w_db ambiguous_world)).
Proof. vm_compute. split_and!; reflexivity. Qed.

(** ** A refused send revives a reply dropped meanwhile *)

(** The sweep has read the row and is sending; the poller holds and releases the case,
    which fails the row; the server then refuses the send. *)
Definition revived_world : World :=
  (settle_failure (E := demo_env) demo_service swept_entry (ErrNew "421 later") released_world).2.

(** [Outbox.Update] is not conditional on the row still being pending, as [MarkSent] is,
    so the dropped reply is pending again and will be sent by a later sweep. *)
Example refused_send_revives_dropped_reply :
  map or_status (db_outbox (w_db released_world)) = [OutboxFailed] ∧
  map or_status (db_outbox (w_db revived_world)) = [OutboxPending].
Proof. vm_compute. split; reflexivity. Qed.

(** ** A stale copy overwrites an answer *)

(** The broker's answer with the missing document, and a bounce of the request for it. *)
Definition loss_runs_mail : IngestRequest :=
  demo_request "<m2@broker>" "<m1@broker>" "Re: New cyber submission" "Attached."
    [demo_attachment "loss_runs.txt" "losses"].
Definition bounce_mail : IngestRequest :=
  mkIngestRequest "<b1@mx>" "<m1@broker>" [] "mailer-daemon@mx" "" "" ["in@agency.com"] "Undelivered"
    "550 no such user" 1000 [] "imap" true [] true true.

(** The escalation check has listed the quiet cases; a message is ingested from beginning
    to end. *)
Definition listed_then_ingested (req : IngestRequest) : list choice :=
  CStart EvPeriodicChecks :: replicate 2 (CTask 0) ++ CStart (EvIngest req) :: replicate 40 (CTask 1).
(** The check goes on with the copies it holds. *)
Definition then_escalated (req : IngestRequest) : list choice :=
  listed_then_ingested req ++ replicate 20 (CTask 0).

Definition played_late (cs : list choice) : system :=
  play (task_of (L := demo_lib) (E := late_env) demo_service) cs (mkSystem [] swept_world).

(** State, missing items, completion and bounce flag of every stored case. *)
Definition case_view (p : system) : list (State * list string * bool * bool) :=
  map (λ r, (r.(sr_data).(sub_State), map mi_ID (decodeMissingItems r.(sr_missing)),
             bool_decide (r.(sr_data).(sub_CompletedAt) = None), r.(sr_data).(sub_DeliveryFailed)))
    (db_submissions (w_db (sy_world p))).

(** The escalation check writes back the copies it listed.  When the answer that
    completes a case is ingested between the listing and the check's turn at that case,
    the stored case is complete with nothing missing, and afterwards escalated with the
    document it just received reported as missing and its completion forgotten.  A
    permanent bounce ingested there is forgotten in the same way, so that the dead
    address is written to again. *)
Example stale_escalation_loses_answer :
  case_view (played_late (listed_then_ingested loss_runs_mail)) = [(StateComplete, [], false, false)] ∧
  case_view (played_late (then_escalated loss_runs_mail)) = [(StateEscalated, ["loss_runs"], true, false)] ∧
  case_view (played_late (listed_then_ingested bounce_mail)) = [(StateAwaiting, ["loss_runs"], true, true)] ∧
  case_view (played_late (then_escalated bounce_mail)) = [(StateEscalated, ["loss_runs"], true, false)].
Proof. vm_compute. split_and!; reflexivity. Qed.
